(** * lz4mt: the LZ4 frame encoder and decoder of [src/lz4mt.cpp]

    A shallow embedding of the frame state machine of lz4mt: the byte
    codecs, the stream descriptor and its validation, the result latch of
    [Context], the wrapped I/O helpers, [lz4mtCompress] and
    [lz4mtDecompress], followed by the properties proved about them.

    Conventions.
    - C integers are [Z]; a [uint32_t] value is kept in [0, 2^32) by
      [u32], the places where the code converts are written out.
    - A [char] is its 8-bit representation, a [Byte.byte]; the integer
      promotion of a [char] depends on the signedness of [char] on the
      target, which is a parameter ([char_signed]).
    - Buffers are [list byte].
    - The caller's callbacks of [Lz4MtContext] are fields of the context
      record, as in the C struct; they act on an abstract stream state
      [world]. Every invocation of an I/O callback is appended to the
      ghost field [calls].
    - [assert(sd->streamSize)] of [lz4mtCompress] is executed unless
      [NDEBUG] is defined, and ends the run in [AssertFailed] when it
      fails. The other assertions (non-null pointers, the range of the
      block size index, the bound of the header array) are not
      executed; their conditions are stated as predicates where a
      property depends on them.
    - Parallel mode is a machine that a schedule drives, one move of a
      thread at a time. The access of a worker to [futures] that is not
      ordered with the producer's [emplace_back] ends the run in
      [DataRace]. *)

From Stdlib Require Import ZArith List Lia Bool String.
From Stdlib Require Import Init.Byte Strings.Byte.
Import ListNotations.
Local Open Scope Z_scope.

(** ** Bytes, chars and fixed-width integers *)

Definition uint8_of_byte (b : byte) : Z := Z.of_N (Byte.to_N b).

(** [static_cast<char>(z)] and [static_cast<uint8_t>(z)]: the low 8 bits. *)
Definition byte_of_Z (z : Z) : byte :=
  match Byte.of_N (Z.to_N (z mod 256)) with
  | Some b => b
  | None => x00
  end.

(** Integer promotion of a [char]. *)
Definition int_of_char (char_signed : bool) (c : byte) : Z :=
  let u := uint8_of_byte c in
  if char_signed && (128 <=? u) then u - 256 else u.

Definition u32 (z : Z) : Z := z mod 2 ^ 32.
Definition u64 (z : Z) : Z := z mod 2 ^ 64.

(** The first [n] bytes of a buffer ([n <= 0] gives none). *)
Fixpoint takeZ {A : Type} (n : Z) (l : list A) : list A :=
  match l with
  | [] => []
  | x :: l' => if 0 <? n then x :: takeZ (n - 1) l' else []
  end.

Fixpoint dropZ {A : Type} (n : Z) (l : list A) : list A :=
  match l with
  | [] => []
  | x :: l' => if 0 <? n then dropZ (n - 1) l' else l
  end.

Definition lengthZ {A : Type} (l : list A) : Z := Z.of_nat (List.length l).

(** Byte [i] of a destination that was zero before the callee stored
    [data] at its start. *)
Definition at0 (data : list byte) (i : nat) : byte := nth i data x00.

(** ** Constants *)

Definition LZ4S_MAGICNUMBER : Z := 0x184D2204.
Definition LZ4S_MAGICNUMBER_SKIPPABLE_MIN : Z := 0x184D2A50.
Definition LZ4S_MAGICNUMBER_SKIPPABLE_MAX : Z := 0x184D2A5F.
Definition LZ4S_BLOCKSIZEID_DEFAULT : Z := 7.
Definition LZ4S_CHECKSUM_SEED : Z := 0.
Definition LZ4S_EOS : Z := 0.
Definition LZ4S_MAX_HEADER_SIZE : Z := 4 + 2 + 8 + 4 + 1.

(** Modelled from the spec: the mode bits of [lz4mt.h], which is not part
    of the sources at hand ("SEQUENTIAL = 1", bit 0 of the mode). *)
Definition LZ4MT_MODE_PARALLEL : Z := 0.
Definition LZ4MT_MODE_SEQUENTIAL : Z := 1.

(** ** Results *)

(** The enumerators of [Lz4MtResult] that [lz4mt.cpp] uses. *)
Inductive Lz4MtResult : Set :=
| LZ4MT_RESULT_OK
| LZ4MT_RESULT_ERROR
| LZ4MT_RESULT_INVALID_MAGIC_NUMBER
| LZ4MT_RESULT_INVALID_HEADER
| LZ4MT_RESULT_PRESET_DICTIONARY_IS_NOT_SUPPORTED_YET
| LZ4MT_RESULT_BLOCK_DEPENDENCE_IS_NOT_SUPPORTED_YET
| LZ4MT_RESULT_INVALID_VERSION
| LZ4MT_RESULT_INVALID_HEADER_CHECKSUM
| LZ4MT_RESULT_INVALID_BLOCK_MAXIMUM_SIZE
| LZ4MT_RESULT_CANNOT_WRITE_HEADER
| LZ4MT_RESULT_CANNOT_WRITE_EOS
| LZ4MT_RESULT_CANNOT_WRITE_STREAM_CHECKSUM
| LZ4MT_RESULT_CANNOT_READ_BLOCK_SIZE
| LZ4MT_RESULT_CANNOT_READ_BLOCK_DATA
| LZ4MT_RESULT_CANNOT_READ_BLOCK_CHECKSUM
| LZ4MT_RESULT_CANNOT_READ_STREAM_CHECKSUM
| LZ4MT_RESULT_STREAM_CHECKSUM_MISMATCH
| LZ4MT_RESULT_BLOCK_CHECKSUM_MISMATCH
| LZ4MT_RESULT_DECOMPRESS_FAIL.

Definition Lz4MtResult_eqb (a b : Lz4MtResult) : bool :=
  match a, b with
  | LZ4MT_RESULT_OK, LZ4MT_RESULT_OK
  | LZ4MT_RESULT_ERROR, LZ4MT_RESULT_ERROR
  | LZ4MT_RESULT_INVALID_MAGIC_NUMBER, LZ4MT_RESULT_INVALID_MAGIC_NUMBER
  | LZ4MT_RESULT_INVALID_HEADER, LZ4MT_RESULT_INVALID_HEADER
  | LZ4MT_RESULT_PRESET_DICTIONARY_IS_NOT_SUPPORTED_YET,
    LZ4MT_RESULT_PRESET_DICTIONARY_IS_NOT_SUPPORTED_YET
  | LZ4MT_RESULT_BLOCK_DEPENDENCE_IS_NOT_SUPPORTED_YET,
    LZ4MT_RESULT_BLOCK_DEPENDENCE_IS_NOT_SUPPORTED_YET
  | LZ4MT_RESULT_INVALID_VERSION, LZ4MT_RESULT_INVALID_VERSION
  | LZ4MT_RESULT_INVALID_HEADER_CHECKSUM, LZ4MT_RESULT_INVALID_HEADER_CHECKSUM
  | LZ4MT_RESULT_INVALID_BLOCK_MAXIMUM_SIZE,
    LZ4MT_RESULT_INVALID_BLOCK_MAXIMUM_SIZE
  | LZ4MT_RESULT_CANNOT_WRITE_HEADER, LZ4MT_RESULT_CANNOT_WRITE_HEADER
  | LZ4MT_RESULT_CANNOT_WRITE_EOS, LZ4MT_RESULT_CANNOT_WRITE_EOS
  | LZ4MT_RESULT_CANNOT_WRITE_STREAM_CHECKSUM,
    LZ4MT_RESULT_CANNOT_WRITE_STREAM_CHECKSUM
  | LZ4MT_RESULT_CANNOT_READ_BLOCK_SIZE, LZ4MT_RESULT_CANNOT_READ_BLOCK_SIZE
  | LZ4MT_RESULT_CANNOT_READ_BLOCK_DATA, LZ4MT_RESULT_CANNOT_READ_BLOCK_DATA
  | LZ4MT_RESULT_CANNOT_READ_BLOCK_CHECKSUM,
    LZ4MT_RESULT_CANNOT_READ_BLOCK_CHECKSUM
  | LZ4MT_RESULT_CANNOT_READ_STREAM_CHECKSUM,
    LZ4MT_RESULT_CANNOT_READ_STREAM_CHECKSUM
  | LZ4MT_RESULT_STREAM_CHECKSUM_MISMATCH,
    LZ4MT_RESULT_STREAM_CHECKSUM_MISMATCH
  | LZ4MT_RESULT_BLOCK_CHECKSUM_MISMATCH, LZ4MT_RESULT_BLOCK_CHECKSUM_MISMATCH
  | LZ4MT_RESULT_DECOMPRESS_FAIL, LZ4MT_RESULT_DECOMPRESS_FAIL => true
  | _, _ => false
  end.

(** The enumerator's name without its [LZ4MT_RESULT_] prefix. *)
Definition Lz4MtResult_name (r : Lz4MtResult) : string :=
  match r with
  | LZ4MT_RESULT_OK => "OK"
  | LZ4MT_RESULT_ERROR => "ERROR"
  | LZ4MT_RESULT_INVALID_MAGIC_NUMBER => "INVALID_MAGIC_NUMBER"
  | LZ4MT_RESULT_INVALID_HEADER => "INVALID_HEADER"
  | LZ4MT_RESULT_PRESET_DICTIONARY_IS_NOT_SUPPORTED_YET =>
      "PRESET_DICTIONARY_IS_NOT_SUPPORTED_YET"
  | LZ4MT_RESULT_BLOCK_DEPENDENCE_IS_NOT_SUPPORTED_YET =>
      "BLOCK_DEPENDENCE_IS_NOT_SUPPORTED_YET"
  | LZ4MT_RESULT_INVALID_VERSION => "INVALID_VERSION"
  | LZ4MT_RESULT_INVALID_HEADER_CHECKSUM => "INVALID_HEADER_CHECKSUM"
  | LZ4MT_RESULT_INVALID_BLOCK_MAXIMUM_SIZE => "INVALID_BLOCK_MAXIMUM_SIZE"
  | LZ4MT_RESULT_CANNOT_WRITE_HEADER => "CANNOT_WRITE_HEADER"
  | LZ4MT_RESULT_CANNOT_WRITE_EOS => "CANNOT_WRITE_EOS"
  | LZ4MT_RESULT_CANNOT_WRITE_STREAM_CHECKSUM => "CANNOT_WRITE_STREAM_CHECKSUM"
  | LZ4MT_RESULT_CANNOT_READ_BLOCK_SIZE => "CANNOT_READ_BLOCK_SIZE"
  | LZ4MT_RESULT_CANNOT_READ_BLOCK_DATA => "CANNOT_READ_BLOCK_DATA"
  | LZ4MT_RESULT_CANNOT_READ_BLOCK_CHECKSUM => "CANNOT_READ_BLOCK_CHECKSUM"
  | LZ4MT_RESULT_CANNOT_READ_STREAM_CHECKSUM => "CANNOT_READ_STREAM_CHECKSUM"
  | LZ4MT_RESULT_STREAM_CHECKSUM_MISMATCH => "STREAM_CHECKSUM_MISMATCH"
  | LZ4MT_RESULT_BLOCK_CHECKSUM_MISMATCH => "BLOCK_CHECKSUM_MISMATCH"
  | LZ4MT_RESULT_DECOMPRESS_FAIL => "DECOMPRESS_FAIL"
  end%string.

(** [lz4mtResultToString]: the [switch] of the source, case by case, with
    its [default]. *)
Definition lz4mtResultToString (result : Lz4MtResult) : string :=
  match result with
  | LZ4MT_RESULT_OK => "OK"
  | LZ4MT_RESULT_ERROR => "ERROR"
  | LZ4MT_RESULT_INVALID_MAGIC_NUMBER => "INVALID_MAGIC_NUMBER"
  | LZ4MT_RESULT_INVALID_HEADER => "INVALID_HEADER"
  | LZ4MT_RESULT_PRESET_DICTIONARY_IS_NOT_SUPPORTED_YET =>
      "PRESET_DICTIONARY_IS_NOT_SUPPORTED_YET"
  | LZ4MT_RESULT_BLOCK_DEPENDENCE_IS_NOT_SUPPORTED_YET =>
      "BLOCK_DEPENDENCE_IS_NOT_SUPPORTED_YET"
  | LZ4MT_RESULT_INVALID_VERSION => "INVALID_VERSION"
  | LZ4MT_RESULT_INVALID_HEADER_CHECKSUM => "INVALID_HEADER_CHECKSUM"
  | LZ4MT_RESULT_INVALID_BLOCK_MAXIMUM_SIZE => "INVALID_BLOCK_MAXIMUM_SIZE"
  | LZ4MT_RESULT_CANNOT_WRITE_HEADER => "CANNOT_WRITE_HEADER"
  | LZ4MT_RESULT_CANNOT_WRITE_EOS => "CANNOT_WRITE_EOS"
  | LZ4MT_RESULT_CANNOT_WRITE_STREAM_CHECKSUM => "CANNOT_WRITE_STREAM_CHECKSUM"
  | LZ4MT_RESULT_CANNOT_READ_BLOCK_SIZE => "CANNOT_READ_BLOCK_SIZE"
  | LZ4MT_RESULT_CANNOT_READ_BLOCK_DATA => "CANNOT_READ_BLOCK_DATA"
  | LZ4MT_RESULT_CANNOT_READ_BLOCK_CHECKSUM => "CANNOT_READ_BLOCK_CHECKSUM"
  | LZ4MT_RESULT_CANNOT_READ_STREAM_CHECKSUM => "CANNOT_READ_STREAM_CHECKSUM"
  | LZ4MT_RESULT_STREAM_CHECKSUM_MISMATCH => "STREAM_CHECKSUM_MISMATCH"
  | LZ4MT_RESULT_DECOMPRESS_FAIL => "DECOMPRESS_FAIL"
  | _ => "Unknown code"
  end%string.

(** ** Stream descriptor *)

(** The fields are C integers; [lz4mt.h] is not part of the sources at
    hand, the declared widths of the fields (spec, data model) are the
    predicates [flg_in_width] and [bd_in_width]. *)
Record Lz4MtFlg : Set := mkFlg {
  presetDictionary : Z;
  reserved1 : Z;
  streamChecksum : Z;
  streamSize : Z;
  blockChecksum : Z;
  blockIndependence : Z;
  versionNumber : Z
}.

Record Lz4MtBd : Set := mkBd {
  reserved3 : Z;
  blockMaximumSize : Z;
  reserved2 : Z
}.

Record Lz4MtStreamDescriptor : Set := mkSd {
  flg : Lz4MtFlg;
  bd : Lz4MtBd;
  sd_streamSize : Z;
  dictId : Z
}.

Definition bit_width (w x : Z) : Prop := 0 <= x < 2 ^ w.

Definition flg_in_width (f : Lz4MtFlg) : Prop :=
  bit_width 1 (presetDictionary f) /\ bit_width 1 (reserved1 f) /\
  bit_width 1 (streamChecksum f) /\ bit_width 1 (streamSize f) /\
  bit_width 1 (blockChecksum f) /\ bit_width 1 (blockIndependence f) /\
  bit_width 2 (versionNumber f).

Definition bd_in_width (b : Lz4MtBd) : Prop :=
  bit_width 4 (reserved3 b) /\ bit_width 3 (blockMaximumSize b) /\
  bit_width 1 (reserved2 b).

Definition getBlockSize (bdBlockMaximumSize : Z) : Z :=
  Z.shiftl 1 (8 + 2 * bdBlockMaximumSize).

Definition getCheckBits_FromXXH (xxh : Z) : Z :=
  Z.land (Z.shiftr xxh 8) 0xff.

Definition isSkippableMagicNumber (magic : Z) : bool :=
  (LZ4S_MAGICNUMBER_SKIPPABLE_MIN <=? magic) &&
  (magic <=? LZ4S_MAGICNUMBER_SKIPPABLE_MAX).

Definition flgToChar (flg : Lz4MtFlg) : byte :=
  byte_of_Z
    (Z.lor (Z.lor (Z.lor (Z.lor (Z.lor (Z.lor
       (Z.shiftl (Z.land (presetDictionary flg) 1) 0)
       (Z.shiftl (Z.land (reserved1 flg) 1) 1))
       (Z.shiftl (Z.land (streamChecksum flg) 1) 2))
       (Z.shiftl (Z.land (streamSize flg) 1) 3))
       (Z.shiftl (Z.land (blockChecksum flg) 1) 4))
       (Z.shiftl (Z.land (blockIndependence flg) 1) 5))
       (Z.shiftl (Z.land (versionNumber flg) 3) 6)).

Definition charToFlg (char_signed : bool) (c : byte) : Lz4MtFlg :=
  let c := int_of_char char_signed c in
  {| presetDictionary := Z.land (Z.shiftr c 0) 1;
     reserved1 := Z.land (Z.shiftr c 1) 1;
     streamChecksum := Z.land (Z.shiftr c 2) 1;
     streamSize := Z.land (Z.shiftr c 3) 1;
     blockChecksum := Z.land (Z.shiftr c 4) 1;
     blockIndependence := Z.land (Z.shiftr c 5) 1;
     versionNumber := Z.land (Z.shiftr c 6) 3 |}.

Definition bdToChar (bd : Lz4MtBd) : byte :=
  byte_of_Z
    (Z.lor (Z.lor
       (Z.shiftl (Z.land (reserved3 bd) 15) 0)
       (Z.shiftl (Z.land (blockMaximumSize bd) 7) 4))
       (Z.shiftl (Z.land (reserved2 bd) 1) 7)).

Definition charToBc (char_signed : bool) (c : byte) : Lz4MtBd :=
  let c := int_of_char char_signed c in
  {| reserved3 := Z.land (Z.shiftr c 0) 15;
     blockMaximumSize := Z.land (Z.shiftr c 4) 7;
     reserved2 := Z.land (Z.shiftr c 7) 1 |}.

(** Little-endian stores and loads; [storeU32] returns the four bytes it
    puts at [p], [loadU32] reads the first four bytes of [q]. *)
Definition storeU32 (v : Z) : list byte :=
  [byte_of_Z (Z.shiftr v (8 * 0)); byte_of_Z (Z.shiftr v (8 * 1));
   byte_of_Z (Z.shiftr v (8 * 2)); byte_of_Z (Z.shiftr v (8 * 3))].

Definition storeU64 (v : Z) : list byte :=
  storeU32 (u32 (Z.shiftr v (8 * 0))) ++ storeU32 (u32 (Z.shiftr v (8 * 4))).

Definition loadU32 (q : list byte) : Z :=
  Z.lor (Z.lor (Z.lor
    (Z.shiftl (uint8_of_byte (at0 q 0)) (8 * 0))
    (Z.shiftl (uint8_of_byte (at0 q 1)) (8 * 1)))
    (Z.shiftl (uint8_of_byte (at0 q 2)) (8 * 2)))
    (Z.shiftl (uint8_of_byte (at0 q 3)) (8 * 3)).

Definition loadU64 (q : list byte) : Z :=
  Z.lor (Z.shiftl (loadU32 q) (8 * 0))
        (Z.shiftl (loadU32 (skipn 4 q)) (8 * 4)).

Definition validateStreamDescriptor (sd : Lz4MtStreamDescriptor)
  : Lz4MtResult :=
  if negb (1 =? versionNumber (flg sd)) then LZ4MT_RESULT_INVALID_VERSION
  else if negb (0 =? presetDictionary (flg sd)) then
    LZ4MT_RESULT_PRESET_DICTIONARY_IS_NOT_SUPPORTED_YET
  else if negb (0 =? reserved1 (flg sd)) then LZ4MT_RESULT_INVALID_HEADER
  else if 0 =? blockIndependence (flg sd) then
    LZ4MT_RESULT_BLOCK_DEPENDENCE_IS_NOT_SUPPORTED_YET
  else if (blockMaximumSize (bd sd) <? 4) || (7 <? blockMaximumSize (bd sd))
  then LZ4MT_RESULT_INVALID_BLOCK_MAXIMUM_SIZE
  else if negb (0 =? reserved3 (bd sd)) then LZ4MT_RESULT_INVALID_HEADER
  else if negb (0 =? reserved2 (bd sd)) then LZ4MT_RESULT_INVALID_HEADER
  else LZ4MT_RESULT_OK.

(** ** External collaborators and the target *)

(** What the translation unit takes from outside: the signedness of
    [char], whether [assert] is compiled out ([NDEBUG]), and the one-shot
    xxHash32 primitive behind [Lz4Mt::Xxh32] (data, then seed). *)
Record Externals : Type := mkExternals {
  char_signed : bool;
  NDEBUG : bool;
  XXH32 : list byte -> Z -> Z
}.

(** Modelled from the spec: the class [Lz4Mt::Xxh32] of [lz4mt_xxh32.h],
    which is not part of the sources at hand. The one-shot constructor
    digests [size] bytes; the incremental digester digests the
    concatenation of the updates it was fed, in order. The digest is a
    [uint32_t]. *)
Module Xxh32.
Record t : Set := mk { seed : Z; fed : list byte }.
Definition init (seed : Z) : t := {| seed := seed; fed := [] |}.
Definition oneshot (input : list byte) (size : Z) (seed : Z) : t :=
  {| seed := seed; fed := takeZ size input |}.
Definition update (x : t) (input : list byte) (size : Z) : t :=
  {| seed := seed x; fed := fed x ++ takeZ size input |}.
Definition digest (E : Externals) (x : t) : Z :=
  u32 (XXH32 E (fed x) (seed x)).
End Xxh32.

(** The outcome of running a function of the model: a value, a failed
    [assert], a loop that was cut off by the step budget, or a data race.

    [DataRace]: in parallel mode the worker of block [i > 0] evaluates
    [futures[i-1]] (lines 443, 632 and 662) while the producer inserts
    the future of that very worker with [futures.emplace_back] (lines 483
    and 726): the thread is started by [std::async] before its future is
    inserted, the vector is never reserved and nothing orders the two
    accesses. When the insertion reallocates the vector they conflict,
    and the behaviour of the program is undefined. The capacity of the
    vector is the implementation's, so the model takes every such access
    as the race: a run has a value only when no worker with [i > 0] got
    as far as [futures[i-1].wait()]. *)
Inductive Run (A : Type) : Type :=
| Done (a : A)
| AssertFailed
| OutOfFuel
| DataRace.
Arguments Done {A} a.
Arguments AssertFailed {A}.
Arguments OutOfFuel {A}.
Arguments DataRace {A}.

(** A loop that is bounded by a step budget only. *)
Definition run_of_option {A : Type} (o : option A) : Run A :=
  match o with
  | Some a => Done a
  | None => OutOfFuel
  end.

(** What follows a part of a function that may end without a value. *)
Definition run_bind {A B : Type} (r : Run A) (k : A -> Run B) : Run B :=
  match r with
  | Done a => k a
  | AssertFailed => AssertFailed
  | OutOfFuel => OutOfFuel
  | DataRace => DataRace
  end.

(** ** The context *)

(** One entry per invocation of a callback of [Lz4MtContext]. *)
Inductive Call : Set :=
| CallRead (dstSize : Z)
| CallReadEof
| CallReadSeek (offset : Z)
| CallReadSkippable (magicNumber size : Z)
| CallWrite (src : list byte)
| CallCompress (src : list byte) (isize maxOutputSize : Z)
| CallDecompress (src : list byte) (isize maxOutputSize : Z).

(** [Lz4MtContext]: the result slot, the callbacks and the mode. [world]
    stands for [readCtx], [writeCtx] and the streams behind them; a
    callback returns its C result, the bytes it stored at its destination,
    and the new stream state. [calls] is ghost state. *)
Record Lz4MtContext (W : Type) : Type := mkContext {
  result : Lz4MtResult;
  world : W;
  read : W -> Z -> Z * list byte * W;
  readEof : W -> Z * W;
  readSkippable : W -> Z -> Z -> Z * W;
  readSeek : W -> Z -> Z * W;
  write : W -> list byte -> Z * W;
  compress : list byte -> Z -> Z -> Z * list byte;
  decompress : list byte -> Z -> Z -> Z * list byte;
  mode : Z;
  calls : list Call
}.
Arguments mkContext {W}.
Arguments result {W}.
Arguments world {W}.
Arguments read {W}.
Arguments readEof {W}.
Arguments readSkippable {W}.
Arguments readSeek {W}.
Arguments write {W}.
Arguments compress {W}.
Arguments decompress {W}.
Arguments mode {W}.
Arguments calls {W}.

Definition with_result {W} (r : Lz4MtResult) (c : Lz4MtContext W)
  : Lz4MtContext W :=
  mkContext r (world c) (read c) (readEof c) (readSkippable c) (readSeek c)
            (write c) (compress c) (decompress c) (mode c) (calls c).

(** The state after a callback ran: the new stream state, one more call. *)
Definition called {W} (e : Call) (w : W) (c : Lz4MtContext W)
  : Lz4MtContext W :=
  mkContext (result c) w (read c) (readEof c) (readSkippable c) (readSeek c)
            (write c) (compress c) (decompress c) (mode c) (calls c ++ [e]).

(** A call through a function pointer of the context, as in
    [ctx->read(ctx, d, sizeof(d))]. *)
Section Invoke.
Context {W : Type}.

Definition invoke_read (c : Lz4MtContext W) (dstSize : Z)
  : Z * list byte * Lz4MtContext W :=
  let '(n, d, w) := read c (world c) dstSize in
  (n, d, called (CallRead dstSize) w c).

Definition invoke_readSeek (c : Lz4MtContext W) (offset : Z)
  : Z * Lz4MtContext W :=
  let '(n, w) := readSeek c (world c) offset in
  (n, called (CallReadSeek offset) w c).

Definition invoke_readEof (c : Lz4MtContext W) : Z * Lz4MtContext W :=
  let '(n, w) := readEof c (world c) in
  (n, called CallReadEof w c).

Definition invoke_readSkippable (c : Lz4MtContext W) (magicNumber size : Z)
  : Z * Lz4MtContext W :=
  let '(n, w) := readSkippable c (world c) magicNumber size in
  (n, called (CallReadSkippable magicNumber size) w c).

(** [src] holds the [srcSize] bytes handed to the callback. *)
Definition invoke_write (c : Lz4MtContext W) (src : list byte)
  : Z * Lz4MtContext W :=
  let '(n, w) := write c (world c) src in
  (n, called (CallWrite src) w c).

Definition invoke_compress (c : Lz4MtContext W) (src : list byte)
           (isize maxOutputSize : Z) : Z * list byte * Lz4MtContext W :=
  let '(n, d) := compress c src isize maxOutputSize in
  (n, d, called (CallCompress src isize maxOutputSize) (world c) c).

Definition invoke_decompress (c : Lz4MtContext W) (src : list byte)
           (isize maxOutputSize : Z) : Z * list byte * Lz4MtContext W :=
  let '(n, d) := decompress c src isize maxOutputSize in
  (n, d, called (CallDecompress src isize maxOutputSize) (world c) c).
End Invoke.

(** The class [Context]: every method takes the context and returns its
    C++ result with the context after the call. *)
Module Context.
Section Methods.
Context {W : Type}.

Definition error (c : Lz4MtContext W) : bool :=
  negb (Lz4MtResult_eqb LZ4MT_RESULT_OK (result c)).

Definition setResult (r : Lz4MtResult) (c : Lz4MtContext W)
  : Lz4MtResult * Lz4MtContext W :=
  if Lz4MtResult_eqb LZ4MT_RESULT_OK (result c)
     || Lz4MtResult_eqb LZ4MT_RESULT_ERROR (result c)
  then (r, with_result r c)
  else (result c, c).

Definition readU32 (c : Lz4MtContext W) : Z * Lz4MtContext W :=
  if error c then (0, c)
  else
    let '(n, d, c1) := invoke_read c 4 in
    if negb (4 =? n) then (0, snd (setResult LZ4MT_RESULT_ERROR c1))
    else (loadU32 d, c1).

Definition writeU32 (v : Z) (c : Lz4MtContext W)
  : bool * Lz4MtContext W :=
  if error c then (false, c)
  else
    let '(n, c1) := invoke_write c (storeU32 v) in
    if negb (4 =? n) then (false, snd (setResult LZ4MT_RESULT_ERROR c1))
    else (true, c1).

Definition writeBin (ptr : list byte) (size : Z) (c : Lz4MtContext W)
  : bool * Lz4MtContext W :=
  if error c then (false, c)
  else
    let '(n, c1) := invoke_write c (takeZ size ptr) in
    if negb (size =? n) then (false, snd (setResult LZ4MT_RESULT_ERROR c1))
    else (true, c1).

Definition mode (c : Lz4MtContext W) : Z := mode c.
Definition read := @invoke_read W.
Definition readSeek := @invoke_readSeek W.
Definition readEof := @invoke_readEof W.
Definition readSkippable := @invoke_readSkippable W.
Definition write := @invoke_write W.
Definition compress := @invoke_compress W.
Definition decompress := @invoke_decompress W.
End Methods.
End Context.

(** ** lz4mtCompress *)

(** Conversion of a value to [int] (32 bits, two's complement). *)
Definition int32 (z : Z) : Z := (z + 2 ^ 31) mod 2 ^ 32 - 2 ^ 31.

(** [1 << (nBlockSize * 8 - 1)] with [nBlockSize = 4], an [int]. *)
Definition cIncompressible : Z := int32 (Z.shiftl 1 (4 * 8 - 1)).

(** The descriptor bytes between [sumBegin] and [p] before the checksum
    byte is stored. *)
Definition header_sum (sd : Lz4MtStreamDescriptor) : list byte :=
  [flgToChar (flg sd); bdToChar (bd sd)]
  ++ (if negb (0 =? streamSize (flg sd)) then storeU64 (sd_streamSize sd)
      else [])
  ++ (if negb (0 =? presetDictionary (flg sd)) then storeU32 (dictId sd)
      else []).

(** A block task of [lz4mtCompress] between its dispatch and the end of
    the worker lambda [f]. [CTaskAtGate] is the worker of block [0] when
    it has its compressed block: [if(i > 0)] spares it the wait.
    [CTaskRaced] is a worker with [i > 0] that has its compressed block
    and evaluates [futures[i-1].wait()]: the access races with the
    producer's [emplace_back], and the model does not follow the worker
    any further. *)
Inductive CompressTask : Set :=
| CTaskDispatched (src : list byte) (srcSize : Z)
| CTaskAtGate (src : list byte) (srcSize : Z) (cmpSize : Z)
              (cmpPtr : list byte)
| CTaskRaced
| CTaskDone.

Definition ctask_done (t : CompressTask) : bool :=
  match t with CTaskDone => true | _ => false end.

Definition ctask_raced (t : CompressTask) : bool :=
  match t with CTaskRaced => true | _ => false end.

Definition ctask_waiting (t : CompressTask) : bool :=
  match t with CTaskDispatched _ _ => true | _ => false end.

Section Compress.
Context {W : Type}.
Variable E : Externals.

(** The worker lambda [f] up to the order gate: the entry check and the
    call of the block compressor. [None]: the worker returned at the
    entry check. *)
Definition compress_f_before_gate (c : Lz4MtContext W) (src : list byte)
           (srcSize : Z) : option (Z * list byte) * Lz4MtContext W :=
  if Context.error c then (None, c)
  else
    let '(cmpSize, cmpPtr, c1) :=
      Context.compress c (takeZ srcSize src) srcSize srcSize in
    (Some (cmpSize, cmpPtr), c1).

(** The worker lambda [f] after the order gate. *)
Definition compress_f_after_gate (nBlockCheckSum : Z)
           (streamChecksum : bool) (src : list byte) (srcSize : Z)
           (cmpSize : Z) (cmpPtr : list byte)
           (c : Lz4MtContext W) (xxhStream : Xxh32.t)
  : Lz4MtContext W * Xxh32.t :=
  let incompressible := cmpSize <=? 0 in
  let cPtr := if incompressible then src else cmpPtr in
  let cSize := if incompressible then srcSize else cmpSize in
  let futureBlockHash :=
    if negb (0 =? nBlockCheckSum)
    then Some (Xxh32.digest E (Xxh32.oneshot cPtr cSize LZ4S_CHECKSUM_SEED))
    else None in
  let xxhStream' :=
    if streamChecksum then Xxh32.update xxhStream src srcSize
    else xxhStream in
  let c2 :=
    if incompressible then
      let c1 := snd (Context.writeU32 (u32 (Z.lor cSize cIncompressible)) c) in
      snd (Context.writeBin src srcSize c1)
    else
      let c1 := snd (Context.writeU32 (u32 cSize) c) in
      snd (Context.writeBin cmpPtr cmpSize c1) in
  let c3 :=
    match futureBlockHash with
    | Some h => snd (Context.writeU32 h c2)
    | None => c2
    end in
  (c3, xxhStream').

(** [f(0, src, srcSize)] run inline, as in sequential mode. *)
Definition compress_f (nBlockCheckSum : Z) (streamChecksum : bool)
           (src : list byte) (srcSize : Z)
           (c : Lz4MtContext W) (xxhStream : Xxh32.t)
  : Lz4MtContext W * Xxh32.t :=
  match compress_f_before_gate c src srcSize with
  | (None, c1) => (c1, xxhStream)
  | (Some (cmpSize, cmpPtr), c1) =>
      compress_f_after_gate nBlockCheckSum streamChecksum src srcSize
                            cmpSize cmpPtr c1 xxhStream
  end.

(** The block loop in sequential mode; [None] when the loop has not
    ended after [fuel] iterations. *)
Fixpoint compress_blocks_sequential (fuel : nat)
         (nBlockMaximumSize nBlockCheckSum : Z) (streamChecksum : bool)
         (c : Lz4MtContext W) (xxhStream : Xxh32.t)
  : option (Lz4MtContext W * Xxh32.t) :=
  match fuel with
  | O => None
  | S fuel' =>
      let '(readSize, src, c1) := Context.read c nBlockMaximumSize in
      if 0 =? readSize then Some (c1, xxhStream)
      else
        let '(c2, xxh2) :=
          compress_f nBlockCheckSum streamChecksum src readSize c1
                     xxhStream in
        compress_blocks_sequential fuel' nBlockMaximumSize nBlockCheckSum
                                   streamChecksum c2 xxh2
  end.

(** Parallel mode. The producer and the workers are the threads of a
    machine; a schedule names the thread that moves next: [0] is the
    producer, [S i] the worker of block [i]. A thread that cannot move
    (a worker not yet dispatched, a finished one, one that ran into the
    data race) stays where it is. A move of the producer is one
    iteration of the [for] loop; a worker moves twice: from its entry to
    [if(i > 0) futures[i-1].wait()], and from there to its end. Only the
    worker of block [0] makes the second move: for [i > 0] the wait is
    the racing access to [futures]. *)
Record CompressPar : Type := mkCompressPar {
  cp_ctx : Lz4MtContext W;
  cp_xxhStream : Xxh32.t;
  cp_futures : list CompressTask;
  cp_reading : bool
}.

Definition set_task {T : Type} (i : nat) (t : T) (l : list T) : list T :=
  firstn i l ++ match skipn i l with [] => [] | _ :: r => t :: r end.

Definition compress_par_step (nBlockMaximumSize nBlockCheckSum : Z)
           (streamChecksum : bool) (tid : nat) (s : CompressPar)
  : CompressPar :=
  match tid with
  | O =>
      if cp_reading s then
        let '(readSize, src, c1) :=
          Context.read (cp_ctx s) nBlockMaximumSize in
        if 0 =? readSize
        then mkCompressPar c1 (cp_xxhStream s) (cp_futures s) false
        else mkCompressPar c1 (cp_xxhStream s)
               (cp_futures s ++ [CTaskDispatched src readSize]) true
      else s
  | S i =>
      match nth_error (cp_futures s) i with
      | Some (CTaskDispatched src srcSize) =>
          match compress_f_before_gate (cp_ctx s) src srcSize with
          | (None, c1) =>
              mkCompressPar c1 (cp_xxhStream s)
                            (set_task i CTaskDone (cp_futures s))
                            (cp_reading s)
          | (Some (cmpSize, cmpPtr), c1) =>
              mkCompressPar c1 (cp_xxhStream s)
                (set_task i
                   (match i with
                    | O => CTaskAtGate src srcSize cmpSize cmpPtr
                    | S _ => CTaskRaced
                    end)
                   (cp_futures s))
                (cp_reading s)
          end
      | Some (CTaskAtGate src srcSize cmpSize cmpPtr) =>
          let '(c1, xxh1) :=
            compress_f_after_gate nBlockCheckSum streamChecksum src
              srcSize cmpSize cmpPtr (cp_ctx s) (cp_xxhStream s) in
          mkCompressPar c1 xxh1 (set_task i CTaskDone (cp_futures s))
                        (cp_reading s)
      | _ => s
      end
  end.

(** The block loop and the drain in parallel mode under a schedule:
    [DataRace] when a worker ran into the race, [OutOfFuel] when the
    schedule ends before every future is ready. *)
Definition compress_blocks_parallel (sched : list nat)
           (nBlockMaximumSize nBlockCheckSum : Z) (streamChecksum : bool)
           (c : Lz4MtContext W) (xxhStream : Xxh32.t)
  : Run (Lz4MtContext W * Xxh32.t) :=
  let s :=
    fold_left
      (fun s tid =>
         compress_par_step nBlockMaximumSize nBlockCheckSum streamChecksum
                           tid s)
      sched (mkCompressPar c xxhStream [] true) in
  if existsb ctask_raced (cp_futures s) then DataRace
  else if negb (cp_reading s) && forallb ctask_done (cp_futures s)
  then Done (cp_ctx s, cp_xxhStream s)
  else OutOfFuel.

(** The tail: the end-of-stream mark and the stream checksum. *)
Definition compress_tail (streamChecksum : bool) (c : Lz4MtContext W)
           (xxhStream : Xxh32.t) : Lz4MtResult * Lz4MtContext W :=
  let '(ok, c1) := Context.writeU32 LZ4S_EOS c in
  if negb ok then (LZ4MT_RESULT_CANNOT_WRITE_EOS, c1)
  else if streamChecksum then
    let digest := Xxh32.digest E xxhStream in
    let '(ok2, c2) := Context.writeU32 digest c1 in
    if negb ok2 then (LZ4MT_RESULT_CANNOT_WRITE_STREAM_CHECKSUM, c2)
    else (LZ4MT_RESULT_OK, c2)
  else (LZ4MT_RESULT_OK, c1).

(** The bytes of [d] from [d] to [p] when the header is written. *)
Definition compress_header (sd : Lz4MtStreamDescriptor) : list byte :=
  let sum := header_sum sd in
  let h :=
    Xxh32.digest E (Xxh32.oneshot sum (lengthZ sum) LZ4S_CHECKSUM_SEED) in
  storeU32 LZ4S_MAGICNUMBER ++ sum ++ [byte_of_Z (getCheckBits_FromXXH h)].

(** [lz4mtCompress] up to the drain of the futures: [inl] when the
    function returns from the header block, [inr] with the context and
    the stream digester when it reaches the tail. [fuel] bounds the block
    loop of sequential mode, [sched] is the schedule of parallel mode.
    The two other [assert]s of the function cannot fail:
    [p <= std::end(d)] since the header has at most
    [LZ4S_MAX_HEADER_SIZE] bytes, and the one of [getBlockSize] since the
    descriptor was validated. *)
Definition compress_until_tail (fuel : nat) (sched : list nat)
           (c : Lz4MtContext W) (sd : Lz4MtStreamDescriptor)
  : Run ((Lz4MtResult * Lz4MtContext W) + (Lz4MtContext W * Xxh32.t)) :=
  let r := validateStreamDescriptor sd in
  if negb (Lz4MtResult_eqb LZ4MT_RESULT_OK r) then
    Done (inl (Context.setResult r c))
  else if negb (0 =? streamSize (flg sd)) && negb (NDEBUG E)
          && (0 =? sd_streamSize sd) then
    AssertFailed
  else
    let d := compress_header sd in
    let writeSize := lengthZ d in
    let '(n, c1) := Context.write c d in
    if negb (writeSize =? n) then
      Done (inl (Context.setResult LZ4MT_RESULT_CANNOT_WRITE_HEADER c1))
    else
      let nBlockMaximumSize := getBlockSize (blockMaximumSize (bd sd)) in
      let nBlockCheckSum := if negb (0 =? blockChecksum (flg sd))
                            then 4 else 0 in
      let streamChecksum := negb (0 =? streamChecksum (flg sd)) in
      let singleThread :=
        negb (0 =? Z.land (Context.mode c1) LZ4MT_MODE_SEQUENTIAL) in
      let xxhStream := Xxh32.init LZ4S_CHECKSUM_SEED in
      run_bind
        (if singleThread
         then run_of_option
                (compress_blocks_sequential fuel nBlockMaximumSize
                   nBlockCheckSum streamChecksum c1 xxhStream)
         else compress_blocks_parallel sched nBlockMaximumSize
                nBlockCheckSum streamChecksum c1 xxhStream)
        (fun r => Done (inr r)).

(** [lz4mtCompress]. *)
Definition lz4mtCompress (fuel : nat) (sched : list nat)
           (c : Lz4MtContext W) (sd : Lz4MtStreamDescriptor)
  : Run (Lz4MtResult * Lz4MtContext W) :=
  run_bind (compress_until_tail fuel sched c sd)
    (fun x =>
       match x with
       | inl returned => Done returned
       | inr (c2, xxh2) =>
           Done (compress_tail (negb (0 =? streamChecksum (flg sd)))
                               c2 xxh2)
       end).
End Compress.

(** ** lz4mtDecompress *)

(** The first [n] bytes of a zero-initialised array after a callee stored
    [data] at its start. *)
Definition zfill (n : nat) (data : list byte) : list byte :=
  map (at0 data) (seq 0 n).

(** [(1 << 31)], an [int]. *)
Definition incompMask : Z := int32 (Z.shiftl 1 31).

(** A block task of [lz4mtDecompress]. [DTaskAtGate] is the worker of
    block [0] when it has the bytes it will write ([srcPtr] for an
    incompressible block, the decompressed [dstPtr] otherwise) and their
    size. [DTaskRaced] is a worker with [i > 0] that has these bytes and
    evaluates [futures[i-1].wait()]: the access races with the producer's
    [emplace_back], and the model does not follow the worker any
    further. *)
Inductive DecompressTask : Set :=
| DTaskDispatched (src : list byte) (srcSize : Z) (incompressible : bool)
                  (blockChecksum : Z)
| DTaskAtGate (src : list byte) (srcSize : Z) (blockChecksum : Z)
              (outPtr : list byte) (outSize : Z)
| DTaskRaced
| DTaskDone.

Definition dtask_done (t : DecompressTask) : bool :=
  match t with DTaskDone => true | _ => false end.

Definition dtask_raced (t : DecompressTask) : bool :=
  match t with DTaskRaced => true | _ => false end.

Definition dtask_waiting (t : DecompressTask) : bool :=
  match t with DTaskDispatched _ _ _ _ => true | _ => false end.

(** How an iteration of a loop ends. *)
Inductive Flow : Set := Continue | Break.

Section Decompress.
Context {W : Type}.
Variable E : Externals.

(** The worker lambda [f] up to the order gate. [None]: the worker
    returned (entry check, or [DECOMPRESS_FAIL]). The result carries the
    bytes to write and the new value of [quit]. *)
Definition decompress_f_before_gate (nBlockMaximumSize : Z)
           (src : list byte) (srcSize : Z) (incompressible : bool)
           (c : Lz4MtContext W) (quit : bool)
  : option (list byte * Z) * Lz4MtContext W * bool :=
  if Context.error c || quit then (None, c, quit)
  else if incompressible then (Some (src, srcSize), c, quit)
  else
    let '(decSize, dstPtr, c1) :=
      Context.decompress c (takeZ srcSize src) srcSize nBlockMaximumSize in
    if decSize <? 0 then
      (None, snd (Context.setResult LZ4MT_RESULT_DECOMPRESS_FAIL c1), true)
    else (Some (dstPtr, decSize), c1, quit).

(** The worker lambda [f] after the order gate. *)
Definition decompress_f_after_gate (nBlockCheckSum : Z)
           (streamChecksum : bool) (src : list byte) (srcSize : Z)
           (blockChecksum : Z) (outPtr : list byte) (outSize : Z)
           (c : Lz4MtContext W) (quit : bool) (xxhStream : Xxh32.t)
  : Lz4MtContext W * bool * Xxh32.t :=
  let xxhStream' :=
    if streamChecksum then Xxh32.update xxhStream outPtr outSize
    else xxhStream in
  let c1 := snd (Context.writeBin outPtr outSize c) in
  if negb (0 =? nBlockCheckSum) then
    let bh :=
      Xxh32.digest E (Xxh32.oneshot src srcSize LZ4S_CHECKSUM_SEED) in
    if negb (bh =? blockChecksum) then
      (snd (Context.setResult LZ4MT_RESULT_BLOCK_CHECKSUM_MISMATCH c1),
       true, xxhStream')
    else (c1, quit, xxhStream')
  else (c1, quit, xxhStream').

(** [f(0, src, incompressible, blockCheckSum)] run inline. *)
Definition decompress_f (nBlockMaximumSize nBlockCheckSum : Z)
           (streamChecksum : bool) (src : list byte) (srcSize : Z)
           (incompressible : bool) (blockChecksum : Z)
           (c : Lz4MtContext W) (quit : bool) (xxhStream : Xxh32.t)
  : Lz4MtContext W * bool * Xxh32.t :=
  match decompress_f_before_gate nBlockMaximumSize src srcSize
                                 incompressible c quit with
  | (None, c1, quit1) => (c1, quit1, xxhStream)
  | (Some (outPtr, outSize), c1, quit1) =>
      decompress_f_after_gate nBlockCheckSum streamChecksum src srcSize
        blockChecksum outPtr outSize c1 quit1 xxhStream
  end.

(** One iteration of the block loop up to the dispatch of the worker.
    [inl]: the loop ends with this context and [quit]; [inr]: a block
    to dispatch. *)
Definition decompress_read_block (nBlockCheckSum : Z)
           (c : Lz4MtContext W) (quit : bool)
  : (Lz4MtContext W * bool)
    + (Lz4MtContext W * (list byte * Z * bool * Z)) :=
  if quit then inl (c, quit)
  else
    let '(eof, c0) := Context.readEof c in
    if negb (0 =? eof) then inl (c0, quit)
    else
      let '(srcBits, c1) := Context.readU32 c0 in
      if Context.error c1 then
        inl (snd (Context.setResult LZ4MT_RESULT_CANNOT_READ_BLOCK_SIZE c1),
             true)
      else if LZ4S_EOS =? srcBits then inl (c1, quit)
      else
        let incompressible := negb (0 =? Z.land srcBits (u32 incompMask)) in
        let srcSize := int32 (Z.land srcBits (u32 (Z.lnot incompMask))) in
        let '(readSize, src, c2) := Context.read c1 srcSize in
        if negb (srcSize =? readSize) || Context.error c2 then
          inl (snd (Context.setResult
                      LZ4MT_RESULT_CANNOT_READ_BLOCK_DATA c2), true)
        else
          let '(blockCheckSum, c3) :=
            if negb (0 =? nBlockCheckSum) then Context.readU32 c2
            else (0, c2) in
          if Context.error c3 then
            inl (snd (Context.setResult
                        LZ4MT_RESULT_CANNOT_READ_BLOCK_CHECKSUM c3), true)
          else inr (c3, (src, readSize, incompressible, blockCheckSum)).

(** The block loop in sequential mode. *)
Fixpoint decompress_blocks_sequential (fuel : nat)
         (nBlockMaximumSize nBlockCheckSum : Z) (streamChecksum : bool)
         (c : Lz4MtContext W) (quit : bool) (xxhStream : Xxh32.t)
  : option (Lz4MtContext W * bool * Xxh32.t) :=
  match fuel with
  | O => None
  | S fuel' =>
      match decompress_read_block nBlockCheckSum c quit with
      | inl (c1, quit1) => Some (c1, quit1, xxhStream)
      | inr (c1, (src, srcSize, incompressible, blockCheckSum)) =>
          let '(c2, quit2, xxh2) :=
            decompress_f nBlockMaximumSize nBlockCheckSum streamChecksum
              src srcSize incompressible blockCheckSum c1 quit xxhStream in
          decompress_blocks_sequential fuel' nBlockMaximumSize
            nBlockCheckSum streamChecksum c2 quit2 xxh2
      end
  end.

(** Parallel mode of the block loop of one frame, as for the encoder:
    thread [0] is the producer, which runs one iteration of the block
    loop per move, thread [S i] the worker of block [i], which moves
    twice: from its entry to [if(i > 0) futures[i-1].wait()], and from
    there to its end. Only the worker of block [0] makes the second
    move: for [i > 0] the wait is the racing access to [futures]. *)
Record DecompressPar : Type := mkDecompressPar {
  dp_ctx : Lz4MtContext W;
  dp_quit : bool;
  dp_xxhStream : Xxh32.t;
  dp_futures : list DecompressTask;
  dp_reading : bool
}.

Definition decompress_par_step (nBlockMaximumSize nBlockCheckSum : Z)
           (streamChecksum : bool) (tid : nat) (s : DecompressPar)
  : DecompressPar :=
  match tid with
  | O =>
      if dp_reading s then
        match decompress_read_block nBlockCheckSum (dp_ctx s) (dp_quit s)
        with
        | inl (c1, quit1) =>
            mkDecompressPar c1 quit1 (dp_xxhStream s) (dp_futures s) false
        | inr (c1, (src, srcSize, incompressible, blockCheckSum)) =>
            mkDecompressPar c1 (dp_quit s) (dp_xxhStream s)
              (dp_futures s
               ++ [DTaskDispatched src srcSize incompressible
                                   blockCheckSum])
              true
        end
      else s
  | S i =>
      match nth_error (dp_futures s) i with
      | Some (DTaskDispatched src srcSize incompressible blockChecksum) =>
          match decompress_f_before_gate nBlockMaximumSize src srcSize
                  incompressible (dp_ctx s) (dp_quit s) with
          | (None, c1, quit1) =>
              mkDecompressPar c1 quit1 (dp_xxhStream s)
                (set_task i DTaskDone (dp_futures s)) (dp_reading s)
          | (Some (outPtr, outSize), c1, quit1) =>
              mkDecompressPar c1 quit1 (dp_xxhStream s)
                (set_task i
                   (match i with
                    | O => DTaskAtGate src srcSize blockChecksum outPtr
                                       outSize
                    | S _ => DTaskRaced
                    end)
                   (dp_futures s))
                (dp_reading s)
          end
      | Some (DTaskAtGate src srcSize blockChecksum outPtr outSize) =>
          let '(c1, quit1, xxh1) :=
            decompress_f_after_gate nBlockCheckSum streamChecksum src
              srcSize blockChecksum outPtr outSize (dp_ctx s) (dp_quit s)
              (dp_xxhStream s) in
          mkDecompressPar c1 quit1 xxh1
            (set_task i DTaskDone (dp_futures s)) (dp_reading s)
      | _ => s
      end
  end.

(** The block loop and the drain in parallel mode under a schedule:
    [DataRace] when a worker ran into the race, [OutOfFuel] when the
    schedule ends before every future is ready. *)
Definition decompress_blocks_parallel (sched : list nat)
           (nBlockMaximumSize nBlockCheckSum : Z) (streamChecksum : bool)
           (c : Lz4MtContext W) (quit : bool) (xxhStream : Xxh32.t)
  : Run (Lz4MtContext W * bool * Xxh32.t) :=
  let s :=
    fold_left
      (fun s tid =>
         decompress_par_step nBlockMaximumSize nBlockCheckSum
                             streamChecksum tid s)
      sched (mkDecompressPar c quit xxhStream [] true) in
  if existsb dtask_raced (dp_futures s) then DataRace
  else if negb (dp_reading s) && forallb dtask_done (dp_futures s)
  then Done (dp_ctx s, dp_quit s, dp_xxhStream s)
  else OutOfFuel.

(** The header array [d] after the two reads of the frame iteration:
    [d2] was stored at [d], [ex] at [d + 2]. *)
Definition header_array (d2 ex : list byte) (nExInfo : Z) : list byte :=
  zfill 2 d2 ++ zfill (Z.to_nat nExInfo) ex.

(** The body of the [while] loop of [lz4mtDecompress]: one frame.
    [blocks] runs the block loop and the drain of the mode. *)
Definition decompress_frame
           (blocks : Z -> Z -> bool -> Lz4MtContext W -> bool -> Xxh32.t ->
                     Run (Lz4MtContext W * bool * Xxh32.t))
           (c : Lz4MtContext W) (quit : bool) (sd : Lz4MtStreamDescriptor)
  : Run (Flow * Lz4MtContext W * bool * Lz4MtStreamDescriptor) :=
  let '(magic, c1) := Context.readU32 c in
  if Context.error c1 then
    let '(eof, c2) := Context.readEof c1 in
    if negb (0 =? eof)
    then Done (Break, snd (Context.setResult LZ4MT_RESULT_OK c2), quit, sd)
    else Done (Break,
               snd (Context.setResult LZ4MT_RESULT_INVALID_HEADER c2),
               quit, sd)
  else if isSkippableMagicNumber magic then
    let '(size, c2) := Context.readU32 c1 in
    if Context.error c2 then
      Done (Break, snd (Context.setResult LZ4MT_RESULT_INVALID_HEADER c2),
            quit, sd)
    else
      let '(s, c3) := Context.readSkippable c2 magic size in
      if (s <? 0) || Context.error c3 then
        Done (Break, snd (Context.setResult LZ4MT_RESULT_INVALID_HEADER c3),
              quit, sd)
      else Done (Continue, c3, quit, sd)
  else if negb (LZ4S_MAGICNUMBER =? magic) then
    let c2 := snd (Context.readSeek c1 (-4)) in
    Done (Break,
          snd (Context.setResult LZ4MT_RESULT_INVALID_MAGIC_NUMBER c2),
          quit, sd)
  else
    let '(n2, d2, c2) := Context.read c1 2 in
    if negb (2 =? n2) then
      Done (Break, snd (Context.setResult LZ4MT_RESULT_INVALID_HEADER c2),
            quit, sd)
    else
      let sd1 :=
        mkSd (charToFlg (char_signed E) (at0 d2 0))
             (charToBc (char_signed E) (at0 d2 1))
             (sd_streamSize sd) (dictId sd) in
      let r := validateStreamDescriptor sd1 in
      if negb (Lz4MtResult_eqb LZ4MT_RESULT_OK r) then
        Done (Break, snd (Context.setResult r c2), quit, sd1)
      else
        let nStreamSize := if negb (0 =? streamSize (flg sd1))
                           then 8 else 0 in
        let nDictId := if negb (0 =? presetDictionary (flg sd1))
                       then 4 else 0 in
        let nExInfo := nStreamSize + nDictId + 1 in
        let '(nEx, ex, c3) := Context.read c2 nExInfo in
        if negb (nExInfo =? nEx) then
          Done (Break,
                snd (Context.setResult LZ4MT_RESULT_INVALID_HEADER c3),
                quit, sd1)
        else
          let d := header_array d2 ex nExInfo in
          let sd2 :=
            if negb (0 =? streamSize (flg sd1))
            then mkSd (flg sd1) (bd sd1) (loadU64 (skipn 2 d)) (dictId sd1)
            else sd1 in
          let sd3 :=
            if negb (0 =? presetDictionary (flg sd1))
            then mkSd (flg sd2) (bd sd2) (sd_streamSize sd2)
                      (loadU32 (skipn (Z.to_nat (2 + nStreamSize)) d))
            else sd2 in
          let sumSize := 2 + nStreamSize + nDictId in
          let calHash32 :=
            Xxh32.digest E (Xxh32.oneshot d sumSize LZ4S_CHECKSUM_SEED) in
          let calHash := byte_of_Z (getCheckBits_FromXXH calHash32) in
          let srcHash := at0 d (Z.to_nat sumSize) in
          if negb (Byte.eqb srcHash calHash) then
            Done (Break,
                  snd (Context.setResult
                         LZ4MT_RESULT_INVALID_HEADER_CHECKSUM c3),
                  quit, sd3)
          else
            let nBlockMaximumSize :=
              getBlockSize (blockMaximumSize (bd sd3)) in
            let nBlockCheckSum := if negb (0 =? blockChecksum (flg sd3))
                                  then 4 else 0 in
            let streamChecksum := negb (0 =? streamChecksum (flg sd3)) in
            run_bind
              (blocks nBlockMaximumSize nBlockCheckSum streamChecksum c3
                      quit (Xxh32.init LZ4S_CHECKSUM_SEED))
              (fun '(c4, quit4, xxhStream) =>
                 if negb (Context.error c4) && streamChecksum then
                   let '(srcStreamChecksum, c5) := Context.readU32 c4 in
                   if Context.error c5 then
                     Done (Break,
                           snd (Context.setResult
                                  LZ4MT_RESULT_CANNOT_READ_STREAM_CHECKSUM
                                  c5), quit4, sd3)
                   else if negb (Xxh32.digest E xxhStream
                                 =? srcStreamChecksum) then
                     Done (Break,
                           snd (Context.setResult
                                  LZ4MT_RESULT_STREAM_CHECKSUM_MISMATCH c5),
                           quit4, sd3)
                   else Done (Continue, c5, quit4, sd3)
                 else Done (Continue, c4, quit4, sd3)).

(** The block loop of the mode of the context. *)
Definition decompress_blocks (fuel : nat) (sched : list nat)
           (nBlockMaximumSize nBlockCheckSum : Z) (streamChecksum : bool)
           (c : Lz4MtContext W) (quit : bool) (xxhStream : Xxh32.t)
  : Run (Lz4MtContext W * bool * Xxh32.t) :=
  if negb (0 =? Z.land (Context.mode c) LZ4MT_MODE_SEQUENTIAL)
  then run_of_option
         (decompress_blocks_sequential fuel nBlockMaximumSize
            nBlockCheckSum streamChecksum c quit xxhStream)
  else decompress_blocks_parallel sched nBlockMaximumSize nBlockCheckSum
         streamChecksum c quit xxhStream.

(** The [while] loop over the frames of the stream. [fuel] bounds this
    loop and each block loop of sequential mode; [scheds] holds the
    schedule of each frame for parallel mode. *)
Fixpoint decompress_frames (fuel : nat) (scheds : list (list nat))
         (c : Lz4MtContext W) (quit : bool) (sd : Lz4MtStreamDescriptor)
         {struct fuel}
  : Run (Lz4MtContext W * Lz4MtStreamDescriptor) :=
  match fuel with
  | O => OutOfFuel
  | S fuel' =>
      if quit || Context.error c then Done (c, sd)
      else
        let '(eof, c0) := Context.readEof c in
        if negb (0 =? eof) then Done (c0, sd)
        else
          run_bind
            (decompress_frame (decompress_blocks fuel' (hd [] scheds))
                              c0 quit sd)
            (fun '(flow, c1, quit1, sd1) =>
               match flow with
               | Break => Done (c1, sd1)
               | Continue =>
                   decompress_frames fuel' (tl scheds) c1 quit1 sd1
               end)
  end.

(** [lz4mtDecompress]: the result, the context and the descriptor it
    leaves in [*sd]. *)
Definition lz4mtDecompress (fuel : nat) (scheds : list (list nat))
           (c : Lz4MtContext W) (sd : Lz4MtStreamDescriptor)
  : Run (Lz4MtResult * Lz4MtContext W * Lz4MtStreamDescriptor) :=
  let c0 := snd (Context.setResult LZ4MT_RESULT_OK c) in
  run_bind (decompress_frames fuel scheds c0 false sd)
           (fun '(c1, sd1) => Done (result c1, c1, sd1)).
End Decompress.

(** ** In-memory streams and stand-in collaborators

    The callbacks are the caller's. To run the encoder on a byte sequence
    and the decoder on its output, the context is given callbacks over
    byte streams in memory, with the behaviour of [fread], [fwrite],
    [feof] and [fseek] on a file. *)
Module Mem.
Record Stream : Set := mk {
  content : list byte;       (* the bytes of the input stream *)
  pos : nat;                 (* read position *)
  eofFlag : bool;            (* set by a read that hit the end *)
  eofAtEnd : bool;           (* [readEof] reports the position instead *)
  written : list byte;       (* the bytes of the output stream *)
  room : option Z            (* space left on the output, if bounded *)
}.

Definition remaining (s : Stream) : list byte := skipn (pos s) (content s).

Definition read (s : Stream) (n : Z) : Z * list byte * Stream :=
  let d := takeZ n (remaining s) in
  (lengthZ d, d,
   mk (content s) (pos s + List.length d)
      (eofFlag s || (lengthZ d <? n)) (eofAtEnd s) (written s) (room s)).

Definition readEof (s : Stream) : Z * Stream :=
  (if eofAtEnd s
   then (if (List.length (content s) <=? pos s)%nat then 1 else 0)
   else (if eofFlag s then 1 else 0), s).

Definition readSeek (s : Stream) (offset : Z) : Z * Stream :=
  let p := Z.of_nat (pos s) + offset in
  if (p <? 0) || (lengthZ (content s) <? p) then (-1, s)
  else (0, mk (content s) (Z.to_nat p) false (eofAtEnd s) (written s)
              (room s)).

Definition readSkippable (s : Stream) (magicNumber size : Z) : Z * Stream :=
  let '(n, _, s1) := read s size in
  (if n =? size then 0 else -1, s1).

Definition write (s : Stream) (src : list byte) : Z * Stream :=
  match room s with
  | None =>
      (lengthZ src,
       mk (content s) (pos s) (eofFlag s) (eofAtEnd s) (written s ++ src)
          None)
  | Some r =>
      let d := takeZ r src in
      (lengthZ d,
       mk (content s) (pos s) (eofFlag s) (eofAtEnd s) (written s ++ d)
          (Some (r - lengthZ d)))
  end.

(** A stream to read [input] from, with an empty output. *)
Definition open (input : list byte) (eofAtEnd : bool) (room : option Z)
  : Stream :=
  mk input 0 false eofAtEnd [] room.

(** A context over memory streams, as [lz4mtInitContext] leaves it
    ([result] is [LZ4MT_RESULT_OK]) once the callbacks are set. *)
Definition context (s : Stream)
           (compress decompress : list byte -> Z -> Z -> Z * list byte)
           (mode : Z) : Lz4MtContext Stream :=
  mkContext LZ4MT_RESULT_OK s read readEof readSkippable readSeek write
            compress decompress mode [].
End Mem.

(** [lz4mtInitStreamDescriptor]. *)
Definition lz4mtInitStreamDescriptor : Lz4MtStreamDescriptor :=
  {| flg := {| presetDictionary := 0; reserved1 := 0; streamChecksum := 1;
               streamSize := 0; blockChecksum := 0; blockIndependence := 1;
               versionNumber := 1 |};
     bd := {| reserved3 := 0; blockMaximumSize := LZ4S_BLOCKSIZEID_DEFAULT;
              reserved2 := 0 |};
     sd_streamSize := 0;
     dictId := 0 |}.

(** Stand-ins for the external collaborators in the examples: a digest
    that is not xxHash32, and a block codec that packs a run of 3 to 255
    equal bytes into two bytes and declines everything else. *)
Module Standin.
Definition digest (data : list byte) (seed : Z) : Z :=
  fold_left (fun h b => (h * 31 + uint8_of_byte b + 7) mod 2 ^ 32) data seed.

Definition externals (char_signed NDEBUG : bool) : Externals :=
  mkExternals char_signed NDEBUG digest.

Definition all_eq (b : byte) (l : list byte) : bool :=
  forallb (Byte.eqb b) l.

Definition compress (src : list byte) (isize maxOutputSize : Z)
  : Z * list byte :=
  match src with
  | b :: _ =>
      if all_eq b src && (3 <=? isize) && (isize <=? 255)
         && (2 <=? maxOutputSize) && (isize =? lengthZ src)
      then (2, [byte_of_Z isize; b])
      else (0, [])
  | [] => (0, [])
  end.

Definition decompress (src : list byte) (isize maxOutputSize : Z)
  : Z * list byte :=
  match src with
  | [n; b] =>
      if uint8_of_byte n <=? maxOutputSize
      then (uint8_of_byte n, repeat b (Z.to_nat (uint8_of_byte n)))
      else (-1, [])
  | _ => (-1, [])
  end.
End Standin.

(** The contract of a pair of block codec callbacks that are inverses,
    for blocks of up to [blockMax] bytes: when the compressor accepts a
    block it stores at most as many bytes as it was allowed to, and the
    decompressor gives the block back from them. *)
Definition codec_inverse
           (compress decompress : list byte -> Z -> Z -> Z * list byte)
           (blockMax : Z) : Prop :=
  forall src : list byte,
    lengthZ src <= blockMax ->
    let '(n, out) := compress src (lengthZ src) (lengthZ src) in
    0 < n ->
    n <= lengthZ src /\ n <= lengthZ out /\
    let '(m, dst) := decompress (takeZ n out) n blockMax in
    m = lengthZ src /\ takeZ m dst = src.

(** A context over memory streams with the stand-in codec, holding
    [r] in its result slot. *)
Definition example_context (r : Lz4MtResult) (s : Mem.Stream) (mode : Z)
  : Lz4MtContext Mem.Stream :=
  with_result r (Mem.context s Standin.compress Standin.decompress mode).

(** ** Runs of calls on the context *)

(** A result is specific when it is neither [OK] nor the generic
    [ERROR]. *)
Definition is_specific (r : Lz4MtResult) : bool :=
  negb (Lz4MtResult_eqb LZ4MT_RESULT_OK r
        || Lz4MtResult_eqb LZ4MT_RESULT_ERROR r).

(** A run of [setResult] calls, in order: the values they return and the
    context they leave. *)
Fixpoint setResults {W : Type} (rs : list Lz4MtResult) (c : Lz4MtContext W)
  : list Lz4MtResult * Lz4MtContext W :=
  match rs with
  | [] => ([], c)
  | r :: rs' =>
      let '(v, c1) := Context.setResult r c in
      let '(vs, c2) := setResults rs' c1 in
      (v :: vs, c2)
  end.

(** A call of one of the wrapped I/O helpers, or of [setResult], and what
    it returns. *)
Inductive HelperCall : Set :=
| CallReadU32
| CallWriteU32 (v : Z)
| CallWriteBin (ptr : list byte) (size : Z)
| CallSetResult (r : Lz4MtResult).

Inductive HelperValue : Set :=
| ValueU32 (v : Z)
| ValueBool (b : bool)
| ValueResult (r : Lz4MtResult).

Definition helper_call {W : Type} (h : HelperCall) (c : Lz4MtContext W)
  : HelperValue * Lz4MtContext W :=
  match h with
  | CallReadU32 => let '(v, c1) := Context.readU32 c in (ValueU32 v, c1)
  | CallWriteU32 v =>
      let '(b, c1) := Context.writeU32 v c in (ValueBool b, c1)
  | CallWriteBin ptr size =>
      let '(b, c1) := Context.writeBin ptr size c in (ValueBool b, c1)
  | CallSetResult r =>
      let '(v, c1) := Context.setResult r c in (ValueResult v, c1)
  end.

Fixpoint helper_calls {W : Type} (hs : list HelperCall) (c : Lz4MtContext W)
  : list HelperValue * Lz4MtContext W :=
  match hs with
  | [] => ([], c)
  | h :: hs' =>
      let '(v, c1) := helper_call h c in
      let '(vs, c2) := helper_calls hs' c1 in
      (v :: vs, c2)
  end.

(** What a helper returns when it does nothing. *)
Definition short_circuit (h : HelperCall) (v : HelperValue) : Prop :=
  match h with
  | CallReadU32 => v = ValueU32 0
  | CallWriteU32 _ | CallWriteBin _ _ => v = ValueBool false
  | CallSetResult _ => True
  end.

(** The call does not hand [OK] to [setResult]. *)
Definition keeps_error (h : HelperCall) : bool :=
  match h with
  | CallSetResult LZ4MT_RESULT_OK => false
  | _ => true
  end.

(** The callback call a write helper makes when it does not
    short-circuit. *)
Definition write_of (h : HelperCall) : list Call :=
  match h with
  | CallWriteU32 v => [CallWrite (storeU32 v)]
  | CallWriteBin ptr size => [CallWrite (takeZ size ptr)]
  | _ => []
  end.

Definition is_write (h : HelperCall) : bool :=
  match h with
  | CallWriteU32 _ | CallWriteBin _ _ => true
  | _ => false
  end.

(** What the worker of [lz4mtCompress] hands to the write callback for a
    block, in order, when nothing fails: the size prefix, the stored
    payload, and the block checksum when it is enabled. *)
Definition block_payload (src : list byte) (srcSize cmpSize : Z)
           (cmpPtr : list byte) : list byte :=
  if cmpSize <=? 0 then takeZ srcSize src else takeZ cmpSize cmpPtr.

Definition block_prefix (srcSize cmpSize : Z) : Z :=
  if cmpSize <=? 0 then srcSize + 2 ^ 31 else cmpSize.

Definition block_writes (E : Externals) (nBlockCheckSum : Z)
           (src : list byte) (srcSize cmpSize : Z) (cmpPtr : list byte)
  : list Call :=
  [CallWrite (storeU32 (block_prefix srcSize cmpSize));
   CallWrite (block_payload src srcSize cmpSize cmpPtr)]
  ++ (if negb (0 =? nBlockCheckSum)
      then [CallWrite
              (storeU32
                 (u32 (XXH32 E (block_payload src srcSize cmpSize cmpPtr)
                             LZ4S_CHECKSUM_SEED)))]
      else []).




(** The helper calls of the worker of [lz4mtCompress] after
    [futures[i-1].wait()]. *)
Definition block_helpers (E : Externals) (nBlockCheckSum : Z)
           (src : list byte) (srcSize cmpSize : Z) (cmpPtr : list byte)
  : list HelperCall :=
  (if cmpSize <=? 0
   then [CallWriteU32 (u32 (Z.lor srcSize cIncompressible));
         CallWriteBin src srcSize]
   else [CallWriteU32 (u32 cmpSize); CallWriteBin cmpPtr cmpSize])
  ++ (if negb (0 =? nBlockCheckSum)
      then [CallWriteU32
              (Xxh32.digest E
                 (Xxh32.oneshot (if cmpSize <=? 0 then src else cmpPtr)
                                (if cmpSize <=? 0 then srcSize else cmpSize)
                                LZ4S_CHECKSUM_SEED))]
      else []).

(** ** What the validation rejects *)

(** The descriptors the data model excludes: a version other than 1, a
    reserved bit set, no block independence, a preset dictionary, a block
    size id outside 4..7. *)
Definition descriptor_rejected (sd : Lz4MtStreamDescriptor) : Prop :=
  versionNumber (flg sd) <> 1 \/
  (reserved1 (flg sd) <> 0 \/ reserved2 (bd sd) <> 0 \/ reserved3 (bd sd) <> 0)
  \/ blockIndependence (flg sd) = 0 \/
  presetDictionary (flg sd) <> 0 \/
  (blockMaximumSize (bd sd) < 4 \/ 7 < blockMaximumSize (bd sd)).

(** The fault of the descriptor that a result code stands for. *)
Definition code_fault (r : Lz4MtResult) (sd : Lz4MtStreamDescriptor) : Prop :=
  match r with
  | LZ4MT_RESULT_INVALID_VERSION => versionNumber (flg sd) <> 1
  | LZ4MT_RESULT_INVALID_HEADER =>
      reserved1 (flg sd) <> 0 \/ reserved2 (bd sd) <> 0
      \/ reserved3 (bd sd) <> 0
  | LZ4MT_RESULT_BLOCK_DEPENDENCE_IS_NOT_SUPPORTED_YET =>
      blockIndependence (flg sd) = 0
  | LZ4MT_RESULT_PRESET_DICTIONARY_IS_NOT_SUPPORTED_YET =>
      presetDictionary (flg sd) <> 0
  | LZ4MT_RESULT_INVALID_BLOCK_MAXIMUM_SIZE =>
      blockMaximumSize (bd sd) < 4 \/ 7 < blockMaximumSize (bd sd)
  | _ => False
  end.

(** A descriptor of version 0, otherwise as [lz4mtInitStreamDescriptor]
    leaves it. *)
Definition version0_descriptor : Lz4MtStreamDescriptor :=
  mkSd (mkFlg 0 0 1 0 0 1 0) (mkBd 0 LZ4S_BLOCKSIZEID_DEFAULT 0) 0 0.

(** The value of a run that is done, [d] otherwise. *)
Definition run_value {A : Type} (d : A) (r : Run A) : A :=
  match r with
  | Done a => a
  | _ => d
  end.

(** An output with room for the 7 bytes of a header without optional
    fields, and no more: the first write after the header fails. *)
Definition header_only_stream (input : list byte) : Mem.Stream :=
  Mem.open input false (Some 7).

(** ** The header checksum in the words of the format *)

(** Bits 15..8 of a 32-bit value, as a number below 256. *)
Definition bits_15_8 (h : Z) : Z := (h / 2 ^ 8) mod 2 ^ 8.

(** The check byte of a descriptor whose bytes, from the flag byte
    through the last optional field, are [sum]. *)
Definition header_check_byte (E : Externals) (sum : list byte) : byte :=
  byte_of_Z (bits_15_8 (u32 (XXH32 E sum 0))).


(** The result slot is not set to [r] between [c] and [c']. *)
Definition result_not_set {W : Type} (r : Lz4MtResult)
           (c c' : Lz4MtContext W) : Prop :=
  result c <> r -> result c' <> r.

(** ** Relations that every step preserves *)

(** The functions change the context in two ways only: a callback call
    ([called]) and a store into the result slot ([with_result]). [R]
    relates a context to a later one: it is reflexive, transitive, holds
    across a callback call, and across a store of a code that [okr]
    allows; [okr] allows the codes that the helpers and the block loop of
    the decoder store. *)
Record preserved {W : Type}
       (R : Lz4MtContext W -> Lz4MtContext W -> Prop)
       (okr : Lz4MtResult -> Prop) : Prop := mkPreserved {
  pv_refl : forall c, R c c;
  pv_trans : forall a b c, R a b -> R b c -> R a c;
  pv_called : forall e w c, R c (called e w c);
  pv_with_result : forall r c, okr r -> R c (with_result r c);
  pv_ERROR : okr LZ4MT_RESULT_ERROR;
  pv_block :
    forall r,
      In r [LZ4MT_RESULT_DECOMPRESS_FAIL;
            LZ4MT_RESULT_BLOCK_CHECKSUM_MISMATCH;
            LZ4MT_RESULT_CANNOT_READ_BLOCK_SIZE;
            LZ4MT_RESULT_CANNOT_READ_BLOCK_DATA;
            LZ4MT_RESULT_CANNOT_READ_BLOCK_CHECKSUM] -> okr r
}.

(** The descriptor after the decoder stored the flag byte and the bd
    byte it read ([d2]) into [*sd]. *)
Definition parsed_flags (E : Externals) (d2 : list byte)
           (sd : Lz4MtStreamDescriptor) : Lz4MtStreamDescriptor :=
  mkSd (charToFlg (char_signed E) (at0 d2 0))
       (charToBc (char_signed E) (at0 d2 1))
       (sd_streamSize sd) (dictId sd).


(** The frame that the encoder makes of the one byte [x41] in sequential
    mode with the stand-in collaborators and the descriptor of
    [lz4mtInitStreamDescriptor]. *)
Definition example_frame : list byte :=
  Mem.written
    (world
       (snd (run_value
               (LZ4MT_RESULT_ERROR,
                example_context LZ4MT_RESULT_OK (Mem.open [x41] false None)
                                LZ4MT_MODE_SEQUENTIAL)
               (lz4mtCompress (Standin.externals true false) 2 []
                  (example_context LZ4MT_RESULT_OK
                                   (Mem.open [x41] false None)
                                   LZ4MT_MODE_SEQUENTIAL)
                  lz4mtInitStreamDescriptor)))).

(** ** The frame in the words of the format *)

(** The input cut into blocks of [n] bytes, the last one shorter. *)
Fixpoint chunks_fuel (fuel : nat) (n : Z) (input : list byte)
  : list (list byte) :=
  match fuel with
  | O => []
  | S fuel' =>
      match input with
      | [] => []
      | _ :: _ => takeZ n input :: chunks_fuel fuel' n (dropZ n input)
      end
  end.

Definition chunks (n : Z) (input : list byte) : list (list byte) :=
  chunks_fuel (List.length input) n input.

(** A block on the wire: BlockSize, BlockData and the optional
    BlockChkSum. *)
Definition encode_block (E : Externals) (nBlockCheckSum : Z)
           (compress : list byte -> Z -> Z -> Z * list byte)
           (blk : list byte) : list byte :=
  let '(n, out) := compress blk (lengthZ blk) (lengthZ blk) in
  storeU32 (block_prefix (lengthZ blk) n)
  ++ block_payload blk (lengthZ blk) n out
  ++ (if negb (0 =? nBlockCheckSum)
      then storeU32 (u32 (XXH32 E (block_payload blk (lengthZ blk) n out)
                                LZ4S_CHECKSUM_SEED))
      else []).

(** The frame of [input] under the descriptor [sd]: header, blocks, EOS
    and the optional stream checksum. *)
Definition frame_of (E : Externals) (sd : Lz4MtStreamDescriptor)
           (compress : list byte -> Z -> Z -> Z * list byte)
           (input : list byte) : list byte :=
  compress_header E sd
  ++ List.concat (map (encode_block E (if negb (0 =? blockChecksum (flg sd))
                                       then 4 else 0) compress)
                      (chunks (getBlockSize (blockMaximumSize (bd sd))) input))
  ++ storeU32 LZ4S_EOS
  ++ (if negb (0 =? streamChecksum (flg sd))
      then storeU32 (u32 (XXH32 E input LZ4S_CHECKSUM_SEED))
      else []).

(** The block codec callbacks of a context. *)
Definition Lz4MtContext_codec {W : Type} (c : Lz4MtContext W) :=
  (compress c, decompress c).

(** A context over memory streams with the callbacks of [Mem] and the
    block codec [compress], [decompress], in which no error is latched:
    [rest] is still to be read, [out] was written, the output is not
    bounded, [readEof] is of the kind [eofAtEnd], and the end-of-file
    flag of the input is [flag]. *)
Definition mem_ok
           (compress decompress : list byte -> Z -> Z -> Z * list byte)
           (eofAtEnd : bool)
           (c : Lz4MtContext Mem.Stream) (rest out : list byte)
           (flag : bool) : Prop :=
  result c = LZ4MT_RESULT_OK /\
  read c = Mem.read /\ readEof c = Mem.readEof /\ write c = Mem.write /\
  Lz4MtContext_codec c = (compress, decompress) /\
  Mem.eofAtEnd (world c) = eofAtEnd /\
  Mem.remaining (world c) = rest /\ Mem.written (world c) = out /\
  Mem.room (world c) = None /\ Mem.eofFlag (world c) = flag.

(** ** The invariant of the parallel block loop of the encoder *)

(** A task for the block [blk] that has not passed the order gate. *)
Definition cpending (compress : list byte -> Z -> Z -> Z * list byte)
           (blk : list byte) (t : CompressTask) : Prop :=
  t = CTaskDispatched blk (lengthZ blk) \/
  t = CTaskAtGate blk (lengthZ blk)
                  (fst (compress blk (lengthZ blk) (lengthZ blk)))
                  (snd (compress blk (lengthZ blk) (lengthZ blk))).

(** The stream digester after [data] was fed to [xxh], when the stream
    checksum is on. *)
Definition fed_with (sc : bool) (xxh : Xxh32.t) (data : list byte)
  : Xxh32.t :=
  if sc then Xxh32.mk (Xxh32.seed xxh) (Xxh32.fed xxh ++ data) else xxh.

(** The state of the machine when the producer has read the blocks
    [done ++ pending] of [input]: the workers of [done] are through, in
    this order, their blocks are written and digested; those of
    [pending] have not passed the order gate; no error is latched. *)
Definition compress_par_at (E : Externals)
           (compress decompress : list byte -> Z -> Z -> Z * list byte)
           (style : bool) (bm nbc : Z) (sc : bool)
           (input out0 : list byte) (xxh0 : Xxh32.t)
           (done pending : list (list byte)) (tasks : list CompressTask)
           (rest : list byte) (flag : bool)
           (s : CompressPar (W := Mem.Stream)) : Prop :=
  cp_futures s = map (fun _ => CTaskDone) done ++ tasks /\
  Forall2 (cpending compress) pending tasks /\
  mem_ok compress decompress style (cp_ctx s) rest
         (out0 ++ List.concat (map (encode_block E nbc compress) done))
         flag /\
  cp_xxhStream s = fed_with sc xxh0 (List.concat done) /\
  Forall (fun b => lengthZ b <= bm) (done ++ pending) /\
  (done ++ pending) ++ chunks bm rest = chunks bm input /\
  (cp_reading s = false -> rest = []).

Definition compress_par_inv (E : Externals)
           (compress decompress : list byte -> Z -> Z -> Z * list byte)
           (style : bool) (bm nbc : Z) (sc : bool)
           (input out0 : list byte) (xxh0 : Xxh32.t)
           (s : CompressPar (W := Mem.Stream)) : Prop :=
  exists (done pending : list (list byte)) (tasks : list CompressTask)
         (rest : list byte) (flag : bool),
    compress_par_at E compress decompress style bm nbc sc input out0 xxh0
                    done pending tasks rest flag s.

(** The schedule that runs each worker as soon as its block is read:
    the producer, then twice the worker of the block, for [n] blocks from
    block [k] on, and the producer once more for the read that ends the
    loop. *)
Fixpoint eager_schedule (k n : nat) : list nat :=
  match n with
  | O => [O]
  | S n' => O :: S k :: S k :: eager_schedule (S k) n'
  end.

(** ** The invariant of the parallel block loop of the decoder *)

(** The checksum field of the block whose data is [payload]; [0] stands
    for the field that a frame without block checksums does not have. *)
Definition block_checksum_field (E : Externals) (nBlockCheckSum : Z)
           (payload : list byte) : Z :=
  if negb (0 =? nBlockCheckSum)
  then u32 (XXH32 E payload LZ4S_CHECKSUM_SEED) else 0.

(** The data of the block [blk] on the wire. *)
Definition wire_payload (compress : list byte -> Z -> Z -> Z * list byte)
           (blk : list byte) : list byte :=
  block_payload blk (lengthZ blk)
                (fst (compress blk (lengthZ blk) (lengthZ blk)))
                (snd (compress blk (lengthZ blk) (lengthZ blk))).

(** A task of the decoder for the block [blk] of the encoder that has not
    passed the order gate: as the producer dispatched it, or at the order gate with
    the bytes of [blk] to write. *)
Definition dpending (E : Externals) (nBlockCheckSum : Z)
           (compress : list byte -> Z -> Z -> Z * list byte)
           (blk : list byte) (t : DecompressTask) : Prop :=
  t = DTaskDispatched
        (wire_payload compress blk) (lengthZ (wire_payload compress blk))
        (fst (compress blk (lengthZ blk) (lengthZ blk)) <=? 0)
        (block_checksum_field E nBlockCheckSum (wire_payload compress blk))
  \/
  exists (outPtr : list byte) (outSize : Z),
    t = DTaskAtGate
          (wire_payload compress blk) (lengthZ (wire_payload compress blk))
          (block_checksum_field E nBlockCheckSum
                                (wire_payload compress blk))
          outPtr outSize /\
    takeZ outSize outPtr = blk /\ 0 <= outSize <= lengthZ outPtr.

(** The state of the machine of the decoder on the blocks
    [done ++ pending ++ todo] of a frame of the encoder that is followed
    by [tail]: the workers of [done] are through, in this order, their
    blocks are written and digested; those of [pending] have not passed
    the order gate; the producer has still to read [todo] and the
    end-of-stream mark; no error is latched and [quit] is not set. *)
Definition decompress_par_at (E : Externals)
           (compress decompress : list byte -> Z -> Z -> Z * list byte)
           (style : bool) (bm nbc : Z) (sc : bool)
           (blocks : list (list byte)) (tail out0 : list byte)
           (xxh0 : Xxh32.t)
           (done pending : list (list byte)) (tasks : list DecompressTask)
           (todo : list (list byte))
           (s : DecompressPar (W := Mem.Stream)) : Prop :=
  dp_futures s = map (fun _ => DTaskDone) done ++ tasks /\
  Forall2 (dpending E nbc compress) pending tasks /\
  mem_ok compress decompress style (dp_ctx s)
         (if dp_reading s
          then List.concat (map (encode_block E nbc compress) todo)
               ++ storeU32 LZ4S_EOS ++ tail
          else tail)
         (out0 ++ List.concat done) false /\
  dp_quit s = false /\
  dp_xxhStream s = fed_with sc xxh0 (List.concat done) /\
  Forall (fun b => 0 < lengthZ b <= bm) (pending ++ todo) /\
  done ++ pending ++ todo = blocks /\
  (dp_reading s = false -> todo = []).

Definition decompress_par_inv (E : Externals)
           (compress decompress : list byte -> Z -> Z -> Z * list byte)
           (style : bool) (bm nbc : Z) (sc : bool)
           (blocks : list (list byte)) (tail out0 : list byte)
           (xxh0 : Xxh32.t)
           (s : DecompressPar (W := Mem.Stream)) : Prop :=
  exists (done pending : list (list byte)) (tasks : list DecompressTask)
         (todo : list (list byte)),
    decompress_par_at E compress decompress style bm nbc sc blocks tail out0
                      xxh0 done pending tasks todo s.

(** ** The round trip *)

(** [lz4mtCompress] on the byte sequence [input], read from a memory
    stream, with an unbounded output. *)
Definition encode_run (E : Externals)
           (compress decompress : list byte -> Z -> Z -> Z * list byte)
           (sd : Lz4MtStreamDescriptor) (input : list byte)
           (eofAtEnd : bool) (mode : Z) (fuel : nat) (sched : list nat)
  : Run (Lz4MtResult * Lz4MtContext Mem.Stream) :=
  lz4mtCompress E fuel sched
    (Mem.context (Mem.open input eofAtEnd None) compress decompress mode) sd.

(** [lz4mtDecompress] on the bytes [frame], read from a memory stream,
    with an unbounded output; [sd0] is what [*sd] holds at the call. *)
Definition decode_run (E : Externals)
           (compress decompress : list byte -> Z -> Z -> Z * list byte)
           (sd0 : Lz4MtStreamDescriptor) (frame : list byte)
           (eofAtEnd : bool) (mode : Z) (fuel : nat)
           (scheds : list (list nat))
  : Run (Lz4MtResult * Lz4MtContext Mem.Stream * Lz4MtStreamDescriptor) :=
  lz4mtDecompress E fuel scheds
    (Mem.context (Mem.open frame eofAtEnd None) compress decompress mode)
    sd0.

(** The runs that stay clear of the race for [futures]: those of
    sequential mode, where [f] is called inline and [futures] stays
    empty, and those on at most one block, where the only worker is that
    of block [0]. *)
Definition race_free (mode blockSize : Z) (data : list byte) : Prop :=
  Z.land mode LZ4MT_MODE_SEQUENTIAL <> 0 \/ lengthZ data <= blockSize.

(** The round trip of [input] under the descriptor [sd]: the encoder
    does not stop at an [assert]; it returns for some step budget and
    schedule when its run is clear of the race for [futures]; whenever
    it returns, it returns [LZ4MT_RESULT_OK], and on the bytes it wrote
    the decoder returns for some step budget and schedules when its run
    is clear of the race and, whenever it returns, returns
    [LZ4MT_RESULT_OK] with exactly [input] written. The modes of the two
    runs and the kinds of [readEof] of the two input streams are those
    given. What a run does that has the race is left open. *)
Definition round_trip (E : Externals)
           (compress decompress : list byte -> Z -> Z -> Z * list byte)
           (sd sd0 : Lz4MtStreamDescriptor) (input : list byte)
           (eofAtEndE eofAtEndD : bool) (modeE modeD : Z) : Prop :=
  (forall fuel sched,
      encode_run E compress decompress sd input eofAtEndE modeE fuel sched
      <> AssertFailed) /\
  (race_free modeE (getBlockSize (blockMaximumSize (bd sd))) input ->
   exists fuel sched cE,
     encode_run E compress decompress sd input eofAtEndE modeE fuel sched
     = Done (LZ4MT_RESULT_OK, cE)) /\
  forall fuel sched r cE,
    encode_run E compress decompress sd input eofAtEndE modeE fuel sched
    = Done (r, cE) ->
    r = LZ4MT_RESULT_OK /\
    (race_free modeD (getBlockSize (blockMaximumSize (bd sd))) input ->
     exists fuel' scheds cD sd',
       decode_run E compress decompress sd0 (Mem.written (world cE))
                  eofAtEndD modeD fuel' scheds
       = Done (LZ4MT_RESULT_OK, cD, sd')) /\
    forall fuel' scheds r' cD sd',
      decode_run E compress decompress sd0 (Mem.written (world cE))
                 eofAtEndD modeD fuel' scheds = Done (r', cD, sd') ->
      r' = LZ4MT_RESULT_OK /\ Mem.written (world cD) = input.

(** The descriptor of [lz4mtInitStreamDescriptor] with the stream size
    flag set and no stream size given. *)
Definition sizeless_descriptor : Lz4MtStreamDescriptor :=
  {| flg := {| presetDictionary := 0; reserved1 := 0; streamChecksum := 1;
               streamSize := 1; blockChecksum := 0; blockIndependence := 1;
               versionNumber := 1 |};
     bd := bd lz4mtInitStreamDescriptor;
     sd_streamSize := 0;
     dictId := 0 |}.

(** The descriptor of [lz4mtInitStreamDescriptor] with 2 in its
    [blockIndependence] field: not zero, and wider than the bit that the
    flag byte has for it. *)
Definition wide_descriptor : Lz4MtStreamDescriptor :=
  {| flg := {| presetDictionary := 0; reserved1 := 0; streamChecksum := 1;
               streamSize := 0; blockChecksum := 0; blockIndependence := 2;
               versionNumber := 1 |};
     bd := bd lz4mtInitStreamDescriptor;
     sd_streamSize := 0;
     dictId := 0 |}.



(** ** Streams of several frames *)

(** What [lz4mtDecompress] leaves in [*sd] after the header of a frame
    written under the descriptor [sd] was read, when [*sd] held [sd0]:
    the flag and bd records of the frame, the stream size of the frame
    when the frame has one, and otherwise what [sd0] had. *)
Definition parsed_descriptor (sd sd0 : Lz4MtStreamDescriptor)
  : Lz4MtStreamDescriptor :=
  mkSd (flg sd) (bd sd)
       (if negb (0 =? streamSize (flg sd)) then u64 (sd_streamSize sd)
        else sd_streamSize sd0)
       (dictId sd0).

(** An item of a stream: a skippable frame with its magic number and its
    data, or the frame that the encoder makes of [input] under [sd]. *)
Inductive StreamItem : Type :=
| SkippableItem (magic : Z) (data : list byte)
| FrameItem (sd : Lz4MtStreamDescriptor) (input : list byte).

Definition item_bytes (E : Externals)
           (compress : list byte -> Z -> Z -> Z * list byte)
           (it : StreamItem) : list byte :=
  match it with
  | SkippableItem magic data =>
      storeU32 magic ++ storeU32 (lengthZ data) ++ data
  | FrameItem sd input => frame_of E sd compress input
  end.

Definition item_output (it : StreamItem) : list byte :=
  match it with
  | SkippableItem _ _ => []
  | FrameItem _ input => input
  end.

Definition item_descriptor (sd0 : Lz4MtStreamDescriptor) (it : StreamItem)
  : Lz4MtStreamDescriptor :=
  match it with
  | SkippableItem _ _ => sd0
  | FrameItem sd _ => parsed_descriptor sd sd0
  end.

(** The schedule of parallel mode for an item: the eager one for one
    block. *)
Definition item_schedule (it : StreamItem) : list nat :=
  match it with
  | SkippableItem _ _ => []
  | FrameItem _ _ => eager_schedule 0 1
  end.

(** An item whose decoding in the mode [mode] stays clear of the race
    for [futures]. *)
Definition item_race_free (mode : Z) (it : StreamItem) : Prop :=
  match it with
  | SkippableItem _ _ => True
  | FrameItem sd input =>
      race_free mode (getBlockSize (blockMaximumSize (bd sd))) input
  end.

(** A well-formed item: a skippable frame has a skippable magic number
    and a size that fits its 32-bit field; a frame has a descriptor that
    [validateStreamDescriptor] accepts, with fields within their widths,
    and the block codec is an inverse pair at its block size. *)
Definition item_ok
           (compress decompress : list byte -> Z -> Z -> Z * list byte)
           (it : StreamItem) : Prop :=
  match it with
  | SkippableItem magic data =>
      isSkippableMagicNumber magic = true /\ lengthZ data < 2 ^ 32
  | FrameItem sd _ =>
      validateStreamDescriptor sd = LZ4MT_RESULT_OK /\
      flg_in_width (flg sd) /\ bd_in_width (bd sd) /\
      codec_inverse compress decompress
                    (getBlockSize (blockMaximumSize (bd sd)))
  end.

(** The bytes of a frame of [input] whose end-of-stream mark is followed
    by [trailer] in place of the stream checksum. *)
Definition frame_with_trailer (E : Externals) (sd : Lz4MtStreamDescriptor)
           (compress : list byte -> Z -> Z -> Z * list byte)
           (input trailer : list byte) : list byte :=
  compress_header E sd
  ++ List.concat (map (encode_block E (if negb (0 =? blockChecksum (flg sd))
                                       then 4 else 0) compress)
                      (chunks (getBlockSize (blockMaximumSize (bd sd))) input))
  ++ storeU32 LZ4S_EOS
  ++ trailer.

(** The bytes of a frame of [input] that ends after its last block: the
    end-of-stream mark and what follows it are missing. *)
Definition frame_without_end (E : Externals) (sd : Lz4MtStreamDescriptor)
           (compress : list byte -> Z -> Z -> Z * list byte)
           (input : list byte) : list byte :=
  compress_header E sd
  ++ List.concat (map (encode_block E (if negb (0 =? blockChecksum (flg sd))
                                       then 4 else 0) compress)
                      (chunks (getBlockSize (blockMaximumSize (bd sd))) input)).

(** The state of the machine of the decoder on the blocks
    [done ++ pending ++ todo] of a frame that ends after its last block,
    read from a stream whose [readEof] reports the position. *)
Definition decompress_open_at (E : Externals)
           (compress decompress : list byte -> Z -> Z -> Z * list byte)
           (bm nbc : Z) (sc : bool)
           (blocks : list (list byte)) (out0 : list byte) (xxh0 : Xxh32.t)
           (done pending : list (list byte)) (tasks : list DecompressTask)
           (todo : list (list byte))
           (s : DecompressPar (W := Mem.Stream)) : Prop :=
  dp_futures s = map (fun _ => DTaskDone) done ++ tasks /\
  Forall2 (dpending E nbc compress) pending tasks /\
  mem_ok compress decompress true (dp_ctx s)
         (List.concat (map (encode_block E nbc compress) todo))
         (out0 ++ List.concat done) false /\
  dp_quit s = false /\
  dp_xxhStream s = fed_with sc xxh0 (List.concat done) /\
  Forall (fun b => 0 < lengthZ b <= bm) (pending ++ todo) /\
  done ++ pending ++ todo = blocks /\
  (dp_reading s = false -> todo = []).

Definition decompress_open_inv (E : Externals)
           (compress decompress : list byte -> Z -> Z -> Z * list byte)
           (bm nbc : Z) (sc : bool)
           (blocks : list (list byte)) (out0 : list byte) (xxh0 : Xxh32.t)
           (s : DecompressPar (W := Mem.Stream)) : Prop :=
  exists (done pending : list (list byte)) (tasks : list DecompressTask)
         (todo : list (list byte)),
    decompress_open_at E compress decompress bm nbc sc blocks out0 xxh0
                       done pending tasks todo s.

(** A descriptor that [validateStreamDescriptor] accepts, without
    stream checksum. *)
Definition checksumless_descriptor : Lz4MtStreamDescriptor :=
  {| flg := {| presetDictionary := 0; reserved1 := 0; streamChecksum := 0;
               streamSize := 0; blockChecksum := 0; blockIndependence := 1;
               versionNumber := 1 |};
     bd := bd lz4mtInitStreamDescriptor;
     sd_streamSize := 0;
     dictId := 0 |}.

(** A context over memory streams in which the code [r] is latched:
    [rest] is still to be read and [out] was written. *)
Definition mem_latched (r : Lz4MtResult) (c : Lz4MtContext Mem.Stream)
           (rest out : list byte) : Prop :=
  result c = r /\ read c = Mem.read /\
  Mem.remaining (world c) = rest /\ Mem.written (world c) = out.

(** * Properties *)

(** ** Bytes *)

Lemma uint8_of_byte_range (b : byte) : 0 <= uint8_of_byte b < 256.
Proof.
  unfold uint8_of_byte. pose proof (Byte.to_N_bounded b). lia.
Qed.

Lemma byte_of_Z_uint8 (b : byte) : byte_of_Z (uint8_of_byte b) = b.
Proof.
  unfold byte_of_Z, uint8_of_byte.
  pose proof (Byte.to_N_bounded b).
  rewrite Z.mod_small by lia.
  rewrite N2Z.id, Byte.of_to_N. reflexivity.
Qed.

Lemma uint8_of_byte_of_Z (z : Z) : uint8_of_byte (byte_of_Z z) = z mod 256.
Proof.
  unfold byte_of_Z, uint8_of_byte.
  pose proof (Z.mod_pos_bound z 256 ltac:(lia)) as Hm.
  destruct (Byte.of_N (Z.to_N (z mod 256))) as [b|] eqn:Hb.
  - apply Byte.to_of_N in Hb. rewrite Hb. lia.
  - apply Byte.of_N_None_iff in Hb. lia.
Qed.

Lemma byte_of_Z_mod (z : Z) : byte_of_Z (z mod 256) = byte_of_Z z.
Proof.
  unfold byte_of_Z. rewrite Z.mod_mod by lia. reflexivity.
Qed.

Lemma bit_width_1 (x : Z) : bit_width 1 x -> x = 0 \/ x = 1.
Proof. unfold bit_width. change (2 ^ 1) with 2. lia. Qed.

Lemma bit_width_2 (x : Z) : bit_width 2 x -> x = 0 \/ x = 1 \/ x = 2 \/ x = 3.
Proof. unfold bit_width. change (2 ^ 2) with 4. lia. Qed.

Lemma bit_width_3 (x : Z) :
  bit_width 3 x ->
  x = 0 \/ x = 1 \/ x = 2 \/ x = 3 \/ x = 4 \/ x = 5 \/ x = 6 \/ x = 7.
Proof. unfold bit_width. change (2 ^ 3) with 8. lia. Qed.

Lemma bit_width_4 (x : Z) :
  bit_width 4 x ->
  (x = 0 \/ x = 1 \/ x = 2 \/ x = 3 \/ x = 4 \/ x = 5 \/ x = 6 \/ x = 7) \/
  (x = 8 \/ x = 9 \/ x = 10 \/ x = 11 \/ x = 12 \/ x = 13 \/ x = 14
   \/ x = 15).
Proof. unfold bit_width. change (2 ^ 4) with 16. lia. Qed.

(** ** The flag byte and the block descriptor byte *)

Ltac split_width H :=
  first [ apply bit_width_1 in H | apply bit_width_2 in H
        | apply bit_width_3 in H | apply bit_width_4 in H ];
  repeat match type of H with _ \/ _ => destruct H as [H | H] end;
  rewrite H; clear H.

Lemma charToFlg_flgToChar (sgn : bool) (f : Lz4MtFlg) :
  flg_in_width f -> charToFlg sgn (flgToChar f) = f.
Proof.
  destruct f as [pd r1 sc ss bc bi vn].
  unfold flg_in_width; simpl.
  intros (Hpd & Hr1 & Hsc & Hss & Hbc & Hbi & Hvn).
  split_width Hpd; split_width Hr1; split_width Hsc; split_width Hss;
    split_width Hbc; split_width Hbi; split_width Hvn;
    destruct sgn; vm_compute; reflexivity.
Qed.

Lemma charToBc_bdToChar (sgn : bool) (b : Lz4MtBd) :
  bd_in_width b -> charToBc sgn (bdToChar b) = b.
Proof.
  destruct b as [r3 bm r2].
  unfold bd_in_width; simpl.
  intros (Hr3 & Hbm & Hr2).
  split_width Hr3; split_width Hbm; split_width Hr2;
    destruct sgn; vm_compute; reflexivity.
Qed.

(** C9. The flag-byte and bd-byte codecs round-trip: for every flag
    record whose fields are within their declared bit widths
    (versionNumber below 4, every other field below 2),
    [charToFlg (flgToChar flg) = flg]; for every bd record with reserved3
    below 16, blockMaximumSize below 8 and reserved2 below 2,
    [charToBc (bdToChar bd) = bd]. This holds whether [char] is signed or
    unsigned on the target. *)
Theorem flag_bytes_roundtrip (char_signed : bool) (f : Lz4MtFlg)
        (b : Lz4MtBd) :
  flg_in_width f -> bd_in_width b ->
  charToFlg char_signed (flgToChar f) = f /\
  charToBc char_signed (bdToChar b) = b.
Proof.
  intros Hf Hb. split.
  - apply charToFlg_flgToChar; assumption.
  - apply charToBc_bdToChar; assumption.
Qed.

Lemma flag_bytes_roundtrip_witness :
  charToFlg true (flgToChar (flg lz4mtInitStreamDescriptor))
  = flg lz4mtInitStreamDescriptor /\
  charToBc true (bdToChar (bd lz4mtInitStreamDescriptor))
  = bd lz4mtInitStreamDescriptor.
Proof.
  apply (flag_bytes_roundtrip true (flg lz4mtInitStreamDescriptor)
                              (bd lz4mtInitStreamDescriptor)).
  - unfold flg_in_width, bit_width; simpl. lia.
  - unfold bd_in_width, bit_width; simpl. unfold LZ4S_BLOCKSIZEID_DEFAULT. lia.
Defined.

(** ** The text of a result *)

(** C4 (the code leaves one code out). [lz4mtResultToString] has no case
    for [LZ4MT_RESULT_BLOCK_CHECKSUM_MISMATCH], the code that the decoder
    latches on a block checksum mismatch: it falls to the [default] and
    gets the text of an unknown code, not its own name. *)
Theorem lz4mtResultToString_block_checksum_mismatch :
  lz4mtResultToString LZ4MT_RESULT_BLOCK_CHECKSUM_MISMATCH
  = "Unknown code"%string /\
  lz4mtResultToString LZ4MT_RESULT_BLOCK_CHECKSUM_MISMATCH
  <> Lz4MtResult_name LZ4MT_RESULT_BLOCK_CHECKSUM_MISMATCH.
Proof.
  split; [reflexivity | discriminate].
Qed.

(** Every other code gets its own name, and never the fallback text. *)
Lemma lz4mtResultToString_other (r : Lz4MtResult) :
  r <> LZ4MT_RESULT_BLOCK_CHECKSUM_MISMATCH ->
  lz4mtResultToString r = Lz4MtResult_name r /\
  lz4mtResultToString r <> "Unknown code"%string.
Proof.
  intros Hr. destruct r; try (split; [reflexivity | discriminate]).
  contradiction.
Qed.

(** ** The result latch *)

Lemma Lz4MtResult_eqb_eq (a b : Lz4MtResult) :
  Lz4MtResult_eqb a b = true <-> a = b.
Proof.
  split.
  - destruct a, b; simpl; intros H; try reflexivity; discriminate.
  - intros ->. destruct b; reflexivity.
Qed.

Lemma setResult_specific {W : Type} (r : Lz4MtResult) (c : Lz4MtContext W) :
  is_specific (result c) = true -> Context.setResult r c = (result c, c).
Proof.
  unfold is_specific, Context.setResult. intros H.
  apply negb_true_iff in H. rewrite H. reflexivity.
Qed.

Lemma setResult_unspecific {W : Type} (r : Lz4MtResult)
      (c : Lz4MtContext W) :
  is_specific (result c) = false ->
  Context.setResult r c = (r, with_result r c).
Proof.
  unfold is_specific, Context.setResult. intros H.
  apply negb_false_iff in H. rewrite H. reflexivity.
Qed.

Lemma setResults_specific {W : Type} (rs : list Lz4MtResult)
      (c : Lz4MtContext W) :
  is_specific (result c) = true ->
  setResults rs c = (map (fun _ => result c) rs, c).
Proof.
  intros H. induction rs as [|r rs IH]; simpl.
  - reflexivity.
  - rewrite (setResult_specific r c H), IH. reflexivity.
Qed.

Lemma setResults_first_specific {W : Type} (rs : list Lz4MtResult) :
  forall (c : Lz4MtContext W) (s : Lz4MtResult),
    is_specific (result c) = false ->
    find is_specific rs = Some s ->
    result (snd (setResults rs c)) = s.
Proof.
  induction rs as [|r rs IH]; simpl; intros c s Hc Hfind.
  - discriminate.
  - rewrite (setResult_unspecific r c Hc).
    destruct (is_specific r) eqn:Hr.
    + injection Hfind as <-.
      rewrite (setResults_specific rs (with_result r c)) by exact Hr.
      reflexivity.
    + specialize (IH (with_result r c) s Hr Hfind).
      destruct (setResults rs (with_result r c)) as [vs c2]. exact IH.
Qed.

(** C7. The result latch: [Context::setResult] replaces the stored result
    only when the stored result is [OK] or the generic [ERROR]. Once a
    specific code is stored, every later [setResult] call, whatever its
    argument, returns the stored code and leaves the context as it is;
    and from [OK] or [ERROR], the first specific code of a run of calls
    is the one that stays. *)
Theorem setResult_latch {W : Type} (c : Lz4MtContext W)
        (rs : list Lz4MtResult) :
  (is_specific (result c) = true ->
   setResults rs c = (map (fun _ => result c) rs, c)) /\
  (is_specific (result c) = false ->
   forall r, Context.setResult r c = (r, with_result r c)) /\
  (is_specific (result c) = false ->
   forall s, find is_specific rs = Some s ->
             result (snd (setResults rs c)) = s).
Proof.
  split; [|split].
  - apply setResults_specific.
  - intros H r. apply setResult_unspecific. exact H.
  - intros H s. apply setResults_first_specific. exact H.
Qed.

Lemma setResult_latch_witness :
  setResults [LZ4MT_RESULT_OK; LZ4MT_RESULT_ERROR; LZ4MT_RESULT_INVALID_HEADER]
             (example_context LZ4MT_RESULT_DECOMPRESS_FAIL
                              (Mem.open [] false None) 1)
  = ([LZ4MT_RESULT_DECOMPRESS_FAIL; LZ4MT_RESULT_DECOMPRESS_FAIL;
      LZ4MT_RESULT_DECOMPRESS_FAIL],
     example_context LZ4MT_RESULT_DECOMPRESS_FAIL (Mem.open [] false None) 1)
  /\
  result (snd (setResults
                 [LZ4MT_RESULT_ERROR; LZ4MT_RESULT_INVALID_HEADER;
                  LZ4MT_RESULT_DECOMPRESS_FAIL]
                 (example_context LZ4MT_RESULT_OK (Mem.open [] false None) 1)))
  = LZ4MT_RESULT_INVALID_HEADER.
Proof.
  split.
  - exact (proj1 (setResult_latch
                    (example_context LZ4MT_RESULT_DECOMPRESS_FAIL
                                     (Mem.open [] false None) 1)
                    [LZ4MT_RESULT_OK; LZ4MT_RESULT_ERROR;
                     LZ4MT_RESULT_INVALID_HEADER]) eq_refl).
  - exact (proj2 (proj2 (setResult_latch
                    (example_context LZ4MT_RESULT_OK
                                     (Mem.open [] false None) 1)
                    [LZ4MT_RESULT_ERROR; LZ4MT_RESULT_INVALID_HEADER;
                     LZ4MT_RESULT_DECOMPRESS_FAIL]))
                 eq_refl LZ4MT_RESULT_INVALID_HEADER eq_refl).
Defined.

(** ** The wrapped I/O helpers *)

Lemma readU32_error {W : Type} (c : Lz4MtContext W) :
  Context.error c = true -> Context.readU32 c = (0, c).
Proof. unfold Context.readU32. intros ->. reflexivity. Qed.

Lemma writeU32_error {W : Type} (v : Z) (c : Lz4MtContext W) :
  Context.error c = true -> Context.writeU32 v c = (false, c).
Proof. unfold Context.writeU32. intros ->. reflexivity. Qed.

Lemma writeBin_error {W : Type} (ptr : list byte) (size : Z)
      (c : Lz4MtContext W) :
  Context.error c = true -> Context.writeBin ptr size c = (false, c).
Proof. unfold Context.writeBin. intros ->. reflexivity. Qed.

Lemma setResult_keeps_error {W : Type} (r : Lz4MtResult)
      (c : Lz4MtContext W) :
  Context.error c = true -> r <> LZ4MT_RESULT_OK ->
  let c' := snd (Context.setResult r c) in
  Context.error c' = true /\ world c' = world c /\ calls c' = calls c.
Proof.
  intros He Hr. unfold Context.setResult.
  destruct (Lz4MtResult_eqb LZ4MT_RESULT_OK (result c)
            || Lz4MtResult_eqb LZ4MT_RESULT_ERROR (result c)); simpl.
  - repeat split. unfold Context.error; simpl.
    destruct r; try reflexivity. contradiction.
  - repeat split. exact He.
Qed.

Lemma helper_call_latched {W : Type} (h : HelperCall)
      (c : Lz4MtContext W) :
  Context.error c = true ->
  is_specific (result c) = true \/ keeps_error h = true ->
  short_circuit h (fst (helper_call h c)) /\
  Context.error (snd (helper_call h c)) = true /\
  world (snd (helper_call h c)) = world c /\
  calls (snd (helper_call h c)) = calls c /\
  (is_specific (result c) = true -> snd (helper_call h c) = c).
Proof.
  intros He Hk. destruct h as [|v|ptr size|r]; simpl.
  - rewrite (readU32_error c He). simpl. auto.
  - rewrite (writeU32_error v c He). simpl. auto.
  - rewrite (writeBin_error ptr size c He). simpl. auto.
  - destruct (is_specific (result c)) eqn:Hs.
    + rewrite (setResult_specific r c Hs). simpl. auto.
    + destruct Hk as [Hk | Hk]; [discriminate Hk|].
      assert (Hr : r <> LZ4MT_RESULT_OK) by (intros ->; discriminate).
      pose proof (setResult_keeps_error r c He Hr) as H.
      destruct (Context.setResult r c) as [v c1]. simpl in *.
      repeat split; try tauto. intros Hf. discriminate Hf.
Qed.

(** With a non-OK code in the result slot, a run of helper calls does
    nothing, when the code is a specific one or when no call of the run
    hands [OK] to [setResult]. *)
Lemma helper_calls_latched {W : Type} (hs : list HelperCall) :
  forall c : Lz4MtContext W,
    Context.error c = true ->
    is_specific (result c) = true \/ forallb keeps_error hs = true ->
    Forall2 short_circuit hs (fst (helper_calls hs c)) /\
    Context.error (snd (helper_calls hs c)) = true /\
    world (snd (helper_calls hs c)) = world c /\
    calls (snd (helper_calls hs c)) = calls c.
Proof.
  induction hs as [|h hs IH]; intros c He Hk; simpl.
  - repeat split; [constructor | exact He].
  - assert (Hh : is_specific (result c) = true \/ keeps_error h = true).
    { destruct Hk as [Hk | Hk]; [left; exact Hk | right].
      simpl in Hk. apply andb_true_iff in Hk. tauto. }
    destruct (helper_call_latched h c He Hh)
      as (Hv & He1 & Hw1 & Hc1 & Hsame).
    assert (Hhs : is_specific (result (snd (helper_call h c))) = true \/
                  forallb keeps_error hs = true).
    { destruct Hk as [Hk | Hk].
      - left. rewrite (Hsame Hk). exact Hk.
      - right. simpl in Hk. apply andb_true_iff in Hk. tauto. }
    destruct (helper_call h c) as [v c1]. simpl in *.
    destruct (IH c1 He1 Hhs) as (Hvs & He2 & Hw2 & Hc2).
    destruct (helper_calls hs c1) as [vs c2]. simpl in *.
    repeat split.
    + constructor; assumption.
    + exact He2.
    + congruence.
    + congruence.
Qed.

(** C10 (amended). Once a non-OK result is latched, the wrapped I/O
    helpers short-circuit for as long as the result slot holds a non-OK
    code: [readU32] returns 0 and [writeU32] and [writeBin] return false,
    and none invokes the read or the write callback: the stream state
    and the list of callback calls stay as they were. The slot holds a
    non-OK code for ever when the code is a specific one, whatever is
    handed to [setResult]; it holds one after the generic [ERROR] as
    long as no call hands [OK] to [setResult]. *)
Theorem helpers_short_circuit {W : Type} (hs : list HelperCall)
        (c : Lz4MtContext W) :
  Context.error c = true ->
  is_specific (result c) = true \/ forallb keeps_error hs = true ->
  Forall2 short_circuit hs (fst (helper_calls hs c)) /\
  Context.error (snd (helper_calls hs c)) = true /\
  world (snd (helper_calls hs c)) = world c /\
  calls (snd (helper_calls hs c)) = calls c.
Proof. exact (helper_calls_latched hs c). Qed.

Lemma helpers_short_circuit_witness :
  Forall2 short_circuit
    [CallReadU32; CallWriteU32 7; CallWriteBin [x41; x42] 2;
     CallSetResult LZ4MT_RESULT_INVALID_HEADER; CallReadU32]
    (fst (helper_calls
            [CallReadU32; CallWriteU32 7; CallWriteBin [x41; x42] 2;
             CallSetResult LZ4MT_RESULT_INVALID_HEADER; CallReadU32]
            (example_context LZ4MT_RESULT_ERROR
                             (Mem.open [x01; x02; x03; x04] false None) 1)))
  /\ calls (snd (helper_calls
            [CallReadU32; CallWriteU32 7; CallWriteBin [x41; x42] 2;
             CallSetResult LZ4MT_RESULT_INVALID_HEADER; CallReadU32]
            (example_context LZ4MT_RESULT_ERROR
                             (Mem.open [x01; x02; x03; x04] false None) 1)))
     = [].
Proof.
  pose proof (helpers_short_circuit
    [CallReadU32; CallWriteU32 7; CallWriteBin [x41; x42] 2;
     CallSetResult LZ4MT_RESULT_INVALID_HEADER; CallReadU32]
    (example_context LZ4MT_RESULT_ERROR
                     (Mem.open [x01; x02; x03; x04] false None) 1)
    eq_refl (or_intror eq_refl)) as H.
  split; [exact (proj1 H) | exact (proj2 (proj2 (proj2 H)))].
Defined.

(** C10 (as stated) fails: with the generic [ERROR] latched, a call of
    [setResult(OK)] clears the result slot, as [lz4mtDecompress] does at
    its entry (line 517) and after a failed read of a magic number (line
    522), and the helpers that follow are not short-circuited: [readU32]
    calls the read callback and returns the four bytes it read,
    [writeU32] calls the write callback and returns true. *)
Lemma helpers_rearmed_counterexample :
  Context.error
    (example_context LZ4MT_RESULT_ERROR
                     (Mem.open [x01; x02; x03; x04] false None) 1) = true /\
  fst (helper_calls
         [CallSetResult LZ4MT_RESULT_OK; CallReadU32; CallWriteU32 7]
         (example_context LZ4MT_RESULT_ERROR
                          (Mem.open [x01; x02; x03; x04] false None) 1))
  = [ValueResult LZ4MT_RESULT_OK; ValueU32 0x04030201; ValueBool true] /\
  calls (snd (helper_calls
                [CallSetResult LZ4MT_RESULT_OK; CallReadU32; CallWriteU32 7]
                (example_context LZ4MT_RESULT_ERROR
                                 (Mem.open [x01; x02; x03; x04] false None)
                                 1)))
  = [CallRead 4; CallWrite [x07; x00; x00; x00]] /\
  Mem.written
    (world (snd (helper_calls
                   [CallSetResult LZ4MT_RESULT_OK; CallReadU32;
                    CallWriteU32 7]
                   (example_context LZ4MT_RESULT_ERROR
                      (Mem.open [x01; x02; x03; x04] false None) 1))))
  = [x07; x00; x00; x00].
Proof. vm_compute. auto. Qed.

(** ** Writes of the helpers *)

Lemma error_false_result {W : Type} (c : Lz4MtContext W) :
  Context.error c = false <-> result c = LZ4MT_RESULT_OK.
Proof.
  unfold Context.error. rewrite negb_false_iff, Lz4MtResult_eqb_eq.
  split; congruence.
Qed.

Lemma setResult_ERROR_error {W : Type} (c : Lz4MtContext W) :
  Context.error (snd (Context.setResult LZ4MT_RESULT_ERROR c)) = true.
Proof.
  unfold Context.setResult.
  destruct (Lz4MtResult_eqb LZ4MT_RESULT_OK (result c)
            || Lz4MtResult_eqb LZ4MT_RESULT_ERROR (result c)) eqn:H; simpl.
  - reflexivity.
  - unfold Context.error. apply orb_false_iff in H as [H _]. rewrite H.
    reflexivity.
Qed.

Lemma setResult_calls {W : Type} (r : Lz4MtResult) (c : Lz4MtContext W) :
  calls (snd (Context.setResult r c)) = calls c /\
  world (snd (Context.setResult r c)) = world c.
Proof.
  unfold Context.setResult.
  destruct (Lz4MtResult_eqb LZ4MT_RESULT_OK (result c)
            || Lz4MtResult_eqb LZ4MT_RESULT_ERROR (result c)); simpl; auto.
Qed.

(** A write helper either short-circuits, or makes its one callback call;
    it leaves no error only if that call took every byte. *)
Lemma write_helper_step {W : Type} (h : HelperCall) (c : Lz4MtContext W) :
  is_write h = true ->
  let c' := snd (helper_call h c) in
  (Context.error c = true /\ c' = c) \/
  (Context.error c = false /\ calls c' = calls c ++ write_of h).
Proof.
  intros Hw. destruct h as [|v|ptr size|r]; try discriminate; simpl;
    destruct (Context.error c) eqn:He.
  - left. rewrite (writeU32_error v c He). auto.
  - right. split; [reflexivity|].
    unfold Context.writeU32. rewrite He. unfold invoke_write.
    destruct (write c (world c) (storeU32 v)) as [n w].
    destruct (negb (4 =? n)); simpl;
      [rewrite (proj1 (setResult_calls _ _))|]; reflexivity.
  - left. rewrite (writeBin_error ptr size c He). auto.
  - right. split; [reflexivity|].
    unfold Context.writeBin. rewrite He. unfold invoke_write.
    destruct (write c (world c) (takeZ size ptr)) as [n w].
    destruct (negb (size =? n)); simpl;
      [rewrite (proj1 (setResult_calls _ _))|]; reflexivity.
Qed.

Lemma write_helper_error_mono {W : Type} (h : HelperCall)
      (c : Lz4MtContext W) :
  is_write h = true ->
  Context.error (snd (helper_call h c)) = false -> Context.error c = false.
Proof.
  intros Hw H. destruct (Context.error c) eqn:He; [|reflexivity].
  destruct (write_helper_step h c Hw) as [[_ Hc] | [He' _]].
  - rewrite Hc in H. congruence.
  - congruence.
Qed.

(** A run of write helpers hands the callback a prefix of its writes, and
    all of them when it leaves no error. *)
Lemma write_helpers_calls {W : Type} (hs : list HelperCall) :
  forall c : Lz4MtContext W,
    forallb is_write hs = true ->
    let c' := snd (helper_calls hs c) in
    (exists k, calls c' = calls c ++ firstn k (flat_map write_of hs)) /\
    (Context.error c' = false ->
     Context.error c = false /\
     calls c' = calls c ++ flat_map write_of hs).
Proof.
  induction hs as [|h hs IH]; intros c Hall; simpl.
  - split.
    + exists 0%nat. simpl. rewrite app_nil_r. reflexivity.
    + intros H. rewrite app_nil_r. auto.
  - simpl in Hall. apply andb_true_iff in Hall as [Hh Hhs].
    pose proof (write_helper_step h c Hh) as Hstep.
    pose proof (write_helper_error_mono h c Hh) as Hmono.
    assert (Hlen : exists x, write_of h = [x])
      by (destruct h; try discriminate; simpl; eauto).
    destruct Hlen as [x Hx].
    assert (Hkeep : forallb keeps_error hs = true).
    { clear -Hhs. induction hs as [|a l IHl]; [reflexivity|].
      simpl in *. apply andb_true_iff in Hhs as [Ha Hl].
      rewrite (IHl Hl). destruct a; try discriminate; reflexivity. }
    destruct (helper_call h c) as [v c1]. simpl in *.
    destruct (IH c1 Hhs) as [[k Hk] Hfull].
    pose proof (helper_calls_latched hs c1) as Hs.
    destruct (helper_calls hs c1) as [vs c2]. simpl in *.
    destruct Hstep as [[He Hc] | [He Hc]].
    + subst c1.
      destruct (Hs He (or_intror Hkeep)) as (_ & He2 & _ & Hcalls). split.
      * exists 0%nat. simpl. rewrite app_nil_r. exact Hcalls.
      * intros H2. congruence.
    + split.
      * exists (S k). rewrite Hk, Hc, Hx. simpl.
        rewrite <- app_assoc. reflexivity.
      * intros H2. destruct (Hfull H2) as [_ Hcalls]. split; [exact He|].
        rewrite Hcalls, Hc, Hx. rewrite <- app_assoc. reflexivity.
Qed.

(** ** The size prefix of a block *)

Lemma u32_small (z : Z) : 0 <= z < 2 ^ 32 -> u32 z = z.
Proof. intros H. unfold u32. apply Z.mod_small. exact H. Qed.

Lemma u32_range (z : Z) : 0 <= u32 z < 2 ^ 32.
Proof. unfold u32. apply Z.mod_pos_bound. lia. Qed.

Lemma cIncompressible_value : cIncompressible = - 2 ^ 31.
Proof. reflexivity. Qed.

Lemma incompMask_value : incompMask = - 2 ^ 31.
Proof. reflexivity. Qed.

Lemma bits_above (n k i : Z) : 0 <= n < 2 ^ k -> k <= i -> Z.testbit n i = false.
Proof.
  intros Hn Hi. destruct (Z.ltb_spec k 0).
  - rewrite Z.pow_neg_r in Hn by lia. lia.
  - rewrite <- (Z.mod_small n (2 ^ k)) by lia.
    apply Z.mod_pow2_bits_high. lia.
Qed.

Lemma land_low_high (n k : Z) : 0 <= k -> 0 <= n < 2 ^ k -> Z.land n (- 2 ^ k) = 0.
Proof.
  intros Hk Hn. apply Z.bits_inj'. intros i Hi.
  rewrite Z.land_spec, Z.bits_0.
  destruct (Z.ltb_spec i k).
  - replace (- 2 ^ k) with ((-1) * 2 ^ k) by lia.
    rewrite Z.mul_pow2_bits_low by lia. apply andb_false_r.
  - rewrite (bits_above n k i) by lia. reflexivity.
Qed.

Lemma lor_flag (n : Z) : 0 <= n < 2 ^ 31 -> Z.lor n (- 2 ^ 31) = n - 2 ^ 31.
Proof.
  intros Hn. pose proof (Z.add_lor_land n (- 2 ^ 31)) as H.
  rewrite (land_low_high n 31) in H by lia. lia.
Qed.

Lemma incompressible_prefix (n : Z) :
  0 <= n < 2 ^ 31 -> u32 (Z.lor n cIncompressible) = n + 2 ^ 31.
Proof.
  intros Hn. rewrite cIncompressible_value, lor_flag by exact Hn.
  unfold u32. replace (n - 2 ^ 31) with (n + 2 ^ 31 + (-1) * 2 ^ 32) by lia.
  rewrite Z.mod_add by lia. apply Z.mod_small. lia.
Qed.

Lemma block_prefix_bits (srcSize cmpSize : Z) :
  0 <= srcSize < 2 ^ 31 -> cmpSize < 2 ^ 31 ->
  Z.testbit (block_prefix srcSize cmpSize) 31 = (cmpSize <=? 0) /\
  Z.land (block_prefix srcSize cmpSize) (Z.ones 31)
  = (if cmpSize <=? 0 then srcSize else cmpSize) /\
  0 < block_prefix srcSize cmpSize < 2 ^ 32.
Proof.
  intros Hs Hc. unfold block_prefix.
  destruct (Z.leb_spec cmpSize 0) as [Hle | Hgt].
  - repeat split; try lia.
    + apply (Z.testbit_unique _ 31 true srcSize 0); simpl Z.b2z; lia.
    + rewrite Z.land_ones by lia.
      replace (srcSize + 2 ^ 31) with (srcSize + 1 * 2 ^ 31) by lia.
      rewrite Z.mod_add by lia. apply Z.mod_small. lia.
  - repeat split; try lia.
    + apply (bits_above cmpSize 31 31); lia.
    + rewrite Z.land_ones by lia. apply Z.mod_small. lia.
Qed.

(** ** The worker of lz4mtCompress *)

Lemma compress_f_after_gate_helpers {W : Type} (E : Externals)
      (nBlockCheckSum : Z) (streamChecksum : bool) (src : list byte)
      (srcSize cmpSize : Z) (cmpPtr : list byte) (c : Lz4MtContext W)
      (xxh : Xxh32.t) :
  fst (compress_f_after_gate E nBlockCheckSum streamChecksum src srcSize
                             cmpSize cmpPtr c xxh)
  = snd (helper_calls
           (block_helpers E nBlockCheckSum src srcSize cmpSize cmpPtr) c).
Proof.
  unfold compress_f_after_gate, block_helpers.
  destruct (cmpSize <=? 0); destruct (negb (0 =? nBlockCheckSum)); simpl;
    destruct (Context.writeU32 _ c) as [b1 c1]; simpl;
    destruct (Context.writeBin _ _ c1) as [b2 c2]; simpl;
    try (destruct (Context.writeU32 _ c2) as [b3 c3]; simpl);
    reflexivity.
Qed.

Lemma block_helpers_writes (E : Externals) (nBlockCheckSum : Z)
      (src : list byte) (srcSize cmpSize : Z) (cmpPtr : list byte) :
  0 <= srcSize < 2 ^ 31 -> cmpSize < 2 ^ 31 ->
  forallb is_write
          (block_helpers E nBlockCheckSum src srcSize cmpSize cmpPtr) = true
  /\ flat_map write_of
       (block_helpers E nBlockCheckSum src srcSize cmpSize cmpPtr)
     = block_writes E nBlockCheckSum src srcSize cmpSize cmpPtr.
Proof.
  intros Hs Hc.
  unfold block_helpers, block_writes, block_prefix, block_payload,
    Xxh32.digest, Xxh32.oneshot.
  destruct (Z.leb_spec cmpSize 0) as [Hle | Hgt];
    destruct (negb (0 =? nBlockCheckSum));
    cbn [flat_map write_of app forallb is_write andb Xxh32.fed Xxh32.seed];
    (split; [reflexivity|]).
  - rewrite incompressible_prefix by exact Hs. reflexivity.
  - rewrite incompressible_prefix by exact Hs. reflexivity.
  - rewrite (u32_small cmpSize) by lia. reflexivity.
  - rewrite (u32_small cmpSize) by lia. reflexivity.
Qed.

(** ** Validation of the descriptor *)

(** Boolean comparisons of the context as propositions. *)
Ltac zbool :=
  repeat match goal with
         | H : (_ =? _) = true |- _ => apply Z.eqb_eq in H
         | H : (_ =? _) = false |- _ => apply Z.eqb_neq in H
         | H : (_ <? _) = true |- _ => apply Z.ltb_lt in H
         | H : (_ <? _) = false |- _ => apply Z.ltb_ge in H
         | H : (_ <=? _) = true |- _ => apply Z.leb_le in H
         | H : (_ <=? _) = false |- _ => apply Z.leb_gt in H
         end.

Lemma validate_cases (sd : Lz4MtStreamDescriptor) :
  (validateStreamDescriptor sd = LZ4MT_RESULT_OK /\ ~ descriptor_rejected sd)
  \/
  (validateStreamDescriptor sd <> LZ4MT_RESULT_OK /\
   code_fault (validateStreamDescriptor sd) sd /\ descriptor_rejected sd).
Proof.
  unfold validateStreamDescriptor, descriptor_rejected.
  destruct (1 =? versionNumber (flg sd)) eqn:H1; cbn [negb];
    [|right; zbool; repeat split; [discriminate | cbn; lia | lia]].
  destruct (0 =? presetDictionary (flg sd)) eqn:H2; cbn [negb];
    [|right; zbool; repeat split; [discriminate | cbn; lia | lia]].
  destruct (0 =? reserved1 (flg sd)) eqn:H3; cbn [negb];
    [|right; zbool; repeat split; [discriminate | cbn; lia | lia]].
  destruct (0 =? blockIndependence (flg sd)) eqn:H4;
    [right; zbool; repeat split; [discriminate | cbn; lia | lia]|].
  destruct (blockMaximumSize (bd sd) <? 4) eqn:H5; cbn [orb];
    [right; zbool; repeat split; [discriminate | cbn; lia | lia]|].
  destruct (7 <? blockMaximumSize (bd sd)) eqn:H6;
    [right; zbool; repeat split; [discriminate | cbn; lia | lia]|].
  destruct (0 =? reserved3 (bd sd)) eqn:H7; cbn [negb];
    [|right; zbool; repeat split; [discriminate | cbn; lia | lia]].
  destruct (0 =? reserved2 (bd sd)) eqn:H8; cbn [negb];
    [|right; zbool; repeat split; [discriminate | cbn; lia | lia]].
  left. zbool. split; [reflexivity | lia].
Qed.

Lemma validate_rejected (sd : Lz4MtStreamDescriptor) :
  descriptor_rejected sd ->
  validateStreamDescriptor sd <> LZ4MT_RESULT_OK /\
  code_fault (validateStreamDescriptor sd) sd.
Proof.
  intros H. destruct (validate_cases sd) as [[_ Hn] | (Hr & Hc & _)];
    [contradiction | auto].
Qed.

Lemma eqb_OK_false (r : Lz4MtResult) :
  r <> LZ4MT_RESULT_OK -> Lz4MtResult_eqb LZ4MT_RESULT_OK r = false.
Proof.
  intros H. destruct (Lz4MtResult_eqb LZ4MT_RESULT_OK r) eqn:E; [|reflexivity].
  apply Lz4MtResult_eqb_eq in E. congruence.
Qed.

Lemma is_specific_not_OK (r : Lz4MtResult) :
  is_specific r = true -> r <> LZ4MT_RESULT_OK.
Proof. intros H Heq. subst r. discriminate. Qed.

(** C2 (as the code has it). For a descriptor with a version other than
    1, a reserved bit set, blockIndependence 0, a preset dictionary or a
    block size id outside 4..7, [lz4mtCompress] returns before it calls
    any callback: nothing is written. It returns through [setResult]:
    when the result slot of the context holds [OK] or [ERROR] on entry,
    the code of the validation, which names a fault the descriptor has;
    when a specific code is latched on entry, that code. In both cases
    the returned code is not [OK]. *)
Theorem compress_rejects_descriptor {W : Type} (E : Externals)
        (fuel : nat) (sched : list nat) (c : Lz4MtContext W)
        (sd : Lz4MtStreamDescriptor) :
  descriptor_rejected sd ->
  exists r c',
    lz4mtCompress E fuel sched c sd = Done (r, c') /\
    calls c' = calls c /\ world c' = world c /\
    r <> LZ4MT_RESULT_OK /\
    (is_specific (result c) = false ->
     r = validateStreamDescriptor sd /\ code_fault r sd) /\
    (is_specific (result c) = true -> r = result c).
Proof.
  intros Hrej. destruct (validate_rejected sd Hrej) as [Hne Hfault].
  unfold lz4mtCompress, compress_until_tail.
  rewrite (eqb_OK_false _ Hne). simpl.
  destruct (Context.setResult (validateStreamDescriptor sd) c) as [r c'] eqn:Hset.
  exists r, c'. split; [reflexivity|].
  destruct (setResult_calls (validateStreamDescriptor sd) c) as [Hcalls Hworld].
  rewrite Hset in Hcalls, Hworld. simpl in Hcalls, Hworld.
  destruct (is_specific (result c)) eqn:Hspec.
  - rewrite (setResult_specific _ c Hspec) in Hset. injection Hset as <- <-.
    split; [reflexivity|]. split; [reflexivity|].
    split; [apply is_specific_not_OK; exact Hspec|].
    split; [discriminate | reflexivity].
  - rewrite (setResult_unspecific _ c Hspec) in Hset. injection Hset as <- <-.
    split; [reflexivity|]. split; [reflexivity|].
    split; [exact Hne|]. split; [auto | discriminate].
Qed.

Lemma compress_rejects_descriptor_witness :
  exists r c',
    lz4mtCompress (Standin.externals true false) 0 []
                  (example_context LZ4MT_RESULT_OK (Mem.open [x41] false None)
                                   LZ4MT_MODE_SEQUENTIAL)
                  version0_descriptor = Done (r, c') /\
    calls c' = [] /\ Mem.written (world c') = [] /\
    r = LZ4MT_RESULT_INVALID_VERSION.
Proof.
  destruct (compress_rejects_descriptor
              (Standin.externals true false) 0 []
              (example_context LZ4MT_RESULT_OK (Mem.open [x41] false None)
                               LZ4MT_MODE_SEQUENTIAL)
              version0_descriptor)
    as (r & c' & Hrun & Hcalls & Hworld & _ & Hcode & _).
  - left. simpl. lia.
  - exists r, c'. split; [exact Hrun|]. split; [exact Hcalls|].
    split; [rewrite Hworld; reflexivity|].
    exact (proj1 (Hcode eq_refl)).
Defined.

(** C2 (as stated) fails when a specific code is latched in the context
    on entry: with [DECOMPRESS_FAIL] in the result slot, the version 0
    descriptor makes [lz4mtCompress] return [DECOMPRESS_FAIL], which is
    none of the codes of the validation. *)
Lemma compress_rejects_latched_counterexample :
  descriptor_rejected version0_descriptor /\
  validateStreamDescriptor version0_descriptor
  = LZ4MT_RESULT_INVALID_VERSION /\
  lz4mtCompress (Standin.externals true false) 0 []
                (example_context LZ4MT_RESULT_DECOMPRESS_FAIL
                                 (Mem.open [x41] false None)
                                 LZ4MT_MODE_SEQUENTIAL)
                version0_descriptor
  = Done (LZ4MT_RESULT_DECOMPRESS_FAIL,
          example_context LZ4MT_RESULT_DECOMPRESS_FAIL
                          (Mem.open [x41] false None) LZ4MT_MODE_SEQUENTIAL).
Proof.
  split; [left; simpl; lia|]. split; reflexivity.
Qed.

(** ** The end-of-stream mark of lz4mtCompress *)

Lemma validate_not_EOS (sd : Lz4MtStreamDescriptor) :
  validateStreamDescriptor sd <> LZ4MT_RESULT_CANNOT_WRITE_EOS.
Proof.
  unfold validateStreamDescriptor.
  repeat match goal with
         | |- context [if ?b then _ else _] => destruct b
         end; discriminate.
Qed.

Lemma setResult_returns {W : Type} (r0 r : Lz4MtResult)
      (c : Lz4MtContext W) :
  r0 <> r -> is_specific r = true ->
  (fst (Context.setResult r0 c) = r <-> result c = r).
Proof.
  intros Hne Hr. destruct (is_specific (result c)) eqn:Hs.
  - rewrite (setResult_specific r0 c Hs). simpl. tauto.
  - rewrite (setResult_unspecific r0 c Hs). simpl. split.
    + intros H. contradiction.
    + intros H. rewrite H in Hs. congruence.
Qed.

Lemma compress_until_tail_returns {W : Type} (E : Externals) (fuel : nat)
      (sched : list nat) (c : Lz4MtContext W) (sd : Lz4MtStreamDescriptor)
      (r : Lz4MtResult) (c' : Lz4MtContext W) :
  compress_until_tail E fuel sched c sd = Done (inl (r, c')) ->
  (r = LZ4MT_RESULT_CANNOT_WRITE_EOS
   <-> result c = LZ4MT_RESULT_CANNOT_WRITE_EOS).
Proof.
  unfold compress_until_tail.
  destruct (negb (Lz4MtResult_eqb LZ4MT_RESULT_OK
                                  (validateStreamDescriptor sd))).
  - intros H. injection H as H.
    pose proof (setResult_returns (validateStreamDescriptor sd)
                  LZ4MT_RESULT_CANNOT_WRITE_EOS c (validate_not_EOS sd)
                  eq_refl) as Hiff.
    rewrite H in Hiff. exact Hiff.
  - destruct (negb (0 =? streamSize (flg sd)) && negb (NDEBUG E)
              && (0 =? sd_streamSize sd)); [discriminate|].
    unfold Context.write, invoke_write.
    destruct (write c (world c) (compress_header E sd)) as [n w].
    destruct (negb (lengthZ (compress_header E sd) =? n)).
    + intros H. injection H as H.
      match type of H with
      | Context.setResult _ ?c1 = _ =>
          pose proof (setResult_returns LZ4MT_RESULT_CANNOT_WRITE_HEADER
                        LZ4MT_RESULT_CANNOT_WRITE_EOS c1
                        ltac:(discriminate) eq_refl) as Hiff
      end.
      rewrite H in Hiff. exact Hiff.
    + cbv zeta.
      match goal with
      | |- run_bind ?x _ = _ -> _ => destruct x as [[c2 xxh2]| | |]
      end; cbn [run_bind]; intros H; discriminate H.
Qed.

Lemma compress_tail_EOS {W : Type} (E : Externals) (streamChecksum : bool)
      (c2 : Lz4MtContext W) (xxh2 : Xxh32.t) :
  fst (compress_tail E streamChecksum c2 xxh2) = LZ4MT_RESULT_CANNOT_WRITE_EOS
  <-> (Context.error c2 = true \/
       fst (write c2 (world c2) (storeU32 LZ4S_EOS)) <> 4).
Proof.
  unfold compress_tail.
  destruct (Context.error c2) eqn:He.
  - rewrite (writeU32_error _ c2 He). simpl. tauto.
  - unfold Context.writeU32 at 1. rewrite He. unfold invoke_write.
    destruct (write c2 (world c2) (storeU32 LZ4S_EOS)) as [n w].
    cbn [fst snd].
    destruct (Z.eqb_spec 4 n) as [Heq | Hne]; cbn [negb].
    + split.
      * destruct streamChecksum; cbn [negb fst];
          [destruct (Context.writeU32 _ _) as [ok2 c3]; destruct ok2|];
          cbn [negb fst]; intros H; discriminate H.
      * intros [H | H]; [discriminate | lia].
    + cbn [fst]. split; [|reflexivity]. intros _. right. lia.
Qed.

(** C6 (as the code has it). [lz4mtCompress] returns [CANNOT_WRITE_EOS]
    exactly when [writeU32] of the end-of-stream mark returns false after
    the descriptor was accepted and the header written in full: the write
    callback does not return 4 for the four bytes of the mark, or a
    result other than [OK] is latched by then and the write is skipped.
    When it returns from the header block instead, it returns the latch:
    [CANNOT_WRITE_EOS] only if the context held it on entry. *)
Theorem compress_eos_result {W : Type} (E : Externals) (fuel : nat)
        (sched : list nat) (c : Lz4MtContext W)
        (sd : Lz4MtStreamDescriptor) (r : Lz4MtResult)
        (c' : Lz4MtContext W) :
  lz4mtCompress E fuel sched c sd = Done (r, c') ->
  (r = LZ4MT_RESULT_CANNOT_WRITE_EOS <->
   (exists x, compress_until_tail E fuel sched c sd = Done (inl x) /\
              result c = LZ4MT_RESULT_CANNOT_WRITE_EOS) \/
   (exists c2 xxh2,
       compress_until_tail E fuel sched c sd = Done (inr (c2, xxh2)) /\
       (Context.error c2 = true \/
        fst (write c2 (world c2) (storeU32 LZ4S_EOS)) <> 4))).
Proof.
  unfold lz4mtCompress.
  destruct (compress_until_tail E fuel sched c sd)
    as [[[r1 c1] | [c2 xxh2]] | | |] eqn:Hrun; cbn [run_bind];
    try discriminate.
  - intros H. injection H as -> ->.
    pose proof (compress_until_tail_returns E fuel sched c sd r c' Hrun)
      as Hiff.
    split.
    + intros Hr. left. exists (r, c'). split; [reflexivity | tauto].
    + intros [(x & _ & Hc) | (c2 & xxh2 & Heq & _)]; [tauto | discriminate].
  - intros H. apply (f_equal (run_value (r, c'))) in H.
    cbn [run_value] in H.
    pose proof (compress_tail_EOS E (negb (0 =? streamChecksum (flg sd)))
                                  c2 xxh2) as Hiff.
    rewrite H in Hiff. cbn [fst] in Hiff.
    split.
    + intros Hr. right. exists c2, xxh2. split; [reflexivity | tauto].
    + intros [(x & Heq & _) | (c3 & xxh3 & Heq & Hc)]; [discriminate|].
      injection Heq as <- <-. tauto.
Qed.

Lemma compress_eos_result_witness :
  LZ4MT_RESULT_CANNOT_WRITE_EOS = LZ4MT_RESULT_CANNOT_WRITE_EOS <->
  (exists x,
      compress_until_tail (Standin.externals true false) 2 []
        (example_context LZ4MT_RESULT_OK (header_only_stream [x41])
                         LZ4MT_MODE_SEQUENTIAL)
        lz4mtInitStreamDescriptor = Done (inl x) /\
      result (example_context LZ4MT_RESULT_OK (header_only_stream [x41])
                              LZ4MT_MODE_SEQUENTIAL)
      = LZ4MT_RESULT_CANNOT_WRITE_EOS) \/
  (exists c2 xxh2,
      compress_until_tail (Standin.externals true false) 2 []
        (example_context LZ4MT_RESULT_OK (header_only_stream [x41])
                         LZ4MT_MODE_SEQUENTIAL)
        lz4mtInitStreamDescriptor = Done (inr (c2, xxh2)) /\
      (Context.error c2 = true \/
       fst (write c2 (world c2) (storeU32 LZ4S_EOS)) <> 4)).
Proof.
  apply (compress_eos_result
           (Standin.externals true false) 2 []
           (example_context LZ4MT_RESULT_OK (header_only_stream [x41])
                            LZ4MT_MODE_SEQUENTIAL)
           lz4mtInitStreamDescriptor LZ4MT_RESULT_CANNOT_WRITE_EOS
           (snd (run_value
                   (LZ4MT_RESULT_OK,
                    example_context LZ4MT_RESULT_OK
                                    (header_only_stream [x41])
                                    LZ4MT_MODE_SEQUENTIAL)
                   (lz4mtCompress (Standin.externals true false) 2 []
                      (example_context LZ4MT_RESULT_OK
                                       (header_only_stream [x41])
                                       LZ4MT_MODE_SEQUENTIAL)
                      lz4mtInitStreamDescriptor)))).
  vm_compute. reflexivity.
Defined.

(** C6 (as stated) fails when the write of the mark is skipped: on an
    output that takes the 7 bytes of the header and no more, the size
    prefix of the first block is written short, [ERROR] is latched,
    [writeU32] of the mark returns false without a call of the write
    callback, and [lz4mtCompress] returns [CANNOT_WRITE_EOS]: the mark
    was never handed to the callback. The same holds in parallel mode. *)
Lemma compress_eos_skipped_counterexample :
  exists c' : Lz4MtContext Mem.Stream,
    lz4mtCompress (Standin.externals true false) 2 []
      (example_context LZ4MT_RESULT_OK (header_only_stream [x41])
                       LZ4MT_MODE_SEQUENTIAL)
      lz4mtInitStreamDescriptor
    = Done (LZ4MT_RESULT_CANNOT_WRITE_EOS, c') /\
    calls c'
    = [CallWrite (compress_header (Standin.externals true false)
                                  lz4mtInitStreamDescriptor);
       CallRead 4194304; CallCompress [x41] 1 1;
       CallWrite (storeU32 (1 + 2 ^ 31)); CallRead 4194304] /\
    ~ In (CallWrite (storeU32 LZ4S_EOS)) (calls c') /\
    result c' = LZ4MT_RESULT_ERROR.
Proof.
  eexists. split; [vm_compute; reflexivity|].
  split; [vm_compute; reflexivity|].
  split; [|reflexivity].
  vm_compute. intros H.
  repeat match type of H with
         | _ \/ _ => destruct H as [H | H]
         end; try discriminate H; exact H.
Qed.

(** ** Reads of the helpers *)

Ltac ctx_cbn :=
  cbn [result world read readEof readSkippable readSeek write compress
       decompress mode calls called with_result fst snd].

Lemma error_called {W : Type} (e : Call) (w : W) (c : Lz4MtContext W) :
  Context.error (called e w c) = Context.error c.
Proof. reflexivity. Qed.

Lemma error_with_result {W : Type} (r : Lz4MtResult) (c : Lz4MtContext W) :
  Context.error (with_result r c)
  = negb (Lz4MtResult_eqb LZ4MT_RESULT_OK r).
Proof. reflexivity. Qed.

Lemma with_result_same {W : Type} (c : Lz4MtContext W) :
  with_result (result c) c = c.
Proof. destruct c; reflexivity. Qed.

Lemma setResult_from_OK {W : Type} (r : Lz4MtResult) (c : Lz4MtContext W) :
  Context.error c = false -> Context.setResult r c = (r, with_result r c).
Proof.
  intros He. apply setResult_unspecific.
  apply error_false_result in He. unfold is_specific. rewrite He.
  reflexivity.
Qed.

Lemma readU32_short {W : Type} (c : Lz4MtContext W) (n : Z) (d : list byte)
      (w : W) :
  Context.error c = false -> read c (world c) 4 = (n, d, w) -> n <> 4 ->
  Context.readU32 c
  = (0, with_result LZ4MT_RESULT_ERROR (called (CallRead 4) w c)).
Proof.
  intros He Hr Hn. unfold Context.readU32, invoke_read. rewrite He, Hr.
  destruct (Z.eqb_spec 4 n) as [Heq | _]; [congruence|]. cbn [negb].
  rewrite setResult_from_OK by (rewrite error_called; exact He).
  reflexivity.
Qed.

Lemma readU32_full {W : Type} (c : Lz4MtContext W) (d : list byte) (w : W) :
  Context.error c = false -> read c (world c) 4 = (4, d, w) ->
  Context.readU32 c = (loadU32 d, called (CallRead 4) w c).
Proof.
  intros He Hr. unfold Context.readU32, invoke_read. rewrite He, Hr.
  reflexivity.
Qed.

(** ** The magic number read of lz4mtDecompress *)

Lemma decompress_frames_magic_fails {W : Type} (E : Externals) (fuel : nat)
      (scheds : list (list nat)) (c : Lz4MtContext W)
      (sd : Lz4MtStreamDescriptor) (n : Z) (d : list byte) (w0 w1 : W)
      (eof : Z) (w2 : W) :
  Context.error c = false ->
  readEof c (world c) = (0, w0) ->
  read c w0 4 = (n, d, w1) -> n <> 4 ->
  readEof c w1 = (eof, w2) ->
  exists c',
    decompress_frames E (S fuel) scheds c false sd = Done (c', sd) /\
    result c' = (if 0 =? eof then LZ4MT_RESULT_INVALID_HEADER
                 else LZ4MT_RESULT_OK) /\
    world c' = w2 /\
    calls c' = calls c ++ [CallReadEof; CallRead 4; CallReadEof].
Proof.
  intros He Heof0 Hread Hn Heof1.
  cbn [decompress_frames orb]. rewrite He.
  unfold Context.readEof at 1, invoke_readEof. rewrite Heof0.
  rewrite Z.eqb_refl. cbn [negb]. unfold decompress_frame.
  rewrite (readU32_short (called CallReadEof w0 c) n d w1)
    by (ctx_cbn; assumption).
  rewrite error_with_result. cbn [Lz4MtResult_eqb negb].
  unfold Context.readEof, invoke_readEof. ctx_cbn. rewrite Heof1.
  destruct (0 =? eof); cbn [negb];
    (rewrite setResult_unspecific by reflexivity);
    eexists; (split; [reflexivity|]); ctx_cbn;
    rewrite <- !app_assoc; auto.
Qed.

(** C5 (as the code has it). In [lz4mtDecompress], when the read of the
    four bytes of the magic number at the start of a frame iteration does
    not deliver four bytes, the function asks [readEof]: it returns [OK]
    when [readEof] reports the end of the stream, whether no byte or one
    to three bytes of the magic were delivered, and [INVALID_HEADER] when
    it does not. *)
Theorem decompress_magic_read_fails {W : Type} (E : Externals) (fuel : nat)
        (scheds : list (list nat)) (c : Lz4MtContext W)
        (sd : Lz4MtStreamDescriptor) (n : Z) (d : list byte) (w0 w1 : W)
        (eof : Z) (w2 : W) :
  is_specific (result c) = false ->
  readEof c (world c) = (0, w0) ->
  read c w0 4 = (n, d, w1) -> n <> 4 ->
  readEof c w1 = (eof, w2) ->
  exists c',
    lz4mtDecompress E (S fuel) scheds c sd
    = Done (if 0 =? eof then LZ4MT_RESULT_INVALID_HEADER
            else LZ4MT_RESULT_OK, c', sd) /\
    world c' = w2 /\
    calls c' = calls c ++ [CallReadEof; CallRead 4; CallReadEof].
Proof.
  intros Hs Heof0 Hread Hn Heof1. unfold lz4mtDecompress.
  rewrite (setResult_unspecific _ c Hs). cbn [snd].
  destruct (decompress_frames_magic_fails E fuel scheds
              (with_result LZ4MT_RESULT_OK c) sd n d w0 w1 eof w2)
    as (c' & Hrun & Hres & Hw & Hc); try assumption; try reflexivity.
  rewrite Hrun. cbn [run_bind]. exists c'. rewrite Hres. auto.
Qed.

Lemma decompress_magic_read_fails_witness :
  exists c',
    lz4mtDecompress (Standin.externals true false) 1 []
      (example_context LZ4MT_RESULT_OK (Mem.open [] false None)
                       LZ4MT_MODE_SEQUENTIAL)
      lz4mtInitStreamDescriptor
    = Done (LZ4MT_RESULT_OK, c', lz4mtInitStreamDescriptor) /\
    calls c' = [CallReadEof; CallRead 4; CallReadEof].
Proof.
  destruct (decompress_magic_read_fails
              (Standin.externals true false) 0 []
              (example_context LZ4MT_RESULT_OK (Mem.open [] false None)
                               LZ4MT_MODE_SEQUENTIAL)
              lz4mtInitStreamDescriptor
              0 [] (Mem.open [] false None)
              (Mem.mk [] 0 true false [] None) 1
              (Mem.mk [] 0 true false [] None))
    as (c' & Hrun & _ & Hcalls).
  - reflexivity.
  - reflexivity.
  - reflexivity.
  - lia.
  - reflexivity.
  - exists c'. split; [exact Hrun | exact Hcalls].
Defined.

(** C5 (as stated) fails for a partial read: on a stream of two bytes
    the read of the magic delivers two bytes, [readEof] then reports the
    end of the stream, and [lz4mtDecompress] returns [OK], not
    [INVALID_HEADER]. *)
Lemma decompress_partial_magic_counterexample :
  fst (fst (Mem.read (Mem.open [x04; x22] false None) 4)) = 2 /\
  exists c',
    lz4mtDecompress (Standin.externals true false) 1 []
      (example_context LZ4MT_RESULT_OK (Mem.open [x04; x22] false None)
                       LZ4MT_MODE_SEQUENTIAL)
      lz4mtInitStreamDescriptor
    = Done (LZ4MT_RESULT_OK, c', lz4mtInitStreamDescriptor) /\
    calls c' = [CallReadEof; CallRead 4; CallReadEof].
Proof.
  split; [reflexivity|].
  eexists. split; vm_compute; reflexivity.
Qed.

(** ** The outcome of the block loop of parallel mode *)

Lemma run_of_option_done {A : Type} (o : option A) (a : A) :
  run_of_option o = Done a <-> o = Some a.
Proof.
  destruct o as [x|]; cbn [run_of_option]; split; intros H;
    try discriminate H; congruence.
Qed.

(** The block loop has a value when no worker ran into the race, the
    producer has left the loop and every future is ready. *)
Lemma compress_blocks_parallel_done {W : Type} (E : Externals)
      (sched : list nat) (bm nbc : Z) (sc : bool) (c : Lz4MtContext W)
      (xxh : Xxh32.t) c' xxh' :
  compress_blocks_parallel E sched bm nbc sc c xxh = Done (c', xxh') <->
  let s := fold_left (fun s tid => compress_par_step E bm nbc sc tid s)
                     sched (mkCompressPar c xxh [] true) in
  existsb ctask_raced (cp_futures s) = false /\
  cp_reading s = false /\ forallb ctask_done (cp_futures s) = true /\
  cp_ctx s = c' /\ cp_xxhStream s = xxh'.
Proof.
  unfold compress_blocks_parallel. cbv zeta.
  generalize (fold_left (fun s tid => compress_par_step E bm nbc sc tid s)
                        sched (mkCompressPar c xxh [] true)).
  intros s. destruct (existsb ctask_raced (cp_futures s)).
  - split; [discriminate | intros [H _]; discriminate H].
  - destruct (cp_reading s); cbn [negb andb].
    + split; [discriminate | intros (_ & H & _); discriminate H].
    + destruct (forallb ctask_done (cp_futures s)).
      * split; [intros H; injection H as <- <-; auto|].
        intros (_ & _ & _ & <- & <-). reflexivity.
      * split; [discriminate | intros (_ & _ & H & _); discriminate H].
Qed.

Lemma decompress_blocks_parallel_done {W : Type} (E : Externals)
      (sched : list nat) (bm nbc : Z) (sc : bool) (c : Lz4MtContext W)
      (quit : bool) (xxh : Xxh32.t) c' quit' xxh' :
  decompress_blocks_parallel E sched bm nbc sc c quit xxh
  = Done (c', quit', xxh') <->
  let s := fold_left (fun s tid => decompress_par_step E bm nbc sc tid s)
                     sched (mkDecompressPar c quit xxh [] true) in
  existsb dtask_raced (dp_futures s) = false /\
  dp_reading s = false /\ forallb dtask_done (dp_futures s) = true /\
  dp_ctx s = c' /\ dp_quit s = quit' /\ dp_xxhStream s = xxh'.
Proof.
  unfold decompress_blocks_parallel. cbv zeta.
  generalize (fold_left (fun s tid => decompress_par_step E bm nbc sc tid s)
                        sched (mkDecompressPar c quit xxh [] true)).
  intros s. destruct (existsb dtask_raced (dp_futures s)).
  - split; [discriminate | intros [H _]; discriminate H].
  - destruct (dp_reading s); cbn [negb andb].
    + split; [discriminate | intros (_ & H & _); discriminate H].
    + destruct (forallb dtask_done (dp_futures s)).
      * split; [intros H; injection H as <- <- <-; auto 6|].
        intros (_ & _ & _ & <- & <- & <-). reflexivity.
      * split; [discriminate | intros (_ & _ & H & _); discriminate H].
Qed.

(** ** What every step of the two functions preserves *)
Section Preserved.
Context {W : Type}.
Variable R : Lz4MtContext W -> Lz4MtContext W -> Prop.
Variable okr : Lz4MtResult -> Prop.
Hypothesis HP : preserved R okr.

Lemma R_refl : forall c, R c c.
Proof. apply HP. Qed.

Lemma R_trans : forall a b c, R a b -> R b c -> R a c.
Proof. apply HP. Qed.

Lemma R_called : forall e w c, R c (called e w c).
Proof. apply HP. Qed.

Lemma R_with_result : forall r c, okr r -> R c (with_result r c).
Proof. apply HP. Qed.

Lemma okr_ERROR : okr LZ4MT_RESULT_ERROR.
Proof. apply HP. Qed.

Lemma okr_block :
  forall r,
    In r [LZ4MT_RESULT_DECOMPRESS_FAIL; LZ4MT_RESULT_BLOCK_CHECKSUM_MISMATCH;
          LZ4MT_RESULT_CANNOT_READ_BLOCK_SIZE;
          LZ4MT_RESULT_CANNOT_READ_BLOCK_DATA;
          LZ4MT_RESULT_CANNOT_READ_BLOCK_CHECKSUM] -> okr r.
Proof. apply HP. Qed.

#[local] Hint Resolve R_refl R_called R_with_result : core.
#[local] Hint Extern 2 (R _ _) => (eapply R_trans; [eassumption|]) : core.

Lemma R_setResult (r : Lz4MtResult) (c : Lz4MtContext W) :
  okr r -> R c (snd (Context.setResult r c)).
Proof.
  intros Hr. unfold Context.setResult.
  destruct (Lz4MtResult_eqb LZ4MT_RESULT_OK (result c)
            || Lz4MtResult_eqb LZ4MT_RESULT_ERROR (result c)); cbn [fst snd negb cp_ctx]; auto.
Qed.

Lemma R_invoke_read (c : Lz4MtContext W) (n : Z) :
  R c (snd (invoke_read c n)).
Proof.
  unfold invoke_read. destruct (read c (world c) n) as [[m d] w]. cbn [fst snd negb cp_ctx]. auto.
Qed.

Lemma R_invoke_readEof (c : Lz4MtContext W) : R c (snd (invoke_readEof c)).
Proof.
  unfold invoke_readEof. destruct (readEof c (world c)) as [m w]. cbn [fst snd negb cp_ctx]. auto.
Qed.

Lemma R_invoke_write (c : Lz4MtContext W) (d : list byte) :
  R c (snd (invoke_write c d)).
Proof.
  unfold invoke_write. destruct (write c (world c) d) as [m w]. cbn [fst snd negb cp_ctx]. auto.
Qed.

Lemma R_invoke_compress (c : Lz4MtContext W) (d : list byte) (n m : Z) :
  R c (snd (invoke_compress c d n m)).
Proof.
  unfold invoke_compress. destruct (compress c d n m) as [k o]. cbn [fst snd negb cp_ctx]. auto.
Qed.

Lemma R_invoke_decompress (c : Lz4MtContext W) (d : list byte) (n m : Z) :
  R c (snd (invoke_decompress c d n m)).
Proof.
  unfold invoke_decompress. destruct (decompress c d n m) as [k o]. cbn [fst snd negb cp_ctx].
  auto.
Qed.


Lemma R_readU32 (c : Lz4MtContext W) : R c (snd (Context.readU32 c)).
Proof.
  unfold Context.readU32. destruct (Context.error c); cbn [fst snd negb cp_ctx]; auto.
  pose proof (R_invoke_read c 4) as H.
  destruct (invoke_read c 4) as [[n d] c1]. cbn [fst snd] in H.
  destruct (negb (4 =? n)); cbn [fst snd negb cp_ctx]; auto.
  eapply R_trans; [exact H|]. apply R_setResult. exact okr_ERROR.
Qed.

Lemma R_writeU32 (v : Z) (c : Lz4MtContext W) :
  R c (snd (Context.writeU32 v c)).
Proof.
  unfold Context.writeU32. destruct (Context.error c); cbn [fst snd negb cp_ctx]; auto.
  pose proof (R_invoke_write c (storeU32 v)) as H.
  destruct (invoke_write c (storeU32 v)) as [n c1]. cbn [fst snd] in H.
  destruct (negb (4 =? n)); cbn [fst snd negb cp_ctx]; auto.
  eapply R_trans; [exact H|]. apply R_setResult. exact okr_ERROR.
Qed.

Lemma R_writeBin (p : list byte) (size : Z) (c : Lz4MtContext W) :
  R c (snd (Context.writeBin p size c)).
Proof.
  unfold Context.writeBin. destruct (Context.error c); cbn [fst snd negb cp_ctx]; auto.
  pose proof (R_invoke_write c (takeZ size p)) as H.
  destruct (invoke_write c (takeZ size p)) as [n c1]. cbn [fst snd] in H.
  destruct (negb (size =? n)); cbn [fst snd negb cp_ctx]; auto.
  eapply R_trans; [exact H|]. apply R_setResult. exact okr_ERROR.
Qed.

Lemma R_helper_calls (hs : list HelperCall) :
  forall c : Lz4MtContext W,
    forallb is_write hs = true -> R c (snd (helper_calls hs c)).
Proof.
  induction hs as [|h hs IH]; intros c Hall; cbn [helper_calls snd]; auto.
  cbn [forallb] in Hall. apply andb_true_iff in Hall as [Hh Hhs].
  assert (H1 : R c (snd (helper_call h c))).
  { destruct h; try discriminate; cbn [helper_call].
    - pose proof (R_writeU32 v c) as H.
      destruct (Context.writeU32 v c); exact H.
    - pose proof (R_writeBin ptr size c) as H.
      destruct (Context.writeBin ptr size c); exact H. }
  destruct (helper_call h c) as [v c1]. cbn [fst snd] in H1.
  specialize (IH c1 Hhs). destruct (helper_calls hs c1) as [vs c2].
  cbn [fst snd cp_ctx] in *. eauto.
Qed.

(** The encoder. *)

Lemma R_compress_f (E : Externals) (nbc : Z) (sc : bool) (src : list byte)
      (srcSize : Z) (c : Lz4MtContext W) (xxh : Xxh32.t) :
  R c (fst (compress_f E nbc sc src srcSize c xxh)).
Proof.
  unfold compress_f, compress_f_before_gate.
  destruct (Context.error c); cbn [fst snd negb cp_ctx]; auto.
  unfold Context.compress.
  pose proof (R_invoke_compress c (takeZ srcSize src) srcSize srcSize) as H.
  destruct (invoke_compress c (takeZ srcSize src) srcSize srcSize)
    as [[n d] c1]. cbn [fst snd] in H.
  rewrite compress_f_after_gate_helpers.
  eapply R_trans; [exact H|]. apply R_helper_calls.
  unfold block_helpers. destruct (n <=? 0); destruct (negb (0 =? nbc));
    reflexivity.
Qed.

Lemma R_compress_blocks_sequential (E : Externals) (fuel : nat)
      (bm nbc : Z) (sc : bool) :
  forall (c : Lz4MtContext W) (xxh : Xxh32.t) c' xxh',
    compress_blocks_sequential E fuel bm nbc sc c xxh = Some (c', xxh') ->
    R c c'.
Proof.
  induction fuel as [|fuel IH]; intros c xxh c' xxh' Hrun; cbn [compress_blocks_sequential] in Hrun.
  - discriminate.
  - unfold Context.read in Hrun.
    pose proof (R_invoke_read c bm) as H.
    destruct (invoke_read c bm) as [[n d] c1]. cbn [fst snd] in H.
    destruct (0 =? n).
    + injection Hrun as <- <-. exact H.
    + pose proof (R_compress_f E nbc sc d n c1 xxh) as Hf.
      destruct (compress_f E nbc sc d n c1 xxh) as [c2 xxh2]. cbn [fst snd] in Hf.
      eauto.
Qed.

Lemma R_compress_par_step (E : Externals) (bm nbc : Z) (sc : bool)
      (tid : nat) (s : CompressPar) :
  R (cp_ctx s) (cp_ctx (compress_par_step E bm nbc sc tid s)).
Proof.
  unfold compress_par_step. destruct tid as [|i].
  - destruct (cp_reading s); auto. unfold Context.read.
    pose proof (R_invoke_read (cp_ctx s) bm) as H.
    destruct (invoke_read (cp_ctx s) bm) as [[n d] c1]. cbn [fst snd] in H.
    destruct (0 =? n); cbn [fst snd negb cp_ctx]; exact H.
  - destruct (nth_error (cp_futures s) i) as [[src n|src n k o| |]|]; auto.
    + unfold compress_f_before_gate.
      destruct (Context.error (cp_ctx s)); cbn [fst snd negb cp_ctx]; auto.
      unfold Context.compress.
      pose proof (R_invoke_compress (cp_ctx s) (takeZ n src) n n) as H.
      destruct (invoke_compress (cp_ctx s) (takeZ n src) n n)
        as [[k o] c1]. cbn [fst snd cp_ctx] in *. exact H.
    + pose proof (compress_f_after_gate_helpers E nbc sc src n k o (cp_ctx s)
                    (cp_xxhStream s)) as Heq.
      destruct (compress_f_after_gate E nbc sc src n k o (cp_ctx s)
                                      (cp_xxhStream s)) as [c1 x1].
      cbn [fst snd cp_ctx] in *. rewrite Heq. apply R_helper_calls.
      unfold block_helpers. destruct (k <=? 0); destruct (negb (0 =? nbc));
        reflexivity.
Qed.

Lemma R_compress_par_run (E : Externals) (sched : list nat)
      (bm nbc : Z) (sc : bool) :
  forall s0 : CompressPar,
    R (cp_ctx s0)
      (cp_ctx (fold_left (fun s tid => compress_par_step E bm nbc sc tid s)
                         sched s0)).
Proof.
  induction sched as [|tid sched IH]; intros s0; cbn [fold_left].
  - apply R_refl.
  - eapply R_trans; [apply (R_compress_par_step E bm nbc sc tid)|].
    apply IH.
Qed.

Lemma R_compress_blocks_parallel (E : Externals) (sched : list nat)
      (bm nbc : Z) (sc : bool) (c : Lz4MtContext W) (xxh : Xxh32.t) c' xxh' :
  compress_blocks_parallel E sched bm nbc sc c xxh = Done (c', xxh') ->
  R c c'.
Proof.
  intros Hrun. apply compress_blocks_parallel_done in Hrun.
  cbv zeta in Hrun. destruct Hrun as (_ & _ & _ & <- & _).
  exact (R_compress_par_run E sched bm nbc sc (mkCompressPar c xxh [] true)).
Qed.

Lemma R_compress_tail (E : Externals) (sc : bool) (c : Lz4MtContext W)
      (xxh : Xxh32.t) :
  R c (snd (compress_tail E sc c xxh)).
Proof.
  unfold compress_tail.
  pose proof (R_writeU32 LZ4S_EOS c) as H.
  destruct (Context.writeU32 LZ4S_EOS c) as [ok c1]. cbn [fst snd] in H.
  destruct ok; cbn [fst snd negb cp_ctx]; auto. destruct sc; cbn [fst snd negb cp_ctx]; auto.
  pose proof (R_writeU32 (Xxh32.digest E xxh) c1) as H2.
  destruct (Context.writeU32 (Xxh32.digest E xxh) c1) as [ok2 c2].
  cbn [fst snd] in H2. destruct ok2; cbn [fst snd negb cp_ctx]; eauto.
Qed.

(** The block loop of the decoder. *)

Lemma R_decompress_f_before_gate (bm : Z) (src : list byte) (srcSize : Z)
      (inc : bool) (c : Lz4MtContext W) (quit : bool) :
  R c (snd (fst (decompress_f_before_gate bm src srcSize inc c quit))).
Proof.
  unfold decompress_f_before_gate.
  destruct (Context.error c || quit); cbn [fst snd]; auto.
  destruct inc; cbn [fst snd]; auto.
  unfold Context.decompress.
  pose proof (R_invoke_decompress c (takeZ srcSize src) srcSize bm) as H.
  destruct (invoke_decompress c (takeZ srcSize src) srcSize bm)
    as [[n d] c1]. cbn [fst snd] in H.
  destruct (n <? 0); cbn [fst snd]; auto.
  eapply R_trans; [exact H|]. apply R_setResult. apply okr_block.
  simpl; tauto.
Qed.

Lemma R_decompress_f_after_gate (E : Externals) (nbc : Z) (sc : bool)
      (src : list byte) (srcSize bcs : Z) (o : list byte) (n : Z)
      (c : Lz4MtContext W) (quit : bool) (xxh : Xxh32.t) :
  R c (fst (fst (decompress_f_after_gate E nbc sc src srcSize bcs o n c quit
                                         xxh))).
Proof.
  unfold decompress_f_after_gate.
  pose proof (R_writeBin o n c) as H.
  destruct (Context.writeBin o n c) as [ok c1]. cbn [fst snd] in *.
  destruct (negb (0 =? nbc)); cbn [fst snd]; auto.
  destruct (negb (_ =? bcs)); cbn [fst snd]; auto.
  eapply R_trans; [exact H|]. apply R_setResult. apply okr_block.
  simpl; tauto.
Qed.

Lemma R_decompress_f (E : Externals) (bm nbc : Z) (sc : bool)
      (src : list byte) (srcSize : Z) (inc : bool) (bcs : Z)
      (c : Lz4MtContext W) (quit : bool) (xxh : Xxh32.t) :
  R c (fst (fst (decompress_f E bm nbc sc src srcSize inc bcs c quit xxh))).
Proof.
  unfold decompress_f.
  pose proof (R_decompress_f_before_gate bm src srcSize inc c quit) as H.
  destruct (decompress_f_before_gate bm src srcSize inc c quit)
    as [[[[o n]|] c1] q1]; cbn [fst snd] in *; auto.
  eapply R_trans; [exact H|]. apply R_decompress_f_after_gate.
Qed.

Lemma R_decompress_read_block (nbc : Z) (c : Lz4MtContext W) (quit : bool) :
  match decompress_read_block nbc c quit with
  | inl (c', _) => R c c'
  | inr (c', _) => R c c'
  end.
Proof.
  unfold decompress_read_block. destruct quit; auto.
  unfold Context.readEof.
  pose proof (R_invoke_readEof c) as H0.
  destruct (invoke_readEof c) as [eof c0]. cbn [fst snd] in H0.
  destruct (negb (0 =? eof)); auto.
  pose proof (R_readU32 c0) as H1.
  destruct (Context.readU32 c0) as [bits c1]. cbn [fst snd] in H1.
  destruct (Context.error c1).
  { eapply R_trans; [exact H0|]. eapply R_trans; [exact H1|].
    apply R_setResult. apply okr_block. simpl; tauto. }
  destruct (LZ4S_EOS =? bits); [eauto|].
  unfold Context.read.
  match goal with
  | |- context [invoke_read c1 ?n] =>
      pose proof (R_invoke_read c1 n) as H2;
        destruct (invoke_read c1 n) as [[rs d] c2]
  end.
  cbn [fst snd] in H2.
  destruct (negb (_ =? rs) || Context.error c2).
  { eapply R_trans; [exact H0|]. eapply R_trans; [exact H1|].
    eapply R_trans; [exact H2|].
    apply R_setResult. apply okr_block. simpl; tauto. }
  assert (H3 : R c2 (snd (if negb (0 =? nbc) then Context.readU32 c2
                          else (0, c2)))).
  { destruct (negb (0 =? nbc)); [apply R_readU32 | apply R_refl]. }
  destruct (if negb (0 =? nbc) then Context.readU32 c2 else (0, c2))
    as [bcs c3]. cbn [fst snd] in H3.
  destruct (Context.error c3).
  - eapply R_trans; [exact H0|]. eapply R_trans; [exact H1|].
    eapply R_trans; [exact H2|]. eapply R_trans; [exact H3|].
    apply R_setResult. apply okr_block. simpl; tauto.
  - eauto.
Qed.

Lemma R_decompress_blocks_sequential (E : Externals) (fuel : nat)
      (bm nbc : Z) (sc : bool) :
  forall (c : Lz4MtContext W) (quit : bool) (xxh : Xxh32.t) c' quit' xxh',
    decompress_blocks_sequential E fuel bm nbc sc c quit xxh
    = Some (c', quit', xxh') ->
    R c c'.
Proof.
  induction fuel as [|fuel IH]; intros c quit xxh c' quit' xxh' Hrun;
    cbn [decompress_blocks_sequential] in Hrun.
  - discriminate.
  - pose proof (R_decompress_read_block nbc c quit) as H.
    destruct (decompress_read_block nbc c quit)
      as [[c1 q1] | [c1 [[[src n] inc] bcs]]].
    + injection Hrun as <- <- <-. exact H.
    + pose proof (R_decompress_f E bm nbc sc src n inc bcs c1 quit xxh) as Hf.
      destruct (decompress_f E bm nbc sc src n inc bcs c1 quit xxh)
        as [[c2 q2] x2]. cbn [fst snd] in Hf. eauto.
Qed.

Lemma R_decompress_par_step (E : Externals) (bm nbc : Z) (sc : bool)
      (tid : nat) (s : DecompressPar) :
  R (dp_ctx s) (dp_ctx (decompress_par_step E bm nbc sc tid s)).
Proof.
  unfold decompress_par_step. destruct tid as [|i].
  - destruct (dp_reading s); auto.
    pose proof (R_decompress_read_block nbc (dp_ctx s) (dp_quit s)) as H.
    destruct (decompress_read_block nbc (dp_ctx s) (dp_quit s))
      as [[c1 q1] | [c1 [[[src n] inc] bcs]]]; exact H.
  - destruct (nth_error (dp_futures s) i)
      as [[src n inc bcs|src n bcs o k| |]|]; auto.
    + pose proof (R_decompress_f_before_gate bm src n inc (dp_ctx s)
                                             (dp_quit s)) as H.
      destruct (decompress_f_before_gate bm src n inc (dp_ctx s) (dp_quit s))
        as [[[[o k]|] c1] q1]; exact H.
    + pose proof (R_decompress_f_after_gate E nbc sc src n bcs o k (dp_ctx s)
                    (dp_quit s) (dp_xxhStream s)) as H.
      destruct (decompress_f_after_gate E nbc sc src n bcs o k (dp_ctx s)
                  (dp_quit s) (dp_xxhStream s)) as [[c1 q1] x1]. exact H.
Qed.

Lemma R_decompress_par_run (E : Externals) (sched : list nat)
      (bm nbc : Z) (sc : bool) :
  forall s0 : DecompressPar,
    R (dp_ctx s0)
      (dp_ctx (fold_left (fun s tid => decompress_par_step E bm nbc sc tid s)
                         sched s0)).
Proof.
  induction sched as [|tid sched IH]; intros s0; cbn [fold_left].
  - apply R_refl.
  - eapply R_trans; [apply (R_decompress_par_step E bm nbc sc tid)|].
    apply IH.
Qed.

Lemma R_decompress_blocks (E : Externals) (fuel : nat) (sched : list nat)
      (bm nbc : Z) (sc : bool) (c : Lz4MtContext W) (quit : bool)
      (xxh : Xxh32.t) c' quit' xxh' :
  decompress_blocks E fuel sched bm nbc sc c quit xxh
  = Done (c', quit', xxh') ->
  R c c'.
Proof.
  unfold decompress_blocks.
  destruct (negb (0 =? Z.land (Context.mode c) LZ4MT_MODE_SEQUENTIAL)).
  - intros H. apply run_of_option_done in H.
    eapply R_decompress_blocks_sequential. exact H.
  - intros Hrun. apply decompress_blocks_parallel_done in Hrun.
    cbv zeta in Hrun. destruct Hrun as (_ & _ & _ & <- & _).
    exact (R_decompress_par_run E sched bm nbc sc
             (mkDecompressPar c quit xxh [] true)).
Qed.
End Preserved.

(** ** Instances of the preserved relations *)





Lemma result_not_set_refl {W : Type} (r : Lz4MtResult)
      (c : Lz4MtContext W) : result_not_set r c c.
Proof. unfold result_not_set. auto. Qed.

Lemma result_not_set_trans {W : Type} (r : Lz4MtResult)
      (a b c : Lz4MtContext W) :
  result_not_set r a b -> result_not_set r b c -> result_not_set r a c.
Proof. unfold result_not_set. auto. Qed.

Lemma result_not_set_called {W : Type} (r : Lz4MtResult) (e : Call) (w : W)
      (c : Lz4MtContext W) : result_not_set r c (called e w c).
Proof. unfold result_not_set. auto. Qed.

Lemma result_not_set_with_result {W : Type} (r r' : Lz4MtResult)
      (c : Lz4MtContext W) :
  r' <> r -> result_not_set r c (with_result r' c).
Proof. unfold result_not_set. simpl. auto. Qed.

(** ** The header checksum *)

Lemma getCheckBits_bits_15_8 (h : Z) :
  getCheckBits_FromXXH h = bits_15_8 h.
Proof.
  unfold getCheckBits_FromXXH, bits_15_8.
  change 0xff with (Z.ones 8).
  rewrite Z.land_ones by lia. rewrite Z.shiftr_div_pow2 by lia.
  reflexivity.
Qed.


Lemma compress_header_check (E : Externals) (sd : Lz4MtStreamDescriptor) :
  compress_header E sd
  = storeU32 LZ4S_MAGICNUMBER ++ header_sum sd
    ++ [header_check_byte E (header_sum sd)].
Proof.
  unfold compress_header, header_check_byte, Xxh32.digest, Xxh32.oneshot.
  cbn [Xxh32.fed Xxh32.seed].
  rewrite getCheckBits_bits_15_8.
  replace (takeZ (lengthZ (header_sum sd)) (header_sum sd))
    with (header_sum sd); [reflexivity|].
  unfold lengthZ. generalize (header_sum sd). intros l.
  induction l as [|x l IH]; [reflexivity|].
  cbn [takeZ List.length].
  destruct (Z.ltb_spec 0 (Z.of_nat (S (List.length l)))); [|lia].
  f_equal. replace (Z.of_nat (S (List.length l)) - 1)
    with (Z.of_nat (List.length l)) by lia. exact IH.
Qed.


Lemma result_not_set_preserved {W : Type} (r : Lz4MtResult) :
  ~ In r [LZ4MT_RESULT_ERROR; LZ4MT_RESULT_DECOMPRESS_FAIL;
          LZ4MT_RESULT_BLOCK_CHECKSUM_MISMATCH;
          LZ4MT_RESULT_CANNOT_READ_BLOCK_SIZE;
          LZ4MT_RESULT_CANNOT_READ_BLOCK_DATA;
          LZ4MT_RESULT_CANNOT_READ_BLOCK_CHECKSUM] ->
  preserved (@result_not_set W r) (fun r' => r' <> r).
Proof.
  intros Hr. constructor.
  - apply result_not_set_refl.
  - apply result_not_set_trans.
  - apply result_not_set_called.
  - intros r' c. apply result_not_set_with_result.
  - intros Heq. apply Hr. simpl. auto.
  - intros r' Hin Heq. apply Hr. subst r'. simpl. simpl in Hin. tauto.
Qed.



Lemma validate_ok_no_dictionary (sd : Lz4MtStreamDescriptor) :
  validateStreamDescriptor sd = LZ4MT_RESULT_OK ->
  (0 =? presetDictionary (flg sd)) = true.
Proof.
  intros H. destruct (validate_cases sd) as [[_ Hn] | [Hne _]];
    [|contradiction].
  apply Z.eqb_eq. unfold descriptor_rejected in Hn. lia.
Qed.




(** ** Buffers *)

Lemma lengthZ_nonneg {A : Type} (l : list A) : 0 <= lengthZ l.
Proof. unfold lengthZ. lia. Qed.

Lemma lengthZ_app {A : Type} (a b : list A) :
  lengthZ (a ++ b) = lengthZ a + lengthZ b.
Proof. unfold lengthZ. rewrite length_app. lia. Qed.

Lemma lengthZ_cons {A : Type} (x : A) (l : list A) :
  lengthZ (x :: l) = 1 + lengthZ l.
Proof. unfold lengthZ. cbn [List.length]. lia. Qed.

Lemma takeZ_nonpos {A : Type} (n : Z) (l : list A) : n <= 0 -> takeZ n l = [].
Proof.
  intros Hn. destruct l as [|x l]; [reflexivity|]. cbn [takeZ].
  destruct (Z.ltb_spec 0 n); [lia | reflexivity].
Qed.

Lemma dropZ_nonpos {A : Type} (n : Z) (l : list A) : n <= 0 -> dropZ n l = l.
Proof.
  intros Hn. destruct l as [|x l]; [reflexivity|]. cbn [dropZ].
  destruct (Z.ltb_spec 0 n); [lia | reflexivity].
Qed.

Lemma takeZ_dropZ {A : Type} (l : list A) :
  forall n, takeZ n l ++ dropZ n l = l.
Proof.
  induction l as [|x l IH]; intros n; [reflexivity|]. cbn [takeZ dropZ].
  destruct (0 <? n); [|reflexivity]. cbn [app]. rewrite IH. reflexivity.
Qed.

Lemma takeZ_app {A : Type} (a b : list A) :
  takeZ (lengthZ a) (a ++ b) = a.
Proof.
  induction a as [|x a IH].
  - apply takeZ_nonpos. unfold lengthZ. simpl. lia.
  - cbn [app takeZ]. rewrite lengthZ_cons.
    pose proof (lengthZ_nonneg a).
    destruct (Z.ltb_spec 0 (1 + lengthZ a)); [|lia].
    replace (1 + lengthZ a - 1) with (lengthZ a) by lia.
    rewrite IH. reflexivity.
Qed.

Lemma dropZ_app {A : Type} (a b : list A) :
  dropZ (lengthZ a) (a ++ b) = b.
Proof.
  induction a as [|x a IH].
  - apply dropZ_nonpos. unfold lengthZ. simpl. lia.
  - cbn [app dropZ]. rewrite lengthZ_cons.
    pose proof (lengthZ_nonneg a).
    destruct (Z.ltb_spec 0 (1 + lengthZ a)); [|lia].
    replace (1 + lengthZ a - 1) with (lengthZ a) by lia.
    exact IH.
Qed.

Lemma takeZ_all {A : Type} (l : list A) : takeZ (lengthZ l) l = l.
Proof.
  rewrite <- (app_nil_r l) at 2. rewrite takeZ_app. reflexivity.
Qed.

Lemma lengthZ_takeZ {A : Type} (l : list A) :
  forall n, 0 <= n -> lengthZ (takeZ n l) = Z.min n (lengthZ l).
Proof.
  induction l as [|x l IH]; intros n Hn.
  - cbn [takeZ]. change (lengthZ (@nil A)) with 0. lia.
  - cbn [takeZ]. destruct (Z.ltb_spec 0 n).
    + rewrite !lengthZ_cons, IH by lia. pose proof (lengthZ_nonneg l). lia.
    + rewrite lengthZ_cons. pose proof (lengthZ_nonneg l).
      change (lengthZ (@nil A)) with 0. lia.
Qed.

Lemma length_dropZ {A : Type} (l : list A) :
  forall n, 0 < n -> l <> [] ->
            (List.length (dropZ n l) < List.length l)%nat.
Proof.
  induction l as [|x l IH]; intros n Hn Hl; [contradiction|].
  cbn [dropZ]. destruct (Z.ltb_spec 0 n); [|lia].
  cbn [List.length]. destruct l as [|y l].
  - cbn [dropZ]. simpl. lia.
  - destruct (Z.ltb_spec 0 (n - 1)).
    + specialize (IH (n - 1) ltac:(lia) ltac:(discriminate)). lia.
    + rewrite dropZ_nonpos by lia. lia.
Qed.

Lemma takeZ_nil_inv {A : Type} (l : list A) (n : Z) :
  0 < n -> takeZ n l = [] -> l = [].
Proof.
  intros Hn. destruct l as [|x l]; [reflexivity|]. cbn [takeZ].
  destruct (Z.ltb_spec 0 n); [discriminate | lia].
Qed.

Lemma zfill_exact (l : list byte) : zfill (List.length l) l = l.
Proof.
  unfold zfill, at0.
  induction l as [|x l IH]; [reflexivity|].
  cbn [List.length seq map nth]. f_equal.
  rewrite <- seq_shift, map_map. cbn [nth]. exact IH.
Qed.

(** ** Little-endian words *)

Lemma loadU32_storeU32 (v : Z) (rest : list byte) :
  0 <= v < 2 ^ 32 -> loadU32 (storeU32 v ++ rest) = v.
Proof.
  intros Hv. unfold loadU32, storeU32, at0. cbn [app nth].
  rewrite !uint8_of_byte_of_Z.
  apply Z.bits_inj'. intros i Hi.
  rewrite !Z.lor_spec, !Z.shiftl_spec by lia.
  change 256 with (2 ^ 8).
  rewrite !Z.testbit_mod_pow2 by lia.
  change (8 * 0) with 0. change (8 * 1) with 8. change (8 * 2) with 16.
  change (8 * 3) with 24.
  rewrite (Z.shiftr_spec v 0) by lia.
  replace (i - 0 + 0) with i by lia.
  destruct (Z.ltb_spec (i - 0) 8); destruct (Z.ltb_spec (i - 8) 8);
    destruct (Z.ltb_spec (i - 16) 8); destruct (Z.ltb_spec (i - 24) 8);
    try lia; cbn [andb orb].
  - rewrite (Z.testbit_neg_r _ (i - 8)), (Z.testbit_neg_r _ (i - 16)),
      (Z.testbit_neg_r _ (i - 24)) by lia.
    rewrite !orb_false_r. reflexivity.
  - rewrite (Z.testbit_neg_r _ (i - 16)), (Z.testbit_neg_r _ (i - 24)) by lia.
    rewrite Z.shiftr_spec by lia. rewrite !orb_false_r.
    f_equal. lia.
  - rewrite (Z.testbit_neg_r _ (i - 24)) by lia.
    rewrite Z.shiftr_spec by lia. rewrite !orb_false_r.
    f_equal. lia.
  - rewrite Z.shiftr_spec by lia. f_equal. lia.
  - symmetry. apply (bits_above v 32 i); lia.
Qed.

Lemma storeU32_length (v : Z) : lengthZ (storeU32 v) = 4.
Proof. reflexivity. Qed.

Lemma storeU64_length (v : Z) : lengthZ (storeU64 v) = 8.
Proof. reflexivity. Qed.

(** ** The helpers over memory streams *)

Section MemStreams.
Variables cmp dec : list byte -> Z -> Z -> Z * list byte.
Variable style : bool.

Lemma mem_ok_error c rest out flag :
  mem_ok cmp dec style c rest out flag -> Context.error c = false.
Proof. intros H. apply error_false_result. apply H. Qed.

Lemma skipn_read (content : list byte) (pos : nat) (n : Z) :
  skipn (pos + List.length (takeZ n (skipn pos content))) content
  = dropZ n (skipn pos content).
Proof.
  rewrite Nat.add_comm, <- skipn_skipn.
  generalize (skipn pos content). intros r.
  rewrite <- (takeZ_dropZ r n) at 2.
  rewrite skipn_app, skipn_all, Nat.sub_diag. reflexivity.
Qed.

Lemma mem_invoke_read c rest out flag n :
  mem_ok cmp dec style c rest out flag ->
  exists c',
    invoke_read c n = (lengthZ (takeZ n rest), takeZ n rest, c') /\
    mem_ok cmp dec style c' (dropZ n rest) out
           (flag || (lengthZ (takeZ n rest) <? n)).
Proof.
  intros (Hres & Hr & He & Hw & Hc & Hs & Hrest & Hout & Hroom & Hflag).
  subst rest out flag.
  unfold invoke_read. rewrite Hr. unfold Mem.read.
  eexists. split; [reflexivity|].
  unfold mem_ok, Lz4MtContext_codec in *. ctx_cbn.
  unfold Mem.remaining. cbn [Mem.content Mem.pos Mem.eofFlag Mem.eofAtEnd
    Mem.written Mem.room].
  rewrite skipn_read. repeat split; assumption.
Qed.

Lemma mem_invoke_write c rest out flag d :
  mem_ok cmp dec style c rest out flag ->
  exists c',
    invoke_write c d = (lengthZ d, c') /\
    mem_ok cmp dec style c' rest (out ++ d) flag.
Proof.
  intros (Hres & Hr & He & Hw & Hc & Hs & Hrest & Hout & Hroom & Hflag).
  subst rest out flag.
  unfold invoke_write. rewrite Hw. unfold Mem.write. rewrite Hroom.
  eexists. split; [reflexivity|].
  unfold mem_ok, Lz4MtContext_codec in *. ctx_cbn. unfold Mem.remaining in *.
  cbn [Mem.content Mem.pos Mem.eofFlag Mem.eofAtEnd Mem.written Mem.room].
  repeat split; assumption.
Qed.

Lemma mem_invoke_readEof c rest out flag :
  mem_ok cmp dec style c rest out flag ->
  exists c',
    invoke_readEof c
    = (if style then match rest with [] => 1 | _ => 0 end
       else if flag then 1 else 0, c') /\
    mem_ok cmp dec style c' rest out flag.
Proof.
  intros (Hres & Hr & He & Hw & Hc & Hs & Hrest & Hout & Hroom & Hflag).
  unfold invoke_readEof. rewrite He. unfold Mem.readEof.
  rewrite Hs, Hflag.
  assert (Hnil : (if (List.length (Mem.content (world c))
                      <=? Mem.pos (world c))%nat then 1 else 0)
                 = match rest with [] => 1 | _ => 0 end).
  { rewrite <- Hrest. unfold Mem.remaining.
    destruct (Nat.leb_spec (List.length (Mem.content (world c)))
                           (Mem.pos (world c))) as [Hle | Hlt].
    - rewrite skipn_all2 by exact Hle. reflexivity.
    - destruct (skipn (Mem.pos (world c)) (Mem.content (world c))) eqn:Hsk;
        [|reflexivity].
      apply (f_equal (@List.length byte)) in Hsk.
      rewrite length_skipn in Hsk. simpl in Hsk. lia. }
  rewrite Hnil.
  eexists. split; [reflexivity|].
  unfold mem_ok, Lz4MtContext_codec in *. ctx_cbn.
  repeat split; assumption.
Qed.

Lemma mem_writeU32 c rest out flag v :
  mem_ok cmp dec style c rest out flag ->
  exists c',
    Context.writeU32 v c = (true, c') /\
    mem_ok cmp dec style c' rest (out ++ storeU32 v) flag.
Proof.
  intros H. unfold Context.writeU32. rewrite (mem_ok_error _ _ _ _ H).
  destruct (mem_invoke_write c rest out flag (storeU32 v) H)
    as (c' & Hw & Hok).
  rewrite Hw. rewrite storeU32_length. cbn [Z.eqb Pos.eqb negb].
  exists c'. auto.
Qed.

Lemma mem_writeBin c rest out flag p n :
  mem_ok cmp dec style c rest out flag ->
  0 <= n <= lengthZ p ->
  exists c',
    Context.writeBin p n c = (true, c') /\
    mem_ok cmp dec style c' rest (out ++ takeZ n p) flag.
Proof.
  intros H Hn. unfold Context.writeBin. rewrite (mem_ok_error _ _ _ _ H).
  destruct (mem_invoke_write c rest out flag (takeZ n p) H)
    as (c' & Hw & Hok).
  rewrite Hw. rewrite lengthZ_takeZ by lia.
  rewrite Z.min_l by lia. rewrite Z.eqb_refl. cbn [negb].
  exists c'. auto.
Qed.

Lemma mem_readU32 c rest out v :
  mem_ok cmp dec style c (storeU32 v ++ rest) out false ->
  0 <= v < 2 ^ 32 ->
  exists c',
    Context.readU32 c = (v, c') /\ mem_ok cmp dec style c' rest out false.
Proof.
  intros H Hv. unfold Context.readU32. rewrite (mem_ok_error _ _ _ _ H).
  destruct (mem_invoke_read c _ out false 4 H) as (c' & Hr & Hok).
  rewrite Hr.
  change 4 with (lengthZ (storeU32 v)) in Hok |- * at 1 2 3.
  rewrite takeZ_app in *. rewrite dropZ_app in Hok.
  rewrite Z.eqb_refl. cbn [negb].
  rewrite Z.ltb_irrefl in Hok.
  rewrite <- (app_nil_r (storeU32 v)), loadU32_storeU32 by exact Hv.
  exists c'. auto.
Qed.
End MemStreams.

(** ** Blocks of the input *)

Lemma chunks_fuel_enough (n : Z) :
  0 < n ->
  forall (fuel1 fuel2 : nat) (l : list byte),
    (List.length l <= fuel1)%nat -> (List.length l <= fuel2)%nat ->
    chunks_fuel fuel1 n l = chunks_fuel fuel2 n l.
Proof.
  intros Hn. induction fuel1 as [|f1 IH]; intros fuel2 l H1 H2.
  - destruct l; [|simpl in H1; lia]. destruct fuel2; reflexivity.
  - destruct l as [|x l]; [destruct fuel2; reflexivity|].
    destruct fuel2 as [|f2]; [simpl in H2; lia|].
    cbn [chunks_fuel]. f_equal.
    pose proof (length_dropZ (x :: l) n Hn ltac:(discriminate)) as Hlen.
    apply IH; lia.
Qed.

Lemma chunks_nil (n : Z) : chunks n [] = [].
Proof. reflexivity. Qed.

Lemma chunks_cons (n : Z) (l : list byte) :
  0 < n -> l <> [] -> chunks n l = takeZ n l :: chunks n (dropZ n l).
Proof.
  intros Hn Hl. unfold chunks. destruct l as [|x l]; [contradiction|].
  cbn [List.length chunks_fuel]. f_equal.
  pose proof (length_dropZ (x :: l) n Hn ltac:(discriminate)) as Hlen.
  apply chunks_fuel_enough; cbn [List.length] in *; lia.
Qed.

(** Induction over the input block by block. *)
Lemma chunks_ind (n : Z) (Hn : 0 < n) (P : list byte -> Prop) :
  P [] ->
  (forall l, l <> [] -> P (dropZ n l) -> P l) ->
  forall l, P l.
Proof.
  intros Hnil Hstep l.
  remember (List.length l) as k eqn:Hk.
  revert l Hk. induction k as [k IH] using lt_wf_ind. intros l Hk.
  destruct l as [|x l]; [exact Hnil|].
  apply Hstep; [discriminate|].
  pose proof (length_dropZ (x :: l) n Hn ltac:(discriminate)) as Hlen.
  eapply IH; [|reflexivity]. lia.
Qed.

Lemma concat_chunks (n : Z) (l : list byte) :
  0 < n -> List.concat (chunks n l) = l.
Proof.
  intros Hn. induction l as [|l Hl IH] using (chunks_ind n Hn).
  - reflexivity.
  - rewrite chunks_cons by assumption. cbn [List.concat].
    rewrite IH. apply takeZ_dropZ.
Qed.

Lemma chunks_blocks (n : Z) (l : list byte) :
  0 < n ->
  Forall (fun b => b <> [] /\ lengthZ b <= n) (chunks n l).
Proof.
  intros Hn. induction l as [|l Hl IH] using (chunks_ind n Hn).
  - constructor.
  - rewrite chunks_cons by assumption. constructor; [|exact IH]. split.
    + intros H. apply takeZ_nil_inv in H; [contradiction | exact Hn].
    + rewrite lengthZ_takeZ by lia. lia.
Qed.

Lemma dropZ_short {A : Type} (l : list A) :
  forall n, lengthZ l <= n -> dropZ n l = [].
Proof.
  induction l as [|x l IH]; intros n Hn; [reflexivity|].
  rewrite lengthZ_cons in Hn. pose proof (lengthZ_nonneg l).
  cbn [dropZ]. destruct (Z.ltb_spec 0 n); [|lia]. apply IH. lia.
Qed.

Lemma chunks_short (n : Z) (l : list byte) :
  0 < n -> lengthZ l <= n -> (List.length (chunks n l) <= 1)%nat.
Proof.
  intros Hn Hl. destruct l as [|x l]; [rewrite chunks_nil; simpl; lia|].
  rewrite chunks_cons by (assumption || discriminate).
  rewrite (dropZ_short _ _ Hl), chunks_nil. simpl. lia.
Qed.

Lemma chunks_length (n : Z) (l : list byte) :
  0 < n -> (List.length (chunks n l) <= List.length l)%nat.
Proof.
  intros Hn. induction l as [|l Hl IH] using (chunks_ind n Hn).
  - simpl. lia.
  - rewrite chunks_cons by assumption. cbn [List.length].
    pose proof (length_dropZ l n Hn Hl). lia.
Qed.

(** ** Lists of tasks *)

Lemma nth_error_done {A T : Type} (D : T) (done : list A) (tasks : list T)
      (i : nat) :
  (i < List.length done)%nat ->
  nth_error (map (fun _ => D) done ++ tasks) i = Some D.
Proof.
  intros Hi. rewrite nth_error_app1 by (rewrite length_map; exact Hi).
  rewrite nth_error_map.
  destruct (nth_error done i) eqn:Hn; [reflexivity|].
  apply nth_error_None in Hn. lia.
Qed.

Lemma nth_error_pending {A T : Type} (D : T) (done : list A)
      (tasks : list T) (i : nat) :
  (List.length done <= i)%nat ->
  nth_error (map (fun _ => D) done ++ tasks) i
  = nth_error tasks (i - List.length done).
Proof.
  intros Hi. rewrite nth_error_app2 by (rewrite length_map; exact Hi).
  rewrite length_map. reflexivity.
Qed.

Lemma set_task_app {T : Type} (l1 l2 : list T) (i : nat) (t : T) :
  (List.length l1 <= i)%nat ->
  set_task i t (l1 ++ l2) = l1 ++ set_task (i - List.length l1) t l2.
Proof.
  intros Hi. unfold set_task.
  rewrite firstn_app, skipn_app.
  rewrite firstn_all2 by exact Hi. rewrite skipn_all2 by exact Hi.
  cbn [app]. rewrite <- app_assoc. reflexivity.
Qed.

Lemma set_task_nth {T : Type} (l : list T) (j : nat) (t t0 : T) :
  nth_error l j = Some t0 ->
  exists l1 l2, l = l1 ++ t0 :: l2 /\ List.length l1 = j /\
                set_task j t l = l1 ++ t :: l2.
Proof.
  intros Hn. apply nth_error_split in Hn as (l1 & l2 & -> & Hlen).
  exists l1, l2. split; [reflexivity|]. split; [exact Hlen|].
  unfold set_task. subst j.
  rewrite firstn_app, skipn_app, firstn_all, skipn_all, Nat.sub_diag.
  cbn [firstn skipn app]. rewrite app_nil_r. reflexivity.
Qed.

Lemma set_task_mid {T : Type} (l1 l2 : list T) (j : nat) (t t0 : T) :
  List.length l1 = j -> set_task j t (l1 ++ t0 :: l2) = l1 ++ t :: l2.
Proof.
  intros Hj. unfold set_task. subst j.
  rewrite firstn_app, skipn_app, firstn_all, skipn_all, Nat.sub_diag.
  cbn [firstn skipn app]. rewrite app_nil_r. reflexivity.
Qed.

Lemma Forall2_split_at {A T : Type} (P : A -> T -> Prop) (bs : list A)
      (l1 l2 : list T) (t0 : T) :
  Forall2 P bs (l1 ++ t0 :: l2) ->
  exists b1 b b2, bs = b1 ++ b :: b2 /\ Forall2 P b1 l1 /\ P b t0 /\
                  Forall2 P b2 l2 /\ List.length b1 = List.length l1.
Proof.
  intros H. apply Forall2_app_inv_r in H as (b1 & b2' & H1 & H2 & ->).
  inversion H2 as [|b t b2 l2' Hb H2' Heq1 Heq2]; subst.
  exists b1, b, b2. repeat split; try assumption.
  apply (Forall2_length H1).
Qed.

Lemma forallb_tl_snoc {A : Type} (p : A -> bool) (l : list A) (x : A) :
  forallb p (tl l) = true -> p x = true ->
  forallb p (tl (l ++ [x])) = true.
Proof.
  destruct l as [|a l]; intros Hl Hx; [reflexivity|].
  cbn [tl app] in *. rewrite forallb_app, Hl. cbn [forallb].
  rewrite Hx. reflexivity.
Qed.

Lemma forallb_tl_mid {A : Type} (p : A -> bool) (l1 l2 : list A) (x : A) :
  forallb p (tl (l1 ++ x :: l2)) = true -> p x = false -> l1 = [].
Proof.
  destruct l1 as [|a l1]; intros Hl Hx; [reflexivity|]. exfalso.
  cbn [tl app] in Hl. rewrite forallb_app in Hl.
  apply andb_prop in Hl as [_ Hl]. cbn [forallb] in Hl.
  rewrite Hx in Hl. discriminate Hl.
Qed.

Lemma existsb_set_task {T : Type} (p : T -> bool) (i : nat) (t t0 : T)
      (l : list T) :
  nth_error l i = Some t0 -> p t0 = false ->
  existsb p l = true -> existsb p (set_task i t l) = true.
Proof.
  intros Hn Ht0 H.
  destruct (set_task_nth l i t t0 Hn) as (l1 & l2 & -> & _ & ->).
  rewrite existsb_app in *. cbn [existsb] in *. rewrite Ht0 in H.
  cbn [orb] in H. apply orb_prop in H as [H | H]; rewrite H;
    [reflexivity | rewrite !orb_true_r; reflexivity].
Qed.

(** ** The race of the encoder

    A worker that ran into the race stays there: the run has no value
    from then on. *)

Section EncoderRace.
Context {W : Type}.
Variable E : Externals.
Variables bm nbc : Z.
Variable sc : bool.

Lemma compress_par_step_raced (tid : nat) (s : CompressPar (W := W)) :
  existsb ctask_raced (cp_futures s) = true ->
  existsb ctask_raced
          (cp_futures (compress_par_step E bm nbc sc tid s)) = true.
Proof.
  intros H. unfold compress_par_step. destruct tid as [|i].
  - destruct (cp_reading s); [|exact H].
    destruct (Context.read (cp_ctx s) bm) as [[readSize src] c1].
    destruct (0 =? readSize); [exact H|].
    cbn [cp_futures]. rewrite existsb_app, H. reflexivity.
  - destruct (nth_error (cp_futures s) i) as [[src n|src n k o| |]|] eqn:Hn;
      try exact H.
    + destruct (compress_f_before_gate (cp_ctx s) src n) as [[[k o]|] c1];
        cbn [cp_futures];
        apply (existsb_set_task _ _ _ _ _ Hn eq_refl H).
    + destruct (compress_f_after_gate E nbc sc src n k o (cp_ctx s)
                                      (cp_xxhStream s)) as [c1 xxh1].
      cbn [cp_futures]. apply (existsb_set_task _ _ _ _ _ Hn eq_refl H).
Qed.

Lemma compress_par_run_raced (sched : list nat) :
  forall s : CompressPar (W := W),
    existsb ctask_raced (cp_futures s) = true ->
    existsb ctask_raced
      (cp_futures
         (fold_left (fun s tid => compress_par_step E bm nbc sc tid s)
                    sched s)) = true.
Proof.
  induction sched as [|tid sched IH]; intros s H; [exact H|].
  cbn [fold_left]. apply IH, compress_par_step_raced, H.
Qed.
End EncoderRace.

(** ** The encoder over memory streams *)

Section EncoderOnMemory.
Variable E : Externals.
Variables cmp dec : list byte -> Z -> Z -> Z * list byte.
Variable style : bool.
Variables bm nbc : Z.
Variable sc : bool.
Hypothesis Hbm : 0 < bm < 2 ^ 31.
Hypothesis Hcodec : codec_inverse cmp dec bm.

Lemma mem_ok_called c rest out flag e :
  mem_ok cmp dec style c rest out flag ->
  mem_ok cmp dec style (called e (world c) c) rest out flag.
Proof. unfold mem_ok, Lz4MtContext_codec. ctx_cbn. tauto. Qed.

Lemma mem_ok_codec c rest out flag :
  mem_ok cmp dec style c rest out flag ->
  compress c = cmp /\ decompress c = dec.
Proof.
  intros (_ & _ & _ & _ & Hc & _). unfold Lz4MtContext_codec in Hc.
  injection Hc as H1 H2. auto.
Qed.

Lemma codec_sizes (blk : list byte) :
  lengthZ blk <= bm ->
  let '(n, o) := cmp blk (lengthZ blk) (lengthZ blk) in
  0 < n -> n <= lengthZ blk /\ n <= lengthZ o.
Proof.
  intros Hlen. pose proof (Hcodec blk Hlen) as H.
  destruct (cmp blk (lengthZ blk) (lengthZ blk)) as [n o].
  intros Hn. destruct (H Hn) as (H1 & H2 & _). auto.
Qed.

Lemma enc_before_gate c rest out flag blk :
  mem_ok cmp dec style c rest out flag ->
  exists c',
    compress_f_before_gate c blk (lengthZ blk)
    = (Some (cmp blk (lengthZ blk) (lengthZ blk)), c') /\
    mem_ok cmp dec style c' rest out flag.
Proof.
  intros H. unfold compress_f_before_gate.
  rewrite (mem_ok_error _ _ _ _ _ _ _ H).
  unfold Context.compress, invoke_compress.
  rewrite (proj1 (mem_ok_codec _ _ _ _ H)), takeZ_all.
  destruct (cmp blk (lengthZ blk) (lengthZ blk)) as [n o].
  eexists. split; [reflexivity|]. apply mem_ok_called. exact H.
Qed.

Lemma enc_after_gate c rest out flag blk xxh :
  mem_ok cmp dec style c rest out flag ->
  lengthZ blk <= bm ->
  exists c',
    compress_f_after_gate E nbc sc blk (lengthZ blk)
      (fst (cmp blk (lengthZ blk) (lengthZ blk)))
      (snd (cmp blk (lengthZ blk) (lengthZ blk))) c xxh
    = (c', if sc then Xxh32.mk (Xxh32.seed xxh) (Xxh32.fed xxh ++ blk)
           else xxh) /\
    mem_ok cmp dec style c' rest (out ++ encode_block E nbc cmp blk) flag.
Proof.
  intros H Hlen. pose proof (codec_sizes blk Hlen) as Hsz.
  pose proof (lengthZ_nonneg blk) as Hnn.
  unfold compress_f_after_gate, encode_block, Xxh32.update.
  rewrite takeZ_all.
  destruct (cmp blk (lengthZ blk) (lengthZ blk)) as [n o]. cbn [fst snd].
  unfold block_prefix, block_payload, Xxh32.digest, Xxh32.oneshot.
  cbn [Xxh32.fed Xxh32.seed].
  destruct (Z.leb_spec n 0) as [Hle | Hgt].
  - rewrite incompressible_prefix by lia. rewrite takeZ_all.
    destruct (mem_writeU32 cmp dec style c rest out flag
                (lengthZ blk + 2 ^ 31) H) as (c1 & Hw1 & H1).
    rewrite Hw1. cbn [snd].
    destruct (mem_writeBin cmp dec style c1 rest _ flag blk (lengthZ blk) H1
                ltac:(lia)) as (c2 & Hw2 & H2).
    rewrite Hw2. cbn [snd]. rewrite takeZ_all in H2.
    destruct (negb (0 =? nbc)).
    + destruct (mem_writeU32 cmp dec style c2 rest _ flag
                  (u32 (XXH32 E blk LZ4S_CHECKSUM_SEED)) H2)
        as (c3 & Hw3 & H3).
      rewrite Hw3. cbn [snd]. eexists. split; [reflexivity|].
      rewrite <- !app_assoc in H3. exact H3.
    + eexists. split; [reflexivity|].
      rewrite <- !app_assoc in H2. rewrite app_nil_r. exact H2.
  - destruct (Hsz Hgt) as [Hn1 Hn2].
    rewrite (u32_small n) by lia.
    destruct (mem_writeU32 cmp dec style c rest out flag n H)
      as (c1 & Hw1 & H1).
    rewrite Hw1. cbn [snd].
    destruct (mem_writeBin cmp dec style c1 rest _ flag o n H1
                ltac:(lia)) as (c2 & Hw2 & H2).
    rewrite Hw2. cbn [snd].
    destruct (negb (0 =? nbc)).
    + destruct (mem_writeU32 cmp dec style c2 rest _ flag
                  (u32 (XXH32 E (takeZ n o) LZ4S_CHECKSUM_SEED)) H2)
        as (c3 & Hw3 & H3).
      rewrite Hw3. cbn [snd]. eexists. split; [reflexivity|].
      rewrite <- !app_assoc in H3. exact H3.
    + eexists. split; [reflexivity|].
      rewrite <- !app_assoc in H2. rewrite app_nil_r. exact H2.
Qed.

Lemma enc_compress_f c rest out flag blk xxh :
  mem_ok cmp dec style c rest out flag ->
  lengthZ blk <= bm ->
  exists c',
    compress_f E nbc sc blk (lengthZ blk) c xxh
    = (c', if sc then Xxh32.mk (Xxh32.seed xxh) (Xxh32.fed xxh ++ blk)
           else xxh) /\
    mem_ok cmp dec style c' rest (out ++ encode_block E nbc cmp blk) flag.
Proof.
  intros H Hlen. unfold compress_f.
  destruct (enc_before_gate c rest out flag blk H) as (c1 & Hb & H1).
  rewrite Hb.
  destruct (enc_after_gate c1 rest out flag blk xxh H1 Hlen)
    as (c2 & Ha & H2).
  destruct (cmp blk (lengthZ blk) (lengthZ blk)) as [n o].
  cbn [fst snd] in Ha. rewrite Ha. exists c2. auto.
Qed.

(** The block loop of sequential mode writes the blocks of the input and
    feeds the input to the stream digester. *)
Lemma enc_blocks_sequential (fuel : nat) :
  forall c rest out flag xxh,
    mem_ok cmp dec style c rest out flag ->
    (List.length rest < fuel)%nat ->
    exists c' flag',
      compress_blocks_sequential E fuel bm nbc sc c xxh
      = Some (c', if sc then Xxh32.mk (Xxh32.seed xxh) (Xxh32.fed xxh ++ rest)
                  else xxh) /\
      mem_ok cmp dec style c' []
             (out ++ List.concat (map (encode_block E nbc cmp)
                                      (chunks bm rest))) flag'.
Proof.
  induction fuel as [|fuel IH]; intros c rest out flag xxh H Hfuel; [lia|].
  cbn [compress_blocks_sequential]. unfold Context.read.
  destruct (mem_invoke_read cmp dec style c rest out flag bm H)
    as (c1 & Hr & H1).
  rewrite Hr.
  destruct rest as [|x rest].
  - cbn [takeZ]. change (lengthZ (@nil byte)) with 0. cbn [Z.eqb].
    exists c1. eexists. split.
    + destruct sc; [|reflexivity]. rewrite app_nil_r.
      destruct xxh; reflexivity.
    + rewrite chunks_nil. cbn [map List.concat]. rewrite app_nil_r.
      cbn [dropZ] in H1. exact H1.
  - set (r := x :: rest) in *.
    assert (Hr0 : r <> []) by discriminate.
    assert (Hblk : takeZ bm r <> []).
    { intros Hnil. apply takeZ_nil_inv in Hnil; [contradiction | lia]. }
    assert (Hlen : 0 < lengthZ (takeZ bm r) <= bm).
    { rewrite lengthZ_takeZ by lia. split; [|lia].
      unfold r. rewrite lengthZ_cons. pose proof (lengthZ_nonneg rest). lia. }
    destruct (Z.eqb_spec 0 (lengthZ (takeZ bm r))) as [Hz | _]; [lia|].
    destruct (enc_compress_f c1 _ out _ (takeZ bm r) xxh H1 ltac:(lia))
      as (c2 & Hf & H2).
    rewrite Hf.
    pose proof (length_dropZ r bm ltac:(lia) Hr0) as Hshort.
    destruct (IH c2 (dropZ bm r) _ _
                 (if sc
                  then Xxh32.mk (Xxh32.seed xxh)
                                (Xxh32.fed xxh ++ takeZ bm r)
                  else xxh) H2 ltac:(lia)) as (c3 & flag3 & Hrun & H3).
    rewrite Hrun. exists c3, flag3. split.
    + destruct sc; [|reflexivity]. cbn [Xxh32.seed Xxh32.fed].
      rewrite <- app_assoc, takeZ_dropZ. reflexivity.
    + rewrite (chunks_cons bm r) by (lia || assumption).
      cbn [map List.concat]. rewrite <- app_assoc in H3. exact H3.
Qed.

(** One iteration for each block and one more are enough. *)
Lemma enc_blocks_sequential_chunks (fuel : nat) :
  forall c rest out flag xxh,
    mem_ok cmp dec style c rest out flag ->
    (List.length (chunks bm rest) < fuel)%nat ->
    exists c' flag',
      compress_blocks_sequential E fuel bm nbc sc c xxh
      = Some (c', if sc then Xxh32.mk (Xxh32.seed xxh) (Xxh32.fed xxh ++ rest)
                  else xxh) /\
      mem_ok cmp dec style c' []
             (out ++ List.concat (map (encode_block E nbc cmp)
                                      (chunks bm rest))) flag'.
Proof.
  induction fuel as [|fuel IH]; intros c rest out flag xxh H Hfuel; [lia|].
  cbn [compress_blocks_sequential]. unfold Context.read.
  destruct (mem_invoke_read cmp dec style c rest out flag bm H)
    as (c1 & Hr & H1).
  rewrite Hr.
  destruct rest as [|x rest].
  - cbn [takeZ]. change (lengthZ (@nil byte)) with 0. cbn [Z.eqb].
    exists c1. eexists. split.
    + destruct sc; [|reflexivity]. rewrite app_nil_r.
      destruct xxh; reflexivity.
    + rewrite chunks_nil. cbn [map List.concat]. rewrite app_nil_r.
      cbn [dropZ] in H1. exact H1.
  - set (r := x :: rest) in *.
    assert (Hr0 : r <> []) by discriminate.
    assert (Hlen : 0 < lengthZ (takeZ bm r) <= bm).
    { rewrite lengthZ_takeZ by lia. split; [|lia].
      unfold r. rewrite lengthZ_cons. pose proof (lengthZ_nonneg rest). lia. }
    destruct (Z.eqb_spec 0 (lengthZ (takeZ bm r))) as [Hz | _]; [lia|].
    destruct (enc_compress_f c1 _ out _ (takeZ bm r) xxh H1 ltac:(lia))
      as (c2 & Hf & H2).
    rewrite Hf.
    rewrite (chunks_cons bm r) in Hfuel by (lia || assumption).
    cbn [List.length] in Hfuel.
    destruct (IH c2 (dropZ bm r) _ _
                 (if sc
                  then Xxh32.mk (Xxh32.seed xxh)
                                (Xxh32.fed xxh ++ takeZ bm r)
                  else xxh) H2 ltac:(lia)) as (c3 & flag3 & Hrun & H3).
    rewrite Hrun. exists c3, flag3. split.
    + destruct sc; [|reflexivity]. cbn [Xxh32.seed Xxh32.fed].
      rewrite <- app_assoc, takeZ_dropZ. reflexivity.
    + rewrite (chunks_cons bm r) by (lia || assumption).
      cbn [map List.concat]. rewrite <- app_assoc in H3. exact H3.
Qed.

(** A move of the machine that does not run into the race keeps the
    invariant of the parallel block loop, and leaves every worker but
    that of block [0] at its entry. *)
Lemma compress_par_step_inv (input out0 : list byte) (xxh0 : Xxh32.t)
      (tid : nat) (s : CompressPar) :
  compress_par_inv E cmp dec style bm nbc sc input out0 xxh0 s ->
  forallb ctask_waiting (tl (cp_futures s)) = true ->
  existsb ctask_raced
          (cp_futures (compress_par_step E bm nbc sc tid s)) = false ->
  compress_par_inv E cmp dec style bm nbc sc input out0 xxh0
                   (compress_par_step E bm nbc sc tid s) /\
  forallb ctask_waiting
          (tl (cp_futures (compress_par_step E bm nbc sc tid s))) = true.
Proof.
  intros Hinv Hwait. pose proof Hinv as Hat.
  unfold compress_par_inv, compress_par_at in Hat.
  destruct Hat as (done & pending & tasks & rest & flag
                   & Hfut & Hpend & Hok & Hxxh & Hlen & Hchunks & Hrest).
  unfold compress_par_step. destruct tid as [|i].
  - (* the producer *)
    destruct (cp_reading s) eqn:Hreading;
      [|intros _; split; [exact Hinv | exact Hwait]].
    unfold Context.read.
    destruct (mem_invoke_read cmp dec style (cp_ctx s) rest _ flag bm Hok)
      as (c1 & Hr & H1).
    rewrite Hr. destruct rest as [|x rest'].
    + cbn [takeZ]. change (lengthZ (@nil byte)) with 0. cbn [Z.eqb].
      intros _. split; [|exact Hwait].
      exists done, pending, tasks, [], (flag || (0 <? bm)).
      unfold compress_par_at.
      cbn [cp_futures cp_ctx cp_xxhStream cp_reading].
      cbn [takeZ dropZ] in H1. change (lengthZ (@nil byte)) with 0 in H1.
      tauto.
    + set (r := x :: rest') in *.
      assert (Hr0 : r <> []) by discriminate.
      assert (Hl : 0 < lengthZ (takeZ bm r) <= bm).
      { rewrite lengthZ_takeZ by lia. split; [|lia].
        unfold r. rewrite lengthZ_cons. pose proof (lengthZ_nonneg rest').
        lia. }
      destruct (Z.eqb_spec 0 (lengthZ (takeZ bm r))) as [Hz | _]; [lia|].
      intros _. split;
        [|cbn [cp_futures]; apply forallb_tl_snoc; [exact Hwait|reflexivity]].
      exists done, (pending ++ [takeZ bm r]),
        (tasks ++ [CTaskDispatched (takeZ bm r) (lengthZ (takeZ bm r))]),
        (dropZ bm r), (flag || (lengthZ (takeZ bm r) <? bm)).
      unfold compress_par_at.
      cbn [cp_futures cp_ctx cp_xxhStream cp_reading].
      split; [rewrite Hfut, app_assoc; reflexivity|].
      split. { apply Forall2_app; [exact Hpend|]. constructor; [|constructor].
               left. reflexivity. }
      split; [exact H1|]. split; [exact Hxxh|].
      split. { rewrite app_assoc. apply Forall_app. split; [exact Hlen|].
               constructor; [lia | constructor]. }
      split; [|discriminate].
      rewrite <- Hchunks. rewrite (chunks_cons bm r) by (lia || assumption).
      rewrite <- !app_assoc. reflexivity.
  - (* the worker of block [i] *)
    destruct (Nat.lt_ge_cases i (List.length done)) as [Hi | Hi].
    { rewrite Hfut, (nth_error_done CTaskDone done tasks i Hi).
      intros _. split; [exact Hinv | exact Hwait]. }
    rewrite Hfut, (nth_error_pending CTaskDone done tasks i Hi).
    destruct (nth_error tasks (i - List.length done)) as [t|] eqn:Hnth;
      [|intros _; split; [exact Hinv | exact Hwait]].
    destruct (set_task_nth tasks _ CTaskDone t Hnth)
      as (l1 & l2 & Htasks & Hl1 & _).
    subst tasks.
    destruct (Forall2_split_at _ _ _ _ _ Hpend)
      as (b1 & blk & b2 & Hbs & Hb1 & Hblk & Hb2 & Hlen1).
    subst pending.
    assert (Hblen : lengthZ blk <= bm).
    { rewrite Forall_forall in Hlen. apply Hlen.
      rewrite !in_app_iff. right. right. left. reflexivity. }
    assert (Hset : forall u u0,
               set_task i u (map (fun _ => CTaskDone) done
                               ++ l1 ++ u0 :: l2)
               = map (fun _ => CTaskDone) done ++ l1 ++ u :: l2).
    { intros u u0. rewrite set_task_app by (rewrite length_map; exact Hi).
      rewrite length_map, (set_task_mid l1 l2 _ _ _ Hl1). reflexivity. }
    rewrite Hfut in Hwait.
    destruct Hblk as [-> | ->].
    + (* dispatched: up to [futures[i-1].wait()] *)
      destruct (enc_before_gate (cp_ctx s) rest _ flag blk Hok)
        as (c1 & Hb & H1).
      rewrite Hb.
      destruct (cmp blk (lengthZ blk) (lengthZ blk)) as [n o] eqn:Hcmp.
      cbn [cp_futures]. rewrite Hset.
      destruct i as [|i'].
      * intros _.
        assert (Hd : done = [])
          by (destruct done; [reflexivity | cbn [List.length] in Hi; lia]).
        subst done. cbn [List.length Nat.sub] in Hl1.
        assert (Hl : l1 = [])
          by (destruct l1; [reflexivity | discriminate Hl1]).
        subst l1. split; [|exact Hwait].
        exists [], (b1 ++ blk :: b2),
          ([] ++ CTaskAtGate blk (lengthZ blk) n o :: l2), rest, flag.
        unfold compress_par_at.
        cbn [cp_futures cp_ctx cp_xxhStream cp_reading].
        split; [reflexivity|].
        split.
        { apply Forall2_app; [exact Hb1|]. constructor; [|exact Hb2].
          right. rewrite Hcmp. reflexivity. }
        tauto.
      * intros Hrace. exfalso.
        rewrite !existsb_app in Hrace.
        cbn [existsb ctask_raced orb] in Hrace.
        rewrite !orb_true_r in Hrace. discriminate Hrace.
    + (* at [futures[i-1].wait()]: the worker of block [0] *)
      intros _.
      assert (Hnil : map (fun _ : list byte => CTaskDone) done ++ l1 = []).
      { rewrite app_assoc in Hwait.
        apply (forallb_tl_mid _ _ _ _ Hwait). reflexivity. }
      apply app_eq_nil in Hnil as [Hd ->].
      apply map_eq_nil in Hd. subst done.
      destruct b1 as [|bb b1]; [|discriminate Hlen1].
      cbn [app List.length map] in *.
      assert (Hidx : i = O) by lia. subst i.
      destruct (enc_after_gate (cp_ctx s) rest _ flag blk (cp_xxhStream s)
                               Hok Hblen) as (c1 & Ha & H1).
      rewrite Ha. cbn [cp_futures]. split; [|exact Hwait].
      exists [blk], b2, l2, rest, flag.
      unfold compress_par_at.
      cbn [cp_futures cp_ctx cp_xxhStream cp_reading].
      split; [reflexivity|].
      split; [exact Hb2|].
      split.
      { cbn [map List.concat] in H1 |- *.
        rewrite !app_nil_r in H1 |- *. exact H1. }
      split.
      { rewrite Hxxh. unfold fed_with. destruct sc; [|reflexivity].
        cbn [Xxh32.seed Xxh32.fed List.concat]. rewrite !app_nil_r.
        reflexivity. }
      cbn [app]. tauto.
Qed.

(** A run of the machine that does not end in the race keeps the
    invariant. *)
Lemma compress_par_run_inv (input out0 : list byte) (xxh0 : Xxh32.t)
      (sched : list nat) :
  forall s,
    compress_par_inv E cmp dec style bm nbc sc input out0 xxh0 s ->
    forallb ctask_waiting (tl (cp_futures s)) = true ->
    existsb ctask_raced
      (cp_futures
         (fold_left (fun s tid => compress_par_step E bm nbc sc tid s)
                    sched s)) = false ->
    compress_par_inv E cmp dec style bm nbc sc input out0 xxh0
      (fold_left (fun s tid => compress_par_step E bm nbc sc tid s)
                 sched s) /\
    forallb ctask_waiting
      (tl (cp_futures
             (fold_left (fun s tid => compress_par_step E bm nbc sc tid s)
                        sched s))) = true.
Proof.
  induction sched as [|tid sched IH]; intros s H Hw Hr;
    [split; assumption|].
  cbn [fold_left] in *.
  assert (Hr1 : existsb ctask_raced
                  (cp_futures (compress_par_step E bm nbc sc tid s))
                = false).
  { destruct (existsb ctask_raced
                (cp_futures (compress_par_step E bm nbc sc tid s)))
      eqn:Hx; [|reflexivity].
    rewrite (compress_par_run_raced E bm nbc sc sched _ Hx) in Hr.
    discriminate Hr. }
  destruct (compress_par_step_inv input out0 xxh0 tid s H Hw Hr1)
    as [H1 Hw1].
  apply IH; assumption.
Qed.

Lemma fed_with_nil (xxh : Xxh32.t) : fed_with sc xxh [] = xxh.
Proof.
  unfold fed_with. destruct sc; [|reflexivity].
  rewrite app_nil_r. destruct xxh; reflexivity.
Qed.

(** Whatever the schedule, when the block loop of parallel mode and its
    drain are through, the blocks of the input are written in the order
    of the input, and the input is digested; the input was at most one
    block, as no worker got to [futures[i-1].wait()]. *)
Lemma enc_blocks_parallel (sched : list nat) c rest out flag xxh c' xxh' :
  mem_ok cmp dec style c rest out flag ->
  compress_blocks_parallel E sched bm nbc sc c xxh = Done (c', xxh') ->
  xxh' = fed_with sc xxh rest /\
  lengthZ rest <= bm /\
  exists flag',
    mem_ok cmp dec style c' []
           (out ++ List.concat (map (encode_block E nbc cmp)
                                    (chunks bm rest))) flag'.
Proof.
  intros Hok Hrun. apply compress_blocks_parallel_done in Hrun.
  cbv zeta in Hrun. destruct Hrun as (Hrace & Hreading & Hall & Hc & Hx).
  assert (Hinit : compress_par_inv E cmp dec style bm nbc sc rest out xxh
                    (mkCompressPar c xxh [] true)).
  { exists [], [], [], rest, flag. unfold compress_par_at.
    cbn [cp_futures cp_ctx cp_xxhStream cp_reading map List.concat app].
    rewrite app_nil_r, fed_with_nil.
    split; [reflexivity|]. split; [constructor|]. split; [exact Hok|].
    split; [reflexivity|]. split; [constructor|].
    split; [reflexivity | discriminate]. }
  destruct (compress_par_run_inv rest out xxh sched _ Hinit eq_refl Hrace)
    as [Hfin Hwait].
  destruct Hfin as (done & pending & tasks & rest' & flag' & Hfut & Hpend
                    & Hok' & Hxxh & Hlen & Hchunks & Hrest).
  revert Hreading Hall Hc Hx Hwait Hfut Hok' Hxxh Hrest.
  generalize (fold_left (fun s tid => compress_par_step E bm nbc sc tid s)
                        sched (mkCompressPar c xxh [] true)).
  intros s Hreading Hall Hc Hx Hwait Hfut Hok' Hxxh Hrest.
  subst c' xxh'.
  rewrite (Hrest Hreading) in *.
  assert (Htasks : tasks = []).
  { rewrite Hfut, forallb_app in Hall. apply andb_prop in Hall as [_ Hall].
    destruct Hpend as [|b t bs ts [Hbt | Hbt] _]; [reflexivity| |];
      subst t; discriminate Hall. }
  subst tasks. inversion Hpend; subst pending.
  rewrite chunks_nil, !app_nil_r in Hchunks. rewrite app_nil_r in Hlen.
  subst done.
  rewrite app_nil_r in Hfut.
  rewrite concat_chunks in Hxxh by lia.
  split; [exact Hxxh|]. split; [|exists flag'; exact Hok'].
  rewrite Hfut in Hwait.
  rewrite <- (concat_chunks bm rest) at 1 by lia.
  revert Hwait Hlen.
  destruct (chunks bm rest) as [|b1 [|b2 bs]]; intros Hwait Hlen.
  - cbn [List.concat]. change (lengthZ (@nil byte)) with 0. lia.
  - cbn [List.concat]. rewrite app_nil_r.
    inversion Hlen; assumption.
  - discriminate Hwait.
Qed.
End EncoderOnMemory.

(** ** The eager schedule of the encoder

    Under the schedule that runs each worker as soon as its block is
    read, parallel mode does on an input of at most one block what
    sequential mode does, whatever the callbacks. *)

Section EagerCompress.
Context {W : Type}.
Variable E : Externals.
Variables bm nbc : Z.
Variable sc : bool.

Lemma compress_blocks_sequential_eq (fuel : nat) (c : Lz4MtContext W)
      (xxh : Xxh32.t) :
  compress_blocks_sequential E (S fuel) bm nbc sc c xxh
  = let '(readSize, src, c1) := Context.read c bm in
    if 0 =? readSize then Some (c1, xxh)
    else
      let '(c2, xxh2) := compress_f E nbc sc src readSize c1 xxh in
      compress_blocks_sequential E fuel bm nbc sc c2 xxh2.
Proof. reflexivity. Qed.

Lemma eager_schedule_tids (n : nat) :
  forall k, Forall (fun tid => tid = O \/ (k < tid)%nat) (eager_schedule k n).
Proof.
  induction n as [|n IH]; intros k; cbn [eager_schedule].
  - constructor; [left; reflexivity | constructor].
  - constructor; [left; reflexivity|].
    constructor; [right; lia|]. constructor; [right; lia|].
    eapply Forall_impl; [|apply (IH (S k))].
    intros tid [H | H]; [left; exact H | right; lia].
Qed.

Lemma compress_par_idle (sched : list nat) (s : CompressPar (W := W)) :
  cp_reading s = false ->
  Forall (fun tid => tid = O \/ (List.length (cp_futures s) < tid)%nat)
         sched ->
  fold_left (fun s tid => compress_par_step E bm nbc sc tid s) sched s = s.
Proof.
  intros Hr H. induction H as [|tid sched Htid _ IH]; [reflexivity|].
  cbn [fold_left].
  assert (Hs : compress_par_step E bm nbc sc tid s = s).
  { unfold compress_par_step. destruct tid as [|i].
    - rewrite Hr. reflexivity.
    - destruct Htid as [Htid | Htid]; [discriminate Htid|].
      destruct (nth_error (cp_futures s) i) eqn:Hn; [|reflexivity].
      assert (Hsome : nth_error (cp_futures s) i <> None) by congruence.
      apply nth_error_Some in Hsome. lia. }
  rewrite Hs. exact IH.
Qed.

Lemma nth_error_last {T : Type} (l : list T) (t : T) :
  nth_error (l ++ [t]) (List.length l) = Some t.
Proof.
  rewrite nth_error_app2 by lia. rewrite Nat.sub_diag. reflexivity.
Qed.

Lemma set_task_last {T : Type} (l : list T) (t t0 : T) :
  set_task (List.length l) t (l ++ [t0]) = l ++ [t].
Proof. apply set_task_mid. reflexivity. Qed.

Lemma compress_step_producer (c : Lz4MtContext W) (xxh : Xxh32.t)
      (futs : list CompressTask) :
  compress_par_step E bm nbc sc 0 (mkCompressPar c xxh futs true)
  = let '(readSize, src, c1) := Context.read c bm in
    if 0 =? readSize then mkCompressPar c1 xxh futs false
    else mkCompressPar c1 xxh (futs ++ [CTaskDispatched src readSize]) true.
Proof. reflexivity. Qed.

Lemma compress_step_dispatched (c : Lz4MtContext W) (xxh : Xxh32.t)
      (futs : list CompressTask) (src : list byte) (srcSize : Z)
      (rd : bool) :
  compress_par_step E bm nbc sc (S (List.length futs))
    (mkCompressPar c xxh (futs ++ [CTaskDispatched src srcSize]) rd)
  = match compress_f_before_gate c src srcSize with
    | (None, c1) => mkCompressPar c1 xxh (futs ++ [CTaskDone]) rd
    | (Some (cmpSize, cmpPtr), c1) =>
        mkCompressPar c1 xxh
          (futs ++ [match List.length futs with
                    | O => CTaskAtGate src srcSize cmpSize cmpPtr
                    | S _ => CTaskRaced
                    end]) rd
    end.
Proof.
  unfold compress_par_step. cbn [cp_reading cp_ctx cp_xxhStream cp_futures].
  rewrite nth_error_last.
  destruct (compress_f_before_gate c src srcSize) as [[[cmpSize cmpPtr]|] c1];
    rewrite set_task_last; reflexivity.
Qed.

Lemma compress_step_at_gate (c : Lz4MtContext W) (xxh : Xxh32.t)
      (futs : list CompressTask) (src : list byte) (srcSize cmpSize : Z)
      (cmpPtr : list byte) (rd : bool) :
  compress_par_step E bm nbc sc (S (List.length futs))
    (mkCompressPar c xxh
       (futs ++ [CTaskAtGate src srcSize cmpSize cmpPtr]) rd)
  = let '(c1, xxh1) :=
      compress_f_after_gate E nbc sc src srcSize cmpSize cmpPtr c xxh in
    mkCompressPar c1 xxh1 (futs ++ [CTaskDone]) rd.
Proof.
  unfold compress_par_step.
  cbn [cp_reading cp_ctx cp_xxhStream cp_futures].
  rewrite nth_error_last.
  destruct (compress_f_after_gate E nbc sc src srcSize cmpSize cmpPtr c xxh)
    as [c1 xxh1].
  rewrite set_task_last. reflexivity.
Qed.

Lemma compress_step_done (c : Lz4MtContext W) (xxh : Xxh32.t)
      (futs : list CompressTask) (rd : bool) :
  compress_par_step E bm nbc sc (S (List.length futs))
    (mkCompressPar c xxh (futs ++ [CTaskDone]) rd)
  = mkCompressPar c xxh (futs ++ [CTaskDone]) rd.
Proof.
  unfold compress_par_step. cbn [cp_reading cp_ctx cp_xxhStream cp_futures].
  rewrite nth_error_last. reflexivity.
Qed.

(** The block loop of parallel mode returns under the eager schedule
    for one block when that of sequential mode returns within one
    block. *)
Lemma compress_blocks_parallel_eager (c : Lz4MtContext W) (xxh : Xxh32.t)
      r :
  compress_blocks_sequential E 2 bm nbc sc c xxh = Some r ->
  compress_blocks_parallel E (eager_schedule 0 1) bm nbc sc c xxh = Done r.
Proof.
  intros Hseq. rewrite compress_blocks_sequential_eq in Hseq.
  unfold compress_blocks_parallel. cbn [eager_schedule fold_left].
  rewrite compress_step_producer.
  destruct (Context.read c bm) as [[readSize src] c1].
  destruct (0 =? readSize).
  - injection Hseq as <-. reflexivity.
  - unfold compress_f in Hseq.
    pose proof (compress_step_dispatched c1 xxh [] src readSize true) as Hd.
    cbn [List.length app] in Hd |- *. rewrite Hd. clear Hd.
    destruct (compress_f_before_gate c1 src readSize)
      as [[[cmpSize cmpPtr]|] c1'].
    + pose proof (compress_step_at_gate c1' xxh [] src readSize cmpSize
                                        cmpPtr true) as Hg.
      cbn [List.length app] in Hg |- *. rewrite Hg. clear Hg.
      destruct (compress_f_after_gate E nbc sc src readSize cmpSize cmpPtr
                                      c1' xxh) as [c2 xxh2].
      rewrite compress_blocks_sequential_eq in Hseq.
      rewrite compress_step_producer.
      destruct (Context.read c2 bm) as [[readSize2 src2] c3].
      destruct (0 =? readSize2).
      * injection Hseq as <-. reflexivity.
      * destruct (compress_f E nbc sc src2 readSize2 c3 xxh2).
        discriminate Hseq.
    + pose proof (compress_step_done c1' xxh [] true) as Hg.
      cbn [List.length app] in Hg |- *. rewrite Hg. clear Hg.
      rewrite compress_blocks_sequential_eq in Hseq.
      rewrite compress_step_producer.
      destruct (Context.read c1' bm) as [[readSize2 src2] c3].
      destruct (0 =? readSize2).
      * injection Hseq as <-. reflexivity.
      * destruct (compress_f E nbc sc src2 readSize2 c3 xxh).
        discriminate Hseq.
Qed.
End EagerCompress.

(** ** The encoder on a byte sequence in memory *)

Lemma mode_preserved {W : Type} :
  preserved (fun c c' : Lz4MtContext W => mode c' = mode c) (fun _ => True).
Proof.
  constructor; try reflexivity; auto.
  intros a b c Hab Hbc. congruence.
Qed.

Lemma compress_blocks_sequential_mono {W : Type} (E : Externals)
      (bm nbc : Z) (sc : bool) (fuel : nat) :
  forall (c : Lz4MtContext W) (xxh : Xxh32.t) r (fuel' : nat),
    compress_blocks_sequential E fuel bm nbc sc c xxh = Some r ->
    (fuel <= fuel')%nat ->
    compress_blocks_sequential E fuel' bm nbc sc c xxh = Some r.
Proof.
  induction fuel as [|fuel IH]; intros c xxh r fuel' Hrun Hle;
    [discriminate Hrun|].
  destruct fuel' as [|fuel']; [lia|].
  rewrite compress_blocks_sequential_eq in *.
  destruct (Context.read c bm) as [[readSize src] c1].
  destruct (0 =? readSize); [exact Hrun|].
  destruct (compress_f E nbc sc src readSize c1 xxh) as [c2 xxh2].
  apply IH; [exact Hrun | lia].
Qed.

Lemma mem_ok_open (cmp dec : list byte -> Z -> Z -> Z * list byte)
      (style : bool) (mode : Z) (input : list byte) :
  mem_ok cmp dec style (Mem.context (Mem.open input style None) cmp dec mode)
         input [] false.
Proof.
  unfold mem_ok, Mem.context, Mem.open, Lz4MtContext_codec, Mem.remaining.
  ctx_cbn. cbn [Mem.eofAtEnd Mem.pos Mem.content Mem.written Mem.room
                Mem.eofFlag skipn].
  repeat split; reflexivity.
Qed.

Lemma block_size_range (sd : Lz4MtStreamDescriptor) :
  validateStreamDescriptor sd = LZ4MT_RESULT_OK ->
  0 < getBlockSize (blockMaximumSize (bd sd)) < 2 ^ 31.
Proof.
  intros H. destruct (validate_cases sd) as [[_ Hn] | [Hne _]];
    [|contradiction].
  unfold descriptor_rejected in Hn.
  assert (Hb : blockMaximumSize (bd sd) = 4 \/ blockMaximumSize (bd sd) = 5
               \/ blockMaximumSize (bd sd) = 6
               \/ blockMaximumSize (bd sd) = 7) by lia.
  destruct Hb as [Hb | [Hb | [Hb | Hb]]]; rewrite Hb; vm_compute;
    split; reflexivity.
Qed.

Section EncoderRun.
Variable E : Externals.
Variables cmp dec : list byte -> Z -> Z -> Z * list byte.
Variable D : Lz4MtStreamDescriptor.
Hypothesis Hvalid : validateStreamDescriptor D = LZ4MT_RESULT_OK.
Hypothesis Hcodec :
  codec_inverse cmp dec (getBlockSize (blockMaximumSize (bd D))).
Hypothesis Hassert :
  streamSize (flg D) <> 0 -> NDEBUG E = false -> sd_streamSize D <> 0.

Lemma compress_assert_holds :
  negb (0 =? streamSize (flg D)) && negb (NDEBUG E) && (0 =? sd_streamSize D)
  = false.
Proof.
  destruct (Z.eqb_spec 0 (streamSize (flg D))) as [|Hs]; [reflexivity|].
  destruct (NDEBUG E) eqn:Hn; [reflexivity|].
  destruct (Z.eqb_spec 0 (sd_streamSize D)) as [Hz|]; [|reflexivity].
  exfalso. apply Hassert; auto.
Qed.

(** The run up to the block loop: the header is written. *)
Lemma compress_on_memory_header (style : bool) (m : Z) (input : list byte)
      (fuel : nat) (sched : list nat) :
  exists c1,
    mem_ok cmp dec style c1 input (compress_header E D) false /\
    lz4mtCompress E fuel sched
      (Mem.context (Mem.open input style None) cmp dec m) D
    = run_bind
        (if negb (0 =? Z.land m LZ4MT_MODE_SEQUENTIAL)
         then run_of_option
                (compress_blocks_sequential E fuel
                   (getBlockSize (blockMaximumSize (bd D)))
                   (if negb (0 =? blockChecksum (flg D)) then 4 else 0)
                   (negb (0 =? streamChecksum (flg D))) c1
                   (Xxh32.init LZ4S_CHECKSUM_SEED))
         else compress_blocks_parallel E sched
                (getBlockSize (blockMaximumSize (bd D)))
                (if negb (0 =? blockChecksum (flg D)) then 4 else 0)
                (negb (0 =? streamChecksum (flg D))) c1
                (Xxh32.init LZ4S_CHECKSUM_SEED))
        (fun '(c2, xxh2) =>
           Done (compress_tail E (negb (0 =? streamChecksum (flg D)))
                               c2 xxh2)).
Proof.
  pose proof (mem_ok_open cmp dec style m input) as H0.
  set (c0 := Mem.context (Mem.open input style None) cmp dec m) in *.
  destruct (mem_invoke_write cmp dec style c0 input [] false
                             (compress_header E D) H0) as (c1 & Hw & H1).
  pose proof (R_invoke_write _ _ mode_preserved c0 (compress_header E D))
    as Hmode.
  rewrite Hw in Hmode. cbn [snd] in Hmode.
  exists c1. split; [exact H1|].
  unfold lz4mtCompress, compress_until_tail.
  rewrite Hvalid. cbn [Lz4MtResult_eqb negb].
  rewrite compress_assert_holds.
  unfold Context.write. rewrite Hw. rewrite Z.eqb_refl. cbn [negb].
  unfold Context.mode. rewrite Hmode.
  change (mode c0) with m.
  destruct (negb (0 =? Z.land m LZ4MT_MODE_SEQUENTIAL)).
  - destruct (compress_blocks_sequential E fuel _ _ _ c1 _) as [[c2 xxh2]|];
      reflexivity.
  - destruct (compress_blocks_parallel E sched _ _ _ c1 _)
      as [[c2 xxh2]| | |]; reflexivity.
Qed.

(** The tail: the end-of-stream mark and the stream checksum. *)
Lemma compress_on_memory_tail (style sc : bool) c rest out flag
      (data : list byte) :
  mem_ok cmp dec style c rest out flag ->
  exists c',
    compress_tail E sc c (fed_with sc (Xxh32.init LZ4S_CHECKSUM_SEED) data)
    = (LZ4MT_RESULT_OK, c') /\
    mem_ok cmp dec style c' rest
           (out ++ storeU32 LZ4S_EOS
                ++ (if sc
                    then storeU32 (u32 (XXH32 E data LZ4S_CHECKSUM_SEED))
                    else [])) flag.
Proof.
  intros H. unfold compress_tail.
  destruct (mem_writeU32 cmp dec style c rest out flag LZ4S_EOS H)
    as (c1 & Hw1 & H1).
  rewrite Hw1. cbn [negb]. destruct sc.
  - destruct (mem_writeU32 cmp dec style c1 rest _ flag
                (Xxh32.digest E
                   (fed_with true (Xxh32.init LZ4S_CHECKSUM_SEED) data)) H1)
      as (c2 & Hw2 & H2).
    rewrite Hw2. cbn [negb]. exists c2. split; [reflexivity|].
    rewrite <- app_assoc in H2. exact H2.
  - exists c1. split; [reflexivity|]. rewrite app_nil_r. exact H1.
Qed.

(** The block loop of either mode, when it returns. *)
Lemma compress_on_memory_blocks (style : bool) (m : Z) (fuel : nat)
      (sched : list nat) c rest out flag xxh c' xxh' :
  mem_ok cmp dec style c rest out flag ->
  (if negb (0 =? Z.land m LZ4MT_MODE_SEQUENTIAL)
   then run_of_option
          (compress_blocks_sequential E fuel
             (getBlockSize (blockMaximumSize (bd D)))
             (if negb (0 =? blockChecksum (flg D)) then 4 else 0)
             (negb (0 =? streamChecksum (flg D))) c xxh)
   else compress_blocks_parallel E sched
          (getBlockSize (blockMaximumSize (bd D)))
          (if negb (0 =? blockChecksum (flg D)) then 4 else 0)
          (negb (0 =? streamChecksum (flg D))) c xxh) = Done (c', xxh') ->
  xxh' = fed_with (negb (0 =? streamChecksum (flg D))) xxh rest /\
  exists flag',
    mem_ok cmp dec style c' []
      (out ++ List.concat
                (map (encode_block E
                        (if negb (0 =? blockChecksum (flg D)) then 4 else 0)
                        cmp)
                     (chunks (getBlockSize (blockMaximumSize (bd D))) rest)))
      flag'.
Proof.
  intros H Hrun. pose proof (block_size_range D Hvalid) as Hbm.
  destruct (negb (0 =? Z.land m LZ4MT_MODE_SEQUENTIAL)).
  - apply run_of_option_done in Hrun.
    destruct (enc_blocks_sequential E cmp dec style _
                (if negb (0 =? blockChecksum (flg D)) then 4 else 0)
                (negb (0 =? streamChecksum (flg D))) Hbm Hcodec
                (S (Nat.max fuel (List.length rest))) c rest out flag xxh H
                ltac:(lia)) as (c2 & flag2 & Hseq & H2).
    rewrite (compress_blocks_sequential_mono E _ _ _ fuel c xxh _
               (S (Nat.max fuel (List.length rest))) Hrun ltac:(lia))
      in Hseq.
    assert (Hc : c' = c2) by congruence.
    assert (Hx : xxh' = fed_with (negb (0 =? streamChecksum (flg D))) xxh
                                 rest) by (unfold fed_with; congruence).
    subst c'. split; [exact Hx|]. exists flag2. exact H2.
  - destruct (enc_blocks_parallel E cmp dec style _ _ _ Hbm Hcodec sched c
                rest out flag xxh c' xxh' H Hrun) as (Hx & _ & Hex).
    split; assumption.
Qed.

(** When [lz4mtCompress] returns, it returns [LZ4MT_RESULT_OK] and has
    written the frame of the input. *)
Lemma compress_on_memory (style : bool) (m : Z) (input : list byte)
      (fuel : nat) (sched : list nat) (r : Lz4MtResult) cE :
  lz4mtCompress E fuel sched
    (Mem.context (Mem.open input style None) cmp dec m) D = Done (r, cE) ->
  r = LZ4MT_RESULT_OK /\ Mem.written (world cE) = frame_of E D cmp input.
Proof.
  destruct (compress_on_memory_header style m input fuel sched)
    as (c1 & H1 & Hrun).
  rewrite Hrun. clear Hrun.
  destruct (if negb (0 =? Z.land m LZ4MT_MODE_SEQUENTIAL) then _ else _)
    as [[c2 xxh2]| | |] eqn:Hblocks; cbn [run_bind]; try discriminate.
  destruct (compress_on_memory_blocks style m fuel sched c1 input _ false _
              c2 xxh2 H1 Hblocks) as (Hx & flag2 & H2).
  subst xxh2.
  destruct (compress_on_memory_tail
              style (negb (0 =? streamChecksum (flg D))) c2 [] _ flag2 input
              H2) as (c3 & Htail & H3).
  rewrite Htail. intros Hdone.
  assert (Hr : r = LZ4MT_RESULT_OK) by congruence.
  assert (Hc : cE = c3) by congruence.
  subst cE. split; [exact Hr|].
  unfold frame_of. rewrite <- app_assoc in H3. apply H3.
Qed.


(** [lz4mtCompress] returns: in sequential mode when the step budget
    exceeds the size of the input, in parallel mode on at most one
    block under the eager schedule. *)
Lemma compress_on_memory_returns (style : bool) (m : Z) (input : list byte) :
  race_free m (getBlockSize (blockMaximumSize (bd D))) input ->
  exists cE,
    lz4mtCompress E (S (List.length input)) (eager_schedule 0 1)
      (Mem.context (Mem.open input style None) cmp dec m) D
    = Done (LZ4MT_RESULT_OK, cE).
Proof.
  intros Hfree.
  destruct (compress_on_memory_header style m input (S (List.length input))
              (eager_schedule 0 1)) as (c1 & H1 & Hrun).
  rewrite Hrun. clear Hrun.
  pose proof (block_size_range D Hvalid) as Hbm.
  destruct (Z.eqb_spec 0 (Z.land m LZ4MT_MODE_SEQUENTIAL)) as [Hm | Hm];
    cbn [negb].
  - destruct Hfree as [Hseq | Hone]; [congruence|].
    destruct (enc_blocks_sequential_chunks E cmp dec style _
                (if negb (0 =? blockChecksum (flg D)) then 4 else 0)
                (negb (0 =? streamChecksum (flg D))) Hbm Hcodec
                2 c1 input _ false
                (Xxh32.init LZ4S_CHECKSUM_SEED) H1
                ltac:(pose proof (chunks_short _ input (proj1 Hbm) Hone);
                      lia))
      as (c2 & flag2 & Hseq & H2).
    rewrite (compress_blocks_parallel_eager E _ _ _ _ _ _ Hseq).
    cbn [run_bind].
    destruct (compress_on_memory_tail
                style (negb (0 =? streamChecksum (flg D))) c2 [] _ flag2
                input H2) as (c3 & Htail & H3).
    unfold fed_with in Htail. exists c3. rewrite Htail. reflexivity.
  - destruct (enc_blocks_sequential E cmp dec style _
                (if negb (0 =? blockChecksum (flg D)) then 4 else 0)
                (negb (0 =? streamChecksum (flg D))) Hbm Hcodec
                (S (List.length input)) c1 input _ false
                (Xxh32.init LZ4S_CHECKSUM_SEED) H1 ltac:(lia))
      as (c2 & flag2 & Hseq & H2).
    rewrite Hseq. cbn [run_of_option run_bind].
    destruct (compress_on_memory_tail
                style (negb (0 =? streamChecksum (flg D))) c2 [] _ flag2
                input H2) as (c3 & Htail & H3).
    unfold fed_with in Htail. exists c3. rewrite Htail. reflexivity.
Qed.
End EncoderRun.

(** ** The decoder on the frame of the encoder *)

Lemma land_incompMask (p : Z) :
  Z.land p (u32 incompMask) = if Z.testbit p 31 then 2 ^ 31 else 0.
Proof.
  change (u32 incompMask) with (2 ^ 31).
  apply Z.bits_inj'. intros i Hi.
  rewrite Z.land_spec, Z.pow2_bits_eqb by lia.
  destruct (Z.eqb_spec 31 i) as [<- | Hne].
  - rewrite andb_true_r. destruct (Z.testbit p 31).
    + rewrite Z.pow2_bits_true by lia. reflexivity.
    + rewrite Z.bits_0. reflexivity.
  - rewrite andb_false_r. destruct (Z.testbit p 31).
    + rewrite Z.pow2_bits_false by lia. reflexivity.
    + rewrite Z.bits_0. reflexivity.
Qed.

Lemma int32_small (z : Z) : 0 <= z < 2 ^ 31 -> int32 z = z.
Proof. intros H. unfold int32. rewrite Z.mod_small; lia. Qed.

(** ** The race of the decoder *)

Section DecoderRace.
Context {W : Type}.
Variable E : Externals.
Variables bm nbc : Z.
Variable sc : bool.

Lemma decompress_par_step_raced (tid : nat) (s : DecompressPar (W := W)) :
  existsb dtask_raced (dp_futures s) = true ->
  existsb dtask_raced
          (dp_futures (decompress_par_step E bm nbc sc tid s)) = true.
Proof.
  intros H. unfold decompress_par_step. destruct tid as [|i].
  - destruct (dp_reading s); [|exact H].
    destruct (decompress_read_block nbc (dp_ctx s) (dp_quit s))
      as [[c1 quit1] | [c1 [[[src n] inc] bc]]]; [exact H|].
    cbn [dp_futures]. rewrite existsb_app, H. reflexivity.
  - destruct (nth_error (dp_futures s) i)
      as [[src n inc bc|src n bc o sz| |]|] eqn:Hn; try exact H.
    + destruct (decompress_f_before_gate bm src n inc (dp_ctx s)
                                         (dp_quit s))
        as [[[[o sz]|] c1] quit1];
        cbn [dp_futures];
        apply (existsb_set_task _ _ _ _ _ Hn eq_refl H).
    + destruct (decompress_f_after_gate E nbc sc src n bc o sz (dp_ctx s)
                                        (dp_quit s) (dp_xxhStream s))
        as [[c1 quit1] xxh1].
      cbn [dp_futures]. apply (existsb_set_task _ _ _ _ _ Hn eq_refl H).
Qed.

Lemma decompress_par_run_raced (sched : list nat) :
  forall s : DecompressPar (W := W),
    existsb dtask_raced (dp_futures s) = true ->
    existsb dtask_raced
      (dp_futures
         (fold_left (fun s tid => decompress_par_step E bm nbc sc tid s)
                    sched s)) = true.
Proof.
  induction sched as [|tid sched IH]; intros s H; [exact H|].
  cbn [fold_left]. apply IH, decompress_par_step_raced, H.
Qed.
End DecoderRace.

Section DecoderOnMemory.
Variable E : Externals.
Variables cmp dec : list byte -> Z -> Z -> Z * list byte.
Variable style : bool.
Variables bm nbc : Z.
Variable sc : bool.
Hypothesis Hbm : 0 < bm < 2 ^ 31.
Hypothesis Hcodec : codec_inverse cmp dec bm.

Lemma encode_block_wire (blk : list byte) :
  encode_block E nbc cmp blk
  = storeU32 (block_prefix (lengthZ blk)
                           (fst (cmp blk (lengthZ blk) (lengthZ blk))))
    ++ wire_payload cmp blk
    ++ (if negb (0 =? nbc)
        then storeU32 (block_checksum_field E nbc (wire_payload cmp blk))
        else []).
Proof.
  unfold encode_block, wire_payload, block_checksum_field.
  destruct (cmp blk (lengthZ blk) (lengthZ blk)) as [n o]. cbn [fst snd].
  destruct (negb (0 =? nbc)); reflexivity.
Qed.

Lemma wire_payload_length (blk : list byte) :
  0 < lengthZ blk <= bm ->
  fst (cmp blk (lengthZ blk) (lengthZ blk)) < 2 ^ 31 /\
  lengthZ (wire_payload cmp blk)
  = (if fst (cmp blk (lengthZ blk) (lengthZ blk)) <=? 0
     then lengthZ blk
     else fst (cmp blk (lengthZ blk) (lengthZ blk))).
Proof.
  intros Hlen. pose proof (Hcodec blk ltac:(lia)) as Hc.
  unfold wire_payload, block_payload.
  destruct (cmp blk (lengthZ blk) (lengthZ blk)) as [n o]. cbn [fst snd].
  destruct (Z.leb_spec n 0) as [Hn | Hn].
  - split; [lia|]. rewrite takeZ_all. reflexivity.
  - destruct (Hc Hn) as (H1 & H2 & _). split; [lia|].
    rewrite lengthZ_takeZ by lia. lia.
Qed.

(** The worker of a block of the encoder, up to the order gate. *)
Lemma dec_before_gate c rest out flag (blk : list byte) :
  mem_ok cmp dec style c rest out flag ->
  0 < lengthZ blk <= bm ->
  exists c' outPtr outSize,
    decompress_f_before_gate bm (wire_payload cmp blk)
      (lengthZ (wire_payload cmp blk))
      (fst (cmp blk (lengthZ blk) (lengthZ blk)) <=? 0) c false
    = (Some (outPtr, outSize), c', false) /\
    mem_ok cmp dec style c' rest out flag /\
    takeZ outSize outPtr = blk /\ 0 <= outSize <= lengthZ outPtr.
Proof.
  intros H Hlen. unfold decompress_f_before_gate.
  rewrite (mem_ok_error _ _ _ _ _ _ _ H). cbn [orb].
  pose proof (wire_payload_length blk Hlen) as [_ Hwl].
  pose proof (Hcodec blk ltac:(lia)) as Hc.
  unfold wire_payload, block_payload in *.
  destruct (cmp blk (lengthZ blk) (lengthZ blk)) as [n o]. cbn [fst snd] in *.
  destruct (Z.leb_spec n 0) as [Hn | Hn].
  - exists c, (takeZ (lengthZ blk) blk), (lengthZ (takeZ (lengthZ blk) blk)).
    rewrite !takeZ_all. split; [reflexivity|]. split; [exact H|].
    split; [reflexivity | lia].
  - destruct (Hc Hn) as (H1 & H2 & Hd).
    unfold Context.decompress, invoke_decompress.
    rewrite (proj2 (mem_ok_codec cmp dec style _ _ _ _ H)).
    rewrite takeZ_all, Hwl.
    destruct (dec (takeZ n o) n bm) as [m dst]. destruct Hd as [Hm Hdst].
    destruct (Z.ltb_spec m 0) as [Hneg | _]; [lia|].
    eexists. exists dst, m. split; [reflexivity|].
    split; [apply (mem_ok_called cmp dec style bm Hbm); exact H|].
    split; [exact Hdst|].
    apply (f_equal lengthZ) in Hdst. rewrite lengthZ_takeZ in Hdst by lia.
    lia.
Qed.

(** The worker of a block of the encoder, after the order gate. *)
Lemma dec_after_gate c rest out flag (blk payload outPtr : list byte)
      (outSize : Z) (xxh : Xxh32.t) :
  mem_ok cmp dec style c rest out flag ->
  takeZ outSize outPtr = blk -> 0 <= outSize <= lengthZ outPtr ->
  exists c',
    decompress_f_after_gate E nbc sc payload (lengthZ payload)
      (block_checksum_field E nbc payload) outPtr outSize c false xxh
    = (c', false, fed_with sc xxh blk) /\
    mem_ok cmp dec style c' rest (out ++ blk) flag.
Proof.
  intros H Hblk Hsize. unfold decompress_f_after_gate.
  destruct (mem_writeBin cmp dec style c rest out flag outPtr outSize H Hsize)
    as (c1 & Hw & H1).
  rewrite Hw. cbn [snd]. rewrite Hblk in H1.
  assert (Hx : (if sc then Xxh32.update xxh outPtr outSize else xxh)
               = fed_with sc xxh blk).
  { unfold fed_with, Xxh32.update. rewrite Hblk. reflexivity. }
  rewrite Hx. exists c1. split; [|exact H1].
  unfold block_checksum_field, Xxh32.digest, Xxh32.oneshot.
  cbn [Xxh32.fed Xxh32.seed]. rewrite takeZ_all.
  destruct (negb (0 =? nbc)); [|reflexivity].
  rewrite Z.eqb_refl. reflexivity.
Qed.

Lemma mem_readEof_more c rest out :
  mem_ok cmp dec style c rest out false -> rest <> [] ->
  exists c',
    Context.readEof c = (0, c') /\ mem_ok cmp dec style c' rest out false.
Proof.
  intros H Hrest.
  destruct (mem_invoke_readEof cmp dec style c rest out false H)
    as (c' & He & H').
  exists c'. split; [|exact H']. unfold Context.readEof. rewrite He.
  destruct style; [|reflexivity].
  destruct rest; [contradiction | reflexivity].
Qed.

Lemma storeU32_more (v : Z) (rest : list byte) : storeU32 v ++ rest <> [].
Proof. intros H. discriminate H. Qed.

(** The producer on the end-of-stream mark. *)
Lemma dec_read_eos c tail out :
  mem_ok cmp dec style c (storeU32 LZ4S_EOS ++ tail) out false ->
  exists c',
    decompress_read_block nbc c false = inl (c', false) /\
    mem_ok cmp dec style c' tail out false.
Proof.
  intros H. unfold decompress_read_block.
  destruct (mem_readEof_more c _ out H (storeU32_more _ _))
    as (c0 & He & H0).
  rewrite He, Z.eqb_refl. cbn [negb].
  destruct (mem_readU32 cmp dec style c0 tail out LZ4S_EOS H0)
    as (c1 & Hr & H1); [unfold LZ4S_EOS; lia|].
  rewrite Hr. rewrite (mem_ok_error _ _ _ _ _ _ _ H1).
  rewrite Z.eqb_refl. exists c1. auto.
Qed.

(** The producer on a block of the encoder. *)
Lemma dec_read_block c rest out (blk : list byte) :
  mem_ok cmp dec style c (encode_block E nbc cmp blk ++ rest) out false ->
  0 < lengthZ blk <= bm ->
  exists c',
    decompress_read_block nbc c false
    = inr (c', (wire_payload cmp blk, lengthZ (wire_payload cmp blk),
                fst (cmp blk (lengthZ blk) (lengthZ blk)) <=? 0,
                block_checksum_field E nbc (wire_payload cmp blk))) /\
    mem_ok cmp dec style c' rest out false.
Proof.
  intros H Hlen. unfold decompress_read_block.
  rewrite encode_block_wire, <- !app_assoc in H.
  destruct (mem_readEof_more c _ out H (storeU32_more _ _))
    as (c0 & He & H0).
  rewrite He, Z.eqb_refl. cbn [negb].
  destruct (wire_payload_length blk Hlen) as [Hn31 Hwl].
  destruct (block_prefix_bits (lengthZ blk)
              (fst (cmp blk (lengthZ blk) (lengthZ blk)))
              ltac:(lia) Hn31) as (Hbit & Hlow & Hrange).
  destruct (mem_readU32 cmp dec style c0 _ out _ H0 ltac:(lia))
    as (c1 & Hr & H1).
  rewrite Hr. rewrite (mem_ok_error _ _ _ _ _ _ _ H1).
  destruct (Z.eqb_spec LZ4S_EOS
              (block_prefix (lengthZ blk)
                 (fst (cmp blk (lengthZ blk) (lengthZ blk)))))
    as [Heos | _]; [unfold LZ4S_EOS in Heos; lia|].
  rewrite land_incompMask, Hbit.
  change (u32 (Z.lnot incompMask)) with (Z.ones 31).
  rewrite Hlow, <- Hwl.
  rewrite int32_small
    by (rewrite Hwl;
        destruct (Z.leb_spec (fst (cmp blk (lengthZ blk) (lengthZ blk))) 0);
        lia).
  unfold Context.read.
  destruct (mem_invoke_read cmp dec style c1 _ out false
              (lengthZ (wire_payload cmp blk)) H1) as (c2 & Hrd & H2).
  rewrite takeZ_app, dropZ_app, Z.ltb_irrefl in *. cbn [orb] in H2.
  rewrite Hrd. rewrite Z.eqb_refl, (mem_ok_error _ _ _ _ _ _ _ H2).
  cbn [negb orb].
  assert (Hinc : negb (0 =? (if fst (cmp blk (lengthZ blk) (lengthZ blk))
                                 <=? 0 then 2 ^ 31 else 0))
                 = (fst (cmp blk (lengthZ blk) (lengthZ blk)) <=? 0)).
  { destruct (fst (cmp blk (lengthZ blk) (lengthZ blk)) <=? 0); reflexivity. }
  rewrite Hinc.
  unfold block_checksum_field in *.
  destruct (negb (0 =? nbc)).
  - destruct (mem_readU32 cmp dec style c2 rest out _ H2
                          (u32_range _)) as (c3 & Hr3 & H3).
    rewrite Hr3, (mem_ok_error _ _ _ _ _ _ _ H3).
    exists c3. auto.
  - rewrite (mem_ok_error _ _ _ _ _ _ _ H2). exists c2. auto.
Qed.

Lemma fed_with_app (xxh : Xxh32.t) (a b : list byte) :
  fed_with sc (fed_with sc xxh a) b = fed_with sc xxh (a ++ b).
Proof.
  unfold fed_with. destruct sc; [|reflexivity].
  cbn [Xxh32.seed Xxh32.fed]. rewrite app_assoc. reflexivity.
Qed.

(** The worker of a block of the encoder, run inline. *)
Lemma dec_decompress_f c rest out flag (blk : list byte) (xxh : Xxh32.t) :
  mem_ok cmp dec style c rest out flag ->
  0 < lengthZ blk <= bm ->
  exists c',
    decompress_f E bm nbc sc (wire_payload cmp blk)
      (lengthZ (wire_payload cmp blk))
      (fst (cmp blk (lengthZ blk) (lengthZ blk)) <=? 0)
      (block_checksum_field E nbc (wire_payload cmp blk)) c false xxh
    = (c', false, fed_with sc xxh blk) /\
    mem_ok cmp dec style c' rest (out ++ blk) flag.
Proof.
  intros H Hlen. unfold decompress_f.
  destruct (dec_before_gate c rest out flag blk H Hlen)
    as (c1 & o & sz & Hb & H1 & Ho & Hsz).
  rewrite Hb.
  exact (dec_after_gate c1 rest out flag blk _ o sz xxh H1 Ho Hsz).
Qed.

(** The block loop of sequential mode on the blocks of the encoder and
    the end-of-stream mark writes the blocks and digests them. *)
Lemma dec_blocks_sequential (tail : list byte) (blocks : list (list byte)) :
  forall (fuel : nat) c out xxh,
    mem_ok cmp dec style c
           (List.concat (map (encode_block E nbc cmp) blocks)
            ++ storeU32 LZ4S_EOS ++ tail) out false ->
    Forall (fun b => 0 < lengthZ b <= bm) blocks ->
    (List.length blocks < fuel)%nat ->
    exists c',
      decompress_blocks_sequential E fuel bm nbc sc c false xxh
      = Some (c', false, fed_with sc xxh (List.concat blocks)) /\
      mem_ok cmp dec style c' tail (out ++ List.concat blocks) false.
Proof.
  induction blocks as [|blk blocks IH]; intros fuel c out xxh H Hall Hfuel;
    (destruct fuel as [|fuel]; [cbn [List.length] in Hfuel; lia|]);
    cbn [decompress_blocks_sequential].
  - cbn [map List.concat app] in H.
    destruct (dec_read_eos c tail out H) as (c1 & Hr & H1).
    rewrite Hr. exists c1. cbn [List.concat].
    rewrite app_nil_r.
    unfold fed_with. destruct sc; [|auto].
    rewrite app_nil_r. destruct xxh; auto.
  - cbn [map List.concat] in H. rewrite <- app_assoc in H.
    inversion Hall as [|b bs Hb Hall']; subst.
    destruct (dec_read_block c _ out blk H Hb) as (c1 & Hr & H1).
    rewrite Hr.
    destruct (dec_decompress_f c1 _ out false blk xxh H1 Hb)
      as (c2 & Hf & H2).
    rewrite Hf.
    destruct (IH fuel c2 (out ++ blk) (fed_with sc xxh blk) H2 Hall'
                 ltac:(cbn [List.length] in Hfuel; lia))
      as (c3 & Hrun & H3).
    rewrite Hrun. exists c3. cbn [List.concat].
    rewrite fed_with_app, <- app_assoc in *. auto.
Qed.

Lemma nth_pending {A T : Type} (P : A -> T -> Prop) (D d : T)
      (done : list A) (bs : list A) (ts : list T) (j : nat) :
  Forall2 P bs ts ->
  (List.length done <= j < List.length done + List.length ts)%nat ->
  exists b, P b (nth j (map (fun _ => D) done ++ ts) d).
Proof.
  intros HF Hj. rewrite app_nth2 by (rewrite length_map; lia).
  rewrite length_map.
  assert (Hk : (j - List.length done < List.length ts)%nat) by lia.
  revert Hk. generalize (j - List.length done)%nat. clear Hj.
  induction HF as [|b t bs ts Hbt HF IH]; intros k Hk;
    [cbn [List.length] in Hk; lia|].
  destruct k as [|k]; [exists b; exact Hbt|].
  cbn [nth]. apply IH. cbn [List.length] in Hk. lia.
Qed.

Lemma dpending_not_done (blk : list byte) (t : DecompressTask) :
  dpending E nbc cmp blk t -> dtask_done t = false.
Proof. intros [-> | (o & sz & -> & _)]; reflexivity. Qed.

(** A move of the machine of the decoder that does not run into the
    race keeps the invariant, and leaves every worker but that of block
    [0] at its entry. *)
Lemma decompress_par_step_inv (blocks : list (list byte))
      (tail out0 : list byte) (xxh0 : Xxh32.t) (tid : nat)
      (s : DecompressPar) :
  decompress_par_inv E cmp dec style bm nbc sc blocks tail out0 xxh0 s ->
  forallb dtask_waiting (tl (dp_futures s)) = true ->
  existsb dtask_raced
          (dp_futures (decompress_par_step E bm nbc sc tid s)) = false ->
  decompress_par_inv E cmp dec style bm nbc sc blocks tail out0 xxh0
                     (decompress_par_step E bm nbc sc tid s) /\
  forallb dtask_waiting
          (tl (dp_futures (decompress_par_step E bm nbc sc tid s))) = true.
Proof.
  intros Hinv Hwait. pose proof Hinv as Hat.
  unfold decompress_par_inv, decompress_par_at in Hat.
  destruct Hat as (done & pending & tasks & todo & Hfut & Hpend & Hok
                   & Hquit & Hxxh & Hlen & Hblocks & Htodo).
  unfold decompress_par_step. destruct tid as [|i].
  - (* the producer *)
    destruct (dp_reading s) eqn:Hreading;
      [|intros _; split; [exact Hinv | exact Hwait]].
    rewrite Hquit. destruct todo as [|blk todo].
    + cbn [map List.concat app] in Hok.
      destruct (dec_read_eos _ _ _ Hok) as (c1 & Hr & H1). rewrite Hr.
      intros _. split; [|exact Hwait].
      exists done, pending, tasks, []. unfold decompress_par_at.
      cbn [dp_futures dp_ctx dp_quit dp_xxhStream dp_reading].
      tauto.
    + cbn [map List.concat] in Hok. rewrite <- app_assoc in Hok.
      assert (Hb : 0 < lengthZ blk <= bm).
      { rewrite Forall_forall in Hlen. apply Hlen.
        rewrite in_app_iff. right. left. reflexivity. }
      destruct (dec_read_block _ _ _ blk Hok Hb) as (c1 & Hr & H1).
      rewrite Hr.
      intros _. split;
        [|cbn [dp_futures]; apply forallb_tl_snoc; [exact Hwait|reflexivity]].
      exists done, (pending ++ [blk]),
        (tasks ++ [DTaskDispatched
                     (wire_payload cmp blk) (lengthZ (wire_payload cmp blk))
                     (fst (cmp blk (lengthZ blk) (lengthZ blk)) <=? 0)
                     (block_checksum_field E nbc (wire_payload cmp blk))]),
        todo.
      unfold decompress_par_at.
      cbn [dp_futures dp_ctx dp_quit dp_xxhStream dp_reading].
      split; [rewrite Hfut, app_assoc; reflexivity|].
      split. { apply Forall2_app; [exact Hpend|].
               constructor; [|constructor]. left. reflexivity. }
      split; [exact H1|]. split; [reflexivity|]. split; [exact Hxxh|].
      rewrite <- !app_assoc. cbn [app].
      split; [exact Hlen|]. split; [exact Hblocks | discriminate].
  - (* the worker of block [i] *)
    destruct (Nat.lt_ge_cases i (List.length done)) as [Hi | Hi].
    { rewrite Hfut, (nth_error_done DTaskDone done tasks i Hi).
      intros _. split; [exact Hinv | exact Hwait]. }
    rewrite Hfut, (nth_error_pending DTaskDone done tasks i Hi).
    destruct (nth_error tasks (i - List.length done)) as [t|] eqn:Hnth;
      [|intros _; split; [exact Hinv | exact Hwait]].
    destruct (set_task_nth tasks _ DTaskDone t Hnth)
      as (l1 & l2 & Htasks & Hl1 & _).
    subst tasks.
    destruct (Forall2_split_at _ _ _ _ _ Hpend)
      as (b1 & blk & b2 & Hbs & Hb1 & Hblk & Hb2 & Hlen1).
    subst pending.
    assert (Hb : 0 < lengthZ blk <= bm).
    { rewrite Forall_forall in Hlen. apply Hlen.
      rewrite !in_app_iff. left. right. left. reflexivity. }
    assert (Hset : forall u u0,
               set_task i u (map (fun _ => DTaskDone) done
                               ++ l1 ++ u0 :: l2)
               = map (fun _ => DTaskDone) done ++ l1 ++ u :: l2).
    { intros u u0. rewrite set_task_app by (rewrite length_map; exact Hi).
      rewrite length_map, (set_task_mid l1 l2 _ _ _ Hl1). reflexivity. }
    rewrite Hfut in Hwait.
    destruct Hblk as [-> | (o & sz & -> & Ho & Hsz)].
    + (* dispatched: up to [futures[i-1].wait()] *)
      rewrite Hquit.
      destruct (dec_before_gate (dp_ctx s) _ _ _ blk Hok Hb)
        as (c1 & o & sz & Hbg & H1 & Ho & Hsz).
      rewrite Hbg. cbn [dp_futures]. rewrite Hset.
      destruct i as [|i'].
      * intros _.
        assert (Hd : done = [])
          by (destruct done; [reflexivity | cbn [List.length] in Hi; lia]).
        subst done. cbn [List.length Nat.sub] in Hl1.
        assert (Hl : l1 = [])
          by (destruct l1; [reflexivity | discriminate Hl1]).
        subst l1. split; [|exact Hwait].
        exists [], (b1 ++ blk :: b2),
          ([] ++ DTaskAtGate
                 (wire_payload cmp blk) (lengthZ (wire_payload cmp blk))
                 (block_checksum_field E nbc (wire_payload cmp blk)) o sz
              :: l2), todo.
        unfold decompress_par_at.
        cbn [dp_futures dp_ctx dp_quit dp_xxhStream dp_reading].
        split; [reflexivity|].
        split.
        { apply Forall2_app; [exact Hb1|]. constructor; [|exact Hb2].
          right. exists o, sz. auto. }
        tauto.
      * intros Hrace. exfalso.
        rewrite !existsb_app in Hrace.
        cbn [existsb dtask_raced orb] in Hrace.
        rewrite !orb_true_r in Hrace. discriminate Hrace.
    + (* at [futures[i-1].wait()]: the worker of block [0] *)
      intros _.
      assert (Hnil : map (fun _ : list byte => DTaskDone) done ++ l1 = []).
      { rewrite app_assoc in Hwait.
        apply (forallb_tl_mid _ _ _ _ Hwait). reflexivity. }
      apply app_eq_nil in Hnil as [Hd ->].
      apply map_eq_nil in Hd. subst done.
      destruct b1 as [|bb b1]; [|discriminate Hlen1].
      cbn [app List.length map] in *.
      assert (Hidx : i = O) by lia. subst i.
      rewrite Hquit.
      destruct (dec_after_gate (dp_ctx s) _ _ false blk
                  (wire_payload cmp blk) o sz (dp_xxhStream s) Hok Ho Hsz)
        as (c1 & Ha & H1).
      rewrite Ha. cbn [dp_futures]. split; [|exact Hwait].
      exists [blk], b2, l2, todo.
      unfold decompress_par_at.
      cbn [dp_futures dp_ctx dp_quit dp_xxhStream dp_reading].
      split; [reflexivity|].
      split; [exact Hb2|].
      split.
      { cbn [List.concat] in H1 |- *. rewrite !app_nil_r in H1 |- *.
        exact H1. }
      split; [reflexivity|].
      split.
      { rewrite Hxxh. cbn [List.concat]. rewrite app_nil_r.
        unfold fed_with. destruct sc; [|reflexivity].
        cbn [Xxh32.seed Xxh32.fed]. rewrite app_nil_r. reflexivity. }
      split; [inversion Hlen; assumption|].
      split; [exact Hblocks | exact Htodo].
Qed.

(** A run of the machine of the decoder that does not end in the race
    keeps the invariant. *)
Lemma decompress_par_run_inv (blocks : list (list byte))
      (tail out0 : list byte) (xxh0 : Xxh32.t) (sched : list nat) :
  forall s,
    decompress_par_inv E cmp dec style bm nbc sc blocks tail out0 xxh0 s ->
    forallb dtask_waiting (tl (dp_futures s)) = true ->
    existsb dtask_raced
      (dp_futures
         (fold_left (fun s tid => decompress_par_step E bm nbc sc tid s)
                    sched s)) = false ->
    decompress_par_inv E cmp dec style bm nbc sc blocks tail out0 xxh0
      (fold_left (fun s tid => decompress_par_step E bm nbc sc tid s)
                 sched s) /\
    forallb dtask_waiting
      (tl (dp_futures
             (fold_left
                (fun s tid => decompress_par_step E bm nbc sc tid s)
                sched s))) = true.
Proof.
  induction sched as [|tid sched IH]; intros s H Hw Hr;
    [split; assumption|].
  cbn [fold_left] in *.
  assert (Hr1 : existsb dtask_raced
                  (dp_futures (decompress_par_step E bm nbc sc tid s))
                = false).
  { destruct (existsb dtask_raced
                (dp_futures (decompress_par_step E bm nbc sc tid s)))
      eqn:Hx; [|reflexivity].
    rewrite (decompress_par_run_raced E bm nbc sc sched _ Hx) in Hr.
    discriminate Hr. }
  destruct (decompress_par_step_inv blocks tail out0 xxh0 tid s H Hw Hr1)
    as [H1 Hw1].
  apply IH; assumption.
Qed.

(** Whatever the schedule, when the block loop of parallel mode and its
    drain are through, the blocks are written in the order of the frame,
    and digested; the frame had at most one block, as no worker got to
    [futures[i-1].wait()]. *)
Lemma dec_blocks_parallel (sched : list nat) (tail : list byte)
      (blocks : list (list byte)) c out xxh c' quit' xxh' :
  mem_ok cmp dec style c
         (List.concat (map (encode_block E nbc cmp) blocks)
          ++ storeU32 LZ4S_EOS ++ tail) out false ->
  Forall (fun b => 0 < lengthZ b <= bm) blocks ->
  decompress_blocks_parallel E sched bm nbc sc c false xxh
  = Done (c', quit', xxh') ->
  quit' = false /\ xxh' = fed_with sc xxh (List.concat blocks) /\
  mem_ok cmp dec style c' tail (out ++ List.concat blocks) false /\
  (List.length blocks <= 1)%nat.
Proof.
  intros Hok Hall Hrun. apply decompress_blocks_parallel_done in Hrun.
  cbv zeta in Hrun.
  destruct Hrun as (Hrace & Hreading & Hdone & Hc & Hq & Hx).
  assert (Hinit : decompress_par_inv E cmp dec style bm nbc sc blocks tail
                    out xxh (mkDecompressPar c false xxh [] true)).
  { exists [], [], [], blocks. unfold decompress_par_at.
    cbn [dp_futures dp_ctx dp_quit dp_xxhStream dp_reading map List.concat
         app].
    rewrite app_nil_r.
    split; [reflexivity|]. split; [constructor|]. split; [exact Hok|].
    split; [reflexivity|].
    split. { unfold fed_with. destruct sc; [|reflexivity].
             rewrite app_nil_r. destruct xxh; reflexivity. }
    split; [exact Hall|]. split; [reflexivity | discriminate]. }
  destruct (decompress_par_run_inv blocks tail out xxh sched _ Hinit
              eq_refl Hrace) as [Hfin Hwait].
  destruct Hfin as (done & pending & tasks & todo & Hfut & Hpend & Hok'
                    & Hquit & Hxxh & Hlen & Hblocks & Htodo).
  revert Hreading Hdone Hc Hq Hx Hwait Hfut Hok' Hquit Hxxh Htodo.
  generalize (fold_left
                (fun s tid => decompress_par_step E bm nbc sc tid s)
                sched (mkDecompressPar c false xxh [] true)).
  intros s Hreading Hdone Hc Hq Hx Hwait Hfut Hok' Hquit Hxxh Htodo.
  subst c' quit' xxh'.
  rewrite Hreading in Hok'.
  rewrite (Htodo Hreading) in *.
  assert (Htasks : tasks = []).
  { rewrite Hfut, forallb_app in Hdone.
    apply andb_prop in Hdone as [_ Hdone].
    destruct Hpend as [|b t bs ts Hbt _]; [reflexivity|].
    cbn [forallb] in Hdone.
    rewrite (dpending_not_done _ _ Hbt) in Hdone. discriminate Hdone. }
  subst tasks. inversion Hpend; subst pending.
  rewrite !app_nil_r in Hblocks. subst done.
  rewrite app_nil_r in Hfut. rewrite Hfut in Hwait.
  split; [exact Hquit|]. split; [exact Hxxh|]. split; [exact Hok'|].
  destruct blocks as [|b1 [|b2 bs]]; cbn [List.length]; try lia.
  discriminate Hwait.
Qed.
End DecoderOnMemory.

(** ** The eager schedule of the decoder *)

Section EagerDecompress.
Context {W : Type}.
Variable E : Externals.
Variables bm nbc : Z.
Variable sc : bool.

Lemma decompress_blocks_sequential_eq (fuel : nat) (c : Lz4MtContext W)
      (quit : bool) (xxh : Xxh32.t) :
  decompress_blocks_sequential E (S fuel) bm nbc sc c quit xxh
  = match decompress_read_block nbc c quit with
    | inl (c1, quit1) => Some (c1, quit1, xxh)
    | inr (c1, (src, srcSize, incompressible, blockCheckSum)) =>
        let '(c2, quit2, xxh2) :=
          decompress_f E bm nbc sc src srcSize incompressible blockCheckSum
                       c1 quit xxh in
        decompress_blocks_sequential E fuel bm nbc sc c2 quit2 xxh2
    end.
Proof. reflexivity. Qed.

Lemma decompress_blocks_sequential_mono (fuel : nat) :
  forall (c : Lz4MtContext W) (quit : bool) (xxh : Xxh32.t) r (fuel' : nat),
    decompress_blocks_sequential E fuel bm nbc sc c quit xxh = Some r ->
    (fuel <= fuel')%nat ->
    decompress_blocks_sequential E fuel' bm nbc sc c quit xxh = Some r.
Proof.
  induction fuel as [|fuel IH]; intros c quit xxh r fuel' Hrun Hle;
    [discriminate Hrun|].
  destruct fuel' as [|fuel']; [lia|].
  rewrite decompress_blocks_sequential_eq in *.
  destruct (decompress_read_block nbc c quit)
    as [[c1 quit1] | [c1 [[[src srcSize] inc] bcs]]]; [exact Hrun|].
  destruct (decompress_f E bm nbc sc src srcSize inc bcs c1 quit xxh)
    as [[c2 quit2] xxh2].
  apply IH; [exact Hrun | lia].
Qed.

Lemma decompress_par_idle (sched : list nat) (s : DecompressPar (W := W)) :
  dp_reading s = false ->
  Forall (fun tid => tid = O \/ (List.length (dp_futures s) < tid)%nat)
         sched ->
  fold_left (fun s tid => decompress_par_step E bm nbc sc tid s) sched s = s.
Proof.
  intros Hr H. induction H as [|tid sched Htid _ IH]; [reflexivity|].
  cbn [fold_left].
  assert (Hs : decompress_par_step E bm nbc sc tid s = s).
  { unfold decompress_par_step. destruct tid as [|i].
    - rewrite Hr. reflexivity.
    - destruct Htid as [Htid | Htid]; [discriminate Htid|].
      destruct (nth_error (dp_futures s) i) eqn:Hn; [|reflexivity].
      assert (Hsome : nth_error (dp_futures s) i <> None) by congruence.
      apply nth_error_Some in Hsome. lia. }
  rewrite Hs. exact IH.
Qed.

Lemma decompress_step_producer (c : Lz4MtContext W) (quit : bool)
      (xxh : Xxh32.t) (futs : list DecompressTask) :
  decompress_par_step E bm nbc sc 0 (mkDecompressPar c quit xxh futs true)
  = match decompress_read_block nbc c quit with
    | inl (c1, quit1) => mkDecompressPar c1 quit1 xxh futs false
    | inr (c1, (src, srcSize, incompressible, blockCheckSum)) =>
        mkDecompressPar c1 quit xxh
          (futs ++ [DTaskDispatched src srcSize incompressible
                                    blockCheckSum]) true
    end.
Proof. reflexivity. Qed.

Lemma decompress_step_dispatched (c : Lz4MtContext W) (quit : bool)
      (xxh : Xxh32.t) (futs : list DecompressTask) (src : list byte)
      (srcSize : Z) (inc : bool) (bcs : Z) (rd : bool) :
  decompress_par_step E bm nbc sc (S (List.length futs))
    (mkDecompressPar c quit xxh
       (futs ++ [DTaskDispatched src srcSize inc bcs]) rd)
  = match decompress_f_before_gate bm src srcSize inc c quit with
    | (None, c1, quit1) =>
        mkDecompressPar c1 quit1 xxh (futs ++ [DTaskDone]) rd
    | (Some (outPtr, outSize), c1, quit1) =>
        mkDecompressPar c1 quit1 xxh
          (futs ++ [match List.length futs with
                    | O => DTaskAtGate src srcSize bcs outPtr outSize
                    | S _ => DTaskRaced
                    end]) rd
    end.
Proof.
  unfold decompress_par_step.
  cbn [dp_reading dp_ctx dp_quit dp_xxhStream dp_futures].
  rewrite nth_error_last.
  destruct (decompress_f_before_gate bm src srcSize inc c quit)
    as [[[[outPtr outSize]|] c1] quit1];
    rewrite set_task_last; reflexivity.
Qed.

Lemma decompress_step_at_gate (c : Lz4MtContext W) (quit : bool)
      (xxh : Xxh32.t) (futs : list DecompressTask) (src : list byte)
      (srcSize bcs : Z) (outPtr : list byte) (outSize : Z) (rd : bool) :
  decompress_par_step E bm nbc sc (S (List.length futs))
    (mkDecompressPar c quit xxh
       (futs ++ [DTaskAtGate src srcSize bcs outPtr outSize]) rd)
  = let '(c1, quit1, xxh1) :=
      decompress_f_after_gate E nbc sc src srcSize bcs outPtr outSize c quit
                              xxh in
    mkDecompressPar c1 quit1 xxh1 (futs ++ [DTaskDone]) rd.
Proof.
  unfold decompress_par_step.
  cbn [dp_reading dp_ctx dp_quit dp_xxhStream dp_futures].
  rewrite nth_error_last.
  destruct (decompress_f_after_gate E nbc sc src srcSize bcs outPtr outSize
                                    c quit xxh) as [[c1 quit1] xxh1].
  rewrite set_task_last. reflexivity.
Qed.

Lemma decompress_step_done (c : Lz4MtContext W) (quit : bool)
      (xxh : Xxh32.t) (futs : list DecompressTask) (rd : bool) :
  decompress_par_step E bm nbc sc (S (List.length futs))
    (mkDecompressPar c quit xxh (futs ++ [DTaskDone]) rd)
  = mkDecompressPar c quit xxh (futs ++ [DTaskDone]) rd.
Proof.
  unfold decompress_par_step.
  cbn [dp_reading dp_ctx dp_quit dp_xxhStream dp_futures].
  rewrite nth_error_last. reflexivity.
Qed.

(** The block loop of parallel mode returns under the eager schedule
    for one block when that of sequential mode returns within one
    block. *)
Lemma decompress_blocks_parallel_eager (c : Lz4MtContext W) (quit : bool)
      (xxh : Xxh32.t) r :
  decompress_blocks_sequential E 2 bm nbc sc c quit xxh = Some r ->
  decompress_blocks_parallel E (eager_schedule 0 1) bm nbc sc c quit xxh
  = Done r.
Proof.
  intros Hseq. rewrite decompress_blocks_sequential_eq in Hseq.
  unfold decompress_blocks_parallel. cbn [eager_schedule fold_left].
  rewrite decompress_step_producer.
  destruct (decompress_read_block nbc c quit)
    as [[c1 quit1] | [c1 [[[src srcSize] inc] bcs]]].
  - injection Hseq as <-. reflexivity.
  - unfold decompress_f in Hseq.
    pose proof (decompress_step_dispatched c1 quit xxh [] src srcSize inc
                                           bcs true) as Hd.
    cbn [List.length app] in Hd |- *. rewrite Hd. clear Hd.
    destruct (decompress_f_before_gate bm src srcSize inc c1 quit)
      as [[[[outPtr outSize]|] c1'] quit1'].
    + pose proof (decompress_step_at_gate c1' quit1' xxh [] src srcSize bcs
                                          outPtr outSize true) as Hg.
      cbn [List.length app] in Hg |- *. rewrite Hg. clear Hg.
      destruct (decompress_f_after_gate E nbc sc src srcSize bcs outPtr
                                        outSize c1' quit1' xxh)
        as [[c2 quit2] xxh2].
      rewrite decompress_blocks_sequential_eq in Hseq.
      rewrite decompress_step_producer.
      destruct (decompress_read_block nbc c2 quit2)
        as [[c3 quit3] | [c3 [[[src2 srcSize2] inc2] bcs2]]].
      * injection Hseq as <-. reflexivity.
      * destruct (decompress_f E bm nbc sc src2 srcSize2 inc2 bcs2 c3 quit2
                               xxh2) as [[c4 quit4] xxh4].
        discriminate Hseq.
    + pose proof (decompress_step_done c1' quit1' xxh [] true) as Hg.
      cbn [List.length app] in Hg |- *. rewrite Hg. clear Hg.
      rewrite decompress_blocks_sequential_eq in Hseq.
      rewrite decompress_step_producer.
      destruct (decompress_read_block nbc c1' quit1')
        as [[c3 quit3] | [c3 [[[src2 srcSize2] inc2] bcs2]]].
      * injection Hseq as <-. reflexivity.
      * destruct (decompress_f E bm nbc sc src2 srcSize2 inc2 bcs2 c3 quit1'
                               xxh) as [[c4 quit4] xxh4].
        discriminate Hseq.
Qed.
End EagerDecompress.

(** ** The frame loop of the decoder on the frame of the encoder *)

Lemma takeZ_app_eq {A : Type} (n : Z) (a b : list A) :
  n = lengthZ a -> takeZ n (a ++ b) = a.
Proof. intros ->. apply takeZ_app. Qed.

Lemma dropZ_app_eq {A : Type} (n : Z) (a b : list A) :
  n = lengthZ a -> dropZ n (a ++ b) = b.
Proof. intros ->. apply dropZ_app. Qed.

Lemma header_array_exact (d2 ex : list byte) (n : Z) :
  List.length d2 = 2%nat -> Z.to_nat n = List.length ex ->
  header_array d2 ex n = d2 ++ ex.
Proof.
  intros H2 Hn. unfold header_array. rewrite Hn, <- H2.
  rewrite !zfill_exact. reflexivity.
Qed.

Lemma byte_eqb_refl (a : byte) : Byte.eqb a a = true.
Proof. apply Byte.byte_dec_lb. reflexivity. Qed.

Lemma mem_read_exact (cmp dec : list byte -> Z -> Z -> Z * list byte)
      (style : bool) c (d rest out : list byte) (n : Z) :
  mem_ok cmp dec style c (d ++ rest) out false ->
  n = lengthZ d ->
  exists c',
    Context.read c n = (n, d, c') /\ mem_ok cmp dec style c' rest out false
    /\ mode c' = mode c.
Proof.
  intros H ->. unfold Context.read.
  destruct (mem_invoke_read cmp dec style c _ out false (lengthZ d) H)
    as (c' & Hr & H').
  rewrite takeZ_app, dropZ_app, Z.ltb_irrefl in *.
  pose proof (R_invoke_read _ _ mode_preserved c (lengthZ d)) as Hm.
  rewrite Hr in Hm. exists c'. auto.
Qed.

Lemma mem_readU32_mode (cmp dec : list byte -> Z -> Z -> Z * list byte)
      (style : bool) c (rest out : list byte) (v : Z) :
  mem_ok cmp dec style c (storeU32 v ++ rest) out false ->
  0 <= v < 2 ^ 32 ->
  exists c',
    Context.readU32 c = (v, c') /\ mem_ok cmp dec style c' rest out false
    /\ mode c' = mode c.
Proof.
  intros H Hv.
  destruct (mem_readU32 cmp dec style c rest out v H Hv) as (c' & Hr & H').
  pose proof (R_readU32 _ _ mode_preserved c) as Hm.
  rewrite Hr in Hm. exists c'. auto.
Qed.

Section DecoderRun.
Variable E : Externals.
Variables cmp dec : list byte -> Z -> Z -> Z * list byte.
Variable style : bool.
Variable D : Lz4MtStreamDescriptor.
Hypothesis Hvalid : validateStreamDescriptor D = LZ4MT_RESULT_OK.
Hypothesis Hflg : flg_in_width (flg D).
Hypothesis Hbd : bd_in_width (bd D).
Hypothesis Hcodec :
  codec_inverse cmp dec (getBlockSize (blockMaximumSize (bd D))).

(** One iteration of the frame loop on a frame of the encoder, up to the
    block loop: the header is read and accepted. *)
Lemma decompress_frame_on_memory
      (blocks : Z -> Z -> bool -> Lz4MtContext Mem.Stream -> bool ->
                Xxh32.t ->
                Run (Lz4MtContext Mem.Stream * bool * Xxh32.t))
      c (body out : list byte) (sd : Lz4MtStreamDescriptor) :
  mem_ok cmp dec style c (compress_header E D ++ body) out false ->
  exists c3 sd3,
    mem_ok cmp dec style c3 body out false /\ mode c3 = mode c /\
    decompress_frame E blocks c false sd
    = run_bind
        (blocks (getBlockSize (blockMaximumSize (bd D)))
                (if negb (0 =? blockChecksum (flg D)) then 4 else 0)
                (negb (0 =? streamChecksum (flg D))) c3 false
                (Xxh32.init LZ4S_CHECKSUM_SEED))
        (fun '(c4, quit4, xxhStream) =>
           if negb (Context.error c4) && negb (0 =? streamChecksum (flg D))
           then
             let '(srcStreamChecksum, c5) := Context.readU32 c4 in
             if Context.error c5 then
               Done (Break,
                     snd (Context.setResult
                            LZ4MT_RESULT_CANNOT_READ_STREAM_CHECKSUM c5),
                     quit4, sd3)
             else if negb (Xxh32.digest E xxhStream =? srcStreamChecksum)
             then
               Done (Break,
                     snd (Context.setResult
                            LZ4MT_RESULT_STREAM_CHECKSUM_MISMATCH c5),
                     quit4, sd3)
             else Done (Continue, c5, quit4, sd3)
           else Done (Continue, c4, quit4, sd3)).
Proof.
  intros H. rewrite compress_header_check in H.
  assert (Hsum : exists ss,
             header_sum D = [flgToChar (flg D); bdToChar (bd D)] ++ ss /\
             lengthZ ss
             = (if negb (0 =? streamSize (flg D)) then 8 else 0)).
  { unfold header_sum. rewrite (validate_ok_no_dictionary D Hvalid).
    cbn [negb]. rewrite app_nil_r. eexists. split; [reflexivity|].
    destruct (negb (0 =? streamSize (flg D))); reflexivity. }
  destruct Hsum as (ss & Hsum & Hss).
  set (chk := header_check_byte E (header_sum D)) in *.
  assert (Hchk : chk = header_check_byte E (header_sum D)) by reflexivity.
  clearbody chk. rewrite Hsum in H. rewrite <- !app_assoc in H.
  destruct (mem_readU32_mode cmp dec style c _ out LZ4S_MAGICNUMBER H
              ltac:(unfold LZ4S_MAGICNUMBER; lia)) as (c1 & Hr1 & H1 & Hm1).
  destruct (mem_read_exact cmp dec style c1
              [flgToChar (flg D); bdToChar (bd D)] _ out 2 H1 eq_refl)
    as (c2 & Hr2 & H2 & Hm2).
  rewrite app_assoc in H2.
  destruct (mem_read_exact cmp dec style c2 (ss ++ [chk]) body out
              ((if negb (0 =? streamSize (flg D)) then 8 else 0) + 0 + 1)
              H2
              ltac:(rewrite lengthZ_app, Hss;
                    change (lengthZ [chk]) with 1; lia))
    as (c3 & Hr3 & H3 & Hm3).
  assert (Hv1 : forall a b,
             validateStreamDescriptor (mkSd (flg D) (bd D) a b)
             = LZ4MT_RESULT_OK) by (intros; exact Hvalid).
  unfold decompress_frame.
  rewrite Hr1, (mem_ok_error _ _ _ _ _ _ _ H1).
  change (isSkippableMagicNumber LZ4S_MAGICNUMBER) with false.
  rewrite Z.eqb_refl. cbn [negb].
  rewrite Hr2, Z.eqb_refl. cbn [negb].
  change (at0 [flgToChar (flg D); bdToChar (bd D)] 0)
    with (flgToChar (flg D)).
  change (at0 [flgToChar (flg D); bdToChar (bd D)] 1)
    with (bdToChar (bd D)).
  rewrite (charToFlg_flgToChar _ _ Hflg), (charToBc_bdToChar _ _ Hbd).
  rewrite Hv1. cbn [Lz4MtResult_eqb negb flg bd sd_streamSize dictId].
  rewrite (validate_ok_no_dictionary D Hvalid). cbn [negb].
  rewrite Hr3, Z.eqb_refl. cbn [negb].
  assert (Hlen : lengthZ (header_sum D)
                 = 2 + (if negb (0 =? streamSize (flg D)) then 8 else 0) + 0).
  { rewrite Hsum, lengthZ_app, Hss.
    change (lengthZ [flgToChar (flg D); bdToChar (bd D)]) with 2. lia. }
  assert (Hd : header_array [flgToChar (flg D); bdToChar (bd D)]
                 (ss ++ [chk])
                 ((if negb (0 =? streamSize (flg D)) then 8 else 0) + 0 + 1)
               = header_sum D ++ [chk]).
  { rewrite header_array_exact.
    - rewrite Hsum, <- app_assoc. reflexivity.
    - reflexivity.
    - rewrite <- Hss. unfold lengthZ. rewrite length_app.
      cbn [List.length]. lia. }
  rewrite Hd, <- Hlen.
  assert (Hat : at0 (header_sum D ++ [chk])
                    (Z.to_nat (lengthZ (header_sum D))) = chk).
  { unfold lengthZ, at0. rewrite Nat2Z.id, app_nth2 by lia.
    rewrite Nat.sub_diag. reflexivity. }
  rewrite Hat. unfold Xxh32.digest at 1, Xxh32.oneshot.
  cbn [Xxh32.fed Xxh32.seed]. rewrite takeZ_app, getCheckBits_bits_15_8.
  change (byte_of_Z
            (bits_15_8 (u32 (XXH32 E (header_sum D) LZ4S_CHECKSUM_SEED))))
    with (header_check_byte E (header_sum D)).
  rewrite <- Hchk, byte_eqb_refl.
  cbn [negb].
  exists c3.
  destruct (negb (0 =? streamSize (flg D))); cbn [flg bd];
    (eexists; split; [exact H3|]; split; [congruence | reflexivity]).
Qed.

Lemma chunks_sizes (n : Z) (l : list byte) :
  0 < n -> Forall (fun b => 0 < lengthZ b <= n) (chunks n l).
Proof.
  intros Hn. eapply Forall_impl; [|apply (chunks_blocks n l Hn)].
  intros b [Hb Hle]. split; [|exact Hle].
  destruct b as [|x b]; [contradiction|].
  rewrite lengthZ_cons. pose proof (lengthZ_nonneg b). lia.
Qed.

(** The block loop of either mode on the blocks of the encoder, when it
    returns. *)
Lemma decompress_blocks_on_memory (fuel : nat) (sched : list nat)
      (tail : list byte) (blocks : list (list byte)) c out xxh c' quit' xxh' :
  mem_ok cmp dec style c
         (List.concat
            (map (encode_block E
                    (if negb (0 =? blockChecksum (flg D)) then 4 else 0) cmp)
                 blocks)
          ++ storeU32 LZ4S_EOS ++ tail) out false ->
  Forall (fun b => 0 < lengthZ b <= getBlockSize (blockMaximumSize (bd D)))
         blocks ->
  decompress_blocks E fuel sched (getBlockSize (blockMaximumSize (bd D)))
    (if negb (0 =? blockChecksum (flg D)) then 4 else 0)
    (negb (0 =? streamChecksum (flg D))) c false xxh
  = Done (c', quit', xxh') ->
  quit' = false /\
  xxh' = fed_with (negb (0 =? streamChecksum (flg D))) xxh
                  (List.concat blocks) /\
  mem_ok cmp dec style c' tail (out ++ List.concat blocks) false /\
  (Z.land (mode c) LZ4MT_MODE_SEQUENTIAL <> 0 \/
   (List.length blocks <= 1)%nat).
Proof.
  intros H Hall Hrun. pose proof (block_size_range D Hvalid) as Hbm.
  unfold decompress_blocks, Context.mode in Hrun.
  destruct (Z.eqb_spec 0 (Z.land (mode c) LZ4MT_MODE_SEQUENTIAL))
    as [Hm | Hm]; cbn [negb] in Hrun; cycle 1.
  - apply run_of_option_done in Hrun.
    destruct (dec_blocks_sequential E cmp dec style _
                (if negb (0 =? blockChecksum (flg D)) then 4 else 0)
                (negb (0 =? streamChecksum (flg D))) Hbm Hcodec tail blocks
                (S (Nat.max fuel (List.length blocks))) c out xxh H Hall
                ltac:(lia)) as (c2 & Hseq & H2).
    rewrite (decompress_blocks_sequential_mono E _ _ _ fuel c false xxh _
               (S (Nat.max fuel (List.length blocks))) Hrun ltac:(lia))
      in Hseq.
    assert (Hc : c' = c2) by congruence.
    assert (Hq : quit' = false) by congruence.
    assert (Hx : xxh' = fed_with (negb (0 =? streamChecksum (flg D))) xxh
                                 (List.concat blocks)) by congruence.
    subst c'. split; [exact Hq|]. split; [exact Hx|]. split; [exact H2|].
    left. congruence.
  - destruct (dec_blocks_parallel E cmp dec style _ _ _ Hbm Hcodec sched
                tail blocks c out xxh c' quit' xxh' H Hall Hrun)
      as (Hq & Hx & H2 & Hone).
    auto.
Qed.

(** The block loop returns: in sequential mode when the step budget
    exceeds the number of blocks, in parallel mode on at most one block
    under the eager schedule. *)
Lemma decompress_blocks_on_memory_returns (fuel : nat) (tail : list byte)
      (blocks : list (list byte)) c out xxh :
  mem_ok cmp dec style c
         (List.concat
            (map (encode_block E
                    (if negb (0 =? blockChecksum (flg D)) then 4 else 0) cmp)
                 blocks)
          ++ storeU32 LZ4S_EOS ++ tail) out false ->
  Forall (fun b => 0 < lengthZ b <= getBlockSize (blockMaximumSize (bd D)))
         blocks ->
  (List.length blocks < fuel)%nat ->
  (Z.land (mode c) LZ4MT_MODE_SEQUENTIAL <> 0 \/
   (List.length blocks <= 1)%nat) ->
  exists r,
    decompress_blocks E fuel (eager_schedule 0 1)
      (getBlockSize (blockMaximumSize (bd D)))
      (if negb (0 =? blockChecksum (flg D)) then 4 else 0)
      (negb (0 =? streamChecksum (flg D))) c false xxh = Done r.
Proof.
  intros H Hall Hn Hfree. pose proof (block_size_range D Hvalid) as Hbm.
  unfold decompress_blocks, Context.mode.
  destruct (Z.eqb_spec 0 (Z.land (mode c) LZ4MT_MODE_SEQUENTIAL))
    as [Hm | Hm]; cbn [negb].
  - destruct Hfree as [Hseq | Hone]; [congruence|].
    destruct (dec_blocks_sequential E cmp dec style _
                (if negb (0 =? blockChecksum (flg D)) then 4 else 0)
                (negb (0 =? streamChecksum (flg D))) Hbm Hcodec tail blocks
                2 c out xxh H Hall ltac:(lia)) as (c2 & Hseq & H2).
    eexists.
    exact (decompress_blocks_parallel_eager E _ _ _ _ _ _ _ Hseq).
  - destruct (dec_blocks_sequential E cmp dec style _
                (if negb (0 =? blockChecksum (flg D)) then 4 else 0)
                (negb (0 =? streamChecksum (flg D))) Hbm Hcodec tail blocks
                fuel c out xxh H Hall ltac:(lia)) as (c2 & Hseq & H2).
    eexists. rewrite Hseq. reflexivity.
Qed.

(** One iteration of the frame loop on the frame of [input]: when the
    block loop returns, the iteration ends with the bytes of [input]
    written and nothing left to read. *)
Lemma decompress_frame_of (fuel : nat) (sched : list nat) c
      (out input : list byte) (sd : Lz4MtStreamDescriptor) :
  mem_ok cmp dec style c (frame_of E D cmp input) out false ->
  ((forall r,
       decompress_frame E (decompress_blocks E fuel sched) c false sd
       <> Done r) /\
   exists c3 body,
     mem_ok cmp dec style c3
       (List.concat
          (map (encode_block E
                  (if negb (0 =? blockChecksum (flg D)) then 4 else 0) cmp)
               (chunks (getBlockSize (blockMaximumSize (bd D))) input))
        ++ storeU32 LZ4S_EOS ++ body) out false /\
     mode c3 = mode c /\
     forall r,
       decompress_blocks E fuel sched
         (getBlockSize (blockMaximumSize (bd D)))
         (if negb (0 =? blockChecksum (flg D)) then 4 else 0)
         (negb (0 =? streamChecksum (flg D))) c3 false
         (Xxh32.init LZ4S_CHECKSUM_SEED) <> Done r)
  \/
  (exists c5 sd3,
     decompress_frame E (decompress_blocks E fuel sched) c false sd
     = Done (Continue, c5, false, sd3) /\
     mem_ok cmp dec style c5 [] (out ++ input) false /\
     race_free (mode c) (getBlockSize (blockMaximumSize (bd D))) input).
Proof.
  intros H. unfold frame_of in H.
  pose proof (block_size_range D Hvalid) as Hbm.
  destruct (decompress_frame_on_memory (decompress_blocks E fuel sched) c _
              out sd H) as (c3 & sd3 & H3 & Hm & Heq).
  rewrite Heq. clear Heq.
  destruct (decompress_blocks E fuel sched _ _ _ c3 false _)
    as [[[c4 q4] x4]| | |] eqn:Hb; cbn [run_bind];
    [|left; (split; [intros r; discriminate|]); eexists c3, _;
      (split; [exact H3|]); (split; [exact Hm|]); intros r;
      rewrite Hb; discriminate ..].
  right.
  destruct (decompress_blocks_on_memory fuel sched _ _ c3 out _ c4 q4 x4
              H3 (chunks_sizes _ input (proj1 Hbm)) Hb)
    as (Hq & Hx & H4 & Hfree).
  assert (Hfree' : race_free (mode c)
                     (getBlockSize (blockMaximumSize (bd D))) input).
  { unfold race_free. rewrite <- Hm.
    destruct Hfree as [Hseq | Hone]; [left; exact Hseq | right].
    rewrite <- (concat_chunks (getBlockSize (blockMaximumSize (bd D)))
                              input) by lia.
    pose proof (chunks_sizes _ input (proj1 Hbm)) as Hsz.
    revert Hone Hsz.
    destruct (chunks (getBlockSize (blockMaximumSize (bd D))) input)
      as [|b1 [|b2 bs]]; cbn [List.length List.concat]; intros Hone Hsz.
    - change (lengthZ (@nil byte)) with 0. lia.
    - rewrite app_nil_r. inversion Hsz; lia.
    - lia. }
  subst q4 x4. rewrite concat_chunks in * by lia.
  rewrite (mem_ok_error _ _ _ _ _ _ _ H4). cbn [negb andb].
  destruct (negb (0 =? streamChecksum (flg D))).
  + rewrite <- (app_nil_r (storeU32 _)) in H4.
    destruct (mem_readU32 cmp dec style c4 [] _ _ H4 (u32_range _))
      as (c5 & Hr & H5).
    rewrite Hr, (mem_ok_error _ _ _ _ _ _ _ H5).
    unfold Xxh32.digest, fed_with, Xxh32.init.
    cbn [Xxh32.fed Xxh32.seed app]. rewrite Z.eqb_refl. cbn [negb].
    exists c5, sd3. auto.
  + exists c4, sd3. auto.
Qed.

(** The iteration of the frame loop after the last frame: the loop ends
    with [LZ4MT_RESULT_OK], by [readEof] when it reports the position,
    by the failed read of the next magic number when it reports the flag
    of the last read. *)
Lemma decompress_frames_end (fuel : nat) (scheds : list (list nat)) c
      (out : list byte) (sd : Lz4MtStreamDescriptor) :
  mem_ok cmp dec style c [] out false ->
  exists c',
    decompress_frames E (S fuel) scheds c false sd = Done (c', sd) /\
    result c' = LZ4MT_RESULT_OK /\ Mem.written (world c') = out.
Proof.
  intros H. cbn [decompress_frames].
  rewrite (mem_ok_error _ _ _ _ _ _ _ H). cbn [orb].
  destruct (mem_invoke_readEof cmp dec style c [] out false H)
    as (c0 & He & H0).
  unfold Context.readEof at 1. rewrite He. destruct style eqn:Hstyle.
  - cbn [Z.eqb negb]. exists c0. split; [reflexivity|].
    split; apply H0.
  - rewrite Z.eqb_refl. cbn [negb]. unfold decompress_frame.
    destruct (mem_invoke_read cmp dec false c0 [] out false 4 H0)
      as (c1 & Hr & H1).
    cbn [takeZ dropZ] in Hr, H1. change (lengthZ (@nil byte)) with 0 in *.
    cbn [orb Z.ltb Z.compare] in H1.
    unfold Context.readU32. rewrite (mem_ok_error _ _ _ _ _ _ _ H0), Hr.
    cbn [Z.eqb negb].
    rewrite (setResult_from_OK _ _ (mem_ok_error _ _ _ _ _ _ _ H1)).
    cbn [snd]. rewrite error_with_result. cbn [Lz4MtResult_eqb negb].
    destruct H1 as (Hres & Hrd & Hre & Hw & Hc & Hs & Hrest & Hout & Hroom
                    & Hflag).
    unfold Context.readEof, invoke_readEof. ctx_cbn.
    rewrite Hre. unfold Mem.readEof. rewrite Hs, Hflag.
    cbn [Z.eqb negb]. unfold Context.setResult. ctx_cbn.
    cbn [Lz4MtResult_eqb orb]. ctx_cbn.
    eexists. split; [reflexivity|]. ctx_cbn. split; [reflexivity|exact Hout].
Qed.

Lemma decompress_frames_eq (fuel : nat) (scheds : list (list nat))
      (c : Lz4MtContext Mem.Stream) (quit : bool)
      (sd : Lz4MtStreamDescriptor) :
  decompress_frames E (S fuel) scheds c quit sd
  = if quit || Context.error c then Done (c, sd)
    else
      let '(eof, c0) := Context.readEof c in
      if negb (0 =? eof) then Done (c0, sd)
      else
        run_bind
          (decompress_frame E (decompress_blocks E fuel (hd [] scheds))
                            c0 quit sd)
          (fun '(flow, c1, quit1, sd1) =>
             match flow with
             | Break => Done (c1, sd1)
             | Continue => decompress_frames E fuel (tl scheds) c1 quit1 sd1
             end).
Proof. reflexivity. Qed.

Lemma frame_of_more (input : list byte) : frame_of E D cmp input <> [].
Proof.
  unfold frame_of. rewrite compress_header_check, <- !app_assoc.
  apply storeU32_more.
Qed.

(** The first iteration of the frame loop on the frame of [input]. *)
Lemma decompress_frames_first (fuel : nat) (scheds : list (list nat)) c
      (input : list byte) (sd : Lz4MtStreamDescriptor) :
  mem_ok cmp dec style c (frame_of E D cmp input) [] false ->
  exists c0,
    mem_ok cmp dec style c0 (frame_of E D cmp input) [] false /\
    mode c0 = mode c /\
    decompress_frames E (S fuel) scheds c false sd
    = run_bind
        (decompress_frame E (decompress_blocks E fuel (hd [] scheds))
                          c0 false sd)
        (fun '(flow, c1, quit1, sd1) =>
           match flow with
           | Break => Done (c1, sd1)
           | Continue => decompress_frames E fuel (tl scheds) c1 quit1 sd1
           end).
Proof.
  intros H. rewrite decompress_frames_eq.
  rewrite (mem_ok_error _ _ _ _ _ _ _ H). cbn [orb].
  destruct (mem_readEof_more cmp dec style c _ [] H (frame_of_more input))
    as (c0 & He & H0).
  pose proof (R_invoke_readEof _ _ mode_preserved c) as Hm.
  change (invoke_readEof c) with (Context.readEof c) in Hm.
  rewrite He in Hm. cbn [snd] in Hm.
  rewrite He, Z.eqb_refl. cbn [negb]. exists c0. auto.
Qed.

(** When the frame loop returns on the frame of [input], the result is
    [LZ4MT_RESULT_OK] and [input] is written. *)
Lemma decompress_frames_of (fuel : nat) (scheds : list (list nat)) c
      (input : list byte) (sd : Lz4MtStreamDescriptor) c' sd' :
  mem_ok cmp dec style c (frame_of E D cmp input) [] false ->
  decompress_frames E fuel scheds c false sd = Done (c', sd') ->
  result c' = LZ4MT_RESULT_OK /\ Mem.written (world c') = input /\
  race_free (mode c) (getBlockSize (blockMaximumSize (bd D))) input.
Proof.
  intros H Hrun. destruct fuel as [|fuel]; [discriminate Hrun|].
  destruct (decompress_frames_first fuel scheds c input sd H)
    as (c0 & H0 & Hm0 & Heq).
  rewrite Heq in Hrun. clear Heq.
  destruct (decompress_frame_of fuel (hd [] scheds) c0 [] input sd H0)
    as [[Hnone _] | (c5 & sd3 & Hsome & H5 & Hfree)].
  - destruct (decompress_frame E _ c0 false sd) as [r| | |];
      [contradiction (Hnone r eq_refl) | discriminate Hrun ..].
  - rewrite Hsome in Hrun. cbn [run_bind] in Hrun.
    destruct fuel as [|fuel]; [discriminate Hrun|].
    destruct (decompress_frames_end fuel (tl scheds) c5 _ sd3 H5)
      as (c6 & Hend & Hres & Hout).
    rewrite Hend in Hrun.
    assert (Hc : c' = c6) by congruence. subst c'.
    rewrite <- Hm0. auto.
Qed.

(** The frame loop returns on the frame of [input] when the step budget
    exceeds the size of [input] by two, in sequential mode, and in
    parallel mode on at most one block when the schedule of the frame is
    the eager one. *)
Lemma decompress_frames_of_returns (n : nat) c (input : list byte)
      (sd : Lz4MtStreamDescriptor) :
  mem_ok cmp dec style c (frame_of E D cmp input) [] false ->
  (List.length input <= n)%nat ->
  race_free (mode c) (getBlockSize (blockMaximumSize (bd D))) input ->
  exists c' sd',
    decompress_frames E (S (S n)) [eager_schedule 0 1] c false sd
    = Done (c', sd').
Proof.
  intros H Hn Hfree. pose proof (block_size_range D Hvalid) as Hbm.
  destruct (decompress_frames_first (S n) [eager_schedule 0 1] c input sd H)
    as (c0 & H0 & Hm0 & Heq).
  rewrite Heq. clear Heq. cbn [hd tl].
  destruct (decompress_frame_of (S n) (eager_schedule 0 1) c0 [] input sd H0)
    as [[_ (c3 & body & H3 & Hm3 & Hnone)] | (c5 & sd3 & Hsome & H5 & _)].
  - exfalso.
    destruct (decompress_blocks_on_memory_returns (S n) body _ c3 []
                (Xxh32.init LZ4S_CHECKSUM_SEED) H3
                (chunks_sizes _ input (proj1 Hbm))
                ltac:(pose proof (chunks_length _ input (proj1 Hbm)); lia))
      as (r & Hr).
    { rewrite Hm3, Hm0.
      destruct Hfree as [Hseq | Hone]; [left; exact Hseq | right].
      exact (chunks_short _ input (proj1 Hbm) Hone). }
    exact (Hnone r Hr).
  - rewrite Hsome. cbn [run_bind].
    destruct (decompress_frames_end n [] c5 _ sd3 H5) as (c6 & Hend & _).
    rewrite Hend. eauto.
Qed.

Lemma mem_ok_decoder_entry (m : Z) (input : list byte) :
  mem_ok cmp dec style
         (snd (Context.setResult LZ4MT_RESULT_OK
                 (Mem.context (Mem.open input style None) cmp dec m)))
         input [] false.
Proof. apply (mem_ok_open cmp dec style m input). Qed.

(** When [lz4mtDecompress] returns on the frame of [input], it returns
    [LZ4MT_RESULT_OK] and has written [input]. *)
Lemma decompress_on_memory (m : Z) (input : list byte) (fuel : nat)
      (scheds : list (list nat)) (sd0 : Lz4MtStreamDescriptor)
      (r : Lz4MtResult) cD sd' :
  lz4mtDecompress E fuel scheds
    (Mem.context (Mem.open (frame_of E D cmp input) style None) cmp dec m)
    sd0 = Done (r, cD, sd') ->
  r = LZ4MT_RESULT_OK /\ Mem.written (world cD) = input /\
  race_free m (getBlockSize (blockMaximumSize (bd D))) input.
Proof.
  unfold lz4mtDecompress.
  destruct (decompress_frames E fuel scheds _ false sd0)
    as [[c1 sd1]| | |] eqn:Hf; cbn [run_bind]; try discriminate.
  intros Hdone.
  destruct (decompress_frames_of fuel scheds _ input sd0 c1 sd1
              (mem_ok_decoder_entry m (frame_of E D cmp input)) Hf)
    as (Hres & Hout & Hfree).
  assert (Hr : r = result c1) by congruence.
  assert (Hc : cD = c1) by congruence.
  subst r cD. auto.
Qed.

Lemma decompress_on_memory_returns (m : Z) (input : list byte)
      (sd0 : Lz4MtStreamDescriptor) :
  race_free m (getBlockSize (blockMaximumSize (bd D))) input ->
  exists cD sd',
    lz4mtDecompress E (S (S (List.length input))) [eager_schedule 0 1]
      (Mem.context (Mem.open (frame_of E D cmp input) style None) cmp dec m)
      sd0 = Done (LZ4MT_RESULT_OK, cD, sd').
Proof.
  intros Hfree.
  destruct (decompress_frames_of_returns (List.length input) _ input sd0
              (mem_ok_decoder_entry m (frame_of E D cmp input))
              (Nat.le_refl _) Hfree) as (c1 & sd1 & Hf).
  destruct (decompress_frames_of _ _ _ input sd0 c1 sd1
              (mem_ok_decoder_entry m (frame_of E D cmp input)) Hf)
    as (Hres & _).
  unfold lz4mtDecompress. rewrite Hf. cbn [run_bind]. rewrite Hres. eauto.
Qed.
End DecoderRun.

(** ** The stand-in codec *)

Lemma all_eq_repeat (b : byte) (l : list byte) :
  Standin.all_eq b l = true -> l = repeat b (List.length l).
Proof.
  unfold Standin.all_eq. induction l as [|x l IH]; [reflexivity|].
  cbn [forallb List.length repeat]. intros H.
  apply andb_prop in H as [Hx Hl]. apply Byte.byte_dec_bl in Hx.
  subst x. f_equal. exact (IH Hl).
Qed.

Lemma standin_codec_inverse (blockMax : Z) :
  255 <= blockMax ->
  codec_inverse Standin.compress Standin.decompress blockMax.
Proof.
  intros Hmax src Hlen. unfold Standin.compress.
  destruct src as [|b l]; [intros H; lia|].
  destruct (Standin.all_eq b (b :: l)) eqn:Hall; cbn [andb];
    [|intros H; lia].
  destruct (Z.leb_spec 3 (lengthZ (b :: l))) as [H3 | _]; cbn [andb];
    [|intros H; lia].
  destruct (Z.leb_spec (lengthZ (b :: l)) 255) as [H255 | _]; cbn [andb];
    [|intros H; lia].
  destruct (Z.leb_spec 2 (lengthZ (b :: l))) as [_ | H2]; cbn [andb];
    [|lia].
  rewrite Z.eqb_refl. intros _.
  split; [lia|]. split; [change (lengthZ [byte_of_Z _; b]) with 2; lia|].
  change (takeZ 2 [byte_of_Z (lengthZ (b :: l)); b])
    with [byte_of_Z (lengthZ (b :: l)); b].
  unfold Standin.decompress.
  rewrite uint8_of_byte_of_Z.
  rewrite Z.mod_small by lia.
  destruct (Z.leb_spec (lengthZ (b :: l)) blockMax) as [_ | Hgt]; [|lia].
  split; [reflexivity|].
  unfold lengthZ at 2. rewrite Nat2Z.id.
  rewrite <- (all_eq_repeat b (b :: l) Hall). apply takeZ_all.
Qed.

(** ** The round trip *)

(** C1 (amended): for every byte sequence [input] and every descriptor
    [D] that [validateStreamDescriptor] accepts, whose flag and bd fields
    are within their bit widths and whose [streamSize] is not zero when
    its stream size flag is set (or in a build without [assert]), with
    block codec callbacks that are inverses of each other, over memory
    streams with an unbounded output: [lz4mtCompress] does not stop at
    an [assert]; whenever it returns it returns [LZ4MT_RESULT_OK], and
    whenever [lz4mtDecompress] returns on the bytes it wrote, it returns
    [LZ4MT_RESULT_OK] and has written exactly [input]. This holds for
    every mode of the encoder and every mode of the decoder, for every
    schedule of the threads of parallel mode, and for both kinds of
    [readEof]. Each of the two returns in sequential mode, and in
    parallel mode when [input] is at most one block; a run of parallel
    mode on more blocks has the race for [futures], and nothing is said
    of it. *)
Theorem round_trip_valid_descriptor
        (E : Externals)
        (cmp dec : list byte -> Z -> Z -> Z * list byte)
        (D sd0 : Lz4MtStreamDescriptor) (input : list byte)
        (eofAtEndE eofAtEndD : bool) (modeE modeD : Z) :
  validateStreamDescriptor D = LZ4MT_RESULT_OK ->
  flg_in_width (flg D) -> bd_in_width (bd D) ->
  codec_inverse cmp dec (getBlockSize (blockMaximumSize (bd D))) ->
  (streamSize (flg D) <> 0 -> NDEBUG E = false -> sd_streamSize D <> 0) ->
  round_trip E cmp dec D sd0 input eofAtEndE eofAtEndD modeE modeD.
Proof.
  intros Hvalid Hflg Hbd Hcodec Hassert. unfold round_trip, encode_run.
  split.
  { intros fuel sched.
    destruct (compress_on_memory_header E cmp dec D Hvalid Hassert eofAtEndE
                modeE input fuel sched) as (c1 & _ & Heq).
    rewrite Heq.
    destruct (negb (0 =? Z.land modeE LZ4MT_MODE_SEQUENTIAL)).
    - destruct (compress_blocks_sequential E fuel _ _ _ c1 _)
        as [[c2 xxh2]|]; cbn [run_of_option run_bind]; discriminate.
    - unfold compress_blocks_parallel. cbv zeta.
      destruct (existsb ctask_raced _);
        [cbn [run_bind]; discriminate|].
      destruct (negb _ && _); cbn [run_bind]; [|discriminate].
      destruct (fold_left _ sched _) as [c2 xxh2 futs rd].
      cbn [cp_ctx cp_xxhStream]. discriminate. }
  split.
  { intros Hfree.
    destruct (compress_on_memory_returns E cmp dec D Hvalid Hcodec Hassert
                eofAtEndE modeE input Hfree) as (cE & Hrun).
    eauto. }
  intros fuel sched r cE Hrun.
  destruct (compress_on_memory E cmp dec D Hvalid Hcodec Hassert eofAtEndE
              modeE input fuel sched r cE Hrun) as [Hr Hframe].
  split; [exact Hr|]. rewrite Hframe. unfold decode_run. split.
  - intros Hfree.
    destruct (decompress_on_memory_returns E cmp dec eofAtEndD D Hvalid Hflg
                Hbd Hcodec modeD input sd0 Hfree) as (cD & sd' & Hdec).
    eauto.
  - intros fuel' scheds r' cD sd' Hdec.
    destruct (decompress_on_memory E cmp dec eofAtEndD D Hvalid Hflg Hbd
                Hcodec modeD input fuel' scheds sd0 r' cD sd' Hdec)
      as (Hr' & Hout & _).
    auto.
Qed.

Lemma round_trip_valid_descriptor_witness :
  round_trip (Standin.externals true false)
             Standin.compress Standin.decompress
             lz4mtInitStreamDescriptor lz4mtInitStreamDescriptor
             [x41; x41; x41; x41; x42] false true
             LZ4MT_MODE_PARALLEL LZ4MT_MODE_SEQUENTIAL.
Proof.
  apply round_trip_valid_descriptor.
  - reflexivity.
  - unfold flg_in_width, bit_width; simpl. lia.
  - unfold bd_in_width, bit_width; simpl.
    unfold LZ4S_BLOCKSIZEID_DEFAULT. lia.
  - apply standin_codec_inverse. vm_compute. discriminate.
  - intros H. exfalso. apply H. reflexivity.
Defined.

(** C1 (as stated) fails for descriptors that [validateStreamDescriptor]
    accepts. With the stream size flag set and [streamSize] zero, in a
    build with [assert] the encoder stops at [assert(sd->streamSize)]
    and writes no frame, in either mode. With 2 in the
    [blockIndependence] field, which the validation takes as it is not
    zero, [flgToChar] stores bit 0 of the field: the encoder returns
    [LZ4MT_RESULT_OK], and the decoder rejects the frame it wrote and
    writes nothing. *)
Lemma round_trip_counterexample :
  (validateStreamDescriptor sizeless_descriptor = LZ4MT_RESULT_OK /\
   flg_in_width (flg sizeless_descriptor) /\
   bd_in_width (bd sizeless_descriptor) /\
   codec_inverse Standin.compress Standin.decompress
     (getBlockSize (blockMaximumSize (bd sizeless_descriptor))) /\
   forall (input : list byte) (eofAtEnd : bool) (mode : Z) (fuel : nat)
          (sched : list nat),
     encode_run (Standin.externals true false)
                Standin.compress Standin.decompress sizeless_descriptor
                input eofAtEnd mode fuel sched
     = AssertFailed) /\
  (validateStreamDescriptor wide_descriptor = LZ4MT_RESULT_OK /\
   codec_inverse Standin.compress Standin.decompress
     (getBlockSize (blockMaximumSize (bd wide_descriptor))) /\
   exists cE cD sd',
     encode_run (Standin.externals true false)
                Standin.compress Standin.decompress wide_descriptor
                [x41] false LZ4MT_MODE_SEQUENTIAL 2 []
     = Done (LZ4MT_RESULT_OK, cE) /\
     decode_run (Standin.externals true false)
                Standin.compress Standin.decompress
                lz4mtInitStreamDescriptor (Mem.written (world cE))
                false LZ4MT_MODE_SEQUENTIAL 3 []
     = Done (LZ4MT_RESULT_BLOCK_DEPENDENCE_IS_NOT_SUPPORTED_YET, cD, sd') /\
     Mem.written (world cD) = []).
Proof.
  split.
  - split; [reflexivity|].
    split; [unfold flg_in_width, bit_width; simpl; lia|].
    split; [unfold bd_in_width, bit_width; simpl;
            unfold LZ4S_BLOCKSIZEID_DEFAULT; lia|].
    split; [apply standin_codec_inverse; vm_compute; discriminate|].
    intros input eofAtEnd mode fuel sched. reflexivity.
  - split; [reflexivity|].
    split; [apply standin_codec_inverse; vm_compute; discriminate|].
    eexists. eexists. eexists.
    split; [vm_compute; reflexivity|].
    split; [vm_compute; reflexivity|].
    reflexivity.
Qed.

(** ** The output of the encoder *)





(** * Further properties of the code *)

(** ** The flag bytes, parsed and serialised *)

Lemma land_ones_width (k x : Z) : 0 <= k -> bit_width k (Z.land x (Z.ones k)).
Proof.
  intros Hk. unfold bit_width. rewrite Z.land_ones by exact Hk.
  apply Z.mod_pos_bound. apply Z.pow_pos_nonneg; lia.
Qed.

(** X3. Every byte is the serialisation of the flag record parsed from
    it, and of the bd record parsed from it, whatever the signedness of
    [char]; the parsed fields are within their bit widths. With C9 this
    makes [charToFlg] and [flgToChar] (and [charToBc] and [bdToChar])
    inverse bijections between bytes and records within the widths. *)
Theorem flag_bytes_parse_serialize (sgn : bool) (c : byte) :
  flgToChar (charToFlg sgn c) = c /\ bdToChar (charToBc sgn c) = c /\
  flg_in_width (charToFlg sgn c) /\ bd_in_width (charToBc sgn c).
Proof.
  split; [destruct sgn; destruct c; vm_compute; reflexivity|].
  split; [destruct sgn; destruct c; vm_compute; reflexivity|].
  unfold flg_in_width, bd_in_width, charToFlg, charToBc.
  cbn [presetDictionary reserved1 streamChecksum streamSize blockChecksum
       blockIndependence versionNumber reserved3 blockMaximumSize reserved2].
  repeat apply conj;
    first [ apply (land_ones_width 1) | apply (land_ones_width 2)
          | apply (land_ones_width 3) | apply (land_ones_width 4) ]; lia.
Qed.

(** ** Little-endian words, stored and loaded *)

Lemma byte_bit (x : byte) (j : Z) :
  j < 0 \/ 8 <= j -> Z.testbit (uint8_of_byte x) j = false.
Proof.
  intros [Hj | Hj]; [apply Z.testbit_neg_r; exact Hj|].
  apply (bits_above _ 8 j); [apply uint8_of_byte_range | exact Hj].
Qed.

Lemma storeU32_u32 (v : Z) : storeU32 (u32 v) = storeU32 v.
Proof.
  assert (H : forall k, 0 <= k <= 24 ->
                byte_of_Z (Z.shiftr (u32 v) k) = byte_of_Z (Z.shiftr v k)).
  { intros k Hk. rewrite <- (byte_of_Z_mod (Z.shiftr (u32 v) k)),
                           <- (byte_of_Z_mod (Z.shiftr v k)).
    f_equal. change 256 with (2 ^ 8). apply Z.bits_inj'. intros i Hi.
    rewrite !Z.testbit_mod_pow2 by lia.
    destruct (Z.ltb_spec i 8); [|reflexivity]. cbn [andb].
    rewrite !Z.shiftr_spec by lia. unfold u32.
    rewrite Z.testbit_mod_pow2 by lia.
    destruct (Z.ltb_spec (i + k) 32); [reflexivity | lia]. }
  unfold storeU32. rewrite !H by lia. reflexivity.
Qed.

Lemma loadU32_bytes (a b c d : byte) (rest : list byte) (k : Z) :
  k = 0 \/ k = 8 \/ k = 16 \/ k = 24 ->
  Z.shiftr (loadU32 (a :: b :: c :: d :: rest)) k mod 256
  = uint8_of_byte (if k =? 0 then a else if k =? 8 then b
                   else if k =? 16 then c else d).
Proof.
  intros Hk. unfold loadU32, at0. cbn [nth].
  change (8 * 0) with 0. change (8 * 1) with 8. change (8 * 2) with 16.
  change (8 * 3) with 24. change 256 with (2 ^ 8).
  apply Z.bits_inj'. intros i Hi.
  rewrite Z.testbit_mod_pow2 by lia.
  destruct (Z.ltb_spec i 8) as [Hlt | Hge].
  - cbn [andb]. rewrite Z.shiftr_spec by lia.
    rewrite !Z.lor_spec, !Z.shiftl_spec by lia.
    destruct Hk as [-> | [-> | [-> | ->]]]; cbn [Z.eqb Pos.eqb].
    + rewrite (byte_bit b), (byte_bit c), (byte_bit d) by lia.
      rewrite !orb_false_r. f_equal. lia.
    + rewrite (byte_bit a), (byte_bit c), (byte_bit d) by lia.
      rewrite !orb_false_r. cbn [orb]. f_equal. lia.
    + rewrite (byte_bit a), (byte_bit b), (byte_bit d) by lia.
      rewrite !orb_false_r. cbn [orb]. f_equal. lia.
    + rewrite (byte_bit a), (byte_bit b), (byte_bit c) by lia.
      cbn [orb]. f_equal. lia.
  - rewrite andb_false_l. symmetry. apply byte_bit. lia.
Qed.

Lemma loadU32_storeU32_any (v : Z) (rest : list byte) :
  loadU32 (storeU32 v ++ rest) = u32 v.
Proof.
  rewrite <- storeU32_u32. apply loadU32_storeU32. apply u32_range.
Qed.

(** X4. [loadU32] gives back the low 32 bits of what [storeU32] stored,
    whatever follows the four bytes, and [storeU32] gives back the four
    bytes that [loadU32] loaded: the two are inverse bijections between
    32-bit values and 4-byte little-endian sequences. *)
Theorem loadU32_storeU32_inverse (v : Z) (a b c d : byte)
        (rest : list byte) :
  loadU32 (storeU32 v ++ rest) = u32 v /\
  storeU32 (loadU32 (a :: b :: c :: d :: rest)) = [a; b; c; d].
Proof.
  split.
  - apply loadU32_storeU32_any.
  - unfold storeU32.
    change (8 * 0) with 0. change (8 * 1) with 8. change (8 * 2) with 16.
    change (8 * 3) with 24.
    rewrite <- (byte_of_Z_mod (Z.shiftr _ 0)), <- (byte_of_Z_mod (Z.shiftr _ 8)),
      <- (byte_of_Z_mod (Z.shiftr _ 16)), <- (byte_of_Z_mod (Z.shiftr _ 24)).
    rewrite !loadU32_bytes by lia.
    cbn [Z.eqb Pos.eqb]. rewrite !byte_of_Z_uint8. reflexivity.
Qed.

Lemma loadU64_storeU64_low (v : Z) (rest : list byte) :
  loadU64 (storeU64 v ++ rest) = u64 v.
Proof.
  unfold loadU64, storeU64.
  change (8 * 0) with 0. change (8 * 4) with 32.
  rewrite <- app_assoc. rewrite loadU32_storeU32_any.
  change (skipn 4 (storeU32 (u32 (Z.shiftr v 0))
                   ++ storeU32 (u32 (Z.shiftr v 32)) ++ rest))
    with (storeU32 (u32 (Z.shiftr v 32)) ++ rest).
  rewrite loadU32_storeU32_any. unfold u32, u64.
  rewrite !Z.mod_mod by lia. rewrite Z.shiftr_0_r, Z.shiftl_0_r.
  apply Z.bits_inj'. intros i Hi.
  rewrite Z.lor_spec, Z.shiftl_spec, !Z.testbit_mod_pow2 by lia.
  destruct (Z.ltb_spec i 32) as [Hlt | Hge].
  - rewrite (Z.testbit_neg_r _ (i - 32)) by lia.
    destruct (Z.ltb_spec i 64); [|lia]. cbn [andb].
    rewrite andb_false_r, orb_false_r. reflexivity.
  - cbn [andb orb]. rewrite Z.shiftr_spec by lia.
    replace (i - 32 + 32) with i by lia.
    destruct (Z.ltb_spec (i - 32) 32); destruct (Z.ltb_spec i 64);
      try lia; reflexivity.
Qed.

(** X5. [loadU64] gives back the low 64 bits of what [storeU64] stored,
    whatever follows the eight bytes; a value of 64 bits comes back as it
    was. *)
Theorem loadU64_storeU64 (v : Z) (rest : list byte) :
  loadU64 (storeU64 v ++ rest) = u64 v /\
  (0 <= v < 2 ^ 64 -> loadU64 (storeU64 v ++ rest) = v).
Proof.
  split; [apply loadU64_storeU64_low|].
  intros Hv. rewrite loadU64_storeU64_low. apply Z.mod_small. exact Hv.
Qed.

(** ** Streams of several frames *)

Lemma skippable_preserved {W : Type} :
  preserved (fun c c' : Lz4MtContext W => readSkippable c' = readSkippable c)
            (fun _ => True).
Proof.
  constructor; try reflexivity; auto.
  intros a b c Hab Hbc. congruence.
Qed.


(** ** What an iteration of the frame loop keeps *)

Section PreservedFrame.
Context {W : Type}.
Variable R : Lz4MtContext W -> Lz4MtContext W -> Prop.
Variable okr : Lz4MtResult -> Prop.
Hypothesis HP : preserved R okr.
Hypothesis Hokr : forall r, okr r.

Lemma R_invoke_readSeek (c : Lz4MtContext W) (n : Z) :
  R c (snd (invoke_readSeek c n)).
Proof.
  unfold invoke_readSeek. destruct (readSeek c (world c) n) as [m w].
  cbn [snd]. apply (R_called R okr HP).
Qed.

Lemma R_invoke_readSkippable (c : Lz4MtContext W) (magic size : Z) :
  R c (snd (invoke_readSkippable c magic size)).
Proof.
  unfold invoke_readSkippable.
  destruct (readSkippable c (world c) magic size) as [m w].
  cbn [snd]. apply (R_called R okr HP).
Qed.

Ltac r_step H :=
  eapply (R_trans R okr HP); [exact H|].

Ltac r_done :=
  first [ apply (R_refl R okr HP)
        | apply (R_setResult R okr HP); apply Hokr ].

(** One iteration of the frame loop. *)
Lemma R_decompress_frame (E : Externals)
      (blocks : Z -> Z -> bool -> Lz4MtContext W -> bool -> Xxh32.t ->
                Run (Lz4MtContext W * bool * Xxh32.t))
      (c : Lz4MtContext W) (quit : bool) (sd : Lz4MtStreamDescriptor)
      fl c' quit' sd' :
  (forall bm nbc sc c1 q1 x1 c2 q2 x2,
      blocks bm nbc sc c1 q1 x1 = Done (c2, q2, x2) -> R c1 c2) ->
  decompress_frame E blocks c quit sd = Done (fl, c', quit', sd') ->
  R c c'.
Proof.
  intros Hblocks. unfold decompress_frame.
  pose proof (R_readU32 R okr HP c) as H1.
  destruct (Context.readU32 c) as [magic c1]. cbn [snd] in H1.
  destruct (Context.error c1).
  { unfold Context.readEof.
    pose proof (R_invoke_readEof R okr HP c1) as H2.
    destruct (invoke_readEof c1) as [eof c2]. cbn [snd] in H2.
    destruct (negb (0 =? eof)); intros Heq; injection Heq as <- <- <- <-;
      r_step H1; r_step H2; r_done. }
  destruct (isSkippableMagicNumber magic).
  { pose proof (R_readU32 R okr HP c1) as H2.
    destruct (Context.readU32 c1) as [size c2]. cbn [snd] in H2.
    destruct (Context.error c2).
    { intros Heq; injection Heq as <- <- <- <-.
      r_step H1; r_step H2; r_done. }
    unfold Context.readSkippable.
    pose proof (R_invoke_readSkippable c2 magic size) as H3.
    destruct (invoke_readSkippable c2 magic size) as [s c3].
    cbn [snd] in H3.
    destruct ((s <? 0) || Context.error c3);
      intros Heq; injection Heq as <- <- <- <-;
      r_step H1; r_step H2; r_step H3; r_done. }
  destruct (negb (LZ4S_MAGICNUMBER =? magic)).
  { unfold Context.readSeek.
    pose proof (R_invoke_readSeek c1 (-4)) as H2.
    destruct (invoke_readSeek c1 (-4)) as [k c2]. cbn [snd] in H2.
    intros Heq; injection Heq as <- <- <- <-.
    r_step H1; r_step H2; r_done. }
  unfold Context.read.
  pose proof (R_invoke_read R okr HP c1 2) as H2.
  destruct (invoke_read c1 2) as [[n2 d2] c2]. cbn [snd] in H2.
  destruct (negb (2 =? n2)).
  { intros Heq; injection Heq as <- <- <- <-. r_step H1; r_step H2; r_done. }
  cbv zeta.
  destruct (negb (Lz4MtResult_eqb LZ4MT_RESULT_OK _)).
  { intros Heq; injection Heq as <- <- <- <-. r_step H1; r_step H2; r_done. }
  match goal with
  | |- context [invoke_read c2 ?n] =>
      pose proof (R_invoke_read R okr HP c2 n) as H3;
        destruct (invoke_read c2 n) as [[nEx ex] c3]
  end.
  cbn [snd] in H3.
  destruct (negb (_ =? nEx)).
  { intros Heq; injection Heq as <- <- <- <-.
    r_step H1; r_step H2; r_step H3; r_done. }
  destruct (negb (Byte.eqb _ _)).
  { intros Heq; injection Heq as <- <- <- <-.
    r_step H1; r_step H2; r_step H3; r_done. }
  destruct (blocks _ _ _ c3 quit _) as [[[c4 q4] x4]| | |] eqn:Hb;
    cbn [run_bind]; try discriminate.
  apply Hblocks in Hb.
  destruct (negb (Context.error c4) && _).
  - pose proof (R_readU32 R okr HP c4) as H5.
    destruct (Context.readU32 c4) as [sum c5]. cbn [snd] in H5.
    destruct (Context.error c5).
    { intros Heq; injection Heq as <- <- <- <-.
      r_step H1; r_step H2; r_step H3; r_step Hb; r_step H5; r_done. }
    destruct (negb (_ =? sum));
      intros Heq; injection Heq as <- <- <- <-;
      r_step H1; r_step H2; r_step H3; r_step Hb; r_step H5; r_done.
  - intros Heq; injection Heq as <- <- <- <-.
    r_step H1; r_step H2; r_step H3; r_step Hb; r_done.
Qed.
End PreservedFrame.

(** ** The frame loop on a stream of items *)

Section DecoderStream.
Variable E : Externals.
Variables cmp dec : list byte -> Z -> Z -> Z * list byte.
Variable style : bool.

(** The header of a frame of the encoder, read by the frame loop: the
    descriptor is left in [*sd]. *)
Lemma decompress_frame_header_sd (D : Lz4MtStreamDescriptor)
      (blocks : Z -> Z -> bool -> Lz4MtContext Mem.Stream -> bool ->
                Xxh32.t ->
                Run (Lz4MtContext Mem.Stream * bool * Xxh32.t))
      c (body out : list byte) (sd : Lz4MtStreamDescriptor) :
  validateStreamDescriptor D = LZ4MT_RESULT_OK ->
  flg_in_width (flg D) -> bd_in_width (bd D) ->
  mem_ok cmp dec style c (compress_header E D ++ body) out false ->
  exists c3,
    mem_ok cmp dec style c3 body out false /\
    readSkippable c3 = readSkippable c /\
    mode c3 = mode c /\
    decompress_frame E blocks c false sd
    = run_bind
        (blocks (getBlockSize (blockMaximumSize (bd D)))
                (if negb (0 =? blockChecksum (flg D)) then 4 else 0)
                (negb (0 =? streamChecksum (flg D))) c3 false
                (Xxh32.init LZ4S_CHECKSUM_SEED))
        (fun '(c4, quit4, xxhStream) =>
           if negb (Context.error c4) && negb (0 =? streamChecksum (flg D))
           then
             let '(srcStreamChecksum, c5) := Context.readU32 c4 in
             if Context.error c5 then
               Done (Break,
                     snd (Context.setResult
                            LZ4MT_RESULT_CANNOT_READ_STREAM_CHECKSUM c5),
                     quit4, parsed_descriptor D sd)
             else if negb (Xxh32.digest E xxhStream =? srcStreamChecksum)
             then
               Done (Break,
                     snd (Context.setResult
                            LZ4MT_RESULT_STREAM_CHECKSUM_MISMATCH c5),
                     quit4, parsed_descriptor D sd)
             else Done (Continue, c5, quit4, parsed_descriptor D sd)
           else Done (Continue, c4, quit4, parsed_descriptor D sd)).
Proof.
  intros Hvalid Hflg Hbd H. rewrite compress_header_check in H.
  set (ss := if negb (0 =? streamSize (flg D))
             then storeU64 (sd_streamSize D) else []).
  assert (Hsum : header_sum D
                 = [flgToChar (flg D); bdToChar (bd D)] ++ ss).
  { unfold header_sum. rewrite (validate_ok_no_dictionary D Hvalid).
    cbn [negb]. rewrite app_nil_r. reflexivity. }
  assert (Hss : lengthZ ss
                = (if negb (0 =? streamSize (flg D)) then 8 else 0)).
  { unfold ss. destruct (negb (0 =? streamSize (flg D))); reflexivity. }
  set (chk := header_check_byte E (header_sum D)) in *.
  assert (Hchk : chk = header_check_byte E (header_sum D)) by reflexivity.
  clearbody chk. rewrite Hsum in H. rewrite <- !app_assoc in H.
  destruct (mem_readU32 cmp dec style c _ out LZ4S_MAGICNUMBER H
              ltac:(unfold LZ4S_MAGICNUMBER; lia)) as (c1 & Hr1 & H1).
  pose proof (R_readU32 _ _ skippable_preserved c) as Hk1.
  rewrite Hr1 in Hk1. cbn [snd] in Hk1.
  pose proof (R_readU32 _ _ mode_preserved c) as Hm1.
  rewrite Hr1 in Hm1. cbn [snd] in Hm1.
  destruct (mem_read_exact cmp dec style c1
              [flgToChar (flg D); bdToChar (bd D)] _ out 2 H1 eq_refl)
    as (c2 & Hr2 & H2 & Hm2).
  pose proof (R_invoke_read _ _ skippable_preserved c1 2) as Hk2.
  unfold Context.read in Hr2. rewrite Hr2 in Hk2. cbn [snd] in Hk2.
  rewrite app_assoc in H2.
  destruct (mem_read_exact cmp dec style c2 (ss ++ [chk]) body out
              ((if negb (0 =? streamSize (flg D)) then 8 else 0) + 0 + 1)
              H2
              ltac:(rewrite lengthZ_app, Hss;
                    change (lengthZ [chk]) with 1; lia))
    as (c3 & Hr3 & H3 & Hm3).
  pose proof (R_invoke_read _ _ skippable_preserved c2
                ((if negb (0 =? streamSize (flg D)) then 8 else 0) + 0 + 1))
    as Hk3.
  unfold Context.read in Hr3. rewrite Hr3 in Hk3. cbn [snd] in Hk3.
  assert (Hv1 : forall a b,
             validateStreamDescriptor (mkSd (flg D) (bd D) a b)
             = LZ4MT_RESULT_OK) by (intros; exact Hvalid).
  unfold decompress_frame.
  rewrite Hr1, (mem_ok_error _ _ _ _ _ _ _ H1).
  change (isSkippableMagicNumber LZ4S_MAGICNUMBER) with false.
  rewrite Z.eqb_refl. cbn [negb].
  unfold Context.read. rewrite Hr2, Z.eqb_refl. cbn [negb].
  change (at0 [flgToChar (flg D); bdToChar (bd D)] 0)
    with (flgToChar (flg D)).
  change (at0 [flgToChar (flg D); bdToChar (bd D)] 1)
    with (bdToChar (bd D)).
  rewrite (charToFlg_flgToChar _ _ Hflg), (charToBc_bdToChar _ _ Hbd).
  rewrite Hv1. cbn [Lz4MtResult_eqb negb flg bd sd_streamSize dictId].
  rewrite (validate_ok_no_dictionary D Hvalid). cbn [negb].
  rewrite Hr3, Z.eqb_refl. cbn [negb].
  assert (Hlen : lengthZ (header_sum D)
                 = 2 + (if negb (0 =? streamSize (flg D)) then 8 else 0) + 0).
  { rewrite Hsum, lengthZ_app, Hss.
    change (lengthZ [flgToChar (flg D); bdToChar (bd D)]) with 2. lia. }
  assert (Hd : header_array [flgToChar (flg D); bdToChar (bd D)]
                 (ss ++ [chk])
                 ((if negb (0 =? streamSize (flg D)) then 8 else 0) + 0 + 1)
               = [flgToChar (flg D); bdToChar (bd D)] ++ ss ++ [chk]).
  { rewrite header_array_exact.
    - reflexivity.
    - reflexivity.
    - rewrite <- Hss. unfold lengthZ. rewrite length_app.
      cbn [List.length]. lia. }
  rewrite Hd, <- Hlen.
  assert (Hat : at0 ([flgToChar (flg D); bdToChar (bd D)] ++ ss ++ [chk])
                    (Z.to_nat (lengthZ (header_sum D))) = chk).
  { rewrite app_assoc, <- Hsum.
    unfold lengthZ, at0. rewrite Nat2Z.id, app_nth2 by lia.
    rewrite Nat.sub_diag. reflexivity. }
  rewrite Hat. unfold Xxh32.digest at 1, Xxh32.oneshot.
  cbn [Xxh32.fed Xxh32.seed].
  assert (Htk : takeZ (lengthZ (header_sum D))
                      ([flgToChar (flg D); bdToChar (bd D)] ++ ss ++ [chk])
                = header_sum D)
    by (rewrite app_assoc, <- Hsum; apply takeZ_app).
  rewrite Htk, getCheckBits_bits_15_8.
  change (byte_of_Z
            (bits_15_8 (u32 (XXH32 E (header_sum D) LZ4S_CHECKSUM_SEED))))
    with (header_check_byte E (header_sum D)).
  rewrite <- Hchk, byte_eqb_refl.
  cbn [negb].
  exists c3. split; [exact H3|]. split; [congruence|].
  split; [congruence|].
  unfold parsed_descriptor, ss.
  destruct (negb (0 =? streamSize (flg D))); cbn [flg bd app skipn].
  - rewrite loadU64_storeU64_low. reflexivity.
  - reflexivity.
Qed.

Lemma mem_readEof_keep c (rest out : list byte) :
  mem_ok cmp dec style c rest out false -> rest <> [] ->
  exists c',
    Context.readEof c = (0, c') /\ mem_ok cmp dec style c' rest out false /\
    readSkippable c' = readSkippable c.
Proof.
  intros H Hrest.
  destruct (mem_readEof_more cmp dec style c rest out H Hrest)
    as (c' & He & H').
  pose proof (R_invoke_readEof _ _ skippable_preserved c) as Hk.
  unfold Context.readEof in He. rewrite He in Hk.
  exists c'. auto.
Qed.

Lemma mem_invoke_readSkippable c (data rest out : list byte)
      (magic size : Z) :
  mem_ok cmp dec style c (data ++ rest) out false ->
  readSkippable c = Mem.readSkippable ->
  size = lengthZ data ->
  exists c',
    invoke_readSkippable c magic size = (0, c') /\
    mem_ok cmp dec style c' rest out false /\
    readSkippable c' = readSkippable c.
Proof.
  intros (Hres & Hr & He & Hw & Hc & Hs & Hrest & Hout & Hroom & Hflag)
         Hsk ->.
  unfold invoke_readSkippable.
  replace (readSkippable c (world c) magic (lengthZ data))
    with (Mem.readSkippable (world c) magic (lengthZ data))
    by (rewrite Hsk; reflexivity).
  unfold Mem.readSkippable, Mem.read. rewrite Hrest, takeZ_app, Z.eqb_refl.
  eexists. split; [reflexivity|]. split; [|reflexivity].
  unfold mem_ok, Lz4MtContext_codec in *. ctx_cbn.
  unfold Mem.remaining. cbn [Mem.content Mem.pos Mem.eofFlag Mem.eofAtEnd
    Mem.written Mem.room].
  unfold Mem.remaining in Hrest.
  rewrite Nat.add_comm, <- skipn_skipn, Hrest, skipn_app, skipn_all,
    Nat.sub_diag, Hflag, Z.ltb_irrefl.
  cbn [skipn app orb]. repeat split; try assumption; reflexivity.
Qed.

Lemma skippable_magic_range (magic : Z) :
  isSkippableMagicNumber magic = true ->
  0 <= magic < 2 ^ 32 /\ magic <> LZ4S_MAGICNUMBER.
Proof.
  unfold isSkippableMagicNumber, LZ4S_MAGICNUMBER_SKIPPABLE_MIN,
    LZ4S_MAGICNUMBER_SKIPPABLE_MAX, LZ4S_MAGICNUMBER.
  intros H. apply andb_prop in H as [H1 H2].
  apply Z.leb_le in H1, H2. lia.
Qed.

(** One iteration of the frame loop on a skippable frame: the frame is
    handed to the [readSkippable] callback and the loop goes on. *)
Lemma decompress_frame_item_skippable
      (blocks : Z -> Z -> bool -> Lz4MtContext Mem.Stream -> bool ->
                Xxh32.t ->
                Run (Lz4MtContext Mem.Stream * bool * Xxh32.t))
      c (out data tail : list byte) (magic : Z)
      (sd : Lz4MtStreamDescriptor) :
  isSkippableMagicNumber magic = true -> lengthZ data < 2 ^ 32 ->
  readSkippable c = Mem.readSkippable ->
  mem_ok cmp dec style c
         ((storeU32 magic ++ storeU32 (lengthZ data) ++ data) ++ tail) out
         false ->
  exists c3,
    decompress_frame E blocks c false sd = Done (Continue, c3, false, sd) /\
    mem_ok cmp dec style c3 tail out false /\
    readSkippable c3 = readSkippable c /\
    mode c3 = mode c.
Proof.
  intros Hmagic Hsize Hsk H. rewrite <- !app_assoc in H.
  destruct (skippable_magic_range magic Hmagic) as [Hrange _].
  destruct (mem_readU32 cmp dec style c _ out magic H Hrange)
    as (c1 & Hr1 & H1).
  pose proof (R_readU32 _ _ skippable_preserved c) as Hk1.
  rewrite Hr1 in Hk1. cbn [snd] in Hk1.
  destruct (mem_readU32 cmp dec style c1 _ out (lengthZ data) H1
              ltac:(pose proof (lengthZ_nonneg data); lia))
    as (c2 & Hr2 & H2).
  pose proof (R_readU32 _ _ skippable_preserved c1) as Hk2.
  rewrite Hr2 in Hk2. cbn [snd] in Hk2.
  destruct (mem_invoke_readSkippable c2 data tail out magic (lengthZ data)
              H2 ltac:(congruence) eq_refl) as (c3 & Hr3 & H3 & Hk3).
  pose proof (R_readU32 _ _ mode_preserved c) as Hm1.
  rewrite Hr1 in Hm1. cbn [snd] in Hm1.
  pose proof (R_readU32 _ _ mode_preserved c1) as Hm2.
  rewrite Hr2 in Hm2. cbn [snd] in Hm2.
  pose proof (R_invoke_readSkippable _ _ mode_preserved c2 magic
                                     (lengthZ data)) as Hm3.
  rewrite Hr3 in Hm3. cbn [snd] in Hm3.
  unfold decompress_frame.
  rewrite Hr1, (mem_ok_error _ _ _ _ _ _ _ H1), Hmagic.
  rewrite Hr2, (mem_ok_error _ _ _ _ _ _ _ H2).
  unfold Context.readSkippable. rewrite Hr3.
  rewrite (mem_ok_error _ _ _ _ _ _ _ H3).
  cbn [Z.ltb Z.compare orb].
  exists c3. split; [reflexivity|]. split; [exact H3|].
  split; congruence.
Qed.

(** One iteration of the frame loop on a frame of the encoder that is
    followed by [tail]. The block loop returns when the step budget and
    the schedule suffice and the run is clear of the race. *)
Lemma decompress_frame_item_frame (fuel : nat) (sched : list nat) c
      (out input tail : list byte) (D sd : Lz4MtStreamDescriptor) :
  item_ok cmp dec (FrameItem D input) ->
  mem_ok cmp dec style c (frame_of E D cmp input ++ tail) out false ->
  ((forall r,
       decompress_frame E (decompress_blocks E fuel sched) c false sd
       <> Done r) /\
   ~ ((List.length input < fuel)%nat /\ sched = eager_schedule 0 1 /\
      item_race_free (mode c) (FrameItem D input)))
  \/
  (exists c5,
     decompress_frame E (decompress_blocks E fuel sched) c false sd
     = Done (Continue, c5, false, parsed_descriptor D sd) /\
     mem_ok cmp dec style c5 tail (out ++ input) false /\
     readSkippable c5 = readSkippable c /\
     mode c5 = mode c).
Proof.
  intros (Hvalid & Hflg & Hbd & Hcodec) H. unfold frame_of in H.
  rewrite <- !app_assoc in H.
  pose proof (block_size_range D Hvalid) as Hbm.
  pose proof (chunks_sizes _ input (proj1 Hbm)) as Hsizes.
  destruct (decompress_frame_header_sd D (decompress_blocks E fuel sched) c _
              out sd Hvalid Hflg Hbd H) as (c3 & H3 & Hk3 & Hm3 & Heq).
  rewrite Heq. clear Heq.
  destruct (decompress_blocks E fuel sched _ _ _ c3 false _)
    as [[[c4 q4] x4]| | |] eqn:Hb; cbn [run_bind];
    [|left; (split; [intros r; discriminate|]);
      intros (Hfuel & -> & Hfree);
      pose proof (chunks_length _ input (proj1 Hbm)) as Hcl;
      destruct (decompress_blocks_on_memory_returns E cmp dec style D
                  Hvalid Hcodec fuel _ _ c3 out
                  (Xxh32.init LZ4S_CHECKSUM_SEED) H3 Hsizes ltac:(lia))
        as (r & Hr);
      [rewrite Hm3; cbn [item_race_free] in Hfree;
       destruct Hfree as [Hseq | Hone]; [left; exact Hseq | right];
       exact (chunks_short _ input (proj1 Hbm) Hone)
      |rewrite Hr in Hb; discriminate Hb] ..].
  right.
  pose proof (R_decompress_blocks _ _ skippable_preserved _ _ _ _ _ _ _ _
                _ _ _ _ Hb) as Hk4.
  pose proof (R_decompress_blocks _ _ mode_preserved _ _ _ _ _ _ _ _
                _ _ _ _ Hb) as Hm4.
  destruct (decompress_blocks_on_memory E cmp dec style D Hvalid Hcodec
              fuel sched _ _ c3 out _ c4 q4 x4 H3 Hsizes Hb)
    as (Hq & Hx & H4 & _).
  subst q4 x4. rewrite concat_chunks in * by lia.
  rewrite (mem_ok_error _ _ _ _ _ _ _ H4). cbn [negb andb].
  destruct (negb (0 =? streamChecksum (flg D))).
  + destruct (mem_readU32 cmp dec style c4 tail _ _ H4 (u32_range _))
      as (c5 & Hr & H5).
    pose proof (R_readU32 _ _ skippable_preserved c4) as Hk5.
    rewrite Hr in Hk5. cbn [snd] in Hk5.
    pose proof (R_readU32 _ _ mode_preserved c4) as Hm5.
    rewrite Hr in Hm5. cbn [snd] in Hm5.
    rewrite Hr, (mem_ok_error _ _ _ _ _ _ _ H5).
    unfold Xxh32.digest, fed_with, Xxh32.init.
    cbn [Xxh32.fed Xxh32.seed app]. rewrite Z.eqb_refl. cbn [negb].
    exists c5. split; [reflexivity|]. split; [exact H5|].
    split; congruence.
  + cbn [app] in H4. exists c4. split; [reflexivity|].
    split; [exact H4|]. split; congruence.
Qed.

Lemma item_bytes_more (it : StreamItem) (rest : list byte) :
  item_bytes E cmp it ++ rest <> [].
Proof.
  destruct it as [magic data | D input]; cbn [item_bytes].
  - rewrite <- app_assoc. apply storeU32_more.
  - unfold frame_of. rewrite compress_header_check, <- !app_assoc.
    apply storeU32_more.
Qed.

(** When the frame loop returns on a stream of well-formed items, the
    result is [LZ4MT_RESULT_OK], the inputs of the frames are written one
    after the other, and [*sd] holds the descriptors that were read. *)
Lemma decompress_frames_items (items : list StreamItem) :
  forall (fuel : nat) (scheds : list (list nat)) c (out : list byte)
         (sd : Lz4MtStreamDescriptor) c' sd',
    Forall (item_ok cmp dec) items ->
    readSkippable c = Mem.readSkippable ->
    mem_ok cmp dec style c (List.concat (map (item_bytes E cmp) items)) out
           false ->
    decompress_frames E fuel scheds c false sd = Done (c', sd') ->
    result c' = LZ4MT_RESULT_OK /\
    Mem.written (world c') = out ++ List.concat (map item_output items) /\
    sd' = fold_left item_descriptor items sd.
Proof.
  induction items as [|it items IH];
    intros fuel scheds c out sd c' sd' Hok Hsk H Hrun;
    (destruct fuel as [|fuel]; [discriminate Hrun|]).
  - cbn [map List.concat] in H.
    destruct (decompress_frames_end E cmp dec style fuel scheds c out sd H)
      as (c1 & Hend & Hres & Hout).
    rewrite Hend in Hrun.
    assert (Hc : c' = c1) by congruence.
    assert (Hs : sd' = sd) by congruence.
    subst c' sd'. cbn [map List.concat fold_left]. rewrite app_nil_r. auto.
  - cbn [map List.concat] in H.
    inversion Hok as [|? ? Hit Hitems]; subst.
    rewrite decompress_frames_eq in Hrun.
    rewrite (mem_ok_error _ _ _ _ _ _ _ H) in Hrun. cbn [orb] in Hrun.
    destruct (mem_readEof_keep c _ out H (item_bytes_more it _))
      as (c0 & He & H0 & Hk0).
    rewrite He, Z.eqb_refl in Hrun. cbn [negb] in Hrun.
    cbn [map List.concat fold_left].
    destruct it as [magic data | D input].
    + destruct Hit as [Hmagic Hsize].
      destruct (decompress_frame_item_skippable
                  (decompress_blocks E fuel (hd [] scheds)) c0 out data _
                  magic sd Hmagic Hsize ltac:(congruence) H0)
        as (c3 & Hf & H3 & Hk3 & _).
      rewrite Hf in Hrun. cbn [run_bind] in Hrun.
      exact (IH fuel (tl scheds) c3 out sd c' sd' Hitems
                ltac:(congruence) H3 Hrun).
    + destruct (decompress_frame_item_frame fuel (hd [] scheds) c0 out input
                  _ D sd Hit H0) as [[Hnone _] | (c5 & Hf & H5 & Hk5 & _)].
      * destruct (decompress_frame E _ c0 false sd) as [r| | |];
          [contradiction (Hnone r eq_refl) | discriminate Hrun ..].
      * rewrite Hf in Hrun. cbn [run_bind] in Hrun.
        cbn [item_output item_descriptor].
        rewrite (app_assoc out input).
        exact (IH fuel (tl scheds) c5 (out ++ input) _ c' sd' Hitems
                  ltac:(congruence) H5 Hrun).
Qed.

Lemma mem_readEof_mode (c c' : Lz4MtContext Mem.Stream) (eof : Z) :
  Context.readEof c = (eof, c') -> mode c' = mode c.
Proof.
  intros He.
  pose proof (R_invoke_readEof _ _ mode_preserved c) as Hm.
  unfold Context.readEof in He. rewrite He in Hm. exact Hm.
Qed.

(** The frame loop returns on a stream of well-formed items whose
    decoding is clear of the race, when the step budget exceeds the
    number of items and the size of the output, under the eager
    schedules. *)
Lemma decompress_frames_items_returns (items : list StreamItem) :
  forall (fuel : nat) c (out : list byte) (sd : Lz4MtStreamDescriptor),
    Forall (item_ok cmp dec) items ->
    Forall (item_race_free (mode c)) items ->
    readSkippable c = Mem.readSkippable ->
    mem_ok cmp dec style c (List.concat (map (item_bytes E cmp) items)) out
           false ->
    (List.length items + 1
     + List.length (List.concat (map item_output items)) < fuel)%nat ->
    exists c' sd',
      decompress_frames E fuel (map item_schedule items) c false sd
      = Done (c', sd').
Proof.
  induction items as [|it items IH];
    intros fuel c out sd Hok Hfree Hsk H Hfuel;
    (destruct fuel as [|fuel]; [lia|]).
  - cbn [map List.concat] in H.
    destruct (decompress_frames_end E cmp dec style fuel [] c out sd H)
      as (c1 & Hend & _).
    cbn [map]. rewrite Hend. eauto.
  - cbn [map List.concat] in H.
    inversion Hok as [|? ? Hit Hitems]; subst.
    inversion Hfree as [|? ? Hfit Hfitems]; subst.
    rewrite decompress_frames_eq.
    rewrite (mem_ok_error _ _ _ _ _ _ _ H). cbn [orb].
    destruct (mem_readEof_keep c _ out H (item_bytes_more it _))
      as (c0 & He & H0 & Hk0).
    pose proof (mem_readEof_mode c c0 0 He) as Hm0.
    rewrite He, Z.eqb_refl. cbn [negb map hd tl].
    cbn [map List.concat List.length] in Hfuel.
    rewrite length_app in Hfuel.
    destruct it as [magic data | D input].
    + destruct Hit as [Hmagic Hsize].
      destruct (decompress_frame_item_skippable
                  (decompress_blocks E fuel (item_schedule
                                               (SkippableItem magic data)))
                  c0 out data _ magic sd Hmagic Hsize ltac:(congruence) H0)
        as (c3 & Hf & H3 & Hk3 & Hm3).
      rewrite Hf. cbn [run_bind].
      apply (IH fuel c3 out sd Hitems); try assumption.
      * replace (mode c3) with (mode c) by congruence. exact Hfitems.
      * congruence.
      * cbn [item_output List.length] in Hfuel. lia.
    + destruct (decompress_frame_item_frame fuel
                  (item_schedule (FrameItem D input)) c0 out input _ D sd
                  Hit H0) as [[_ Hnone] | (c5 & Hf & H5 & Hk5 & Hm5)].
      * exfalso. apply Hnone.
        cbn [item_output] in Hfuel.
        split; [lia|]. split; [reflexivity|].
        rewrite Hm0. exact Hfit.
      * rewrite Hf. cbn [run_bind].
        apply (IH fuel c5 (out ++ input) _ Hitems); try assumption.
        -- replace (mode c5) with (mode c) by congruence. exact Hfitems.
        -- congruence.
        -- cbn [item_output] in Hfuel. lia.
Qed.

Lemma decoder_entry_skippable (m : Z) (input : list byte) :
  readSkippable
    (snd (Context.setResult LZ4MT_RESULT_OK
            (Mem.context (Mem.open input style None) cmp dec m)))
  = Mem.readSkippable.
Proof. reflexivity. Qed.

(** [lz4mtDecompress] on a stream of well-formed items. *)
Lemma decompress_items_on_memory (items : list StreamItem) (m : Z)
      (fuel : nat) (scheds : list (list nat))
      (sd0 : Lz4MtStreamDescriptor) (r : Lz4MtResult) cD sd' :
  Forall (item_ok cmp dec) items ->
  decode_run E cmp dec sd0 (List.concat (map (item_bytes E cmp) items))
             style m fuel scheds = Done (r, cD, sd') ->
  r = LZ4MT_RESULT_OK /\
  Mem.written (world cD) = List.concat (map item_output items) /\
  sd' = fold_left item_descriptor items sd0.
Proof.
  intros Hok. unfold decode_run, lz4mtDecompress.
  destruct (decompress_frames E fuel scheds _ false sd0)
    as [[c1 sd1]| | |] eqn:Hf; cbn [run_bind]; try discriminate.
  intros Hdone.
  destruct (decompress_frames_items items fuel scheds _ [] sd0 c1 sd1 Hok
              (decoder_entry_skippable m _)
              (mem_ok_open cmp dec style m _) Hf) as (Hres & Hout & Hsd).
  assert (Hr : r = result c1) by congruence.
  assert (Hc : cD = c1) by congruence.
  assert (Hs : sd' = sd1) by congruence.
  subst r cD sd'. auto.
Qed.

Lemma decompress_items_on_memory_returns (items : list StreamItem) (m : Z)
      (sd0 : Lz4MtStreamDescriptor) :
  Forall (item_ok cmp dec) items ->
  Forall (item_race_free m) items ->
  exists cD sd',
    decode_run E cmp dec sd0 (List.concat (map (item_bytes E cmp) items))
      style m
      (List.length items + 2
       + List.length (List.concat (map item_output items)))
      (map item_schedule items)
    = Done (LZ4MT_RESULT_OK, cD, sd').
Proof.
  intros Hok Hfree.
  destruct (decompress_frames_items_returns items
              (List.length items + 2
               + List.length (List.concat (map item_output items)))
              (snd (Context.setResult LZ4MT_RESULT_OK
                      (Mem.context
                         (Mem.open
                            (List.concat (map (item_bytes E cmp) items))
                            style None) cmp dec m))) []
              sd0 Hok Hfree (decoder_entry_skippable m _)
              (mem_ok_open cmp dec style m _) ltac:(lia))
    as (c1 & sd1 & Hf).
  destruct (decompress_frames_items items _ _ _ [] sd0 c1 sd1 Hok
              (decoder_entry_skippable m _)
              (mem_ok_open cmp dec style m _) Hf) as (Hres & _).
  unfold decode_run, lz4mtDecompress. rewrite Hf. cbn [run_bind].
  rewrite Hres. eauto.
Qed.
End DecoderStream.

(** X6. [lz4mtDecompress] leaves in [*sd] the descriptor of the frame it
    decoded. Let [D] be a descriptor that [validateStreamDescriptor]
    accepts and whose flag and bd fields are within their bit widths,
    and let the block codec be an inverse pair. On the frame that the
    encoder writes of [input] under [D], read from a memory stream with
    an unbounded output, whenever the decoder returns, in either mode
    and under any schedule, the flag and bd records come back as they
    were in [D]; the stream size comes back (its low 64 bits) when the
    frame carries one, and otherwise [sd->streamSize] keeps what the
    caller had there, as [sd->dictId] always does. The decoder returns
    for some step budget and schedule in sequential mode, and in
    parallel mode when [input] is at most one block. *)
Theorem decompress_recovers_descriptor
        (E : Externals)
        (cmp dec : list byte -> Z -> Z -> Z * list byte)
        (D sd0 : Lz4MtStreamDescriptor) (input : list byte)
        (eofAtEnd : bool) (mode : Z) :
  validateStreamDescriptor D = LZ4MT_RESULT_OK ->
  flg_in_width (flg D) -> bd_in_width (bd D) ->
  codec_inverse cmp dec (getBlockSize (blockMaximumSize (bd D))) ->
  (race_free mode (getBlockSize (blockMaximumSize (bd D))) input ->
   exists fuel scheds cD sd',
     decode_run E cmp dec sd0 (frame_of E D cmp input) eofAtEnd mode fuel
                scheds = Done (LZ4MT_RESULT_OK, cD, sd')) /\
  forall fuel scheds r cD sd',
    decode_run E cmp dec sd0 (frame_of E D cmp input) eofAtEnd mode fuel
               scheds = Done (r, cD, sd') ->
    flg sd' = flg D /\ bd sd' = bd D /\ dictId sd' = dictId sd0 /\
    sd_streamSize sd'
    = (if 0 =? streamSize (flg D) then sd_streamSize sd0
       else u64 (sd_streamSize D)).
Proof.
  intros Hvalid Hflg Hbd Hcodec.
  assert (Hok : Forall (item_ok cmp dec) [FrameItem D input]).
  { constructor; [|constructor]. cbn [item_ok]. auto. }
  split.
  - intros Hfree.
    assert (Hfr : Forall (item_race_free mode) [FrameItem D input])
      by (constructor; [exact Hfree | constructor]).
    pose proof (decompress_items_on_memory_returns E cmp dec eofAtEnd
                  [FrameItem D input] mode sd0 Hok Hfr) as H.
    cbn [map List.concat item_bytes] in H. rewrite app_nil_r in H.
    destruct H as (cD & sd' & H). eauto.
  - intros fuel scheds r cD sd' Hrun.
    pose proof (decompress_items_on_memory E cmp dec eofAtEnd
                  [FrameItem D input] mode fuel scheds sd0 r cD sd' Hok)
      as H.
    cbn [map List.concat item_bytes] in H. rewrite app_nil_r in H.
    destruct (H Hrun) as (_ & _ & ->).
    cbn [fold_left item_descriptor]. unfold parsed_descriptor.
    cbn [flg bd dictId sd_streamSize].
    destruct (0 =? streamSize (flg D)); cbn [negb]; auto.
Qed.

Lemma decompress_recovers_descriptor_witness :
  exists fuel scheds cD sd',
    decode_run (Standin.externals true false)
               Standin.compress Standin.decompress lz4mtInitStreamDescriptor
               (frame_of (Standin.externals true false)
                         (mkSd (flg sizeless_descriptor)
                               (bd sizeless_descriptor) 5 0)
                         Standin.compress [x41; x41; x41; x41; x42])
               false LZ4MT_MODE_PARALLEL fuel scheds
    = Done (LZ4MT_RESULT_OK, cD, sd') /\
    sd_streamSize sd' = 5.
Proof.
  destruct (decompress_recovers_descriptor
              (Standin.externals true false)
              Standin.compress Standin.decompress
              (mkSd (flg sizeless_descriptor) (bd sizeless_descriptor) 5 0)
              lz4mtInitStreamDescriptor [x41; x41; x41; x41; x42]
              false LZ4MT_MODE_PARALLEL)
    as [Hex H].
  - reflexivity.
  - unfold flg_in_width, bit_width; simpl. lia.
  - unfold bd_in_width, bit_width; simpl.
    unfold LZ4S_BLOCKSIZEID_DEFAULT. lia.
  - apply standin_codec_inverse. vm_compute. discriminate.
  - destruct Hex as (fuel & scheds & cD & sd' & Hrun).
    { right. vm_compute. discriminate. }
    exists fuel, scheds, cD, sd'. split; [exact Hrun|].
    destruct (H fuel scheds _ cD sd' Hrun) as (_ & _ & _ & Hs).
    rewrite Hs. reflexivity.
Defined.

(** X7. [lz4mtDecompress] on a stream of several items, read from a
    memory stream with an unbounded output. Each item is a skippable
    frame (a magic number in the skippable range, a 32-bit size and that
    many bytes) or the frame that the encoder writes of some input under
    a descriptor that [validateStreamDescriptor] accepts, with flag and
    bd fields within their bit widths and an inverse pair of block
    codecs at its block size. Whenever the decoder returns, in either
    mode and under any schedules, it returns [LZ4MT_RESULT_OK], the
    output is the inputs of the frames one after the other (a skippable
    frame adds nothing to it), and [*sd] holds what the headers of the
    frames left there, the last one on top. The decoder returns for some
    step budget and schedules in sequential mode, and in parallel mode
    when the input of each frame is at most one block. *)
Theorem decompress_concatenated_frames
        (E : Externals)
        (cmp dec : list byte -> Z -> Z -> Z * list byte)
        (items : list StreamItem) (sd0 : Lz4MtStreamDescriptor)
        (eofAtEnd : bool) (mode : Z) :
  Forall (item_ok cmp dec) items ->
  (Forall (item_race_free mode) items ->
   exists fuel scheds cD sd',
     decode_run E cmp dec sd0 (List.concat (map (item_bytes E cmp) items))
                eofAtEnd mode fuel scheds
     = Done (LZ4MT_RESULT_OK, cD, sd')) /\
  forall fuel scheds r cD sd',
    decode_run E cmp dec sd0 (List.concat (map (item_bytes E cmp) items))
               eofAtEnd mode fuel scheds = Done (r, cD, sd') ->
    r = LZ4MT_RESULT_OK /\
    Mem.written (world cD) = List.concat (map item_output items) /\
    sd' = fold_left item_descriptor items sd0.
Proof.
  intros Hok. split.
  - intros Hfree.
    destruct (decompress_items_on_memory_returns E cmp dec eofAtEnd items
                mode sd0 Hok Hfree) as (cD & sd' & H).
    eauto.
  - intros fuel scheds r cD sd' Hrun.
    exact (decompress_items_on_memory E cmp dec eofAtEnd items mode fuel
             scheds sd0 r cD sd' Hok Hrun).
Qed.

Lemma decompress_concatenated_frames_witness :
  exists fuel scheds cD sd',
    decode_run (Standin.externals true false)
               Standin.compress Standin.decompress lz4mtInitStreamDescriptor
               (List.concat
                  (map (item_bytes (Standin.externals true false)
                                   Standin.compress)
                       [SkippableItem LZ4S_MAGICNUMBER_SKIPPABLE_MIN
                                      [x01; x02; x03];
                        FrameItem lz4mtInitStreamDescriptor
                                  [x41; x41; x41; x41; x42];
                        FrameItem lz4mtInitStreamDescriptor [x43]]))
               true LZ4MT_MODE_PARALLEL fuel scheds
    = Done (LZ4MT_RESULT_OK, cD, sd') /\
    Mem.written (world cD) = [x41; x41; x41; x41; x42; x43].
Proof.
  assert (Hframe : forall input,
             item_ok Standin.compress Standin.decompress
                     (FrameItem lz4mtInitStreamDescriptor input)).
  { intros input. cbn [item_ok].
    split; [reflexivity|].
    split; [unfold flg_in_width, bit_width; simpl; lia|].
    split; [unfold bd_in_width, bit_width; simpl;
            unfold LZ4S_BLOCKSIZEID_DEFAULT; lia|].
    apply standin_codec_inverse. vm_compute. discriminate. }
  destruct (decompress_concatenated_frames
              (Standin.externals true false)
              Standin.compress Standin.decompress
              [SkippableItem LZ4S_MAGICNUMBER_SKIPPABLE_MIN [x01; x02; x03];
               FrameItem lz4mtInitStreamDescriptor [x41; x41; x41; x41; x42];
               FrameItem lz4mtInitStreamDescriptor [x43]]
              lz4mtInitStreamDescriptor true LZ4MT_MODE_PARALLEL)
    as [Hex H].
  - constructor.
    + cbn [item_ok]. split; [reflexivity|]. vm_compute. reflexivity.
    + constructor; [apply Hframe|].
      constructor; [apply Hframe | constructor].
  - destruct Hex as (fuel & scheds & cD & sd' & Hrun).
    { constructor; [exact I|].
      constructor; [right; vm_compute; discriminate|].
      constructor; [right; vm_compute; discriminate | constructor]. }
    exists fuel, scheds, cD, sd'. split; [exact Hrun|].
    exact (proj1 (proj2 (H fuel scheds _ cD sd' Hrun))).
Defined.

(** ** Error paths of the encoder *)

(** X8. When the write callback does not take the whole header,
    [lz4mtCompress] returns at once through the latch:
    [LZ4MT_RESULT_CANNOT_WRITE_HEADER], or the specific code the context
    already held. The write of the header is the only call of a callback:
    nothing is read from the input and nothing is compressed. *)
Theorem compress_header_write_fails {W : Type} (E : Externals)
        (fuel : nat) (sched : list nat) (c : Lz4MtContext W)
        (sd : Lz4MtStreamDescriptor) (n : Z) (w : W) :
  validateStreamDescriptor sd = LZ4MT_RESULT_OK ->
  (streamSize (flg sd) <> 0 -> NDEBUG E = false -> sd_streamSize sd <> 0) ->
  write c (world c) (compress_header E sd) = (n, w) ->
  n <> lengthZ (compress_header E sd) ->
  exists c',
    lz4mtCompress E fuel sched c sd
    = Done (if is_specific (result c) then result c
            else LZ4MT_RESULT_CANNOT_WRITE_HEADER, c') /\
    result c' = (if is_specific (result c) then result c
                 else LZ4MT_RESULT_CANNOT_WRITE_HEADER) /\
    world c' = w /\
    calls c' = calls c ++ [CallWrite (compress_header E sd)].
Proof.
  intros Hvalid Hassert Hw Hn.
  unfold lz4mtCompress, compress_until_tail.
  rewrite Hvalid. cbn [Lz4MtResult_eqb negb].
  rewrite (compress_assert_holds E sd Hassert).
  unfold Context.write, invoke_write. rewrite Hw.
  destruct (Z.eqb_spec (lengthZ (compress_header E sd)) n) as [Heq | _];
    [congruence|].
  cbn [negb].
  destruct (is_specific (result c)) eqn:Hs.
  - rewrite setResult_specific by exact Hs. ctx_cbn.
    eexists. split; [reflexivity|]. ctx_cbn. auto.
  - rewrite setResult_unspecific by exact Hs. ctx_cbn.
    eexists. split; [reflexivity|]. ctx_cbn. auto.
Qed.

Lemma compress_header_write_fails_witness :
  exists c',
    lz4mtCompress (Standin.externals true false) 2 []
      (example_context LZ4MT_RESULT_OK (Mem.open [x41] false (Some 3))
                       LZ4MT_MODE_SEQUENTIAL)
      lz4mtInitStreamDescriptor
    = Done (LZ4MT_RESULT_CANNOT_WRITE_HEADER, c') /\
    calls c'
    = [CallWrite (compress_header (Standin.externals true false)
                                  lz4mtInitStreamDescriptor)].
Proof.
  destruct (compress_header_write_fails
              (Standin.externals true false) 2 []
              (example_context LZ4MT_RESULT_OK (Mem.open [x41] false (Some 3))
                               LZ4MT_MODE_SEQUENTIAL)
              lz4mtInitStreamDescriptor 3
              (Mem.mk [x41] 0 false false
                      (takeZ 3 (compress_header (Standin.externals true false)
                                                lz4mtInitStreamDescriptor))
                      (Some 0)))
    as (c' & Hrun & _ & _ & Hcalls).
  - reflexivity.
  - intros H. exfalso. apply H. reflexivity.
  - vm_compute. reflexivity.
  - vm_compute. discriminate.
  - exists c'. split; [exact Hrun | exact Hcalls].
Defined.

(** ** The latch at the entry of the decoder *)

Lemma with_result_twice {W : Type} (r r' : Lz4MtResult)
      (c : Lz4MtContext W) :
  with_result r (with_result r' c) = with_result r c.
Proof. reflexivity. Qed.

(** X9. [lz4mtDecompress] starts with [setResult(LZ4MT_RESULT_OK)], which
    clears a generic [ERROR] and cannot clear a specific code. So on a
    context that holds a specific code it returns that code without
    calling any callback and without touching [*sd]; on a context that
    holds [ERROR] it runs as on the same context holding [OK]. *)
Theorem decompress_entry_latch {W : Type} (E : Externals) (fuel : nat)
        (scheds : list (list nat)) (c : Lz4MtContext W)
        (sd : Lz4MtStreamDescriptor) :
  (is_specific (result c) = true ->
   lz4mtDecompress E (S fuel) scheds c sd = Done (result c, c, sd)) /\
  (is_specific (result c) = false ->
   lz4mtDecompress E fuel scheds c sd
   = lz4mtDecompress E fuel scheds (with_result LZ4MT_RESULT_OK c) sd).
Proof.
  split; intros Hs; unfold lz4mtDecompress.
  - rewrite setResult_specific by exact Hs. cbn [snd decompress_frames].
    assert (He : Context.error c = true).
    { unfold Context.error. unfold is_specific in Hs.
      apply negb_true_iff, orb_false_iff in Hs as [Hs _].
      rewrite Hs. reflexivity. }
    rewrite He. reflexivity.
  - rewrite setResult_unspecific by exact Hs.
    rewrite (setResult_unspecific LZ4MT_RESULT_OK
               (with_result LZ4MT_RESULT_OK c)) by reflexivity.
    cbn [snd]. rewrite with_result_twice. reflexivity.
Qed.

Lemma decompress_entry_latch_witness :
  lz4mtDecompress (Standin.externals true false) 1 []
    (example_context LZ4MT_RESULT_DECOMPRESS_FAIL
                     (Mem.open (example_frame) false None)
                     LZ4MT_MODE_SEQUENTIAL)
    lz4mtInitStreamDescriptor
  = Done (LZ4MT_RESULT_DECOMPRESS_FAIL,
          example_context LZ4MT_RESULT_DECOMPRESS_FAIL
                          (Mem.open (example_frame) false None)
                          LZ4MT_MODE_SEQUENTIAL,
          lz4mtInitStreamDescriptor).
Proof.
  apply (proj1 (decompress_entry_latch
                  (Standin.externals true false) 0 []
                  (example_context LZ4MT_RESULT_DECOMPRESS_FAIL
                                   (Mem.open (example_frame) false None)
                                   LZ4MT_MODE_SEQUENTIAL)
                  lz4mtInitStreamDescriptor)).
  reflexivity.
Defined.

(** ** Error paths of the frame loop of the decoder *)

Lemma decoder_entry {W : Type} (E : Externals) (fuel : nat)
      (scheds : list (list nat)) (c : Lz4MtContext W)
      (sd : Lz4MtStreamDescriptor) (w0 : W) :
  is_specific (result c) = false ->
  readEof c (world c) = (0, w0) ->
  lz4mtDecompress E (S fuel) scheds c sd
  = run_bind
      (run_bind
         (decompress_frame E (decompress_blocks E fuel (hd [] scheds))
            (called CallReadEof w0 (with_result LZ4MT_RESULT_OK c))
            false sd)
         (fun '(flow, c1, quit1, sd1) =>
            match flow with
            | Break => Done (c1, sd1)
            | Continue => decompress_frames E fuel (tl scheds) c1 quit1 sd1
            end))
      (fun '(c1, sd1) => Done (result c1, c1, sd1)).
Proof.
  intros Hs Heof. unfold lz4mtDecompress.
  rewrite setResult_unspecific by exact Hs. cbn [snd decompress_frames].
  rewrite error_with_result. cbn [Lz4MtResult_eqb negb orb].
  unfold Context.readEof at 1, invoke_readEof. ctx_cbn. rewrite Heof.
  rewrite Z.eqb_refl. cbn [negb]. reflexivity.
Qed.

(** X10. On input whose first four bytes are neither the magic number of
    a frame nor a skippable one, [lz4mtDecompress] seeks the input back
    by four bytes and returns [LZ4MT_RESULT_INVALID_MAGIC_NUMBER]; it has
    called [readEof], [read] for the four bytes and [readSeek(-4)], and
    nothing else: nothing is written and [*sd] is unchanged. *)
Theorem decompress_invalid_magic {W : Type} (E : Externals) (fuel : nat)
        (scheds : list (list nat)) (c : Lz4MtContext W)
        (sd : Lz4MtStreamDescriptor) (m : list byte) (w0 w1 w2 : W)
        (k : Z) :
  is_specific (result c) = false ->
  readEof c (world c) = (0, w0) ->
  read c w0 4 = (4, m, w1) ->
  isSkippableMagicNumber (loadU32 m) = false ->
  loadU32 m <> LZ4S_MAGICNUMBER ->
  readSeek c w1 (-4) = (k, w2) ->
  exists c',
    lz4mtDecompress E (S fuel) scheds c sd
    = Done (LZ4MT_RESULT_INVALID_MAGIC_NUMBER, c', sd) /\
    world c' = w2 /\
    calls c' = calls c ++ [CallReadEof; CallRead 4; CallReadSeek (-4)].
Proof.
  intros Hs Heof Hread Hskip Hmagic Hseek.
  rewrite (decoder_entry E fuel scheds c sd w0 Hs Heof).
  set (c0 := called CallReadEof w0 (with_result LZ4MT_RESULT_OK c)).
  unfold decompress_frame.
  rewrite (readU32_full c0 m w1) by (unfold c0; ctx_cbn; auto).
  rewrite error_called. unfold c0 at 1. rewrite error_called.
  rewrite error_with_result. cbn [Lz4MtResult_eqb negb].
  rewrite Hskip.
  destruct (Z.eqb_spec LZ4S_MAGICNUMBER (loadU32 m)) as [Heq | _];
    [congruence|].
  cbn [negb]. unfold Context.readSeek, invoke_readSeek. subst c0. ctx_cbn.
  rewrite Hseek. cbn [snd].
  rewrite setResult_unspecific by reflexivity. cbn [snd].
  eexists. split; [reflexivity|]. ctx_cbn.
  rewrite <- !app_assoc. auto.
Qed.

Lemma decompress_invalid_magic_witness :
  exists c',
    lz4mtDecompress (Standin.externals true false) 1 []
      (example_context LZ4MT_RESULT_OK
                       (Mem.open [x50; x4b; x03; x04; x14] false None)
                       LZ4MT_MODE_SEQUENTIAL)
      lz4mtInitStreamDescriptor
    = Done (LZ4MT_RESULT_INVALID_MAGIC_NUMBER, c',
            lz4mtInitStreamDescriptor) /\
    Mem.pos (world c') = 0%nat /\ Mem.written (world c') = [].
Proof.
  destruct (decompress_invalid_magic
              (Standin.externals true false) 0 []
              (example_context LZ4MT_RESULT_OK
                               (Mem.open [x50; x4b; x03; x04; x14] false None)
                               LZ4MT_MODE_SEQUENTIAL)
              lz4mtInitStreamDescriptor [x50; x4b; x03; x04]
              (Mem.open [x50; x4b; x03; x04; x14] false None)
              (Mem.mk [x50; x4b; x03; x04; x14] 4 false false [] None)
              (Mem.open [x50; x4b; x03; x04; x14] false None) 0)
    as (c' & Hrun & Hworld & _).
  - reflexivity.
  - reflexivity.
  - vm_compute. reflexivity.
  - vm_compute. reflexivity.
  - vm_compute. discriminate.
  - vm_compute. reflexivity.
  - exists c'. split; [exact Hrun|]. rewrite Hworld. split; reflexivity.
Defined.

(** X11. When the flag and bd bytes of a frame header do not pass
    [validateStreamDescriptor], [lz4mtDecompress] returns the code of the
    validation, having read the magic number and the two bytes and
    nothing more; nothing is written. [*sd] already holds the rejected
    flag and bd records: they are stored before they are validated. *)
Theorem decompress_rejects_descriptor {W : Type} (E : Externals)
        (fuel : nat) (scheds : list (list nat)) (c : Lz4MtContext W)
        (sd : Lz4MtStreamDescriptor) (m d2 : list byte) (w0 w1 w2 : W) :
  is_specific (result c) = false ->
  readEof c (world c) = (0, w0) ->
  read c w0 4 = (4, m, w1) ->
  loadU32 m = LZ4S_MAGICNUMBER ->
  read c w1 2 = (2, d2, w2) ->
  validateStreamDescriptor (parsed_flags E d2 sd) <> LZ4MT_RESULT_OK ->
  exists c',
    lz4mtDecompress E (S fuel) scheds c sd
    = Done (validateStreamDescriptor (parsed_flags E d2 sd), c',
            parsed_flags E d2 sd) /\
    world c' = w2 /\
    calls c' = calls c ++ [CallReadEof; CallRead 4; CallRead 2].
Proof.
  intros Hs Heof Hread Hmagic Hread2 Hinvalid.
  rewrite (decoder_entry E fuel scheds c sd w0 Hs Heof).
  set (c0 := called CallReadEof w0 (with_result LZ4MT_RESULT_OK c)).
  unfold decompress_frame.
  rewrite (readU32_full c0 m w1) by (unfold c0; ctx_cbn; auto).
  rewrite error_called. unfold c0 at 1. rewrite error_called.
  rewrite error_with_result.
  change (negb (Lz4MtResult_eqb LZ4MT_RESULT_OK LZ4MT_RESULT_OK)) with false.
  cbv iota. rewrite Hmagic.
  change (isSkippableMagicNumber LZ4S_MAGICNUMBER) with false.
  rewrite Z.eqb_refl. cbn [negb].
  unfold Context.read, invoke_read. subst c0. ctx_cbn. rewrite Hread2.
  rewrite Z.eqb_refl. cbn [negb].
  fold (parsed_flags E d2 sd).
  rewrite (eqb_OK_false _ Hinvalid). cbn [negb].
  rewrite setResult_unspecific by reflexivity. cbn [snd].
  eexists. split; [reflexivity|]. ctx_cbn.
  rewrite <- !app_assoc. auto.
Qed.

Lemma decompress_rejects_descriptor_witness :
  exists c',
    lz4mtDecompress (Standin.externals true false) 1 []
      (example_context LZ4MT_RESULT_OK
                       (Mem.open [x04; x22; x4d; x18; x00; x70; x00] false
                                 None)
                       LZ4MT_MODE_SEQUENTIAL)
      lz4mtInitStreamDescriptor
    = Done (LZ4MT_RESULT_INVALID_VERSION, c',
            parsed_flags (Standin.externals true false) [x00; x70]
                         lz4mtInitStreamDescriptor) /\
    Mem.written (world c') = [].
Proof.
  destruct (decompress_rejects_descriptor
              (Standin.externals true false) 0 []
              (example_context LZ4MT_RESULT_OK
                 (Mem.open [x04; x22; x4d; x18; x00; x70; x00] false None)
                 LZ4MT_MODE_SEQUENTIAL)
              lz4mtInitStreamDescriptor [x04; x22; x4d; x18] [x00; x70]
              (Mem.open [x04; x22; x4d; x18; x00; x70; x00] false None)
              (Mem.mk [x04; x22; x4d; x18; x00; x70; x00] 4 false false []
                      None)
              (Mem.mk [x04; x22; x4d; x18; x00; x70; x00] 6 false false []
                      None))
    as (c' & Hrun & Hworld & _).
  - reflexivity.
  - reflexivity.
  - vm_compute. reflexivity.
  - vm_compute. reflexivity.
  - vm_compute. reflexivity.
  - vm_compute. discriminate.
  - exists c'. split; [exact Hrun|]. rewrite Hworld. reflexivity.
Defined.

(** ** The worker of the decoder *)

Lemma writeBin_from_OK {W : Type} (p : list byte) (n : Z)
      (c : Lz4MtContext W) :
  Context.error c = false ->
  calls (snd (Context.writeBin p n c)) = calls c ++ [CallWrite (takeZ n p)] /\
  is_specific (result (snd (Context.writeBin p n c))) = false.
Proof.
  intros He. unfold Context.writeBin, invoke_write. rewrite He.
  destruct (write c (world c) (takeZ n p)) as [k w].
  apply error_false_result in He.
  destruct (negb (n =? k)); cbn [snd].
  - rewrite setResult_unspecific by (ctx_cbn; rewrite He; reflexivity).
    ctx_cbn. auto.
  - ctx_cbn. rewrite He. auto.
Qed.

(** X12. What a worker of the decoder calls, for a block it starts with
    no error latched. An incompressible block is written as it was read
    and never handed to the block decompressor. Another block is handed
    to the block decompressor with the block size as the output limit;
    when that fails (a negative size) nothing is written,
    [LZ4MT_RESULT_DECOMPRESS_FAIL] is latched and [quit] set; otherwise
    the decompressed bytes are written. The stream digest is fed the
    bytes that are written. *)
Theorem decompress_f_calls {W : Type} (E : Externals) (bm nbc : Z)
        (sc : bool) (src : list byte) (srcSize : Z) (inc : bool) (bcs : Z)
        (c : Lz4MtContext W) (xxh : Xxh32.t) :
  Context.error c = false ->
  let r := decompress_f E bm nbc sc src srcSize inc bcs c false xxh in
  let decSize := fst (decompress c (takeZ srcSize src) srcSize bm) in
  let dst := snd (decompress c (takeZ srcSize src) srcSize bm) in
  if inc then
    calls (fst (fst r)) = calls c ++ [CallWrite (takeZ srcSize src)] /\
    snd r = (if sc then Xxh32.update xxh src srcSize else xxh)
  else if decSize <? 0 then
    calls (fst (fst r))
    = calls c ++ [CallDecompress (takeZ srcSize src) srcSize bm] /\
    result (fst (fst r)) = LZ4MT_RESULT_DECOMPRESS_FAIL /\
    snd (fst r) = true /\ snd r = xxh
  else
    calls (fst (fst r))
    = calls c ++ [CallDecompress (takeZ srcSize src) srcSize bm;
                  CallWrite (takeZ decSize dst)] /\
    snd r = (if sc then Xxh32.update xxh dst decSize else xxh).
Proof.
  intros He. cbv zeta. unfold decompress_f, decompress_f_before_gate.
  rewrite He. cbn [orb]. destruct inc.
  - unfold decompress_f_after_gate.
    destruct (writeBin_from_OK src srcSize c He) as [Hcalls _].
    destruct (negb (0 =? nbc));
      [destruct (negb (_ =? bcs))|]; cbn [fst snd];
      rewrite ?(proj1 (setResult_calls _ _)); auto.
  - unfold Context.decompress, invoke_decompress.
    destruct (decompress c (takeZ srcSize src) srcSize bm) as [decSize dst].
    cbn [fst snd]. destruct (decSize <? 0) eqn:Hneg.
    + rewrite setResult_unspecific
        by (ctx_cbn; apply error_false_result in He; rewrite He;
            reflexivity).
      cbn [fst snd]. ctx_cbn. auto.
    + unfold decompress_f_after_gate.
      destruct (writeBin_from_OK dst decSize
                  (called (CallDecompress (takeZ srcSize src) srcSize bm)
                          (world c) c) He) as [Hcalls _].
      cbn [calls called] in Hcalls. rewrite <- app_assoc in Hcalls.
      cbn [app] in Hcalls.
      destruct (negb (0 =? nbc));
        [destruct (negb (_ =? bcs))|]; cbn [fst snd];
        rewrite ?(proj1 (setResult_calls _ _)); auto.
Qed.

Lemma decompress_f_calls_witness :
  calls (fst (fst (decompress_f (Standin.externals true false) 65536 0 true
                                [x05; x41] 2 false 0
                                (example_context LZ4MT_RESULT_OK
                                                 (Mem.open [] false None) 1)
                                false (Xxh32.init LZ4S_CHECKSUM_SEED))))
  = [CallDecompress [x05; x41] 2 65536;
     CallWrite [x41; x41; x41; x41; x41]].
Proof.
  exact (proj1 (decompress_f_calls
                  (Standin.externals true false) 65536 0 true [x05; x41] 2
                  false 0
                  (example_context LZ4MT_RESULT_OK (Mem.open [] false None) 1)
                  (Xxh32.init LZ4S_CHECKSUM_SEED) eq_refl)).
Defined.

(** X13. The block checksum is computed over the bytes of the block as
    they were read (before decompression) and is compared after the
    block has been written: a block whose checksum field is wrong is
    written to the output all the same, then
    [LZ4MT_RESULT_BLOCK_CHECKSUM_MISMATCH] is latched and [quit] set.
    A block whose checksum field is right leaves [quit] unset and no
    specific code latched. *)
Theorem decompress_f_checksum_after_write {W : Type} (E : Externals)
        (bm nbc : Z) (sc : bool) (src : list byte) (srcSize : Z)
        (inc : bool) (bcs : Z) (c : Lz4MtContext W) (xxh : Xxh32.t) :
  Context.error c = false -> nbc <> 0 ->
  (inc = true \/ 0 <= fst (decompress c (takeZ srcSize src) srcSize bm)) ->
  let r := decompress_f E bm nbc sc src srcSize inc bcs c false xxh in
  let data :=
    if inc then takeZ srcSize src
    else takeZ (fst (decompress c (takeZ srcSize src) srcSize bm))
               (snd (decompress c (takeZ srcSize src) srcSize bm)) in
  In (CallWrite data) (calls (fst (fst r))) /\
  (u32 (XXH32 E (takeZ srcSize src) LZ4S_CHECKSUM_SEED) <> bcs ->
   result (fst (fst r)) = LZ4MT_RESULT_BLOCK_CHECKSUM_MISMATCH /\
   snd (fst r) = true) /\
  (u32 (XXH32 E (takeZ srcSize src) LZ4S_CHECKSUM_SEED) = bcs ->
   snd (fst r) = false /\ is_specific (result (fst (fst r))) = false).
Proof.
  intros He Hnbc Hok. cbv zeta.
  assert (Hafter : forall (c1 : Lz4MtContext W) (o : list byte) (n : Z),
             Context.error c1 = false ->
             let r := decompress_f_after_gate E nbc sc src srcSize bcs o n c1
                        false xxh in
             In (CallWrite (takeZ n o)) (calls (fst (fst r))) /\
             (u32 (XXH32 E (takeZ srcSize src) LZ4S_CHECKSUM_SEED) <> bcs ->
              result (fst (fst r)) = LZ4MT_RESULT_BLOCK_CHECKSUM_MISMATCH /\
              snd (fst r) = true) /\
             (u32 (XXH32 E (takeZ srcSize src) LZ4S_CHECKSUM_SEED) = bcs ->
              snd (fst r) = false /\
              is_specific (result (fst (fst r))) = false)).
  { intros c1 o n He1. cbv zeta. unfold decompress_f_after_gate.
    destruct (writeBin_from_OK o n c1 He1) as [Hcalls Hspec].
    destruct (Z.eqb_spec 0 nbc) as [Hz | _]; [congruence|]. cbn [negb].
    unfold Xxh32.digest, Xxh32.oneshot. cbn [Xxh32.fed Xxh32.seed].
    destruct (Z.eqb_spec (u32 (XXH32 E (takeZ srcSize src)
                                     LZ4S_CHECKSUM_SEED)) bcs)
      as [Heq | Hne]; cbn [negb fst snd].
    - split; [rewrite Hcalls, in_app_iff; right; left; reflexivity|].
      split; [intros H; contradiction | auto].
    - rewrite setResult_unspecific by exact Hspec. cbn [snd]. ctx_cbn.
      split; [rewrite Hcalls, in_app_iff; right; left; reflexivity|].
      split; [auto | intros H; contradiction]. }
  unfold decompress_f, decompress_f_before_gate. rewrite He. cbn [orb].
  destruct inc.
  - exact (Hafter c src srcSize He).
  - destruct Hok as [Hok | Hok]; [discriminate Hok|].
    unfold Context.decompress, invoke_decompress.
    destruct (decompress c (takeZ srcSize src) srcSize bm) as [decSize dst].
    cbn [fst snd] in *.
    destruct (Z.ltb_spec decSize 0) as [Hneg | _]; [lia|].
    exact (Hafter (called (CallDecompress (takeZ srcSize src) srcSize bm)
                          (world c) c) dst decSize He).
Qed.

Lemma decompress_f_checksum_after_write_witness :
  In (CallWrite [x41; x42; x43])
     (calls (fst (fst (decompress_f (Standin.externals true false) 65536 4
                                    true [x41; x42; x43] 3 true 7
                                    (example_context LZ4MT_RESULT_OK
                                       (Mem.open [] false None) 1)
                                    false (Xxh32.init LZ4S_CHECKSUM_SEED)))))
  /\
  result (fst (fst (decompress_f (Standin.externals true false) 65536 4
                                 true [x41; x42; x43] 3 true 7
                                 (example_context LZ4MT_RESULT_OK
                                    (Mem.open [] false None) 1)
                                 false (Xxh32.init LZ4S_CHECKSUM_SEED))))
  = LZ4MT_RESULT_BLOCK_CHECKSUM_MISMATCH.
Proof.
  destruct (decompress_f_checksum_after_write
              (Standin.externals true false) 65536 4 true [x41; x42; x43] 3
              true 7
              (example_context LZ4MT_RESULT_OK (Mem.open [] false None) 1)
              (Xxh32.init LZ4S_CHECKSUM_SEED))
    as (Hin & Hbad & _).
  - reflexivity.
  - discriminate.
  - left. reflexivity.
  - split; [exact Hin|]. apply Hbad. vm_compute. discriminate.
Defined.

(** ** The codes that the tail of the encoder returns *)

Lemma writeU32_false_error {W : Type} (v : Z) (c c1 : Lz4MtContext W) :
  Context.writeU32 v c = (false, c1) -> Context.error c1 = true.
Proof.
  unfold Context.writeU32. destruct (Context.error c) eqn:He.
  - intros H. injection H as <-. exact He.
  - destruct (invoke_write c (storeU32 v)) as [n c2].
    destruct (negb (4 =? n)); intros H; [|discriminate H].
    injection H as <-. apply setResult_ERROR_error.
Qed.

Lemma compress_until_tail_latch {W : Type} (E : Externals) (fuel : nat)
      (sched : list nat) (c : Lz4MtContext W) (sd : Lz4MtStreamDescriptor)
      (r : Lz4MtResult) :
  ~ In r [LZ4MT_RESULT_ERROR; LZ4MT_RESULT_DECOMPRESS_FAIL;
          LZ4MT_RESULT_BLOCK_CHECKSUM_MISMATCH;
          LZ4MT_RESULT_CANNOT_READ_BLOCK_SIZE;
          LZ4MT_RESULT_CANNOT_READ_BLOCK_DATA;
          LZ4MT_RESULT_CANNOT_READ_BLOCK_CHECKSUM] ->
  is_specific r = true ->
  validateStreamDescriptor sd <> r ->
  r <> LZ4MT_RESULT_CANNOT_WRITE_HEADER ->
  result c <> r ->
  match compress_until_tail E fuel sched c sd with
  | Done (inl (r1, _)) => r1 <> r
  | Done (inr (c2, _)) => result c2 <> r
  | _ => True
  end.
Proof.
  intros Hr Hs Hv Hh Hc.
  pose proof (result_not_set_preserved (W := W) r Hr) as HP.
  unfold compress_until_tail.
  destruct (negb (Lz4MtResult_eqb LZ4MT_RESULT_OK
                                  (validateStreamDescriptor sd))).
  - destruct (Context.setResult (validateStreamDescriptor sd) c)
      as [r1 c1] eqn:Hset.
    pose proof (setResult_returns (validateStreamDescriptor sd) r c Hv Hs)
      as Hiff.
    rewrite Hset in Hiff. cbn [fst] in Hiff. tauto.
  - destruct (negb (0 =? streamSize (flg sd)) && negb (NDEBUG E)
              && (0 =? sd_streamSize sd)); [exact I|].
    unfold Context.write.
    pose proof (R_invoke_write _ _ HP c (compress_header E sd)) as Hw.
    destruct (invoke_write c (compress_header E sd)) as [n c1].
    cbn [snd] in Hw.
    destruct (negb (lengthZ (compress_header E sd) =? n)).
    + destruct (Context.setResult LZ4MT_RESULT_CANNOT_WRITE_HEADER c1)
        as [r1 c1'] eqn:Hset.
      pose proof (setResult_returns LZ4MT_RESULT_CANNOT_WRITE_HEADER r c1
                    ltac:(congruence) Hs) as Hiff.
      rewrite Hset in Hiff. cbn [fst] in Hiff.
      intros Heq. apply (Hw Hc). tauto.
    + cbv zeta.
      destruct (negb (0 =? Z.land (Context.mode c1) LZ4MT_MODE_SEQUENTIAL)).
      * destruct (compress_blocks_sequential E fuel _ _ _ c1 _)
          as [[c2 xxh2]|] eqn:Hb; [|exact I].
        apply (R_compress_blocks_sequential _ _ HP) in Hb.
        exact (Hb (Hw Hc)).
      * destruct (compress_blocks_parallel E sched _ _ _ c1 _)
          as [[c2 xxh2]| | |] eqn:Hb; try exact I.
        apply (R_compress_blocks_parallel _ _ HP) in Hb.
        exact (Hb (Hw Hc)).
Qed.

Lemma validate_not_stream_checksum (sd : Lz4MtStreamDescriptor) :
  validateStreamDescriptor sd <> LZ4MT_RESULT_CANNOT_WRITE_STREAM_CHECKSUM.
Proof.
  unfold validateStreamDescriptor.
  repeat match goal with
         | |- context [if ?b then _ else _] => destruct b
         end; discriminate.
Qed.

(** X14. [lz4mtCompress] returns [LZ4MT_RESULT_CANNOT_WRITE_EOS] and
    [LZ4MT_RESULT_CANNOT_WRITE_STREAM_CHECKSUM] directly, not through the
    latch: unless the context held that very code on entry, the result
    slot of the context does not hold the code that was returned. It
    holds another code, never [LZ4MT_RESULT_OK]. *)
Theorem compress_tail_code_not_latched {W : Type} (E : Externals)
        (fuel : nat) (sched : list nat) (c : Lz4MtContext W)
        (sd : Lz4MtStreamDescriptor) (r : Lz4MtResult)
        (c' : Lz4MtContext W) :
  lz4mtCompress E fuel sched c sd = Done (r, c') ->
  r = LZ4MT_RESULT_CANNOT_WRITE_EOS \/
  r = LZ4MT_RESULT_CANNOT_WRITE_STREAM_CHECKSUM ->
  result c <> r ->
  result c' <> r /\ result c' <> LZ4MT_RESULT_OK.
Proof.
  intros Hrun Hr Hc.
  assert (Hlatch :
            match compress_until_tail E fuel sched c sd with
            | Done (inl (r1, _)) => r1 <> r
            | Done (inr (c2, _)) => result c2 <> r
            | _ => True
            end).
  { destruct Hr as [-> | ->].
    - apply compress_until_tail_latch; try assumption;
        [|reflexivity|apply validate_not_EOS|discriminate].
      simpl. intros H.
      repeat destruct H as [H | H]; try discriminate H; exact H.
    - apply compress_until_tail_latch; try assumption;
        [|reflexivity|apply validate_not_stream_checksum|discriminate].
      simpl. intros H.
      repeat destruct H as [H | H]; try discriminate H; exact H. }
  unfold lz4mtCompress in Hrun.
  destruct (compress_until_tail E fuel sched c sd)
    as [[[r1 c1] | [c2 xxh2]] | | |]; cbn [run_bind] in Hrun;
    try discriminate Hrun.
  - exfalso. apply Hlatch. congruence.
  - apply (f_equal (run_value (r, c'))) in Hrun. cbn [run_value] in Hrun.
    assert (HP : preserved (@result_not_set W r) (fun r' => r' <> r)).
    { apply result_not_set_preserved. destruct Hr as [-> | ->]; simpl;
        intros H; repeat destruct H as [H | H]; try discriminate H; exact H. }
    pose proof (R_compress_tail _ _ HP E
                  (negb (0 =? streamChecksum (flg sd))) c2 xxh2) as Htail.
    rewrite Hrun in Htail. cbn [snd] in Htail.
    split; [exact (Htail Hlatch)|].
    unfold compress_tail in Hrun.
    destruct (Context.writeU32 LZ4S_EOS c2) as [ok c3] eqn:Hw1.
    destruct ok; cbn [negb] in Hrun.
    + destruct (negb (0 =? streamChecksum (flg sd))).
      * destruct (Context.writeU32 _ c3) as [ok2 c4] eqn:Hw2.
        destruct ok2; cbn [negb] in Hrun.
        -- destruct Hr; congruence.
        -- apply writeU32_false_error in Hw2.
           assert (c' = c4) by congruence. subst c'.
           intros Hok. apply error_false_result in Hok. congruence.
      * destruct Hr; congruence.
    + apply writeU32_false_error in Hw1.
      assert (c' = c3) by congruence. subst c'.
      intros Hok. apply error_false_result in Hok. congruence.
Qed.

Lemma compress_tail_code_not_latched_witness :
  exists c',
    lz4mtCompress (Standin.externals true false) 2 []
      (example_context LZ4MT_RESULT_OK (header_only_stream [x41])
                       LZ4MT_MODE_SEQUENTIAL)
      lz4mtInitStreamDescriptor
    = Done (LZ4MT_RESULT_CANNOT_WRITE_EOS, c') /\
    result c' <> LZ4MT_RESULT_CANNOT_WRITE_EOS /\
    result c' <> LZ4MT_RESULT_OK.
Proof.
  eexists. split; [vm_compute; reflexivity|].
  refine (compress_tail_code_not_latched
            (Standin.externals true false) 2 []
            (example_context LZ4MT_RESULT_OK (header_only_stream [x41])
                             LZ4MT_MODE_SEQUENTIAL)
            lz4mtInitStreamDescriptor LZ4MT_RESULT_CANNOT_WRITE_EOS _
            _ _ _).
  - vm_compute. reflexivity.
  - left. reflexivity.
  - discriminate.
Defined.

(** ** The stream checksum of a frame *)

Lemma loadU32_takeZ (q : list byte) :
  4 <= lengthZ q -> loadU32 (takeZ 4 q) = loadU32 q.
Proof.
  destruct q as [|a [|b [|c [|d q]]]]; unfold lengthZ; cbn [List.length];
    try lia.
  intros _. reflexivity.
Qed.

Section DecoderTrailer.
Variable E : Externals.
Variables cmp dec : list byte -> Z -> Z -> Z * list byte.
Variable style : bool.
Variable D : Lz4MtStreamDescriptor.
Hypothesis Hvalid : validateStreamDescriptor D = LZ4MT_RESULT_OK.
Hypothesis Hflg : flg_in_width (flg D).
Hypothesis Hbd : bd_in_width (bd D).
Hypothesis Hcodec :
  codec_inverse cmp dec (getBlockSize (blockMaximumSize (bd D))).
Hypothesis Hsum : streamChecksum (flg D) <> 0.

(** The read of the stream checksum after the blocks of [input]. *)
Lemma decompress_trailer_read c (out input trailer : list byte)
      (q : bool) (sd : Lz4MtStreamDescriptor) :
  mem_ok cmp dec style c trailer out false ->
  lengthZ trailer < 4 \/
  loadU32 trailer <> u32 (XXH32 E input LZ4S_CHECKSUM_SEED) ->
  exists c5,
    (let '(srcStreamChecksum, c5) := Context.readU32 c in
     if Context.error c5 then
       Done (Break,
             snd (Context.setResult
                    LZ4MT_RESULT_CANNOT_READ_STREAM_CHECKSUM c5), q, sd)
     else if negb (Xxh32.digest E
                     (fed_with true (Xxh32.init LZ4S_CHECKSUM_SEED) input)
                   =? srcStreamChecksum)
     then
       Done (Break,
             snd (Context.setResult
                    LZ4MT_RESULT_STREAM_CHECKSUM_MISMATCH c5), q, sd)
     else Done (Continue, c5, q, sd))
    = Done (Break, c5, q, sd) /\
    result c5 = (if lengthZ trailer <? 4
                 then LZ4MT_RESULT_CANNOT_READ_STREAM_CHECKSUM
                 else LZ4MT_RESULT_STREAM_CHECKSUM_MISMATCH) /\ Mem.written (world c5) = out.
Proof.
  intros H Hbad. unfold Context.readU32.
  rewrite (mem_ok_error _ _ _ _ _ _ _ H).
  destruct (mem_invoke_read cmp dec style c trailer out false 4 H)
    as (c1 & Hr & H1).
  rewrite Hr. rewrite lengthZ_takeZ in * by lia.
  pose proof (mem_ok_error _ _ _ _ _ _ _ H1) as He1.
  assert (Hout : Mem.written (world c1) = out) by apply H1.
  destruct (Z.ltb_spec (lengthZ trailer) 4) as [Hlt | Hge].
  - replace (Z.min 4 (lengthZ trailer)) with (lengthZ trailer) by lia.
    destruct (Z.eqb_spec 4 (lengthZ trailer)) as [Heq | _]; [lia|].
    cbn [negb]. rewrite (setResult_from_OK _ _ He1). cbn [snd].
    rewrite error_with_result. cbn [Lz4MtResult_eqb negb].
    rewrite setResult_unspecific by reflexivity. cbn [snd].
    eexists. split; [reflexivity|]. split; [reflexivity|exact Hout].
  - replace (Z.min 4 (lengthZ trailer)) with 4 by lia.
    cbn [Z.eqb Pos.eqb negb]. rewrite He1.
    rewrite loadU32_takeZ by exact Hge.
    unfold Xxh32.digest, fed_with, Xxh32.init.
    cbn [Xxh32.fed Xxh32.seed app].
    destruct (Z.eqb_spec (u32 (XXH32 E input LZ4S_CHECKSUM_SEED))
                         (loadU32 trailer)) as [Heq | _].
    + exfalso. destruct Hbad as [Hbad | Hbad]; [lia | congruence].
    + cbn [negb]. rewrite (setResult_from_OK _ _ He1). cbn [snd].
      eexists. split; [reflexivity|]. split; [reflexivity|exact Hout].
Qed.

(** One iteration of the frame loop on the frame of [input] with the
    trailer: when the block loop returns, the iteration leaves the frame
    loop with the code of the trailer and with [input] written. *)
Lemma decompress_frame_trailer (fuel : nat) (sched : list nat) c
      (out input trailer : list byte) (sd : Lz4MtStreamDescriptor) :
  mem_ok cmp dec style c (frame_with_trailer E D cmp input trailer) out
         false ->
  lengthZ trailer < 4 \/
  loadU32 trailer <> u32 (XXH32 E input LZ4S_CHECKSUM_SEED) ->
  ((forall r,
       decompress_frame E (decompress_blocks E fuel sched) c false sd
       <> Done r) /\
   exists c3,
     mem_ok cmp dec style c3
       (List.concat
          (map (encode_block E
                  (if negb (0 =? blockChecksum (flg D)) then 4 else 0) cmp)
               (chunks (getBlockSize (blockMaximumSize (bd D))) input))
        ++ storeU32 LZ4S_EOS ++ trailer) out false /\
     mode c3 = mode c /\
     forall r,
       decompress_blocks E fuel sched
         (getBlockSize (blockMaximumSize (bd D)))
         (if negb (0 =? blockChecksum (flg D)) then 4 else 0)
         (negb (0 =? streamChecksum (flg D))) c3 false
         (Xxh32.init LZ4S_CHECKSUM_SEED) <> Done r)
  \/
  (exists c5 sd3,
     decompress_frame E (decompress_blocks E fuel sched) c false sd
     = Done (Break, c5, false, sd3) /\
     result c5 = (if lengthZ trailer <? 4
                  then LZ4MT_RESULT_CANNOT_READ_STREAM_CHECKSUM
                  else LZ4MT_RESULT_STREAM_CHECKSUM_MISMATCH) /\
     Mem.written (world c5) = out ++ input).
Proof.
  intros H Hbad. unfold frame_with_trailer in H.
  pose proof (block_size_range D Hvalid) as Hbm.
  destruct (decompress_frame_on_memory E cmp dec style D Hvalid Hflg Hbd
              (decompress_blocks E fuel sched) c _ out sd H)
    as (c3 & sd3 & H3 & Hm & Heq).
  rewrite Heq. clear Heq.
  destruct (decompress_blocks E fuel sched _ _ _ c3 false _)
    as [[[c4 q4] x4]| | |] eqn:Hb; cbn [run_bind];
    [|left; (split; [intros r; discriminate|]); exists c3;
      (split; [exact H3|]); (split; [exact Hm|]); intros r;
      rewrite Hb; discriminate ..].
  right.
  destruct (decompress_blocks_on_memory E cmp dec style D Hvalid Hcodec
              fuel sched _ _ c3 out _ c4 q4 x4
              H3 (chunks_sizes _ input (proj1 Hbm)) Hb)
    as (Hq & Hx & H4 & _).
  subst q4 x4. rewrite concat_chunks in * by lia.
  rewrite (mem_ok_error _ _ _ _ _ _ _ H4). cbn [negb andb].
  destruct (Z.eqb_spec 0 (streamChecksum (flg D))) as [Hz | _];
    [congruence|]. cbn [negb].
  destruct (decompress_trailer_read c4 _ input trailer false sd3 H4 Hbad)
    as (c5 & Hr & Hres & Hout).
  exists c5, sd3. auto.
Qed.

Lemma frame_with_trailer_more (input trailer : list byte) :
  frame_with_trailer E D cmp input trailer <> [].
Proof.
  unfold frame_with_trailer. rewrite compress_header_check, <- !app_assoc.
  apply storeU32_more.
Qed.

(** When [lz4mtDecompress] returns on the frame with the trailer, it
    returns the code of the trailer and has written [input]. *)
Lemma decompress_trailer_on_memory (m : Z) (input trailer : list byte)
      (fuel : nat) (scheds : list (list nat)) (sd0 : Lz4MtStreamDescriptor)
      (r : Lz4MtResult) cD sd' :
  lengthZ trailer < 4 \/
  loadU32 trailer <> u32 (XXH32 E input LZ4S_CHECKSUM_SEED) ->
  lz4mtDecompress E fuel scheds
    (Mem.context (Mem.open (frame_with_trailer E D cmp input trailer)
                           style None) cmp dec m)
    sd0 = Done (r, cD, sd') ->
  r = (if lengthZ trailer <? 4
       then LZ4MT_RESULT_CANNOT_READ_STREAM_CHECKSUM
       else LZ4MT_RESULT_STREAM_CHECKSUM_MISMATCH) /\ Mem.written (world cD) = input.
Proof.
  intros Hbad. unfold lz4mtDecompress.
  destruct (decompress_frames E fuel scheds _ false sd0)
    as [[c1 sd1]| | |] eqn:Hf; cbn [run_bind]; try discriminate.
  intros Hdone.
  assert (Hr : r = result c1) by congruence.
  assert (Hc : cD = c1) by congruence.
  subst r cD. clear Hdone.
  pose proof (mem_ok_decoder_entry cmp dec style m
                (frame_with_trailer E D cmp input trailer)) as H.
  destruct fuel as [|fuel]; [discriminate Hf|].
  rewrite decompress_frames_eq in Hf.
  rewrite (mem_ok_error _ _ _ _ _ _ _ H) in Hf. cbn [orb] in Hf.
  destruct (mem_readEof_more cmp dec style _ _ [] H
              (frame_with_trailer_more input trailer)) as (c0 & He & H0).
  rewrite He, Z.eqb_refl in Hf. cbn [negb] in Hf.
  destruct (decompress_frame_trailer fuel (hd [] scheds) c0 [] input trailer
              sd0 H0 Hbad)
    as [[Hnone _] | (c5 & sd3 & Hsome & Hres & Hout)].
  - destruct (decompress_frame E _ c0 false sd0) as [r| | |];
      [contradiction (Hnone r eq_refl) | discriminate Hf ..].
  - rewrite Hsome in Hf. cbn [run_bind] in Hf.
    assert (c1 = c5) by congruence. subst c1. auto.
Qed.

Lemma decompress_trailer_on_memory_returns (m : Z)
      (input trailer : list byte) (sd0 : Lz4MtStreamDescriptor) :
  lengthZ trailer < 4 \/
  loadU32 trailer <> u32 (XXH32 E input LZ4S_CHECKSUM_SEED) ->
  race_free m (getBlockSize (blockMaximumSize (bd D))) input ->
  exists r cD sd',
    lz4mtDecompress E (S (S (List.length input))) [eager_schedule 0 1]
      (Mem.context (Mem.open (frame_with_trailer E D cmp input trailer)
                             style None) cmp dec m)
      sd0 = Done (r, cD, sd').
Proof.
  intros Hbad Hfree. pose proof (block_size_range D Hvalid) as Hbm.
  unfold lz4mtDecompress.
  pose proof (mem_ok_decoder_entry cmp dec style m
                (frame_with_trailer E D cmp input trailer)) as H.
  rewrite decompress_frames_eq.
  rewrite (mem_ok_error _ _ _ _ _ _ _ H). cbn [orb].
  destruct (mem_readEof_more cmp dec style _ _ [] H
              (frame_with_trailer_more input trailer)) as (c0 & He & H0).
  pose proof (mem_readEof_mode _ _ _ He) as Hm0.
  rewrite He, Z.eqb_refl. cbn [negb hd].
  destruct (decompress_frame_trailer (S (List.length input))
              (eager_schedule 0 1) c0 [] input trailer
              sd0 H0 Hbad)
    as [[_ (c3 & H3 & Hm3 & Hnone)] | (c5 & sd3 & Hsome & Hres & Hout)].
  - exfalso.
    destruct (decompress_blocks_on_memory_returns E cmp dec style D Hvalid
                Hcodec (S (List.length input)) trailer _ c3 []
                (Xxh32.init LZ4S_CHECKSUM_SEED) H3
                (chunks_sizes _ input (proj1 Hbm))
                ltac:(pose proof (chunks_length _ input (proj1 Hbm)); lia))
      as (r & Hr).
    { rewrite Hm3, Hm0.
      destruct Hfree as [Hseq | Hone]; [left; exact Hseq | right].
      exact (chunks_short _ input (proj1 Hbm) Hone). }
    exact (Hnone r Hr).
  - rewrite Hsome. cbn [run_bind]. eauto.
Qed.
End DecoderTrailer.

(** X15. The stream checksum is verified after the output was
    delivered. Let [D] be a descriptor that [validateStreamDescriptor]
    accepts, with flag and bd fields within their bit widths and the
    stream checksum on, and let the block codec be an inverse pair. On
    the frame of [input] under [D] whose checksum field is cut short or
    differs from the checksum of [input], read from a memory stream with
    an unbounded output, whenever [lz4mtDecompress] returns, in either
    mode and under any schedules, it returns
    [LZ4MT_RESULT_CANNOT_READ_STREAM_CHECKSUM] when fewer than four
    bytes follow the end-of-stream mark and
    [LZ4MT_RESULT_STREAM_CHECKSUM_MISMATCH] otherwise, and by then it
    has written the whole of [input]. The decoder returns for some step
    budget and schedules in sequential mode, and in parallel mode when
    [input] is at most one block. *)
Theorem decompress_stream_checksum_verified_last
        (E : Externals)
        (cmp dec : list byte -> Z -> Z -> Z * list byte)
        (D sd0 : Lz4MtStreamDescriptor) (input trailer : list byte)
        (eofAtEnd : bool) (mode : Z) :
  validateStreamDescriptor D = LZ4MT_RESULT_OK ->
  flg_in_width (flg D) -> bd_in_width (bd D) ->
  codec_inverse cmp dec (getBlockSize (blockMaximumSize (bd D))) ->
  streamChecksum (flg D) <> 0 ->
  lengthZ trailer < 4 \/
  loadU32 trailer <> u32 (XXH32 E input LZ4S_CHECKSUM_SEED) ->
  (race_free mode (getBlockSize (blockMaximumSize (bd D))) input ->
   exists fuel scheds r cD sd',
     decode_run E cmp dec sd0 (frame_with_trailer E D cmp input trailer)
                eofAtEnd mode fuel scheds = Done (r, cD, sd')) /\
  forall fuel scheds r cD sd',
    decode_run E cmp dec sd0 (frame_with_trailer E D cmp input trailer)
               eofAtEnd mode fuel scheds = Done (r, cD, sd') ->
    r = (if lengthZ trailer <? 4
         then LZ4MT_RESULT_CANNOT_READ_STREAM_CHECKSUM
         else LZ4MT_RESULT_STREAM_CHECKSUM_MISMATCH) /\
    Mem.written (world cD) = input.
Proof.
  intros Hvalid Hflg Hbd Hcodec Hsum Hbad. unfold decode_run. split.
  - intros Hfree.
    destruct (decompress_trailer_on_memory_returns E cmp dec eofAtEnd D
                Hvalid Hflg Hbd Hcodec Hsum mode input trailer sd0 Hbad
                Hfree)
      as (r & cD & sd' & Hrun).
    eauto 6.
  - intros fuel scheds r cD sd' Hrun.
    exact (decompress_trailer_on_memory E cmp dec eofAtEnd D Hvalid Hflg Hbd
             Hcodec Hsum mode input trailer fuel scheds sd0 r cD sd' Hbad
             Hrun).
Qed.

Lemma decompress_stream_checksum_verified_last_witness :
  exists fuel scheds cD sd',
    decode_run (Standin.externals true false)
               Standin.compress Standin.decompress lz4mtInitStreamDescriptor
               (frame_with_trailer (Standin.externals true false)
                  lz4mtInitStreamDescriptor Standin.compress
                  [x41; x41; x41; x41; x42] [x00; x00])
               false LZ4MT_MODE_PARALLEL fuel scheds
    = Done (LZ4MT_RESULT_CANNOT_READ_STREAM_CHECKSUM, cD, sd') /\
    Mem.written (world cD) = [x41; x41; x41; x41; x42].
Proof.
  destruct (decompress_stream_checksum_verified_last
              (Standin.externals true false)
              Standin.compress Standin.decompress
              lz4mtInitStreamDescriptor lz4mtInitStreamDescriptor
              [x41; x41; x41; x41; x42] [x00; x00]
              false LZ4MT_MODE_PARALLEL)
    as [Hex H].
  - reflexivity.
  - unfold flg_in_width, bit_width; simpl. lia.
  - unfold bd_in_width, bit_width; simpl.
    unfold LZ4S_BLOCKSIZEID_DEFAULT. lia.
  - apply standin_codec_inverse. vm_compute. discriminate.
  - discriminate.
  - left. reflexivity.
  - destruct Hex as (fuel & scheds & r & cD & sd' & Hrun).
    { right. vm_compute. discriminate. }
    destruct (H fuel scheds r cD sd' Hrun) as [Hr Hout].
    exists fuel, scheds, cD, sd'. split; [|exact Hout].
    rewrite Hrun, Hr. reflexivity.
Defined.

(** ** A frame that ends after its last block *)

Section DecoderOpenFrame.
Variable E : Externals.
Variables cmp dec : list byte -> Z -> Z -> Z * list byte.
Variables bm nbc : Z.
Variable sc : bool.
Hypothesis Hbm : 0 < bm < 2 ^ 31.
Hypothesis Hcodec : codec_inverse cmp dec bm.

(** The producer at the end of the input: [readEof] ends the block
    loop. *)
Lemma dec_read_end c out :
  mem_ok cmp dec true c [] out false ->
  exists c',
    decompress_read_block nbc c false = inl (c', false) /\
    mem_ok cmp dec true c' [] out false.
Proof.
  intros H. unfold decompress_read_block.
  destruct (mem_invoke_readEof cmp dec true c [] out false H)
    as (c0 & He & H0).
  unfold Context.readEof. rewrite He. cbn [Z.eqb negb].
  exists c0. auto.
Qed.

Lemma dec_open_sequential (blocks : list (list byte)) :
  forall (fuel : nat) c out xxh,
    mem_ok cmp dec true c
           (List.concat (map (encode_block E nbc cmp) blocks)) out false ->
    Forall (fun b => 0 < lengthZ b <= bm) blocks ->
    (List.length blocks < fuel)%nat ->
    exists c',
      decompress_blocks_sequential E fuel bm nbc sc c false xxh
      = Some (c', false, fed_with sc xxh (List.concat blocks)) /\
      mem_ok cmp dec true c' [] (out ++ List.concat blocks) false.
Proof.
  induction blocks as [|blk blocks IH]; intros fuel c out xxh H Hall Hfuel;
    (destruct fuel as [|fuel]; [cbn [List.length] in Hfuel; lia|]);
    cbn [decompress_blocks_sequential].
  - cbn [map List.concat] in H.
    destruct (dec_read_end c out H) as (c1 & Hr & H1).
    rewrite Hr. exists c1. cbn [List.concat].
    rewrite app_nil_r.
    unfold fed_with. destruct sc; [|auto].
    rewrite app_nil_r. destruct xxh; auto.
  - cbn [map List.concat] in H.
    inversion Hall as [|b bs Hb Hall']; subst.
    destruct (dec_read_block E cmp dec true bm nbc Hbm Hcodec c _ out blk
                H Hb) as (c1 & Hr & H1).
    rewrite Hr.
    destruct (dec_decompress_f E cmp dec true bm nbc sc Hbm Hcodec c1 _ out
                false blk xxh H1 Hb)
      as (c2 & Hf & H2).
    rewrite Hf.
    destruct (IH fuel c2 (out ++ blk) (fed_with sc xxh blk) H2 Hall'
                 ltac:(cbn [List.length] in Hfuel; lia))
      as (c3 & Hrun & H3).
    rewrite Hrun. exists c3. cbn [List.concat].
    rewrite fed_with_app, <- app_assoc in *. auto.
Qed.

(** A move of the machine of the decoder that does not run into the
    race keeps the invariant, and leaves every worker but that of block
    [0] at its entry. *)
Lemma decompress_open_step_inv (blocks : list (list byte))
      (out0 : list byte) (xxh0 : Xxh32.t) (tid : nat)
      (s : DecompressPar) :
  decompress_open_inv E cmp dec bm nbc sc blocks out0 xxh0 s ->
  forallb dtask_waiting (tl (dp_futures s)) = true ->
  existsb dtask_raced
          (dp_futures (decompress_par_step E bm nbc sc tid s)) = false ->
  decompress_open_inv E cmp dec bm nbc sc blocks out0 xxh0
                      (decompress_par_step E bm nbc sc tid s) /\
  forallb dtask_waiting
          (tl (dp_futures (decompress_par_step E bm nbc sc tid s))) = true.
Proof.
  intros Hinv Hwait. pose proof Hinv as Hat.
  unfold decompress_open_inv, decompress_open_at in Hat.
  destruct Hat as (done & pending & tasks & todo & Hfut & Hpend & Hok
                   & Hquit & Hxxh & Hlen & Hblocks & Htodo).
  unfold decompress_par_step. destruct tid as [|i].
  - (* the producer *)
    destruct (dp_reading s) eqn:Hreading;
      [|intros _; split; [exact Hinv | exact Hwait]].
    rewrite Hquit. destruct todo as [|blk todo].
    + cbn [map List.concat] in Hok.
      destruct (dec_read_end _ _ Hok) as (c1 & Hr & H1). rewrite Hr.
      intros _. split; [|exact Hwait].
      exists done, pending, tasks, []. unfold decompress_open_at.
      cbn [dp_futures dp_ctx dp_quit dp_xxhStream dp_reading map
           List.concat].
      tauto.
    + cbn [map List.concat] in Hok.
      assert (Hb : 0 < lengthZ blk <= bm).
      { rewrite Forall_forall in Hlen. apply Hlen.
        rewrite in_app_iff. right. left. reflexivity. }
      destruct (dec_read_block E cmp dec true bm nbc Hbm Hcodec _ _ _ blk
                  Hok Hb) as (c1 & Hr & H1).
      rewrite Hr.
      intros _. split;
        [|cbn [dp_futures]; apply forallb_tl_snoc; [exact Hwait|reflexivity]].
      exists done, (pending ++ [blk]),
        (tasks ++ [DTaskDispatched
                     (wire_payload cmp blk) (lengthZ (wire_payload cmp blk))
                     (fst (cmp blk (lengthZ blk) (lengthZ blk)) <=? 0)
                     (block_checksum_field E nbc (wire_payload cmp blk))]),
        todo.
      unfold decompress_open_at.
      cbn [dp_futures dp_ctx dp_quit dp_xxhStream dp_reading].
      split; [rewrite Hfut, app_assoc; reflexivity|].
      split. { apply Forall2_app; [exact Hpend|].
               constructor; [|constructor]. left. reflexivity. }
      split; [exact H1|]. split; [reflexivity|]. split; [exact Hxxh|].
      rewrite <- !app_assoc. cbn [app].
      split; [exact Hlen|]. split; [exact Hblocks | discriminate].
  - (* the worker of block [i] *)
    destruct (Nat.lt_ge_cases i (List.length done)) as [Hi | Hi].
    { rewrite Hfut, (nth_error_done DTaskDone done tasks i Hi).
      intros _. split; [exact Hinv | exact Hwait]. }
    rewrite Hfut, (nth_error_pending DTaskDone done tasks i Hi).
    destruct (nth_error tasks (i - List.length done)) as [t|] eqn:Hnth;
      [|intros _; split; [exact Hinv | exact Hwait]].
    destruct (set_task_nth tasks _ DTaskDone t Hnth)
      as (l1 & l2 & Htasks & Hl1 & _).
    subst tasks.
    destruct (Forall2_split_at _ _ _ _ _ Hpend)
      as (b1 & blk & b2 & Hbs & Hb1 & Hblk & Hb2 & Hlen1).
    subst pending.
    assert (Hb : 0 < lengthZ blk <= bm).
    { rewrite Forall_forall in Hlen. apply Hlen.
      rewrite !in_app_iff. left. right. left. reflexivity. }
    assert (Hset : forall u u0,
               set_task i u (map (fun _ => DTaskDone) done
                               ++ l1 ++ u0 :: l2)
               = map (fun _ => DTaskDone) done ++ l1 ++ u :: l2).
    { intros u u0. rewrite set_task_app by (rewrite length_map; exact Hi).
      rewrite length_map, (set_task_mid l1 l2 _ _ _ Hl1). reflexivity. }
    rewrite Hfut in Hwait.
    destruct Hblk as [-> | (o & sz & -> & Ho & Hsz)].
    + (* dispatched: up to [futures[i-1].wait()] *)
      rewrite Hquit.
      destruct (dec_before_gate cmp dec true bm Hbm Hcodec (dp_ctx s) _ _ _
                  blk Hok Hb)
        as (c1 & o & sz & Hbg & H1 & Ho & Hsz).
      rewrite Hbg. cbn [dp_futures]. rewrite Hset.
      destruct i as [|i'].
      * intros _.
        assert (Hd : done = [])
          by (destruct done; [reflexivity | cbn [List.length] in Hi; lia]).
        subst done. cbn [List.length Nat.sub] in Hl1.
        assert (Hl : l1 = [])
          by (destruct l1; [reflexivity | discriminate Hl1]).
        subst l1. split; [|exact Hwait].
        exists [], (b1 ++ blk :: b2),
          ([] ++ DTaskAtGate
                 (wire_payload cmp blk) (lengthZ (wire_payload cmp blk))
                 (block_checksum_field E nbc (wire_payload cmp blk)) o sz
              :: l2), todo.
        unfold decompress_open_at.
        cbn [dp_futures dp_ctx dp_quit dp_xxhStream dp_reading].
        split; [reflexivity|].
        split.
        { apply Forall2_app; [exact Hb1|]. constructor; [|exact Hb2].
          right. exists o, sz. auto. }
        tauto.
      * intros Hrace. exfalso.
        rewrite !existsb_app in Hrace.
        cbn [existsb dtask_raced orb] in Hrace.
        rewrite !orb_true_r in Hrace. discriminate Hrace.
    + (* at [futures[i-1].wait()]: the worker of block [0] *)
      intros _.
      assert (Hnil : map (fun _ : list byte => DTaskDone) done ++ l1 = []).
      { rewrite app_assoc in Hwait.
        apply (forallb_tl_mid _ _ _ _ Hwait). reflexivity. }
      apply app_eq_nil in Hnil as [Hd ->].
      apply map_eq_nil in Hd. subst done.
      destruct b1 as [|bb b1]; [|discriminate Hlen1].
      cbn [app List.length map] in *.
      assert (Hidx : i = O) by lia. subst i.
      rewrite Hquit.
      destruct (dec_after_gate E cmp dec true nbc sc (dp_ctx s) _ _ false blk
                  (wire_payload cmp blk) o sz (dp_xxhStream s) Hok Ho Hsz)
        as (c1 & Ha & H1).
      rewrite Ha. cbn [dp_futures]. split; [|exact Hwait].
      exists [blk], b2, l2, todo.
      unfold decompress_open_at.
      cbn [dp_futures dp_ctx dp_quit dp_xxhStream dp_reading].
      split; [reflexivity|].
      split; [exact Hb2|].
      split.
      { cbn [List.concat] in H1 |- *. rewrite !app_nil_r in H1 |- *.
        exact H1. }
      split; [reflexivity|].
      split.
      { rewrite Hxxh. cbn [List.concat]. rewrite app_nil_r.
        unfold fed_with. destruct sc; [|reflexivity].
        cbn [Xxh32.seed Xxh32.fed]. rewrite app_nil_r. reflexivity. }
      split; [inversion Hlen; assumption|].
      split; [exact Hblocks | exact Htodo].
Qed.

Lemma decompress_open_run_inv (blocks : list (list byte))
      (out0 : list byte) (xxh0 : Xxh32.t) (sched : list nat) :
  forall s,
    decompress_open_inv E cmp dec bm nbc sc blocks out0 xxh0 s ->
    forallb dtask_waiting (tl (dp_futures s)) = true ->
    existsb dtask_raced
      (dp_futures
         (fold_left (fun s tid => decompress_par_step E bm nbc sc tid s)
                    sched s)) = false ->
    decompress_open_inv E cmp dec bm nbc sc blocks out0 xxh0
      (fold_left (fun s tid => decompress_par_step E bm nbc sc tid s)
                 sched s) /\
    forallb dtask_waiting
      (tl (dp_futures
             (fold_left
                (fun s tid => decompress_par_step E bm nbc sc tid s)
                sched s))) = true.
Proof.
  induction sched as [|tid sched IH]; intros s H Hw Hr;
    [split; assumption|].
  cbn [fold_left] in *.
  assert (Hr1 : existsb dtask_raced
                  (dp_futures (decompress_par_step E bm nbc sc tid s))
                = false).
  { destruct (existsb dtask_raced
                (dp_futures (decompress_par_step E bm nbc sc tid s)))
      eqn:Hx; [|reflexivity].
    rewrite (decompress_par_run_raced E bm nbc sc sched _ Hx) in Hr.
    discriminate Hr. }
  destruct (decompress_open_step_inv blocks out0 xxh0 tid s H Hw Hr1)
    as [H1 Hw1].
  apply IH; assumption.
Qed.

Lemma dec_open_parallel (sched : list nat)
      (blocks : list (list byte)) c out xxh c' quit' xxh' :
  mem_ok cmp dec true c
         (List.concat (map (encode_block E nbc cmp) blocks)) out false ->
  Forall (fun b => 0 < lengthZ b <= bm) blocks ->
  decompress_blocks_parallel E sched bm nbc sc c false xxh
  = Done (c', quit', xxh') ->
  quit' = false /\ xxh' = fed_with sc xxh (List.concat blocks) /\
  mem_ok cmp dec true c' [] (out ++ List.concat blocks) false /\
  (List.length blocks <= 1)%nat.
Proof.
  intros Hok Hall Hrun. apply decompress_blocks_parallel_done in Hrun.
  cbv zeta in Hrun.
  destruct Hrun as (Hrace & Hreading & Hdone & Hc & Hq & Hx).
  assert (Hinit : decompress_open_inv E cmp dec bm nbc sc blocks
                    out xxh (mkDecompressPar c false xxh [] true)).
  { exists [], [], [], blocks. unfold decompress_open_at.
    cbn [dp_futures dp_ctx dp_quit dp_xxhStream dp_reading map List.concat
         app].
    rewrite app_nil_r.
    split; [reflexivity|]. split; [constructor|]. split; [exact Hok|].
    split; [reflexivity|].
    split. { unfold fed_with. destruct sc; [|reflexivity].
             rewrite app_nil_r. destruct xxh; reflexivity. }
    split; [exact Hall|]. split; [reflexivity | discriminate]. }
  destruct (decompress_open_run_inv blocks out xxh sched _ Hinit eq_refl
              Hrace) as [Hfin Hwait].
  destruct Hfin as (done & pending & tasks & todo & Hfut & Hpend & Hok'
                    & Hquit & Hxxh & Hlen & Hblocks & Htodo).
  revert Hreading Hdone Hc Hq Hx Hwait Hfut Hok' Hquit Hxxh Htodo.
  generalize (fold_left
                (fun s tid => decompress_par_step E bm nbc sc tid s)
                sched (mkDecompressPar c false xxh [] true)).
  intros s Hreading Hdone Hc Hq Hx Hwait Hfut Hok' Hquit Hxxh Htodo.
  subst c' quit' xxh'.
  rewrite (Htodo Hreading) in *.
  assert (Htasks : tasks = []).
  { rewrite Hfut, forallb_app in Hdone.
    apply andb_prop in Hdone as [_ Hdone].
    destruct Hpend as [|b t bs ts Hbt _]; [reflexivity|].
    cbn [forallb] in Hdone.
    rewrite (dpending_not_done E cmp nbc _ _ Hbt) in Hdone.
    discriminate Hdone. }
  subst tasks. inversion Hpend; subst pending.
  rewrite !app_nil_r in Hblocks. subst done.
  rewrite app_nil_r in Hfut. rewrite Hfut in Hwait.
  cbn [map List.concat] in Hok'.
  split; [exact Hquit|]. split; [exact Hxxh|]. split; [exact Hok'|].
  destruct blocks as [|b1 [|b2 bs]]; cbn [List.length]; try lia.
  discriminate Hwait.
Qed.

(** The block loop of either mode on the blocks, when it returns. *)
Lemma dec_open_blocks (fuel : nat) (sched : list nat)
      (blocks : list (list byte)) c out xxh c' quit' xxh' :
  mem_ok cmp dec true c
         (List.concat (map (encode_block E nbc cmp) blocks)) out false ->
  Forall (fun b => 0 < lengthZ b <= bm) blocks ->
  decompress_blocks E fuel sched bm nbc sc c false xxh
  = Done (c', quit', xxh') ->
  quit' = false /\ xxh' = fed_with sc xxh (List.concat blocks) /\
  mem_ok cmp dec true c' [] (out ++ List.concat blocks) false.
Proof.
  intros H Hall Hrun. unfold decompress_blocks in Hrun.
  destruct (negb (0 =? Z.land (Context.mode c) LZ4MT_MODE_SEQUENTIAL)).
  - apply run_of_option_done in Hrun.
    destruct (dec_open_sequential blocks
                (S (Nat.max fuel (List.length blocks))) c out xxh H Hall
                ltac:(lia)) as (c2 & Hseq & H2).
    rewrite (decompress_blocks_sequential_mono E _ _ _ fuel c false xxh _
               (S (Nat.max fuel (List.length blocks))) Hrun ltac:(lia))
      in Hseq.
    assert (Hc : c' = c2) by congruence.
    assert (Hq : quit' = false) by congruence.
    assert (Hx : xxh' = fed_with sc xxh (List.concat blocks))
      by congruence.
    subst c'. auto.
  - destruct (dec_open_parallel sched blocks c out xxh c' quit' xxh' H Hall
                Hrun) as (Hq & Hx & H2 & _).
    auto.
Qed.

(** The block loop returns: in sequential mode when the step budget
    exceeds the number of blocks, in parallel mode on at most one block
    under the eager schedule. *)
Lemma dec_open_blocks_returns (fuel : nat) (blocks : list (list byte))
      c out xxh :
  mem_ok cmp dec true c
         (List.concat (map (encode_block E nbc cmp) blocks)) out false ->
  Forall (fun b => 0 < lengthZ b <= bm) blocks ->
  (List.length blocks < fuel)%nat ->
  (Z.land (mode c) LZ4MT_MODE_SEQUENTIAL <> 0 \/
   (List.length blocks <= 1)%nat) ->
  exists r,
    decompress_blocks E fuel (eager_schedule 0 1) bm nbc sc c false xxh
    = Done r.
Proof.
  intros H Hall Hn Hfree.
  unfold decompress_blocks, Context.mode.
  destruct (Z.eqb_spec 0 (Z.land (mode c) LZ4MT_MODE_SEQUENTIAL))
    as [Hm | Hm]; cbn [negb].
  - destruct Hfree as [Hseq | Hone]; [congruence|].
    destruct (dec_open_sequential blocks 2 c out xxh H Hall ltac:(lia))
      as (c2 & Hseq & H2).
    eexists.
    exact (decompress_blocks_parallel_eager E _ _ _ _ _ _ _ Hseq).
  - destruct (dec_open_sequential blocks fuel c out xxh H Hall ltac:(lia))
      as (c2 & Hseq & H2).
    eexists. rewrite Hseq. reflexivity.
Qed.
End DecoderOpenFrame.

Section DecoderOpenRun.
Variable E : Externals.
Variables cmp dec : list byte -> Z -> Z -> Z * list byte.
Variable D : Lz4MtStreamDescriptor.
Hypothesis Hvalid : validateStreamDescriptor D = LZ4MT_RESULT_OK.
Hypothesis Hflg : flg_in_width (flg D).
Hypothesis Hbd : bd_in_width (bd D).
Hypothesis Hcodec :
  codec_inverse cmp dec (getBlockSize (blockMaximumSize (bd D))).

(** One iteration of the frame loop on the frame of [input] without its
    end, when the block loop returns: it goes on to the next frame when
    the frame has no stream checksum, and leaves the loop on the missing
    stream checksum otherwise. *)
Lemma decompress_frame_open (fuel : nat) (sched : list nat) c
      (out input : list byte) (sd : Lz4MtStreamDescriptor) :
  mem_ok cmp dec true c (frame_without_end E D cmp input) out false ->
  ((forall r,
       decompress_frame E (decompress_blocks E fuel sched) c false sd
       <> Done r) /\
   exists c3,
     mem_ok cmp dec true c3
       (List.concat
          (map (encode_block E
                  (if negb (0 =? blockChecksum (flg D)) then 4 else 0) cmp)
               (chunks (getBlockSize (blockMaximumSize (bd D))) input)))
       out false /\
     mode c3 = mode c /\
     forall r,
       decompress_blocks E fuel sched
         (getBlockSize (blockMaximumSize (bd D)))
         (if negb (0 =? blockChecksum (flg D)) then 4 else 0)
         (negb (0 =? streamChecksum (flg D))) c3 false
         (Xxh32.init LZ4S_CHECKSUM_SEED) <> Done r)
  \/
  (exists c5 sd3,
     Mem.written (world c5) = out ++ input /\
     if 0 =? streamChecksum (flg D)
     then decompress_frame E (decompress_blocks E fuel sched) c false sd
          = Done (Continue, c5, false, sd3) /\
          mem_ok cmp dec true c5 [] (out ++ input) false
     else decompress_frame E (decompress_blocks E fuel sched) c false sd
          = Done (Break, c5, false, sd3) /\
          result c5 = LZ4MT_RESULT_CANNOT_READ_STREAM_CHECKSUM).
Proof.
  intros H. unfold frame_without_end in H.
  pose proof (block_size_range D Hvalid) as Hbm.
  destruct (decompress_frame_on_memory E cmp dec true D Hvalid Hflg Hbd
              (decompress_blocks E fuel sched) c _ out sd H)
    as (c3 & sd3 & H3 & Hm & Heq).
  rewrite Heq. clear Heq.
  destruct (decompress_blocks E fuel sched _ _ _ c3 false _)
    as [[[c4 q4] x4]| | |] eqn:Hb; cbn [run_bind];
    [|left; (split; [intros r; discriminate|]); exists c3;
      (split; [exact H3|]); (split; [exact Hm|]); intros r;
      rewrite Hb; discriminate ..].
  right.
  destruct (dec_open_blocks E cmp dec _ _ _ Hbm Hcodec fuel sched _ c3 out
              _ c4 q4 x4 H3 (chunks_sizes _ input (proj1 Hbm)) Hb)
    as (Hq & Hx & H4).
  subst q4 x4. rewrite concat_chunks in * by lia.
  rewrite (mem_ok_error _ _ _ _ _ _ _ H4). cbn [negb andb].
  destruct (0 =? streamChecksum (flg D)); cbn [negb].
  + exists c4, sd3. split; [apply H4|]. auto.
  + destruct (decompress_trailer_read E cmp dec true c4 _ input [] false
                sd3 H4 ltac:(left; reflexivity))
      as (c5 & Hr & Hres & Hout).
    exists c5, sd3. split; [exact Hout|].
    split; [exact Hr | exact Hres].
Qed.

Lemma frame_without_end_more (input : list byte) :
  frame_without_end E D cmp input <> [].
Proof.
  unfold frame_without_end. rewrite compress_header_check, <- !app_assoc.
  apply storeU32_more.
Qed.

(** When [lz4mtDecompress] returns on the frame without its end, it has
    written [input], and the result is [LZ4MT_RESULT_OK] when the frame
    has no stream checksum. *)
Lemma decompress_open_on_memory (m : Z) (input : list byte)
      (fuel : nat) (scheds : list (list nat)) (sd0 : Lz4MtStreamDescriptor)
      (r : Lz4MtResult) cD sd' :
  lz4mtDecompress E fuel scheds
    (Mem.context (Mem.open (frame_without_end E D cmp input) true None)
                 cmp dec m)
    sd0 = Done (r, cD, sd') ->
  r = (if 0 =? streamChecksum (flg D) then LZ4MT_RESULT_OK
       else LZ4MT_RESULT_CANNOT_READ_STREAM_CHECKSUM) /\
  Mem.written (world cD) = input.
Proof.
  unfold lz4mtDecompress.
  destruct (decompress_frames E fuel scheds _ false sd0)
    as [[c1 sd1]| | |] eqn:Hf; cbn [run_bind]; try discriminate.
  intros Hdone.
  assert (Hr : r = result c1) by congruence.
  assert (Hc : cD = c1) by congruence.
  subst r cD. clear Hdone.
  pose proof (mem_ok_decoder_entry cmp dec true m
                (frame_without_end E D cmp input)) as H.
  destruct fuel as [|fuel]; [discriminate Hf|].
  rewrite decompress_frames_eq in Hf.
  rewrite (mem_ok_error _ _ _ _ _ _ _ H) in Hf. cbn [orb] in Hf.
  destruct (mem_readEof_more cmp dec true _ _ [] H
              (frame_without_end_more input)) as (c0 & He & H0).
  rewrite He, Z.eqb_refl in Hf. cbn [negb] in Hf.
  destruct (decompress_frame_open fuel (hd [] scheds) c0 [] input sd0 H0)
    as [[Hnone _] | (c5 & sd3 & Hout & Hcase)].
  - destruct (decompress_frame E _ c0 false sd0) as [r| | |];
      [contradiction (Hnone r eq_refl) | discriminate Hf ..].
  - destruct (0 =? streamChecksum (flg D)).
    + destruct Hcase as [Hsome H5]. rewrite Hsome in Hf.
      cbn [run_bind] in Hf.
      destruct fuel as [|fuel]; [discriminate Hf|].
      destruct (decompress_frames_end E cmp dec true fuel (tl scheds) c5 _
                  sd3 H5) as (c6 & Hend & Hres & Hout6).
      rewrite Hend in Hf. assert (c1 = c6) by congruence. subst c1. auto.
    + destruct Hcase as [Hsome Hres]. rewrite Hsome in Hf.
      cbn [run_bind] in Hf.
      assert (c1 = c5) by congruence. subst c1. auto.
Qed.

Lemma decompress_open_on_memory_returns (m : Z) (input : list byte)
      (sd0 : Lz4MtStreamDescriptor) :
  race_free m (getBlockSize (blockMaximumSize (bd D))) input ->
  exists r cD sd',
    lz4mtDecompress E (S (S (List.length input))) [eager_schedule 0 1]
      (Mem.context (Mem.open (frame_without_end E D cmp input) true None)
                   cmp dec m)
      sd0 = Done (r, cD, sd').
Proof.
  intros Hfree.
  pose proof (block_size_range D Hvalid) as Hbm.
  unfold lz4mtDecompress.
  pose proof (mem_ok_decoder_entry cmp dec true m
                (frame_without_end E D cmp input)) as H.
  rewrite decompress_frames_eq.
  rewrite (mem_ok_error _ _ _ _ _ _ _ H). cbn [orb].
  destruct (mem_readEof_more cmp dec true _ _ [] H
              (frame_without_end_more input)) as (c0 & He & H0).
  pose proof (mem_readEof_mode _ _ _ He) as Hm0.
  rewrite He, Z.eqb_refl. cbn [negb hd tl].
  destruct (decompress_frame_open (S (List.length input))
              (eager_schedule 0 1) c0 [] input sd0 H0)
    as [[_ (c3 & H3 & Hm3 & Hnone)] | (c5 & sd3 & Hout & Hcase)].
  - exfalso.
    destruct (dec_open_blocks_returns E cmp dec _ _
                (negb (0 =? streamChecksum (flg D))) Hbm Hcodec
                (S (List.length input)) _ c3 []
                (Xxh32.init LZ4S_CHECKSUM_SEED) H3
                (chunks_sizes _ input (proj1 Hbm))
                ltac:(pose proof (chunks_length _ input (proj1 Hbm)); lia))
      as (r & Hr).
    { rewrite Hm3, Hm0.
      destruct Hfree as [Hseq | Hone]; [left; exact Hseq | right].
      exact (chunks_short _ input (proj1 Hbm) Hone). }
    exact (Hnone r Hr).
  - destruct (0 =? streamChecksum (flg D)).
    + destruct Hcase as [Hsome H5]. rewrite Hsome. cbn [run_bind].
      destruct (decompress_frames_end E cmp dec true (List.length input) []
                  c5 _ sd3 H5) as (c6 & Hend & _).
      rewrite Hend. cbn [run_bind]. eauto.
    + destruct Hcase as [Hsome Hres]. rewrite Hsome. cbn [run_bind]. eauto.
Qed.
End DecoderOpenRun.

(** X16. The decoder does not require the end-of-stream mark. Let [D]
    be a descriptor that [validateStreamDescriptor] accepts, with flag
    and bd fields within their bit widths, and let the block codec be an
    inverse pair. On the frame of [input] under [D] cut after its last
    block, read from a memory stream whose [readEof] reports the read
    position, with an unbounded output, whenever [lz4mtDecompress]
    returns, in either mode and under any schedules, it has written the
    whole of [input]; it returns [LZ4MT_RESULT_OK] when the frame has no
    stream checksum and [LZ4MT_RESULT_CANNOT_READ_STREAM_CHECKSUM] when
    it has one. The decoder returns for some step budget and schedules
    in sequential mode, and in parallel mode when [input] is at most one
    block. *)
Theorem decompress_missing_end_mark
        (E : Externals)
        (cmp dec : list byte -> Z -> Z -> Z * list byte)
        (D sd0 : Lz4MtStreamDescriptor) (input : list byte) (mode : Z) :
  validateStreamDescriptor D = LZ4MT_RESULT_OK ->
  flg_in_width (flg D) -> bd_in_width (bd D) ->
  codec_inverse cmp dec (getBlockSize (blockMaximumSize (bd D))) ->
  (race_free mode (getBlockSize (blockMaximumSize (bd D))) input ->
   exists fuel scheds r cD sd',
     decode_run E cmp dec sd0 (frame_without_end E D cmp input)
                true mode fuel scheds = Done (r, cD, sd')) /\
  forall fuel scheds r cD sd',
    decode_run E cmp dec sd0 (frame_without_end E D cmp input)
               true mode fuel scheds = Done (r, cD, sd') ->
    r = (if 0 =? streamChecksum (flg D) then LZ4MT_RESULT_OK
         else LZ4MT_RESULT_CANNOT_READ_STREAM_CHECKSUM) /\
    Mem.written (world cD) = input.
Proof.
  intros Hvalid Hflg Hbd Hcodec. unfold decode_run. split.
  - intros Hfree.
    destruct (decompress_open_on_memory_returns E cmp dec D Hvalid Hflg Hbd
                Hcodec mode input sd0 Hfree) as (r & cD & sd' & Hrun).
    eauto 6.
  - intros fuel scheds r cD sd' Hrun.
    exact (decompress_open_on_memory E cmp dec D Hvalid Hflg Hbd Hcodec mode
             input fuel scheds sd0 r cD sd' Hrun).
Qed.

Lemma decompress_missing_end_mark_witness :
  exists fuel scheds cD sd',
    decode_run (Standin.externals true false)
               Standin.compress Standin.decompress lz4mtInitStreamDescriptor
               (frame_without_end (Standin.externals true false)
                  checksumless_descriptor Standin.compress
                  [x41; x41; x41; x41; x42])
               true LZ4MT_MODE_PARALLEL fuel scheds
    = Done (LZ4MT_RESULT_OK, cD, sd') /\
    Mem.written (world cD) = [x41; x41; x41; x41; x42].
Proof.
  destruct (decompress_missing_end_mark
              (Standin.externals true false)
              Standin.compress Standin.decompress
              checksumless_descriptor lz4mtInitStreamDescriptor
              [x41; x41; x41; x41; x42] LZ4MT_MODE_PARALLEL)
    as [Hex H].
  - reflexivity.
  - unfold flg_in_width, bit_width; simpl. lia.
  - unfold bd_in_width, bit_width; simpl.
    unfold LZ4S_BLOCKSIZEID_DEFAULT. lia.
  - apply standin_codec_inverse. vm_compute. discriminate.
  - destruct Hex as (fuel & scheds & r & cD & sd' & Hrun).
    { right. vm_compute. discriminate. }
    destruct (H fuel scheds r cD sd' Hrun) as [Hr Hout].
    exists fuel, scheds, cD, sd'. split; [|exact Hout].
    rewrite Hrun, Hr. reflexivity.
Defined.

(** ** A header that is cut short *)

Lemma takeZ_app_ge {A : Type} (a b : list A) (n : Z) :
  lengthZ a <= n -> takeZ n (a ++ b) = a ++ takeZ (n - lengthZ a) b.
Proof.
  revert n. induction a as [|x a IH]; intros n Hn.
  - change (lengthZ (@nil A)) with 0. rewrite Z.sub_0_r. reflexivity.
  - rewrite lengthZ_cons in Hn |- *. pose proof (lengthZ_nonneg a).
    cbn [app takeZ]. destruct (Z.ltb_spec 0 n); [|lia].
    rewrite IH by lia.
    replace (n - 1 - lengthZ a) with (n - (1 + lengthZ a)) by lia.
    reflexivity.
Qed.

(** X17. On a stream that ends inside the header of a frame, after the
    magic number, [lz4mtDecompress] returns [LZ4MT_RESULT_INVALID_HEADER]
    and writes nothing, in every mode. When the flag and bd bytes were
    still read, [*sd] already holds the flag and bd records of the
    frame. *)
Theorem decompress_truncated_header
        (E : Externals)
        (cmp dec : list byte -> Z -> Z -> Z * list byte)
        (D sd0 : Lz4MtStreamDescriptor) (k : Z)
        (eofAtEnd : bool) (mode : Z) (fuel : nat)
        (scheds : list (list nat)) :
  validateStreamDescriptor D = LZ4MT_RESULT_OK ->
  flg_in_width (flg D) -> bd_in_width (bd D) ->
  4 <= k < lengthZ (compress_header E D) ->
  exists cD,
    decode_run E cmp dec sd0 (takeZ k (compress_header E D)) eofAtEnd mode
               (S fuel) scheds
    = Done (LZ4MT_RESULT_INVALID_HEADER, cD,
            if k <? 6 then sd0
            else mkSd (flg D) (bd D) (sd_streamSize sd0) (dictId sd0)) /\
    Mem.written (world cD) = [].
Proof.
  intros Hvalid Hflg Hbd Hk.
  assert (Hsum : exists ss,
             header_sum D = [flgToChar (flg D); bdToChar (bd D)] ++ ss /\
             lengthZ ss
             = (if negb (0 =? streamSize (flg D)) then 8 else 0)).
  { unfold header_sum. rewrite (validate_ok_no_dictionary D Hvalid).
    cbn [negb]. rewrite app_nil_r. eexists. split; [reflexivity|].
    destruct (negb (0 =? streamSize (flg D))); reflexivity. }
  destruct Hsum as (ss & Hsum & Hss).
  rewrite compress_header_check, Hsum in Hk |- *.
  set (chk := header_check_byte E ([flgToChar (flg D); bdToChar (bd D)]
                                   ++ ss)) in *.
  clearbody chk. rewrite <- !app_assoc in Hk |- *.
  rewrite !lengthZ_app in Hk.
  change (lengthZ (storeU32 LZ4S_MAGICNUMBER)) with 4 in Hk.
  change (lengthZ [flgToChar (flg D); bdToChar (bd D)]) with 2 in Hk.
  change (lengthZ [chk]) with 1 in Hk.
  rewrite (takeZ_app_ge (storeU32 LZ4S_MAGICNUMBER))
    by (change (lengthZ (storeU32 LZ4S_MAGICNUMBER)) with 4; lia).
  change (lengthZ (storeU32 LZ4S_MAGICNUMBER)) with 4.
  unfold decode_run, lz4mtDecompress.
  pose proof (mem_ok_decoder_entry cmp dec eofAtEnd mode
                (storeU32 LZ4S_MAGICNUMBER
                 ++ takeZ (k - 4)
                      ([flgToChar (flg D); bdToChar (bd D)] ++ ss ++ [chk])))
    as H.
  rewrite decompress_frames_eq.
  rewrite (mem_ok_error _ _ _ _ _ _ _ H). cbn [orb].
  destruct (mem_readEof_more cmp dec eofAtEnd _ _ [] H
              (storeU32_more _ _)) as (c0 & He & H0).
  rewrite He, Z.eqb_refl. cbn [negb].
  destruct (mem_readU32 cmp dec eofAtEnd c0 _ [] LZ4S_MAGICNUMBER H0
              ltac:(unfold LZ4S_MAGICNUMBER; lia)) as (c1 & Hr1 & H1).
  unfold decompress_frame.
  rewrite Hr1, (mem_ok_error _ _ _ _ _ _ _ H1).
  change (isSkippableMagicNumber LZ4S_MAGICNUMBER) with false.
  rewrite Z.eqb_refl. cbn [negb].
  destruct (Z.ltb_spec k 6) as [Hlt | Hge].
  - (* the flag and bd bytes are cut *)
    destruct (mem_invoke_read cmp dec eofAtEnd c1 _ [] false 2 H1)
      as (c2 & Hr2 & H2).
    unfold Context.read. rewrite Hr2.
    rewrite !lengthZ_takeZ by lia. rewrite !lengthZ_app.
    change (lengthZ [flgToChar (flg D); bdToChar (bd D)]) with 2.
    change (lengthZ [chk]) with 1.
    pose proof (lengthZ_nonneg ss) as Hnn.
    destruct (Z.eqb_spec 2 (Z.min 2 (Z.min (k - 4) (2 + (lengthZ ss + 1)))))
      as [Heq | _]; [lia|].
    cbn [negb].
    rewrite (setResult_from_OK _ _ (mem_ok_error _ _ _ _ _ _ _ H2)).
    cbn [snd]. eexists. split; [reflexivity|]. apply H2.
  - (* the rest of the header is cut *)
    rewrite (takeZ_app_ge [flgToChar (flg D); bdToChar (bd D)]) in H1
      by (change (lengthZ [flgToChar (flg D); bdToChar (bd D)]) with 2; lia).
    change (lengthZ [flgToChar (flg D); bdToChar (bd D)]) with 2 in H1.
    destruct (mem_read_exact cmp dec eofAtEnd c1
                [flgToChar (flg D); bdToChar (bd D)] _ [] 2 H1 eq_refl)
      as (c2 & Hr2 & H2 & Hm2).
    rewrite Hr2, Z.eqb_refl. cbn [negb].
    change (at0 [flgToChar (flg D); bdToChar (bd D)] 0)
      with (flgToChar (flg D)).
    change (at0 [flgToChar (flg D); bdToChar (bd D)] 1)
      with (bdToChar (bd D)).
    rewrite (charToFlg_flgToChar _ _ Hflg), (charToBc_bdToChar _ _ Hbd).
    assert (Hv1 : forall a b,
               validateStreamDescriptor (mkSd (flg D) (bd D) a b)
               = LZ4MT_RESULT_OK) by (intros; exact Hvalid).
    rewrite Hv1. cbn [Lz4MtResult_eqb negb flg bd sd_streamSize dictId].
    rewrite (validate_ok_no_dictionary D Hvalid). cbn [negb].
    rewrite <- Hss.
    destruct (mem_invoke_read cmp dec eofAtEnd c2 _ [] false
                (lengthZ ss + 0 + 1) H2) as (c3 & Hr3 & H3).
    unfold Context.read. rewrite Hr3.
    pose proof (lengthZ_nonneg ss) as Hnn.
    rewrite !lengthZ_takeZ by lia. rewrite !lengthZ_app.
    change (lengthZ [chk]) with 1.
    destruct (Z.eqb_spec (lengthZ ss + 0 + 1)
                (Z.min (lengthZ ss + 0 + 1)
                       (Z.min (k - 4 - 2) (lengthZ ss + 1))))
      as [Heq | _]; [lia|].
    cbn [negb].
    rewrite (setResult_from_OK _ _ (mem_ok_error _ _ _ _ _ _ _ H3)).
    cbn [snd]. eexists. split; [reflexivity|]. apply H3.
Qed.

Lemma decompress_truncated_header_witness :
  exists cD,
    decode_run (Standin.externals true false)
               Standin.compress Standin.decompress lz4mtInitStreamDescriptor
               (takeZ 10 (compress_header (Standin.externals true false)
                                          sizeless_descriptor))
               false LZ4MT_MODE_PARALLEL 1 []
    = Done (LZ4MT_RESULT_INVALID_HEADER, cD,
            mkSd (flg sizeless_descriptor) (bd sizeless_descriptor) 0 0) /\
    Mem.written (world cD) = [].
Proof.
  apply (decompress_truncated_header
           (Standin.externals true false)
           Standin.compress Standin.decompress
           sizeless_descriptor lz4mtInitStreamDescriptor 10
           false LZ4MT_MODE_PARALLEL 0 []).
  - reflexivity.
  - unfold flg_in_width, bit_width; simpl. lia.
  - unfold bd_in_width, bit_width; simpl.
    unfold LZ4S_BLOCKSIZEID_DEFAULT. lia.
  - vm_compute. split; [discriminate | reflexivity].
Defined.

(** X18. When the [readSkippable] callback returns a negative value for
    a skippable frame, [lz4mtDecompress] returns
    [LZ4MT_RESULT_INVALID_HEADER]. It has called [readEof], [read] for
    the magic number and for the size, and [readSkippable] with the magic
    number and the size it read, and nothing else: nothing is written and
    [*sd] is unchanged. *)
Theorem decompress_skippable_rejected {W : Type} (E : Externals)
        (fuel : nat) (scheds : list (list nat)) (c : Lz4MtContext W)
        (sd : Lz4MtStreamDescriptor) (m sz : list byte) (w0 w1 w2 w3 : W)
        (s : Z) :
  is_specific (result c) = false ->
  readEof c (world c) = (0, w0) ->
  read c w0 4 = (4, m, w1) ->
  isSkippableMagicNumber (loadU32 m) = true ->
  read c w1 4 = (4, sz, w2) ->
  readSkippable c w2 (loadU32 m) (loadU32 sz) = (s, w3) ->
  s < 0 ->
  exists c',
    lz4mtDecompress E (S fuel) scheds c sd
    = Done (LZ4MT_RESULT_INVALID_HEADER, c', sd) /\
    world c' = w3 /\
    calls c' = calls c ++ [CallReadEof; CallRead 4; CallRead 4;
                           CallReadSkippable (loadU32 m) (loadU32 sz)].
Proof.
  intros Hs Heof Hread Hskip Hsize Hcall Hneg.
  rewrite (decoder_entry E fuel scheds c sd w0 Hs Heof).
  set (c0 := called CallReadEof w0 (with_result LZ4MT_RESULT_OK c)).
  unfold decompress_frame.
  rewrite (readU32_full c0 m w1) by (unfold c0; ctx_cbn; auto).
  rewrite error_called. unfold c0 at 1. rewrite error_called.
  rewrite error_with_result. cbn [Lz4MtResult_eqb negb].
  rewrite Hskip.
  rewrite (readU32_full (called (CallRead 4) w1 c0) sz w2)
    by (unfold c0; ctx_cbn; auto).
  rewrite !error_called. unfold c0 at 1. rewrite error_called.
  rewrite error_with_result. cbn [Lz4MtResult_eqb negb].
  unfold Context.readSkippable, invoke_readSkippable. subst c0. ctx_cbn.
  rewrite Hcall.
  destruct (Z.ltb_spec s 0) as [_ | Hge]; [|lia]. cbn [orb].
  rewrite setResult_unspecific by reflexivity. cbn [snd].
  eexists. split; [reflexivity|]. ctx_cbn.
  rewrite <- !app_assoc. auto.
Qed.

Lemma decompress_skippable_rejected_witness :
  exists c',
    lz4mtDecompress (Standin.externals true false) 1 []
      (example_context LZ4MT_RESULT_OK
         (Mem.open [x50; x2a; x4d; x18; x05; x00; x00; x00; x01; x02]
                   false None)
         LZ4MT_MODE_SEQUENTIAL)
      lz4mtInitStreamDescriptor
    = Done (LZ4MT_RESULT_INVALID_HEADER, c', lz4mtInitStreamDescriptor) /\
    Mem.written (world c') = [].
Proof.
  destruct (decompress_skippable_rejected
              (Standin.externals true false) 0 []
              (example_context LZ4MT_RESULT_OK
                 (Mem.open [x50; x2a; x4d; x18; x05; x00; x00; x00; x01; x02]
                           false None)
                 LZ4MT_MODE_SEQUENTIAL)
              lz4mtInitStreamDescriptor [x50; x2a; x4d; x18]
              [x05; x00; x00; x00]
              (Mem.open [x50; x2a; x4d; x18; x05; x00; x00; x00; x01; x02]
                        false None)
              (Mem.mk [x50; x2a; x4d; x18; x05; x00; x00; x00; x01; x02]
                      4 false false [] None)
              (Mem.mk [x50; x2a; x4d; x18; x05; x00; x00; x00; x01; x02]
                      8 false false [] None)
              (Mem.mk [x50; x2a; x4d; x18; x05; x00; x00; x00; x01; x02]
                      10 true false [] None)
              (-1))
    as (c' & Hrun & Hworld & _).
  - reflexivity.
  - reflexivity.
  - vm_compute. reflexivity.
  - vm_compute. reflexivity.
  - vm_compute. reflexivity.
  - vm_compute. reflexivity.
  - reflexivity.
  - exists c'. split; [exact Hrun|]. rewrite Hworld. reflexivity.
Defined.

(** ** The block size of a valid descriptor *)

(** X19. For a descriptor that [validateStreamDescriptor] accepts,
    [getBlockSize] of its block size id is 64 KiB, 256 KiB, 1 MiB or
    4 MiB: the size of the block buffers is positive and fits in an
    [int]. *)
Theorem valid_block_size (sd : Lz4MtStreamDescriptor) :
  validateStreamDescriptor sd = LZ4MT_RESULT_OK ->
  In (getBlockSize (blockMaximumSize (bd sd)))
     [65536; 262144; 1048576; 4194304].
Proof.
  intros H. destruct (validate_cases sd) as [[_ Hn] | [Hne _]];
    [|contradiction].
  unfold descriptor_rejected in Hn.
  assert (Hid : blockMaximumSize (bd sd) = 4 \/ blockMaximumSize (bd sd) = 5
                \/ blockMaximumSize (bd sd) = 6
                \/ blockMaximumSize (bd sd) = 7) by lia.
  destruct Hid as [-> | [-> | [-> | ->]]]; vm_compute; auto.
Qed.

Lemma valid_block_size_witness :
  In (getBlockSize (blockMaximumSize (bd lz4mtInitStreamDescriptor)))
     [65536; 262144; 1048576; 4194304].
Proof. apply valid_block_size. reflexivity. Defined.

(** ** The encoder on a context that holds an error *)

Section LatchedEncoder.
Variable E : Externals.
Variables bm nbc : Z.
Variable sc : bool.
Variable r0 : Lz4MtResult.
Variable out : list byte.
Hypothesis Hbm : 0 < bm.
Hypothesis Hr0 : r0 <> LZ4MT_RESULT_OK.

Lemma mem_latched_error c rest :
  mem_latched r0 c rest out -> Context.error c = true.
Proof.
  intros (Hres & _). unfold Context.error. rewrite Hres.
  destruct r0; try reflexivity. contradiction Hr0. reflexivity.
Qed.

Lemma latched_read c rest (n : Z) :
  mem_latched r0 c rest out ->
  exists c',
    Context.read c n = (lengthZ (takeZ n rest), takeZ n rest, c') /\
    mem_latched r0 c' (dropZ n rest) out.
Proof.
  intros (Hres & Hr & Hrest & Hout). subst rest.
  unfold Context.read, invoke_read. rewrite Hr. unfold Mem.read.
  eexists. split; [reflexivity|].
  unfold mem_latched. ctx_cbn.
  unfold Mem.remaining. cbn [Mem.content Mem.pos Mem.written].
  rewrite skipn_read. auto.
Qed.

Lemma latched_f (c : Lz4MtContext Mem.Stream) (src : list byte) (n : Z)
      (xxh : Xxh32.t) :
  Context.error c = true -> compress_f E nbc sc src n c xxh = (c, xxh).
Proof.
  intros He. unfold compress_f, compress_f_before_gate. rewrite He.
  reflexivity.
Qed.

Lemma latched_after_gate (c : Lz4MtContext Mem.Stream) (src : list byte)
      (n cmpSize : Z) (cmpPtr : list byte) (xxh : Xxh32.t) :
  Context.error c = true ->
  fst (compress_f_after_gate E nbc sc src n cmpSize cmpPtr c xxh) = c.
Proof.
  intros He. unfold compress_f_after_gate. cbn [fst].
  destruct (cmpSize <=? 0);
    rewrite writeU32_error by exact He; cbn [snd];
    rewrite writeBin_error by exact He; cbn [snd];
    (destruct (negb (0 =? nbc));
     [rewrite writeU32_error by exact He|]; reflexivity).
Qed.

(** The block loop of sequential mode reads to the end of the input and
    calls nothing else. *)
Lemma latched_sequential (fuel : nat) :
  forall c rest xxh,
    mem_latched r0 c rest out ->
    (List.length rest < fuel)%nat ->
    exists c',
      compress_blocks_sequential E fuel bm nbc sc c xxh = Some (c', xxh) /\
      mem_latched r0 c' [] out.
Proof.
  induction fuel as [|fuel IH]; intros c rest xxh H Hfuel; [lia|].
  cbn [compress_blocks_sequential].
  destruct (latched_read c rest bm H) as (c1 & Hr & H1). rewrite Hr.
  destruct rest as [|x rest].
  - cbn [takeZ dropZ] in *. change (lengthZ (@nil byte)) with 0.
    cbn [Z.eqb]. exists c1. auto.
  - assert (Hlen : 0 < lengthZ (takeZ bm (x :: rest))).
    { cbn [takeZ]. destruct (Z.ltb_spec 0 bm); [|lia].
      rewrite lengthZ_cons. pose proof (lengthZ_nonneg (takeZ (bm - 1) rest)).
      lia. }
    destruct (Z.eqb_spec 0 (lengthZ (takeZ bm (x :: rest)))) as [Heq | _];
      [lia|].
    rewrite (latched_f c1 _ _ xxh (mem_latched_error c1 _ H1)).
    apply (IH c1 (dropZ bm (x :: rest)) xxh H1).
    pose proof (length_dropZ (x :: rest) bm Hbm ltac:(discriminate)). lia.
Qed.

(** Every move of the machine of the encoder leaves the code latched and
    the output as it is. *)
Lemma latched_par_step (tid : nat) (s : CompressPar) :
  (exists rest, mem_latched r0 (cp_ctx s) rest out /\
                (cp_reading s = false -> rest = [])) ->
  exists rest,
    mem_latched r0 (cp_ctx (compress_par_step E bm nbc sc tid s)) rest out /\
    (cp_reading (compress_par_step E bm nbc sc tid s) = false -> rest = []).
Proof.
  intros (rest & H & Hend). unfold compress_par_step.
  destruct tid as [|i].
  - destruct (cp_reading s) eqn:Hreading; [|exists rest; auto].
    destruct (latched_read (cp_ctx s) rest bm H) as (c1 & Hr & H1).
    rewrite Hr.
    destruct (Z.eqb_spec 0 (lengthZ (takeZ bm rest))) as [Heq | _];
      cbn [cp_ctx cp_reading].
    + exists (dropZ bm rest). split; [exact H1|]. intros _.
      assert (Hnil : rest = []).
      { apply (takeZ_nil_inv rest bm Hbm).
        destruct (takeZ bm rest) as [|y l]; [reflexivity|].
        rewrite lengthZ_cons in Heq. pose proof (lengthZ_nonneg l). lia. }
      subst rest. reflexivity.
    + exists (dropZ bm rest). split; [exact H1 | discriminate].
  - pose proof (mem_latched_error _ _ H) as He.
    destruct (nth_error (cp_futures s) i) as [[src n | src n cs cp | |]|];
      try (exists rest; auto; fail).
    + unfold compress_f_before_gate. rewrite He.
      cbn [cp_ctx cp_reading]. exists rest. auto.
    + pose proof (latched_after_gate (cp_ctx s) src n cs cp (cp_xxhStream s)
                    He) as Hc.
      destruct (compress_f_after_gate E nbc sc src n cs cp (cp_ctx s)
                                      (cp_xxhStream s)) as [c1 xxh1].
      cbn [fst] in Hc. subst c1. cbn [cp_ctx cp_reading].
      exists rest. auto.
Qed.

Lemma latched_par_run (sched : list nat) :
  forall s : CompressPar,
    (exists rest, mem_latched r0 (cp_ctx s) rest out /\
                  (cp_reading s = false -> rest = [])) ->
    exists rest,
      mem_latched r0
        (cp_ctx (fold_left
                   (fun s tid => compress_par_step E bm nbc sc tid s)
                   sched s)) rest out /\
      (cp_reading (fold_left
                     (fun s tid => compress_par_step E bm nbc sc tid s)
                     sched s) = false -> rest = []).
Proof.
  induction sched as [|tid sched IH]; intros s Hs; [exact Hs|].
  cbn [fold_left]. apply IH, latched_par_step, Hs.
Qed.

Lemma latched_parallel (sched : list nat) c rest xxh c' xxh' :
  mem_latched r0 c rest out ->
  compress_blocks_parallel E sched bm nbc sc c xxh = Done (c', xxh') ->
  mem_latched r0 c' [] out.
Proof.
  intros H Hrun. apply compress_blocks_parallel_done in Hrun.
  cbv zeta in Hrun. destruct Hrun as (_ & Hreading & _ & Hc & _).
  destruct (latched_par_run sched (mkCompressPar c xxh [] true))
    as (rest' & H' & Hend).
  { exists rest. cbn [cp_ctx cp_reading]. split; [exact H | discriminate]. }
  rewrite Hc in H'. rewrite (Hend Hreading) in H'. exact H'.
Qed.

(** With the error latched every worker returns at its entry, before it
    gets to [futures[i-1].wait()]: under the eager schedule the block
    loop of parallel mode reads the input to its end. *)
Lemma latched_eager (n : nat) :
  forall (futs : list CompressTask) c rest xxh,
    mem_latched r0 c rest out ->
    (List.length rest <= n)%nat ->
    forallb ctask_done futs = true ->
    let s :=
      fold_left (fun s tid => compress_par_step E bm nbc sc tid s)
                (eager_schedule (List.length futs) n)
                (mkCompressPar c xxh futs true) in
    cp_reading s = false /\ forallb ctask_done (cp_futures s) = true /\
    cp_xxhStream s = xxh /\ mem_latched r0 (cp_ctx s) [] out.
Proof.
  induction n as [|n IH]; intros futs c rest xxh H Hn Hdone;
    cbn [eager_schedule fold_left]; cbn zeta;
    rewrite compress_step_producer;
    destruct (latched_read c rest bm H) as (c1 & Hr & H1); rewrite Hr.
  - destruct rest as [|x rest]; [|cbn [List.length] in Hn; lia].
    cbn [takeZ dropZ] in *. change (lengthZ (@nil byte)) with 0.
    cbn [Z.eqb cp_reading cp_futures cp_xxhStream cp_ctx]. auto.
  - destruct rest as [|x rest].
    + cbn [takeZ dropZ] in *. change (lengthZ (@nil byte)) with 0.
      cbn [Z.eqb].
      pose proof (eager_schedule_tids n (S (List.length futs))) as Htids.
      assert (Hone : compress_par_step E bm nbc sc (S (List.length futs))
                       (mkCompressPar c1 xxh futs false)
                     = mkCompressPar c1 xxh futs false).
      { apply (compress_par_idle E bm nbc sc [S (List.length futs)]);
          [reflexivity|].
        constructor; [right; cbn [cp_futures]; lia | constructor]. }
      rewrite !Hone. rewrite compress_par_idle.
      * cbn [cp_reading cp_ctx cp_xxhStream cp_futures]. auto.
      * reflexivity.
      * cbn [cp_futures]. eapply Forall_impl; [|exact Htids].
        intros tid [Ht | Ht]; [left; exact Ht | right; lia].
    + assert (Hlen : 0 < lengthZ (takeZ bm (x :: rest))).
      { cbn [takeZ]. destruct (Z.ltb_spec 0 bm); [|lia].
        rewrite lengthZ_cons.
        pose proof (lengthZ_nonneg (takeZ (bm - 1) rest)). lia. }
      destruct (Z.eqb_spec 0 (lengthZ (takeZ bm (x :: rest))))
        as [Heq | _]; [lia|].
      rewrite compress_step_dispatched.
      unfold compress_f_before_gate.
      rewrite (mem_latched_error c1 _ H1).
      rewrite compress_step_done.
      specialize (IH (futs ++ [CTaskDone]) c1 (dropZ bm (x :: rest)) xxh H1).
      rewrite length_app, Nat.add_1_r in IH. apply IH.
      * pose proof (length_dropZ (x :: rest) bm Hbm ltac:(discriminate)).
        lia.
      * rewrite forallb_app, Hdone. reflexivity.
Qed.

Lemma latched_parallel_eager c rest xxh :
  mem_latched r0 c rest out ->
  exists c',
    compress_blocks_parallel E (eager_schedule 0 (List.length rest)) bm nbc
                             sc c xxh = Done (c', xxh) /\
    mem_latched r0 c' [] out.
Proof.
  intros H.
  pose proof (latched_eager (List.length rest) [] c rest xxh H
                (Nat.le_refl _) eq_refl) as Hs.
  cbv zeta in Hs. cbn [List.length] in Hs.
  destruct Hs as (Hreading & Hdone & Hx & Hc).
  eexists. split; [|exact Hc].
  apply compress_blocks_parallel_done. cbv zeta.
  split; [|split; [exact Hreading|split; [exact Hdone|split; [reflexivity|exact Hx]]]].
  clear -Hdone.
  induction (cp_futures _) as [|t l IHl]; [reflexivity|].
  cbn [forallb existsb] in *. apply andb_prop in Hdone as [Ht Hl].
  destruct t; try discriminate Ht. cbn [ctask_raced orb]. exact (IHl Hl).
Qed.
End LatchedEncoder.

(** X20. [lz4mtCompress] does not reset the result slot. On a context
    that holds a code other than [LZ4MT_RESULT_OK] on entry, with a
    descriptor that is accepted, it writes the header and nothing more,
    reads the input to its end, and returns
    [LZ4MT_RESULT_CANNOT_WRITE_EOS] with the result slot unchanged. The
    encoder returns for some step budget and schedule, and this holds
    whenever it returns, in either mode. *)
Theorem compress_on_latched_error
        (E : Externals)
        (cmp dec : list byte -> Z -> Z -> Z * list byte)
        (D : Lz4MtStreamDescriptor) (input : list byte)
        (eofAtEnd : bool) (mode : Z) (r0 : Lz4MtResult) :
  r0 <> LZ4MT_RESULT_OK ->
  validateStreamDescriptor D = LZ4MT_RESULT_OK ->
  (streamSize (flg D) <> 0 -> NDEBUG E = false -> sd_streamSize D <> 0) ->
  (exists fuel sched c',
      lz4mtCompress E fuel sched
        (with_result r0
           (Mem.context (Mem.open input eofAtEnd None) cmp dec mode)) D
      = Done (LZ4MT_RESULT_CANNOT_WRITE_EOS, c')) /\
  forall fuel sched r c',
    lz4mtCompress E fuel sched
      (with_result r0
         (Mem.context (Mem.open input eofAtEnd None) cmp dec mode)) D
    = Done (r, c') ->
    r = LZ4MT_RESULT_CANNOT_WRITE_EOS /\ result c' = r0 /\
    Mem.written (world c') = compress_header E D /\
    Mem.remaining (world c') = [].
Proof.
  intros Hr0 Hvalid Hassert.
  pose proof (block_size_range D Hvalid) as Hbm.
  set (c := with_result r0
              (Mem.context (Mem.open input eofAtEnd None) cmp dec mode)).
  set (c1 := snd (Context.write c (compress_header E D))).
  assert (H1 : mem_latched r0 c1 input (compress_header E D)).
  { unfold c1, c, Context.write, invoke_write, mem_latched. ctx_cbn.
    cbn [Mem.write Mem.open Mem.room]. ctx_cbn.
    unfold Mem.remaining. cbn [Mem.written Mem.pos Mem.content skipn app].
    auto. }
  assert (Heq : forall fuel sched,
             lz4mtCompress E fuel sched c D
             = run_bind
                 (if negb (0 =? Z.land mode LZ4MT_MODE_SEQUENTIAL)
                  then run_of_option
                         (compress_blocks_sequential E fuel
                            (getBlockSize (blockMaximumSize (bd D)))
                            (if negb (0 =? blockChecksum (flg D))
                             then 4 else 0)
                            (negb (0 =? streamChecksum (flg D))) c1
                            (Xxh32.init LZ4S_CHECKSUM_SEED))
                  else compress_blocks_parallel E sched
                         (getBlockSize (blockMaximumSize (bd D)))
                         (if negb (0 =? blockChecksum (flg D)) then 4 else 0)
                         (negb (0 =? streamChecksum (flg D))) c1
                         (Xxh32.init LZ4S_CHECKSUM_SEED))
                 (fun '(c2, xxh2) =>
                    Done (compress_tail E
                            (negb (0 =? streamChecksum (flg D))) c2 xxh2))).
  { intros fuel sched. unfold lz4mtCompress, compress_until_tail.
    rewrite Hvalid. cbn [Lz4MtResult_eqb negb].
    rewrite (compress_assert_holds E D Hassert).
    fold c1.
    assert (Hw : Context.write c (compress_header E D)
                 = (lengthZ (compress_header E D), c1)).
    { unfold c1, c, Context.write, invoke_write. ctx_cbn.
      cbn [Mem.write Mem.open Mem.room]. reflexivity. }
    rewrite Hw, Z.eqb_refl. cbn [negb].
    change (Context.mode c1) with mode.
    destruct (negb (0 =? Z.land mode LZ4MT_MODE_SEQUENTIAL)).
    - destruct (compress_blocks_sequential E fuel _ _ _ c1 _)
        as [[c2 xxh2]|]; reflexivity.
    - destruct (compress_blocks_parallel E sched _ _ _ c1 _)
        as [[c2 xxh2]| | |]; reflexivity. }
  assert (Htail : forall c2 xxh2,
             mem_latched r0 c2 [] (compress_header E D) ->
             compress_tail E (negb (0 =? streamChecksum (flg D))) c2 xxh2
             = (LZ4MT_RESULT_CANNOT_WRITE_EOS, c2)).
  { intros c2 xxh2 H2. unfold compress_tail.
    rewrite (writeU32_error _ _
               (mem_latched_error r0 (compress_header E D) Hr0 c2 [] H2)).
    reflexivity. }
  destruct (latched_sequential E (getBlockSize (blockMaximumSize (bd D)))
              (if negb (0 =? blockChecksum (flg D)) then 4 else 0)
              (negb (0 =? streamChecksum (flg D))) r0 (compress_header E D)
              (proj1 Hbm) Hr0 (S (List.length input)) c1 input
              (Xxh32.init LZ4S_CHECKSUM_SEED) H1 ltac:(lia))
    as (c2 & Hseq & H2).
  destruct (latched_parallel_eager E
              (getBlockSize (blockMaximumSize (bd D)))
              (if negb (0 =? blockChecksum (flg D)) then 4 else 0)
              (negb (0 =? streamChecksum (flg D))) r0 (compress_header E D)
              (proj1 Hbm) Hr0 c1 input (Xxh32.init LZ4S_CHECKSUM_SEED) H1)
    as (c2p & Hpar & H2p).
  split.
  - destruct (negb (0 =? Z.land mode LZ4MT_MODE_SEQUENTIAL)) eqn:Hmode.
    + exists (S (List.length input)),
        (eager_schedule 0 (List.length input)), c2.
      rewrite Heq. rewrite ?Hmode. rewrite Hseq.
      cbn [run_of_option run_bind].
      rewrite (Htail c2 _ H2). reflexivity.
    + exists (S (List.length input)),
        (eager_schedule 0 (List.length input)), c2p.
      rewrite Heq. rewrite ?Hmode. rewrite Hpar. cbn [run_bind].
      rewrite (Htail c2p _ H2p). reflexivity.
  - intros fuel sched r c' Hrun. rewrite Heq in Hrun.
    assert (Hc2 : exists c3 xxh3,
               mem_latched r0 c3 [] (compress_header E D) /\
               Done (compress_tail E (negb (0 =? streamChecksum (flg D)))
                                   c3 xxh3) = Done (r, c')).
    { destruct (negb (0 =? Z.land mode LZ4MT_MODE_SEQUENTIAL)).
      - destruct (compress_blocks_sequential E fuel _ _ _ c1 _)
          as [[c3 xxh3]|] eqn:Hb; [|discriminate Hrun].
        cbn [run_of_option run_bind] in Hrun.
        exists c3, xxh3. split; [|exact Hrun].
        destruct (latched_sequential E
                    (getBlockSize (blockMaximumSize (bd D)))
                    (if negb (0 =? blockChecksum (flg D)) then 4 else 0)
                    (negb (0 =? streamChecksum (flg D))) r0
                    (compress_header E D) (proj1 Hbm) Hr0
                    (S (Nat.max fuel (List.length input))) c1 input
                    (Xxh32.init LZ4S_CHECKSUM_SEED) H1 ltac:(lia))
          as (c4 & Hseq4 & H4).
        rewrite (compress_blocks_sequential_mono E _ _ _ fuel c1 _ _
                   (S (Nat.max fuel (List.length input))) Hb ltac:(lia))
          in Hseq4.
        assert (c3 = c4) by congruence. subst c4. exact H4.
      - destruct (compress_blocks_parallel E sched _ _ _ c1 _)
          as [[c3 xxh3]| | |] eqn:Hb; cbn [run_bind] in Hrun;
          try discriminate Hrun.
        exists c3, xxh3. split; [|exact Hrun].
        exact (latched_parallel E _ _ _ r0 (compress_header E D) (proj1 Hbm)
                 Hr0 sched c1 input _ c3 xxh3 H1 Hb). }
    destruct Hc2 as (c3 & xxh3 & H3 & Hdone).
    rewrite (Htail c3 xxh3 H3) in Hdone.
    assert (Hr : r = LZ4MT_RESULT_CANNOT_WRITE_EOS) by congruence.
    assert (Hc : c' = c3) by congruence.
    subst r c'. destruct H3 as (Hres & _ & Hrest & Hout). auto.
Qed.

Lemma compress_on_latched_error_witness :
  exists fuel sched c',
    lz4mtCompress (Standin.externals true false) fuel sched
      (with_result LZ4MT_RESULT_ERROR
         (Mem.context (Mem.open [x41; x42; x43] false None)
                      Standin.compress Standin.decompress
                      LZ4MT_MODE_PARALLEL))
      lz4mtInitStreamDescriptor
    = Done (LZ4MT_RESULT_CANNOT_WRITE_EOS, c') /\
    result c' = LZ4MT_RESULT_ERROR /\
    Mem.written (world c')
    = compress_header (Standin.externals true false)
                      lz4mtInitStreamDescriptor.
Proof.
  destruct (compress_on_latched_error
              (Standin.externals true false)
              Standin.compress Standin.decompress
              lz4mtInitStreamDescriptor [x41; x42; x43] false
              LZ4MT_MODE_PARALLEL LZ4MT_RESULT_ERROR)
    as [(fuel & sched & c' & Hrun) H].
  - discriminate.
  - reflexivity.
  - intros Hs. contradiction Hs. reflexivity.
  - destruct (H fuel sched _ c' Hrun) as (_ & Hres & Hout & _).
    exists fuel, sched, c'. auto.
Defined.

(** ** Bytes that follow a frame *)


Lemma seek_preserved {W : Type} :
  preserved (fun c c' : Lz4MtContext W => readSeek c' = readSeek c)
            (fun _ => True).
Proof.
  constructor; try reflexivity; auto.
  intros a b c Hab Hbc. congruence.
Qed.

Section DecoderGarbage.
Variable E : Externals.
Variables cmp dec : list byte -> Z -> Z -> Z * list byte.
Variable style : bool.

(** One iteration of the frame loop on four bytes that are no magic
    number: the input is set back to where they start. *)
Lemma decompress_frame_garbage
      (blocks : Z -> Z -> bool -> Lz4MtContext Mem.Stream -> bool ->
                Xxh32.t ->
                Run (Lz4MtContext Mem.Stream * bool * Xxh32.t))
      c (m rest out : list byte) (sd : Lz4MtStreamDescriptor) :
  mem_ok cmp dec style c (m ++ rest) out false ->
  readSeek c = Mem.readSeek ->
  lengthZ m = 4 ->
  isSkippableMagicNumber (loadU32 m) = false ->
  loadU32 m <> LZ4S_MAGICNUMBER ->
  exists c',
    decompress_frame E blocks c false sd = Done (Break, c', false, sd) /\
    result c' = LZ4MT_RESULT_INVALID_MAGIC_NUMBER /\
    Mem.written (world c') = out /\
    Mem.remaining (world c') = m ++ rest.
Proof.
  intros H Hseek Hlen Hskip Hmagic.
  pose proof (mem_ok_error _ _ _ _ _ _ _ H) as He.
  destruct H as (Hres & Hr & Hre & Hw & Hc & Hs & Hrest & Hout & Hroom
                 & Hflag).
  unfold decompress_frame, Context.readU32, invoke_read.
  rewrite He, Hr. unfold Mem.read. rewrite Hrest.
  rewrite (takeZ_app_eq 4 m rest) by (symmetry; exact Hlen).
  rewrite Hlen. cbn [Z.eqb Pos.eqb negb].
  rewrite error_called, He, Hskip.
  destruct (Z.eqb_spec LZ4S_MAGICNUMBER (loadU32 m)) as [Heq | _];
    [congruence|].
  cbn [negb]. unfold Context.readSeek, invoke_readSeek. ctx_cbn.
  rewrite Hseek. unfold Mem.readSeek.
  cbn [Mem.pos Mem.content Mem.written Mem.eofAtEnd Mem.room].
  assert (Hm : List.length m = 4%nat) by (unfold lengthZ in Hlen; lia).
  rewrite Hm.
  assert (Hpos : (Mem.pos (world c) + 4 <= List.length (Mem.content (world c)))%nat).
  { unfold Mem.remaining in Hrest.
    pose proof (f_equal (@List.length byte) Hrest) as Hl.
    rewrite length_skipn, length_app, Hm in Hl. lia. }
  replace (Z.of_nat (Mem.pos (world c) + 4) + -4)
    with (Z.of_nat (Mem.pos (world c))) by lia.
  destruct (Z.ltb_spec (Z.of_nat (Mem.pos (world c))) 0) as [Hneg | _];
    [lia|].
  destruct (Z.ltb_spec (lengthZ (Mem.content (world c)))
                       (Z.of_nat (Mem.pos (world c)))) as [Hbig | _];
    [unfold lengthZ in Hbig; lia|].
  cbn [orb snd].
  rewrite setResult_unspecific
    by (ctx_cbn; rewrite Hres; reflexivity).
  cbn [snd]. eexists. split; [reflexivity|]. ctx_cbn.
  unfold Mem.remaining. cbn [Mem.pos Mem.content Mem.written].
  rewrite Nat2Z.id. auto.
Qed.

(** X21. Let [D] be a descriptor that [validateStreamDescriptor]
    accepts, with flag and bd fields within their bit widths, and let
    the block codec be an inverse pair. On the frame of [input] under
    [D] followed by four bytes that are neither the magic number of a
    frame nor a skippable one, read from a memory stream with an
    unbounded output, whenever [lz4mtDecompress] returns, in either mode
    and under any schedules, it has written [input], returns
    [LZ4MT_RESULT_INVALID_MAGIC_NUMBER] and leaves the input at the
    first byte after the frame. The decoder returns for some step budget
    and schedules in sequential mode, and in parallel mode when [input]
    is at most one block. *)
Theorem decompress_frame_then_garbage
        (D sd0 : Lz4MtStreamDescriptor) (input m rest : list byte)
        (mode : Z) :
  validateStreamDescriptor D = LZ4MT_RESULT_OK ->
  flg_in_width (flg D) -> bd_in_width (bd D) ->
  codec_inverse cmp dec (getBlockSize (blockMaximumSize (bd D))) ->
  lengthZ m = 4 ->
  isSkippableMagicNumber (loadU32 m) = false ->
  loadU32 m <> LZ4S_MAGICNUMBER ->
  (race_free mode (getBlockSize (blockMaximumSize (bd D))) input ->
   exists fuel scheds r cD sd',
     decode_run E cmp dec sd0 (frame_of E D cmp input ++ m ++ rest)
                style mode fuel scheds = Done (r, cD, sd')) /\
  forall fuel scheds r cD sd',
    decode_run E cmp dec sd0 (frame_of E D cmp input ++ m ++ rest)
               style mode fuel scheds = Done (r, cD, sd') ->
    r = LZ4MT_RESULT_INVALID_MAGIC_NUMBER /\
    Mem.written (world cD) = input /\
    Mem.remaining (world cD) = m ++ rest.
Proof.
  intros Hvalid Hflg Hbd Hcodec Hlen Hskip Hmagic.
  assert (Hitem : item_ok cmp dec (FrameItem D input))
    by exact (conj Hvalid (conj Hflg (conj Hbd Hcodec))).
  pose proof (mem_ok_decoder_entry cmp dec style mode
                (frame_of E D cmp input ++ m ++ rest)) as H.
  assert (Hmore : frame_of E D cmp input ++ m ++ rest <> []).
  { unfold frame_of. rewrite compress_header_check, <- !app_assoc.
    apply storeU32_more. }
  assert (Hm : m ++ rest <> []).
  { destruct m; [discriminate Hlen | discriminate]. }
  destruct (mem_readEof_more cmp dec style _ _ [] H Hmore)
    as (c0 & He & H0).
  pose proof (mem_readEof_mode _ _ _ He) as Hm0.
  assert (Hseek0 : readSeek c0 = Mem.readSeek).
  { pose proof (R_invoke_readEof _ _ seek_preserved
                  (snd (Context.setResult LZ4MT_RESULT_OK
                          (Mem.context
                             (Mem.open (frame_of E D cmp input ++ m ++ rest)
                                       style None) cmp dec mode)))) as Hk.
    unfold Context.readEof in He. rewrite He in Hk. exact Hk. }
  assert (Hfirst : forall fuel scheds,
             decompress_frames E (S fuel) scheds
               (snd (Context.setResult LZ4MT_RESULT_OK
                       (Mem.context
                          (Mem.open (frame_of E D cmp input ++ m ++ rest)
                                    style None) cmp dec mode)))
               false sd0
             = run_bind
                 (decompress_frame E
                    (decompress_blocks E fuel (hd [] scheds)) c0 false sd0)
                 (fun '(flow, c1, quit1, sd1) =>
                    match flow with
                    | Break => Done (c1, sd1)
                    | Continue =>
                        decompress_frames E fuel (tl scheds) c1 quit1 sd1
                    end)).
  { intros fuel scheds. rewrite decompress_frames_eq.
    rewrite (mem_ok_error _ _ _ _ _ _ _ H). cbn [orb].
    rewrite He, Z.eqb_refl. reflexivity. }
  assert (Hsecond : forall fuel scheds c5 sd5,
             mem_ok cmp dec style c5 (m ++ rest) ([] ++ input) false ->
             readSeek c5 = Mem.readSeek ->
             exists c',
               decompress_frames E (S fuel) scheds c5 false sd5
               = Done (c', sd5) /\
               result c' = LZ4MT_RESULT_INVALID_MAGIC_NUMBER /\
               Mem.written (world c') = input /\
               Mem.remaining (world c') = m ++ rest).
  { intros fuel scheds c5 sd5 H5 Hseek5. rewrite decompress_frames_eq.
    rewrite (mem_ok_error _ _ _ _ _ _ _ H5). cbn [orb].
    destruct (mem_readEof_more cmp dec style _ _ _ H5 Hm)
      as (c6 & He6 & H6).
    rewrite He6, Z.eqb_refl. cbn [negb].
    assert (Hseek6 : readSeek c6 = Mem.readSeek).
    { pose proof (R_invoke_readEof _ _ seek_preserved c5) as Hk.
      unfold Context.readEof in He6. rewrite He6 in Hk.
      cbn [snd] in Hk. congruence. }
    destruct (decompress_frame_garbage
                (decompress_blocks E fuel (hd [] scheds)) c6 m rest _ sd5
                H6 Hseek6 Hlen Hskip Hmagic)
      as (c' & Hf & Hres & Hout & Hrem).
    rewrite Hf. cbn [run_bind]. exists c'. auto. }
  assert (Hkeep : forall fuel sched c5 sd5,
             decompress_frame E (decompress_blocks E fuel sched) c0 false sd0
             = Done (Continue, c5, false, sd5) ->
             readSeek c5 = Mem.readSeek).
  { intros fuel sched c5 sd5 Hf.
    pose proof (R_decompress_frame _ _ seek_preserved (fun _ => I) E
                  (decompress_blocks E fuel sched) c0 false sd0
                  Continue c5 false sd5
                  (fun bm nbc sc c1 q1 x1 c2 q2 x2 Hb =>
                     R_decompress_blocks _ _ seek_preserved E fuel sched
                       bm nbc sc c1 q1 x1 c2 q2 x2 Hb)
                  Hf) as Hk.
    cbn beta in Hk. congruence. }
  unfold decode_run, lz4mtDecompress. split.
  - intros Hfree.
    exists (S (S (S (List.length input)))), [eager_schedule 0 1].
    rewrite (Hfirst (S (S (List.length input))) [eager_schedule 0 1]).
    cbn [hd tl].
    destruct (decompress_frame_item_frame E cmp dec style
                (S (S (List.length input)))
                (eager_schedule 0 1) c0 [] input _ D sd0
                Hitem H0) as [[_ Hnone] | (c5 & Hf & H5 & _)].
    + exfalso. apply Hnone.
      split; [lia|]. split; [reflexivity|].
      cbn [item_race_free]. rewrite Hm0. exact Hfree.
    + rewrite Hf. cbn [run_bind].
      destruct (Hsecond (S (List.length input)) [] c5 (parsed_descriptor D sd0)
                  H5 (Hkeep _ _ _ _ Hf)) as (c' & Hrun & _).
      rewrite Hrun. cbn [run_bind]. eauto.
  - intros fuel scheds r cD sd'.
    destruct fuel as [|fuel]; [discriminate|].
    rewrite Hfirst.
    destruct (decompress_frame_item_frame E cmp dec style fuel
                (hd [] scheds) c0 [] input _ D sd0 Hitem H0)
      as [[Hnone _] | (c5 & Hf & H5 & _)].
    + destruct (decompress_frame E _ c0 false sd0) as [r1| | |];
        [contradiction (Hnone r1 eq_refl) | discriminate ..].
    + rewrite Hf. cbn [run_bind].
      destruct fuel as [|fuel]; [discriminate|].
      destruct (Hsecond fuel (tl scheds) c5 (parsed_descriptor D sd0)
                  H5 (Hkeep _ _ _ _ Hf)) as (c' & Hrun & Hres & Hout & Hrem).
      rewrite Hrun. cbn [run_bind]. intros Hdone.
      assert (Hr : r = result c') by congruence.
      assert (Hc : cD = c') by congruence.
      subst r cD. auto.
Qed.
End DecoderGarbage.

Lemma decompress_frame_then_garbage_witness :
  exists fuel scheds cD sd',
    decode_run (Standin.externals true false)
               Standin.compress Standin.decompress lz4mtInitStreamDescriptor
               (frame_of (Standin.externals true false)
                         lz4mtInitStreamDescriptor Standin.compress
                         [x41; x41; x41; x41; x42]
                ++ [x50; x4b; x03; x04] ++ [x14])
               false LZ4MT_MODE_PARALLEL fuel scheds
    = Done (LZ4MT_RESULT_INVALID_MAGIC_NUMBER, cD, sd') /\
    Mem.written (world cD) = [x41; x41; x41; x41; x42] /\
    Mem.remaining (world cD) = [x50; x4b; x03; x04; x14].
Proof.
  destruct (decompress_frame_then_garbage
              (Standin.externals true false)
              Standin.compress Standin.decompress false
              lz4mtInitStreamDescriptor lz4mtInitStreamDescriptor
              [x41; x41; x41; x41; x42] [x50; x4b; x03; x04] [x14]
              LZ4MT_MODE_PARALLEL)
    as [Hex H].
  - reflexivity.
  - unfold flg_in_width, bit_width; simpl. lia.
  - unfold bd_in_width, bit_width; simpl.
    unfold LZ4S_BLOCKSIZEID_DEFAULT. lia.
  - apply standin_codec_inverse. vm_compute. discriminate.
  - reflexivity.
  - vm_compute. reflexivity.
  - vm_compute. discriminate.
  - destruct Hex as (fuel & scheds & r & cD & sd' & Hrun).
    { right. vm_compute. discriminate. }
    destruct (H fuel scheds r cD sd' Hrun) as (Hr & Hout & Hrem).
    exists fuel, scheds, cD, sd'. split; [|split; [exact Hout | exact Hrem]].
    rewrite Hrun, Hr. reflexivity.
Defined.

(** * The block on the wire *)








(** * The race of parallel mode *)

Section EncoderRaces.
Variable E : Externals.
Variables cmp dec : list byte -> Z -> Z -> Z * list byte.
Variable style : bool.
Variables bm nbc : Z.
Variable sc : bool.
Hypothesis Hbm : 0 < bm < 2 ^ 31.

End EncoderRaces.



Section DecoderRaces.
Variable E : Externals.
Variables cmp dec : list byte -> Z -> Z -> Z * list byte.
Variable style : bool.
Variables bm nbc : Z.
Variable sc : bool.
Hypothesis Hbm : 0 < bm < 2 ^ 31.
Hypothesis Hcodec : codec_inverse cmp dec bm.

End DecoderRaces.


